(* ===== verification/_CoqProject ===== *)
-Q . S2P
Prelude.v
CxxString.v
Status.v
CommandParser.v
Base64.v
Bitops.v
Gf2.v
Rabin.v
Regex.v
IPAddress.v
FifoCache.v
RoutingTable.v
Message.v
PeerSession.v
Server.v
Network.v
ManagementApi.v
Config.v
Hello.v
ServerInit.v
JsonModel.v
Responses.v
Curl.v
Management.v
MachineId.v
FileModel.v
ThreadPool.v
CasQueue.v
CertUtils.v
Interface.v
Daemon.v
System.v
Signing.v
Console.v
Locks.v
Threads.v
Handlers.v
Rely.v
Runtime.v
Races.v
Cluster.v
Sequential.v
Tests.v
