(* ===== verification/Prelude.v ===== *)
(** * P2PFileSync: a verification development of the daemon

    The daemon under [src/daemon] keeps files of a group of devices in step: every device runs
    a packet server that talks to its peers, a management client that registers the device
    with a central server over HTTPS, and a console on a Unix socket.  This library is a
    shallow embedding of its C++ code, with the theorems about it.  Coverage is about sixty
    percent of the lines of the .cc, .h and .tcc files; the rest are comments,
    declarations whose definitions are modelled, and macros.

    ** How C++ is modelled

    - A call is a value of [res]: [Ok] of the result, or [Raise] of a fault.  Faults are the
      exceptions, undefined behaviour by kind ([UB NullDeref], [UB OutOfBounds], ...),
      [LOG(FATAL)] and failed assertions of libraries.
    - State is passed explicitly: a class is a [Record], a method takes the object and returns
      the new one with its answer.  Machine integers are [Z] with [wrapu]/[wraps] written
      where the code converts ([u8], [u16], [u32], [u64]); the fingerprint code uses [N].
    - [std::string] is [list ascii] ([str], literals [$"..."]); [npos] is [None].
      [std::unordered_map] is a [gmap] when its order does not matter; where the code walks
      one, the order is a parameter.  Files are a [gmap] from paths to contents.
    - Libraries the code calls are type classes of operations with a second class of the laws
      their documentation gives: [Protobuf], [OpenSSL], [RapidJSON], [YAML].  libcurl,
      libevent, inet_ntop, SHA-256, the clock and the sockets are arguments.  Every law class
      has an instance (the [Toy...] definitions), with which the witnesses run.

    ** Files, from the bottom up

    - [Prelude]: machine integers, [res], byte strings, association lists, tactics and hint
      databases.  [CxxString]: the [std::string] and number operations, [show_dec].
    - [Status] ([utils/status.h]), [CommandParser] ([interface/utils/command_parser.cc]),
      [Base64] ([management_api/utils/base64_utils.cc]), [Bitops] ([utils/bitpos.h]), [Rabin]
      ([utils/rabin_checksum.cc]) on [Gf2] (polynomials over the two-element field, a setoid
      of congruence modulo a polynomial).
    - [IPAddress] ([utils/ip_address.h]) on [Regex] (derivative matching of its patterns).
    - [FifoCache], [RoutingTable], [ThreadPool], [CasQueue]: the headers of
      [utils/data_struct].  [RoutingTable] also holds the instance pool.
    - The packet server: [Message] ([packet/protocol.proto], [packet/packet_tasks.cc]),
      [PeerSession] ([peer_session.cc]), [Server] (reading and redirecting in
      [p2p_server_context.cc]), [Hello] ([send_pkg], [packet/handler/hello_message.tcc],
      [packet/packet_handler.cc]), [ServerInit] ([utils/singleton_helper.h], [init], [start]),
      [Signing] (concurrent calls of [send_pkg], and their signatures at the receiver),
      [Network], the composition of servers along paths and in topologies, and [System], any
      number of servers and the wire between them as a step relation.
    - One server with its threads: [Locks] (the mutexes, and what each critical section holds
      and touches), [Threads] (programs cut into critical sections that carry such a
      footprint, and a rely-guarantee logic for them), [Handlers] (the functions of the packet
      server as such programs), [Rely] (what each of them promises the others), [Runtime]
      (libevent's thread, the workers of [ThreadPool] and the main thread as one step
      relation), [Races] (which sections can race) and [Sequential] (what one worker and what
      two workers make of the same messages).  [Cluster] has any number of such servers.
    - The management client: [ManagementApi] (the abstract classes as type classes), [Config]
      ([configuration.h], [utils/config_reader.cc]), [JsonModel] ([model/json_model.h]),
      [Responses] ([model/request], [model/response], [model/data]), [Curl]
      ([utils/curl_utils.cc]), [Management] (the contexts, which are instances of the classes
      of [ManagementApi]), [MachineId] ([machine_id_utils.cc], [ip_address_utils.cc],
      [uuid_utils.cc]).
    - [FileModel] ([file/models]): blocks, directory entries, files.
    - [Interface] ([interface/]): sessions, commands, factory, the connection loop with its
      start and end; [Console], whole connections on the contexts of [Management].  [Daemon]
      ([manage_interface.cc], [main.cc]) composes configuration, management client, machine
      id and packet server into the program.  [CertUtils] ([utils/cert],
      [file_database.cc]).
    - [Tests]: the unit tests of the repository, evaluated on the model.

    ** How the parts interact

    A connection's bytes reach [Server.read_callback], which parses a packet, drops a duplicate
    by [FifoCache.is_cached], and queues a task: [Message.send_packet_tcp] to a hop of the
    [RoutingTable], or [Hello.handle], which checks certificates and signatures by
    [PeerSession] and learns routes.  [ServerInit.init] uses the device context through the
    class [IDeviceContext], of which [Management] gives the instance; [Interface] uses the
    user and device contexts through the same classes, [CommandParser] for its input and the
    routing table for its listing.  [Management] sends requests by [Curl], decodes
    certificates by [Base64], and keeps its state in the files that [Responses] reads.

    ** What the theorems show

    - Network and server: running servers can carry a message along any path of relays shorter
      than its ttl to the receiver's handler, section by section ([cluster_delivers], which
      rests on [delivery_along_path] for servers in one go); redirection ends after a bounded
      number of packets in any topology ([flood_bounded]); what is sent is what is read
      ([delivery_roundtrip]); where packets are redirected and that the ttl never wraps
      ([redirect_spec]); a connection serves one packet ([later_packets_ignored]); in lemmas,
      that [send_pkg] names no receiver ([sent_packages_never_handled]) and when a hello is
      answered ([hello_reply_only_when_known]).
    - The running system ([System]), whatever bytes arrive and however the steps interleave:
      servers stay well-formed, keep their identity and never fault while reading
      ([system_well_typed]).  When only its own devices send, no deployment of servers with
      all their threads ever learns a route or makes a session
      ([devices_never_find_each_other]), because [send_pkg] names no receiver;
      [no_route_is_ever_learned] is the same with servers in one go.
    - A server under real concurrency, section by section: every session has the key of a
      certificate the store accepts and keeps it, every route leads to a peer with a session,
      no route is lost or gets longer, libevent's thread never faults
      ([concurrent_server_safe]; [system_peers_verified] is its counterpart for many servers
      with handlers in one go).  With one worker the threads are a sequential server that
      handles its messages in order ([one_worker_sequential]); with two a shorter route can be
      lost ([two_workers_lose_shorter_route]).  The cut into sections is faithful to the
      functions in one go ([threads_alone]).  Where data races are, by the locks each section
      holds: every pair of sections that may run at once and touch a member without a lock
      between them is in a short list ([races_located]), each pair of which is reached
      ([races_happen]); the footprints are proved of the sections they label ([honest]).
    - Trust in one server: what later signatures are checked against
      ([verify_all_concatenates]); what concurrent calls sign ([concurrent_signing]); that
      sender and receiver do not mean the same bytes ([own_signature_rejected]); in a lemma,
      that one server is started ([init_once]).
    - The program: what the first two starts of a new device do, from an empty disk to a
      running server, and that it never ends cleanly
      ([first_run_crashes_second_starts]).
    - The console: a connection answers typed lines as a specification says
      ([console_session_refines]), a login is only a login when the management server
      confirmed it ([console_login]), what a whole connection can do, whatever is typed
      ([console_connection]), and how connections end
      ([connection_never_ends_cleanly]).
    - Concurrency: an update of a route in two critical sections is linearizable and keeps
      minima ([interleaving_linearizable], [interleaving_keeps_min]); the thread pool is
      first-in first-out with one worker ([single_worker_fifo]), which drains the queue while
      it is awake ([awake_worker_drains]), loses a task with two ([two_workers_lose_a_task]),
      or a notification ([wakeup_can_be_lost]); the lock-free
      queue cannot be used in any interleaving of atomic accesses ([cas_queue_unusable]).
    - Refinements of simple specifications: the duplicate filter ([is_cached_all_refines]), the
      command parser ([parse_command_refines], with the exact inputs on which it does not
      return, [parse_command_spins_iff]), Base64 against RFC 4648, the fingerprint against
      polynomial remainders ([checksum_spec], by the lemma [polymod_spec]) and its rolling update
      ([rolling_checksum_window]).
    - Round trips: configuration file, device configuration, printed command lines; in lemmas,
      addresses and JSON fields.
    - Management client: the certificate download and the response buffer; in lemmas, the
      login, the registration, the registered address list and the device id.
    - The repository's tests: the model passes those of addresses and of Base64, and those of
      the parser that are typed without quotes; the two with quotes hang.
    - Files: the contents after [add_and_replace_block] and the drift of the stored size
      ([file_size_accounting]).

    Theorems that show behaviour the code hardly means to have say so; each is stated for
    exactly the inputs concerned, beside those where the code does what it means.

    ** Fuel

    Loops that need not end take fuel and return [None] when it is spent.  [parse_command]
    needs more than the length of its input when it returns at all ([parse_command_refines]);
    [retry] of the lock-free queue one round per node and one more; [set_next_block] two
    rounds; [wait_enabled] one round per test of the device's activation, which has no bound in
    the code.  [certificate_rounds] counts the three rounds of the code itself; [main_loop] and
    [run] count the times the running flag is read true, and [read_line] returns [None] while
    it waits for the peer.

    ** Not modelled

    The empty [file/utils], logging and export macros, include glue and the build files.
    [InstancePool::new_instance] and [StorageContext::create] do not type-check and are never
    instantiated.  Several member functions are declared and never defined
    ([INode::update_atime] and its like, [INode::set_file_block], [setGroupName],
    [package_pkg], [StorageContext::init], [generate_sha256_hash]).  [Races] says where
    data races are, but a section is still one step: what the memory model allows after a
    race is outside, and so are the accesses inside a call of OpenSSL and an insertion that
    comes in the middle of a walk of the routing table, which [read_callback] makes without
    the lock in one section.  A thread that faults stops; that this ends the process is not
    used.  Leaks of memory are outside as well. *)

From stdpp Require Export base tactics decidable option list strings gmap fin_maps.
From Stdlib Require Export Ascii ZArith NArith Lia.

(** ** Machine integers *)

(** An unsigned integer of [w] bits, and the signed reading of its bits. *)
Definition wrapu (w : Z) (x : Z) : Z := (x mod 2 ^ w)%Z.

Definition wraps (w : Z) (x : Z) : Z :=
  let y := wrapu w x in if bool_decide (y < 2 ^ (w - 1))%Z then y else (y - 2 ^ w)%Z.

Arguments wrapu : simpl never.
Arguments wraps : simpl never.

Declare Scope cxx_scope.
Delimit Scope cxx_scope with cxx.
Notation "'u8' x" := (wrapu 8 x) (at level 9) : cxx_scope.
Notation "'u16' x" := (wrapu 16 x) (at level 9) : cxx_scope.
Notation "'u32' x" := (wrapu 32 x) (at level 9) : cxx_scope.
Notation "'u64' x" := (wrapu 64 x) (at level 9) : cxx_scope.
Notation "'i32' x" := (wraps 32 x) (at level 9) : cxx_scope.
Open Scope cxx_scope.

Lemma wrapu_range w x : (0 <= w)%Z → (0 <= wrapu w x < 2 ^ w)%Z.
Proof. intros. apply Z.mod_pos_bound, Z.pow_pos_nonneg; lia. Qed.

Lemma wrapu_small w x : (0 <= x < 2 ^ w)%Z → wrapu w x = x.
Proof. apply Z.mod_small. Qed.

Lemma wrapu_idemp w x : (0 <= w)%Z → wrapu w (wrapu w x) = wrapu w x.
Proof. intros. apply wrapu_small, wrapu_range; done. Qed.

Lemma wrapu_sub_l w x y : wrapu w (wrapu w x - y) = wrapu w (x - y).
Proof. unfold wrapu. apply Zminus_mod_idemp_l. Qed.

Lemma wrapu_add_l w x y : wrapu w (wrapu w x + y) = wrapu w (x + y).
Proof. unfold wrapu. apply Zplus_mod_idemp_l. Qed.

(** A closed decidable proposition, by evaluation. *)
Ltac by_decide :=
  match goal with |- ?P => apply (bool_decide_unpack P); vm_compute; exact I end.

(** ** Small exhaustive proofs *)

Section exhaustive.
Local Open Scope Z_scope.

(** A boolean test on all pairs below a bound, evaluated once. *)
Definition all_pairs (n m : Z) (f : Z → Z → bool) : bool :=
  forallb (λ a, forallb (f a) (seqZ 0 m)) (seqZ 0 n).

Lemma all_pairs_spec n m f a b :
  all_pairs n m f = true → 0 <= a < n → 0 <= b < m → f a b = true.
Proof.
  unfold all_pairs. intros H Ha Hb.
  assert (a ∈ seqZ 0 n) as Ha' by (apply elem_of_seqZ; lia).
  assert (b ∈ seqZ 0 m) as Hb' by (apply elem_of_seqZ; lia).
  apply list_elem_of_In in Ha', Hb'.
  pose proof (proj1 (forallb_forall _ _) H _ Ha') as H'.
  apply (proj1 (forallb_forall _ _) H' _ Hb').
Qed.

Lemma all_below_spec n f a : forallb f (seqZ 0 n) = true → 0 <= a < n → f a = true.
Proof.
  intros H Ha. apply (proj1 (forallb_forall _ _) H). apply list_elem_of_In, elem_of_seqZ. lia.
Qed.

End exhaustive.

(** [below n f a]: prove an equation about [a] below [n] (and [b] below [m]) by evaluating all of
    its instances. *)
Ltac below n f a := refine (bool_decide_eq_true_1 _ (all_below_spec n f a _ _)); [vm_compute; reflexivity|lia].
Ltac pairwise n m f a b :=
  refine (bool_decide_eq_true_1 _ (all_pairs_spec n m f a b _ _ _)); [vm_compute; reflexivity|lia|lia].

(** [lia] with division and remainder by constants. *)
Ltac div_lia := Z.div_mod_to_equations; lia.

(** Arithmetic about the lengths of lists that are built with [++] and [::]. *)
Ltac length_lia :=
  do 6 (rewrite ?length_app, ?length_replicate, ?length_reverse in *; simpl in * ); lia.

(** ** How a C++ call ends *)

(** A call returns a value or ends in a fault.  The first constructors are the
    exceptions the code can throw, [UB] is undefined behaviour with its kind,
    [Fatal] is [LOG(FATAL)], [AssertFailed] a failed assertion of a library and [Terminate]
    a call of [std::terminate], which abort the process. *)
Inductive ub_kind := NullDeref | OutOfBounds | UseAfterFree | EmptyContainer | EndIterator | MissingReturn | Uninitialized.

Inductive fault :=
  | OutOfRange
  | LengthError
  | InvalidArgument
  | BadOptionalAccess
  | BadWeakPtr
  | BadAnyCast
  | RuntimeError
  | StdException
  | AssertFailed
  | Terminate
  | UB (k : ub_kind)
  | Fatal.

#[global] Instance ub_kind_eq_dec : EqDecision ub_kind.
Proof. solve_decision. Defined.
#[global] Instance fault_eq_dec : EqDecision fault.
Proof. solve_decision. Defined.

Inductive res (A : Type) :=
  | Ok (a : A)
  | Raise (f : fault).
Arguments Ok {_} _.
Arguments Raise {_} _.

#[global] Instance res_eq_dec `{EqDecision A} : EqDecision (res A).
Proof. solve_decision. Defined.

#[global] Instance res_ret : MRet res := λ A a, Ok a.
#[global] Instance res_bind : MBind res := λ A B f m,
  match m with Ok a => f a | Raise e => Raise e end.
#[global] Instance res_fmap : FMap res := λ A B f m,
  match m with Ok a => Ok (f a) | Raise e => Raise e end.

(** Reading through a pointer or a bounds-checked accessor: [None] is the fault. *)
Definition deref {A} (f : fault) (o : option A) : res A :=
  match o with Some a => Ok a | None => Raise f end.

Lemma res_bind_ok {A B} (m : res A) (f : A → res B) b :
  m ≫= f = Ok b ↔ ∃ a, m = Ok a ∧ f a = Ok b.
Proof. destruct m; simpl; naive_solver. Qed.

(** [bind H as x E]: the first step of a computation [H] that ended well gave [x], by [E]. *)
Tactic Notation "bind" hyp(H) "as" simple_intropattern(x) simple_intropattern(E) :=
  let H' := fresh in apply res_bind_ok in H as (x & E & H'); rename H' into H.

Definition is_ok {A} (m : res A) : bool := match m with Ok _ => true | Raise _ => false end.

Lemma is_ok_inv {A} (m : res A) : is_ok m = true → ∃ a, m = Ok a.
Proof. destruct m; [eauto|done]. Qed.

Lemma deref_ok {A} f (o : option A) a : deref f o = Ok a ↔ o = Some a.
Proof. destruct o; naive_solver. Qed.

(** Hints about byte strings, and rewrite rules of their operations. *)
Create HintDb cxx_string.
Create Rewrite HintDb cxx_string.

(** ** Byte strings *)

(** A [std::string] is a list of 8-bit characters; literals are written
    [$"text"]. *)
Abbreviation str := (list ascii).

Definition to_str (s : string) : str := String.list_ascii_of_string s.
Arguments to_str : simpl never.
Notation "'$' s" := (to_str s%string) (at level 9, s at level 0) : cxx_scope.

(** The numeric value of a character as [unsigned char]. *)
Definition byte_of (c : ascii) : Z := Z.of_N (N_of_ascii c).
Definition char_of (z : Z) : ascii := ascii_of_N (Z.to_N (wrapu 8 z)).

(** [char] is signed on the platforms the project builds for. *)
Definition schar_of (c : ascii) : Z := wraps 8 (byte_of c).

Lemma byte_of_range c : (0 <= byte_of c < 256)%Z.
Proof. unfold byte_of. pose proof (N_ascii_bounded c) as Hb. lia. Qed.

Lemma char_of_byte_of c : char_of (byte_of c) = c.
Proof.
  unfold char_of. rewrite wrapu_small by apply byte_of_range.
  unfold byte_of. by rewrite N2Z.id, ascii_N_embedding.
Qed.

Lemma byte_of_char_of z : byte_of (char_of z) = wrapu 8 z.
Proof.
  unfold byte_of, char_of. pose proof (wrapu_range 8 z ltac:(lia)).
  rewrite N_ascii_embedding by (change (2 ^ 8)%Z with 256%Z in *; lia). lia.
Qed.

(** ** Association lists *)

(** The first entry of a key, as in a JSON object or a YAML mapping. *)
Fixpoint assoc {V} (k : str) (kvs : list (str * V)) : option V :=
  match kvs with
  | [] => None
  | (k', v) :: kvs' => if decide (k = k') then Some v else assoc k kvs'
  end.

Lemma assoc_snoc {V} k k' (v : V) kvs :
  assoc k (kvs ++ [(k', v)]) =
    match assoc k kvs with Some w => Some w | None => if decide (k = k') then Some v else None end.
Proof. induction kvs as [|[k1 v1] kvs IH]; simpl; [done|]. destruct (decide (k = k1)); [done|apply IH]. Qed.
