(* ===== verification/CxxString.v ===== *)
(** The operations of [std::string] the program calls, on byte strings, with the
    lemmas about searching and splitting that the parsers share.  A result of
    [npos] is [None]; [substr] and [erase] raise [std::out_of_range] as the
    library does; a string longer than [max_size] raises [std::length_error]. *)
From S2P Require Import Prelude.

(** libstdc++ on a 64-bit target. *)
Definition max_size : Z := (2 ^ 63 - 1)%Z.

(** [s.find(c, pos)] *)
Fixpoint find0 (c : ascii) (s : str) : option nat :=
  match s with
  | [] => None
  | x :: s' => if decide (x = c) then Some 0 else S <$> find0 c s'
  end.
Definition find (c : ascii) (pos : nat) (s : str) : option nat :=
  Nat.add pos <$> find0 c (drop pos s).

(** [s.find_first_not_of(c)], [s.find_last_not_of(c)] *)
Fixpoint find_first_not_of (c : ascii) (s : str) : option nat :=
  match s with
  | [] => None
  | x :: s' => if decide (x = c) then S <$> find_first_not_of c s' else Some 0
  end.
Definition find_last_not_of (c : ascii) (s : str) : option nat :=
  (λ i, length s - 1 - i) <$> find_first_not_of c (reverse s).

(** [s.substr(pos, count)] and [s.erase(pos, count)] with [count] possibly [npos] *)
Definition substr (s : str) (pos : nat) (count : option nat) : res str :=
  if decide (pos ≤ length s)
  then Ok (match count with Some n => take n (drop pos s) | None => drop pos s end)
  else Raise OutOfRange.

Definition erase (s : str) (pos : nat) (count : option nat) : res str :=
  if decide (pos ≤ length s)
  then Ok (take pos s ++ match count with Some n => drop (pos + n) s | None => [] end)
  else Raise OutOfRange.

(** [size_t] addition of one to a position that may be [npos]: it wraps to zero. *)
Definition npos_succ (o : option nat) : nat := match o with Some i => S i | None => 0 end.

(** [std::string(count, c)] *)
Definition str_fill (count : Z) (c : ascii) : res str :=
  if bool_decide (count <= max_size)%Z then Ok (replicate (Z.to_nat count) c)
  else Raise LengthError.

Definition SP : ascii := " "%char.
Definition NL : ascii := ascii_of_nat 10.
Definition DQ : ascii := ascii_of_nat 34.
Definition ESC : ascii := ascii_of_nat 27.

(** ** Searching *)

Lemma find0_None c s : find0 c s = None ↔ c ∉ s.
Proof.
  induction s as [|x s IH]; simpl; [set_solver|].
  case_decide; [set_solver|]. rewrite not_elem_of_cons.
  destruct (find0 c s); simpl; naive_solver.
Qed.

Lemma find0_app c s t : c ∉ s → find0 c (s ++ c :: t) = Some (length s).
Proof.
  induction s as [|x s IH]; intros Hn; simpl; [by rewrite decide_True|].
  apply not_elem_of_cons in Hn as [??]. rewrite decide_False by congruence.
  by rewrite IH.
Qed.

Lemma find0_Some c s i :
  find0 c s = Some i → ∃ l r, s = l ++ c :: r ∧ c ∉ l ∧ length l = i.
Proof.
  revert i. induction s as [|x s IH]; intros i; simpl; [done|].
  case_decide; [intros [= <-]; subst; exists [], s; set_solver|].
  destruct (find0 c s) as [j|] eqn:E; [|done]. intros [= <-].
  destruct (IH j eq_refl) as (l & r & -> & ? & <-).
  exists (x :: l), r. set_solver.
Qed.

Lemma find_0 c s : find c 0 s = find0 c s.
Proof. unfold find. rewrite drop_0. by destruct (find0 c s). Qed.

Lemma find_after c d s t : find c (S (length s)) (s ++ d :: t) = None ↔ c ∉ t.
Proof.
  unfold find. replace (S (length s)) with (length (s ++ [d])) by (rewrite length_app; simpl; lia).
  replace (s ++ d :: t) with ((s ++ [d]) ++ t) by (by rewrite <- app_assoc).
  rewrite drop_app_length, fmap_None. apply find0_None.
Qed.

(** ** Splitting at a character *)

(** The pieces of [s] between the occurrences of [c]: never empty, and empty pieces
    are kept. *)
Fixpoint split_at (c : ascii) (s : str) : list str :=
  match s with
  | [] => [[]]
  | x :: s' =>
      if decide (x = c) then [] :: split_at c s'
      else match split_at c s' with
           | [] => [[x]]
           | p :: ps => (x :: p) :: ps
           end
  end.

Fixpoint join_with (c : ascii) (ps : list str) : str :=
  match ps with
  | [] => []
  | [p] => p
  | p :: ps' => p ++ c :: join_with c ps'
  end.

Lemma join_with_cons c p ps : ps ≠ [] → join_with c (p :: ps) = p ++ c :: join_with c ps.
Proof. by destruct ps. Qed.

Lemma split_at_nonempty c s : split_at c s ≠ [].
Proof. destruct s; simpl; [done|]. case_decide; [done|]. by destruct (split_at c s). Qed.

Lemma split_at_no c s : c ∉ s → split_at c s = [s].
Proof.
  induction s as [|x s IH]; intros Hn; simpl; [done|].
  apply not_elem_of_cons in Hn as [??]. rewrite decide_False by congruence.
  by rewrite IH.
Qed.

Lemma split_at_app c p s : c ∉ p → split_at c (p ++ c :: s) = p :: split_at c s.
Proof.
  induction p as [|x p IH]; intros Hn; simpl; [by rewrite decide_True|].
  apply not_elem_of_cons in Hn as [??]. rewrite decide_False by congruence.
  by rewrite IH.
Qed.

Lemma join_split c s : join_with c (split_at c s) = s.
Proof.
  induction s as [|x s IH]; simpl; [done|]. case_decide; subst.
  - rewrite join_with_cons by apply split_at_nonempty. by rewrite IH.
  - destruct (split_at c s) as [|p ps] eqn:E; [by apply split_at_nonempty in E|].
    destruct ps; simpl in *; by rewrite IH.
Qed.

Lemma split_join c ps :
  ps ≠ [] → Forall (λ p, c ∉ p) ps → split_at c (join_with c ps) = ps.
Proof.
  intros Hne Hf. induction Hf as [|p ps Hp Hps IH]; [done|].
  destruct ps as [|q ps]; [by apply split_at_no|].
  rewrite join_with_cons, split_at_app by done. by rewrite IH.
Qed.

Lemma split_at_pieces c s : Forall (λ p, c ∉ p) (split_at c s).
Proof.
  induction s as [|x s IH]; simpl; [constructor; [set_solver|done]|].
  case_decide; [constructor; [set_solver|done]|].
  destruct (split_at c s) as [|p ps]; inversion IH; subst; constructor; set_solver.
Qed.

Lemma length_join_with c ps : length ps ≤ S (length (join_with c ps)).
Proof.
  induction ps as [|p ps IH]; simpl; [lia|]. destruct ps; simpl in *; [lia|].
  rewrite length_app; simpl in *. lia.
Qed.

Lemma length_split_at c s : length (split_at c s) ≤ S (length s).
Proof. rewrite <- (join_split c s) at 2. apply length_join_with. Qed.

#[export] Hint Rewrite join_split find_0 : cxx_string.
#[export] Hint Resolve split_at_nonempty split_at_pieces : cxx_string.

(** ** Trimming *)

Fixpoint trim_left (c : ascii) (s : str) : str :=
  match s with
  | [] => []
  | x :: s' => if decide (x = c) then trim_left c s' else s
  end.
Definition trim_right (c : ascii) (s : str) : str := reverse (trim_left c (reverse s)).

Lemma trim_left_drop c s :
  trim_left c s = match find_first_not_of c s with Some i => drop i s | None => [] end.
Proof.
  induction s as [|x s IH]; simpl; [done|]. case_decide; [|done].
  rewrite IH. by destruct (find_first_not_of c s).
Qed.

Lemma find_first_not_of_lt c s i : find_first_not_of c s = Some i → i < length s.
Proof.
  revert i. induction s as [|x s IH]; intros i; simpl; [done|]. case_decide.
  - destruct (find_first_not_of c s); simpl; [|done].
    intros [= <-]. specialize (IH _ eq_refl). lia.
  - intros [= <-]. lia.
Qed.

(** [s.erase(0, s.find_first_not_of(c))] *)
Lemma erase_front c s : erase s 0 (find_first_not_of c s) = Ok (trim_left c s).
Proof.
  unfold erase. rewrite decide_True by lia. rewrite trim_left_drop. by destruct (find_first_not_of c s).
Qed.

(** [s.erase(s.find_last_not_of(c) + 1)] *)
Lemma erase_back c s : erase s (npos_succ (find_last_not_of c s)) None = Ok (trim_right c s).
Proof.
  unfold erase, trim_right, find_last_not_of. rewrite trim_left_drop.
  destruct (find_first_not_of c (reverse s)) as [i|] eqn:E; simpl; [|done].
  apply find_first_not_of_lt in E. rewrite length_reverse in E.
  rewrite decide_True by lia. rewrite app_nil_r. f_equal.
  replace (S (length s - 1 - i)) with (length s - i) by lia.
  rewrite <- (reverse_involutive s) at 2.
  rewrite <- (length_reverse s). set (r := reverse s) in *.
  rewrite <- (take_drop i r) at 2. rewrite reverse_app, take_app_le.
  - by rewrite take_ge by (rewrite length_reverse, length_drop; lia).
  - rewrite length_reverse, length_drop. lia.
Qed.

Lemma trim_left_fill c n s : trim_left c (replicate n c ++ s) = trim_left c s.
Proof. induction n; simpl; [done|]. by rewrite decide_True. Qed.

Lemma trim_left_id c s : head s ≠ Some c → trim_left c s = s.
Proof. destruct s; simpl; [done|]. intros. by rewrite decide_False by congruence. Qed.

Lemma trim_right_fill c n s : trim_right c (s ++ replicate n c) = trim_right c s.
Proof. unfold trim_right. by rewrite reverse_app, reverse_replicate, trim_left_fill. Qed.

Lemma trim_right_id c s : last s ≠ Some c → trim_right c s = s.
Proof.
  intros. unfold trim_right. rewrite trim_left_id; [apply reverse_involutive|].
  by rewrite head_reverse.
Qed.

Lemma length_trim_left c s : length (trim_left c s) ≤ length s.
Proof. induction s as [|x s IH]; simpl; [done|]. case_decide; simpl; lia. Qed.

Lemma length_trim_right c s : length (trim_right c s) ≤ length s.
Proof.
  unfold trim_right. rewrite length_reverse, <- (length_reverse s). apply length_trim_left.
Qed.

(** ** Decimal numbers *)

Section decimal.
Local Open Scope Z_scope.

Definition isdigit (c : ascii) : bool := bool_decide (48 <= byte_of c <= 57).
Definition isspace (c : ascii) : bool := bool_decide (byte_of c = 32 ∨ 9 <= byte_of c <= 13).

Fixpoint drop_while (p : ascii → bool) (s : str) : str :=
  match s with
  | c :: s' => if p c then drop_while p s' else s
  | [] => []
  end.
Fixpoint take_while (p : ascii → bool) (s : str) : str :=
  match s with
  | c :: s' => if p c then c :: take_while p s' else []
  | [] => []
  end.

Definition digits_value (s : str) : Z := foldl (λ v c, v * 10 + (byte_of c - 48)) 0 s.

Definition INT_MIN : Z := - 2 ^ 31.
Definition INT_MAX : Z := 2 ^ 31 - 1.

(** [std::stoi(s)] *)
Definition stoi (s : str) : res Z :=
  let s := drop_while isspace s in
  let '(neg, s) :=
    match s with
    | c :: s' => if decide (c = "-"%char) then (true, s')
                 else if decide (c = "+"%char) then (false, s') else (false, s)
    | [] => (false, s)
    end in
  match take_while isdigit s with
  | [] => Raise InvalidArgument
  | ds =>
      let v := if (neg : bool) then - digits_value ds else digits_value ds in
      if bool_decide (INT_MIN <= v <= INT_MAX) then Ok v else Raise OutOfRange
  end.

(** The decimal digits [operator<<] writes for a non-negative integer. *)
Fixpoint show_fuel (fuel : nat) (n : Z) : str :=
  match fuel with
  | O => []
  | S fuel' => (if bool_decide (n < 10) then [] else show_fuel fuel' (n / 10)) ++ [char_of (48 + n mod 10)]
  end.
Definition show_dec (n : Z) : str := show_fuel (S (Z.to_nat (Z.log2 n))) n.

Lemma byte_of_digit n : byte_of (char_of (48 + n mod 10)) = 48 + n mod 10.
Proof. rewrite byte_of_char_of. apply wrapu_small. div_lia. Qed.

Lemma show_fuel_spec fuel n :
  0 <= n < 2 ^ Z.of_nat fuel → (0 < fuel)%nat →
  digits_value (show_fuel fuel n) = n ∧ Forall (λ c, isdigit c = true) (show_fuel fuel n) ∧
  show_fuel fuel n ≠ [].
Proof.
  revert n. induction fuel as [|fuel IH]; intros n Hn Hf; [lia|]. clear Hf. simpl.
  assert (isdigit (char_of (48 + n mod 10)) = true) as Hd.
  { apply bool_decide_eq_true. rewrite byte_of_digit. div_lia. }
  unfold digits_value. rewrite foldl_app. simpl. rewrite byte_of_digit.
  case_bool_decide as H10; simpl.
  { split_and!; [div_lia|by repeat constructor|done]. }
  rewrite Nat2Z.inj_succ, Z.pow_succ_r in Hn by lia.
  destruct fuel as [|fuel]; [simpl in Hn; lia|].
  destruct (IH (n / 10)) as (Hv & Hds & Hne); [div_lia|lia|].
  unfold digits_value in Hv. rewrite Hv. split_and!; [div_lia| |by destruct (show_fuel _ _)].
  apply Forall_app. by repeat constructor.
Qed.

Lemma show_dec_spec n :
  0 <= n → digits_value (show_dec n) = n ∧ Forall (λ c, isdigit c = true) (show_dec n) ∧ show_dec n ≠ [].
Proof.
  intros Hn. apply show_fuel_spec; [|lia]. split; [done|].
  rewrite Nat2Z.inj_succ, Z2Nat.id by apply Z.log2_nonneg.
  destruct (decide (n = 0)) as [->|]; [done|]. apply Z.log2_spec. lia.
Qed.

Lemma take_while_all p s : Forall (λ c, p c = true) s → take_while p s = s.
Proof. induction 1 as [|c s Hc _ IH]; simpl; [done|]. by rewrite Hc, IH. Qed.

Lemma stoi_digits s :
  s ≠ [] → Forall (λ c, isdigit c = true) s →
  stoi s = if bool_decide (digits_value s <= INT_MAX) then Ok (digits_value s) else Raise OutOfRange.
Proof.
  intros Hne Hs. unfold stoi.
  assert (0 <= digits_value s) as H0.
  { unfold digits_value. clear Hne.
    enough (∀ v, 0 <= v → 0 <= foldl (λ v c, v * 10 + (byte_of c - 48)) v s) as H by by apply H.
    induction Hs as [|c s Hc _ IH]; intros v Hv; simpl; [done|]. apply IH.
    apply bool_decide_eq_true in Hc. lia. }
  rewrite <- (take_while_all _ _ Hs) at 1.
  destruct Hs as [|c s Hc Hs]; [done|]. pose proof Hc as Hc'. apply bool_decide_eq_true in Hc'.
  assert (isspace c = false) as Hsp by (apply bool_decide_eq_false; lia).
  cbn [take_while]. rewrite Hc. cbn [drop_while]. rewrite Hsp.
  rewrite !decide_False by (intros ->; vm_compute in Hc; discriminate).
  cbn [take_while]. rewrite Hc, !take_while_all by done.
  unfold INT_MIN, INT_MAX in *. repeat case_bool_decide; done || lia.
Qed.

End decimal.
