(* ===== verification/Status.v ===== *)
(** The status type of [utils/status.h] (class [Status], enum [StatusCode]). *)
From S2P Require Import Prelude.

(** The enumerators, and the value each one has in the code: [NOT_FOUND] and
    [INTERNAL] are the same number. *)
Inductive StatusCode := OK | NOT_FOUND | INTERNAL | UNAVAILABLE | INVALID_ARGUMENT.

Definition StatusCode_value (c : StatusCode) : Z :=
  match c with
  | OK => 1
  | NOT_FOUND => 2
  | INTERNAL => 2
  | UNAVAILABLE => 3
  | INVALID_ARGUMENT => 4
  end.

Record Status := mkStatus { status_code_ : StatusCode; msg_ : str }.

Definition Status_of_code (code : StatusCode) : Status := mkStatus code $"No message Provided".

Definition Status_Code (s : Status) : StatusCode := status_code_ s.
Definition message (s : Status) : str := msg_ s.
Definition ok (s : Status) : bool :=
  bool_decide (StatusCode_value (status_code_ s) = StatusCode_value OK).

Definition Status_OK : Status := mkStatus OK $"Return Ok without error!".

#[global] Instance StatusCode_eq_dec : EqDecision StatusCode.
Proof. solve_decision. Defined.
#[global] Instance Status_eq_dec : EqDecision Status.
Proof. solve_decision. Defined.

Lemma ok_code s : ok s = true ↔ status_code_ s = OK.
Proof. unfold ok. rewrite bool_decide_eq_true. by destruct (status_code_ s). Qed.
