(* ===== verification/CommandParser.v ===== *)
(** The command-line parser of the management interface
    ([interface/utils/command_parser.cc]): [parse_command] and the error message
    it builds.  The argument loop is fuelled, because it does not end on every
    input: [None] means the loop is still running when the fuel is spent. *)
From S2P Require Import Prelude CxxString Status.

(** The command word and its arguments. *)
Definition ParsedCommand : Type := (str * list str).

(** ** The code *)

Definition generate_nice_error_msg (error_msg : str) (error_loc : Z) (command : str) : res str :=
  let len := Z.of_nat (length command) in
  '(final_error_loc, final_command) ←
    (if bool_decide (80 <= len)%Z then
       if bool_decide (error_loc < 77)%Z then
         head ← substr command 0 (Some 77);
         Ok (error_loc, head ++ $"...")
       else if bool_decide (u64 (len - error_loc) < 77)%Z then
         tail ← substr command (length command - 77) (Some (length command));
         Ok (u64 (error_loc - len - 77), tail)
       else Ok (0%Z, [])
     else Ok (error_loc, command));
  pad ← str_fill (u64 (final_error_loc - 1)) SP;
  Ok ([ESC] ++ $"[47;31mError:" ++ error_msg ++ [ESC] ++ $"[0m" ++ [NL]
      ++ final_command ++ [NL] ++ pad ++ $"^" ++ [NL]).

(** How the argument loop ends: it falls out of the [while], or returns early. *)
Inductive loop_exit :=
  | Finished (result : list str)
  | Early (st : Status).

Definition unpaired_quote : str := $"could not found pair of double quotes".

(** One pass of [while (npos != (current = input.find(' ')))]: either the loop is
    left, or it goes round with a new [input] and [result]. *)
Definition args_step (input : str) (result : list str) : res (loop_exit + str * list str) :=
  match find SP 0 input with
  | None => Ok (inl (Finished (result ++ [input])))
  | Some current =>
      if decide (head input = Some DQ) then
        let quoter_start := current in
        match find DQ (quoter_start + 1) input with
        | None =>
            msg ← generate_nice_error_msg unpaired_quote (Z.of_nat quoter_start) input;
            Ok (inl (Early (mkStatus INVALID_ARGUMENT msg)))
        | Some current =>
            arg ← substr input quoter_start (Some current);
            Ok (inr (input, result ++ [arg]))
        end
      else
        arg ← substr input 0 (Some current);
        input' ← erase input 0 (Some (current + 1));
        Ok (inr (input', result ++ [arg]))
  end.

Fixpoint args_loop (fuel : nat) (input : str) (result : list str) : option (res loop_exit) :=
  match fuel with
  | O => None
  | S fuel' =>
      match args_step input result with
      | Raise e => Some (Raise e)
      | Ok (inl ex) => Some (Ok ex)
      | Ok (inr (input', result')) => args_loop fuel' input' result'
      end
  end.

(** [parsed_command] is the out parameter: it is returned with the status, and is
    the caller's value unless the parse succeeds. *)
Definition parse_command (fuel : nat) (input_command : str) (parsed_command : ParsedCommand)
    : option (res (Status * ParsedCommand)) :=
  let trimmed :=
    input ← erase input_command 0 (find_first_not_of SP input_command);
    input ← erase input (npos_succ (find_last_not_of SP input)) None;
    erase input (npos_succ (find_last_not_of NL input)) None in
  match trimmed with
  | Raise e => Some (Raise e)
  | Ok input =>
      if decide (length input ≤ 0)
      then Some (Ok (mkStatus INVALID_ARGUMENT $"command must be not empty", parsed_command))
      else
        match find SP 0 input with
        | None => Some (Ok (Status_OK, (input, [])))
        | Some current =>
            match substr input 0 (Some current), erase input 0 (Some (current + 1)) with
            | Ok command, Ok rest =>
                match args_loop fuel rest [] with
                | None => None
                | Some (Raise e) => Some (Raise e)
                | Some (Ok (Early st)) => Some (Ok (st, parsed_command))
                | Some (Ok (Finished result)) => Some (Ok (Status_OK, (command, result)))
                end
            | Raise e, _ | _, Raise e => Some (Raise e)
            end
        end
  end.

Example parse_example :
  parse_command 10 ($"  USER LOGIN admin@example.com admin" ++ [NL]) ([], []) =
    Some (Ok (Status_OK, ($"USER", [$"LOGIN"; $"admin@example.com"; $"admin"]))).
Proof. vm_compute. reflexivity. Qed.

Example parse_quote_spins :
  parse_command 200 ($"command " ++ [DQ] ++ $"quoter argument" ++ [DQ]) ([], []) = None.
Proof. vm_compute. reflexivity. Qed.

(** ** What the argument loop does, piece by piece *)

(** The argument text is cut at every space.  The loop consumes the pieces from the
    left; the fate of the parse is decided by the first piece, not the last, that
    begins with a double quote. *)
Inductive loop_fate :=
  | Ends (args : list str)
  | Unpaired (loc : nat) (rest : str)
  | Spins.

Fixpoint fate (pieces : list str) : loop_fate :=
  match pieces with
  | [] => Ends []
  | [p] => Ends [p]
  | p :: ps =>
      if decide (head p = Some DQ) then
        if decide (DQ ∈ join_with SP ps) then Spins
        else Unpaired (length p) (join_with SP pieces)
      else match fate ps with Ends l => Ends (p :: l) | f => f end
  end.

Lemma fate_cons p ps :
  ps ≠ [] →
  fate (p :: ps) =
    if decide (head p = Some DQ) then
      if decide (DQ ∈ join_with SP ps) then Spins
      else Unpaired (length p) (join_with SP (p :: ps))
    else match fate ps with Ends l => Ends (p :: l) | f => f end.
Proof. by destruct ps. Qed.

Definition unpaired_error (loc : nat) (rest : str) : res Status :=
  msg ← generate_nice_error_msg unpaired_quote (Z.of_nat loc) rest;
  Ok (mkStatus INVALID_ARGUMENT msg).

Lemma head_piece (p rest : str) :
  SP ≠ DQ → head (p ++ SP :: rest) = Some DQ ↔ head p = Some DQ.
Proof. intros. destruct p; simpl; naive_solver. Qed.

Lemma args_step_last s result : SP ∉ s → args_step s result = Ok (inl (Finished (result ++ [s]))).
Proof. intros Hs. unfold args_step. rewrite find_0. by rewrite (proj2 (find0_None SP s) Hs). Qed.

Lemma args_step_plain p rest result :
  SP ∉ p → head p ≠ Some DQ →
  args_step (p ++ SP :: rest) result = Ok (inr (rest, result ++ [p])).
Proof.
  intros Hp Hq. unfold args_step. rewrite find_0, find0_app by done.
  rewrite decide_False by (by rewrite head_piece).
  unfold substr, erase. rewrite !decide_True by lia. simpl.
  rewrite drop_0, take_app_length.
  replace (length p + 1) with (length (p ++ [SP])) by (rewrite length_app; done).
  change (SP :: rest) with ([SP] ++ rest). by rewrite app_assoc, drop_app_length.
Qed.

Lemma args_step_quote p rest result :
  SP ∉ p → head p = Some DQ → DQ ∈ rest →
  ∃ arg, args_step (p ++ SP :: rest) result = Ok (inr (p ++ SP :: rest, result ++ [arg])).
Proof.
  intros Hp Hq Hr. unfold args_step. rewrite find_0, find0_app by done.
  rewrite decide_True by (by rewrite head_piece). rewrite Nat.add_1_r.
  destruct (find DQ _ _) eqn:E; [|by apply find_after in E].
  unfold substr. rewrite decide_True by (rewrite length_app; lia). simpl. eauto.
Qed.

Lemma args_step_unpaired p rest result :
  SP ∉ p → head p = Some DQ → DQ ∉ rest →
  args_step (p ++ SP :: rest) result =
    (st ← unpaired_error (length p) (p ++ SP :: rest); Ok (inl (Early st))).
Proof.
  intros Hp Hq Hr. unfold args_step. rewrite find_0, find0_app by done.
  rewrite decide_True by (by rewrite head_piece). rewrite Nat.add_1_r.
  rewrite (proj2 (find_after DQ SP p rest)) by done.
  unfold unpaired_error. by destruct (generate_nice_error_msg _ _ _).
Qed.

Lemma args_loop_fate pieces result fuel :
  pieces ≠ [] → Forall (λ p, SP ∉ p) pieces → length pieces ≤ fuel →
  args_loop fuel (join_with SP pieces) result =
    match fate pieces with
    | Ends l => Some (Ok (Finished (result ++ l)))
    | Unpaired loc rest => Some (st ← unpaired_error loc rest; Ok (Early st))
    | Spins => None
    end.
Proof.
  intros Hne Hf. revert result fuel Hne. induction Hf as [|p ps Hp Hps IH]; [done|].
  intros result fuel _ Hfuel. destruct fuel as [|fuel]; [simpl in Hfuel; lia|].
  destruct ps as [|q ps]; [simpl; by rewrite args_step_last|].
  rewrite fate_cons, join_with_cons by done. set (rest := join_with SP (q :: ps)) in *.
  destruct (decide (head p = Some DQ)) as [Hq|Hq]; [destruct (decide (DQ ∈ rest)) as [Hr|Hr]|].
  - clear IH Hfuel. revert result. generalize (S fuel). clear fuel.
    induction n as [|n IHn]; intros result; [done|].
    destruct (args_step_quote p rest result Hp Hq Hr) as [arg Harg].
    simpl. rewrite Harg. apply IHn.
  - cbn [args_loop]. rewrite args_step_unpaired by done.
    by destruct (unpaired_error (length p) (p ++ SP :: rest)).
  - cbn [args_loop]. rewrite args_step_plain by done. rewrite (IH _ fuel); [|discriminate|simpl in Hfuel |- *; lia].
    destruct (fate (q :: ps)); [by rewrite <- app_assoc|done|done].
Qed.

(** ** The parser against its specification *)

Definition trimmed (input : str) : str := trim_right NL (trim_right SP (trim_left SP input)).

Lemma length_trimmed input : length (trimmed input) ≤ length input.
Proof.
  unfold trimmed. etrans; [apply length_trim_right|].
  etrans; [apply length_trim_right|apply length_trim_left].
Qed.

(** What [parse_command] computes, without a loop: [None] is a parse that never
    returns. *)
Definition parse_spec (input : str) (out : ParsedCommand) : option (res (Status * ParsedCommand)) :=
  match trimmed input with
  | [] => Some (Ok (mkStatus INVALID_ARGUMENT $"command must be not empty", out))
  | s =>
      match split_at SP s with
      | cmd :: ((_ :: _) as args) =>
          match fate args with
          | Ends l => Some (Ok (Status_OK, (cmd, l)))
          | Unpaired loc rest => Some (st ← unpaired_error loc rest; Ok (st, out))
          | Spins => None
          end
      | _ => Some (Ok (Status_OK, (s, [])))
      end
  end.

Lemma parse_command_spec fuel input out :
  length input < fuel → parse_command fuel input out = parse_spec input out.
Proof.
  intros Hfuel. unfold parse_command. rewrite erase_front. simpl. rewrite erase_back. simpl.
  rewrite erase_back. unfold parse_spec. fold (trimmed input).
  assert (length (trimmed input) ≤ length input) as Hlen by apply length_trimmed.
  destruct (trimmed input) as [|x s'] eqn:Ht; [done|].
  rewrite decide_False by (simpl; lia). set (s := x :: s') in *. clearbody s. clear Ht x s'.
  rewrite find_0. destruct (find0 SP s) as [i|] eqn:E.
  - apply find0_Some in E as (cmd & rest & -> & Hcmd & <-).
    rewrite split_at_app by done. rewrite Nat.add_1_r.
    rewrite drop_0, take_app_length.
    replace (S (length cmd)) with (length (cmd ++ [SP])) by (rewrite length_app; simpl; lia).
    replace (cmd ++ SP :: rest) with ((cmd ++ [SP]) ++ rest) by (by rewrite <- app_assoc).
    rewrite drop_app_length. rewrite <- (join_split SP rest) at 1.
    rewrite args_loop_fate; [|auto with cxx_string..|].
    + destruct (split_at SP rest) as [|p ps] eqn:Es; [by apply split_at_nonempty in Es|].
      destruct (fate (p :: ps)) as [l|loc r|]; [done| |done]. by destruct (unpaired_error loc r).
    + pose proof (length_split_at SP rest). rewrite length_app in Hlen. simpl in Hlen. lia.
  - apply find0_None in E. by rewrite split_at_no.
Qed.

(** ** When the loop does not end *)

Lemma args_loop_mono fuel fuel' input result r :
  args_loop fuel input result = Some r → fuel ≤ fuel' → args_loop fuel' input result = Some r.
Proof.
  revert fuel' input result. induction fuel as [|fuel IH]; intros fuel' input result; [done|].
  intros H Hle. destruct fuel' as [|fuel']; [lia|]. simpl in *.
  destruct (args_step input result) as [[?|[input' result']]|]; [done| |done].
  apply IH; [done|lia].
Qed.

Lemma parse_command_mono fuel fuel' input out r :
  parse_command fuel input out = Some r → fuel ≤ fuel' → parse_command fuel' input out = Some r.
Proof.
  unfold parse_command. intros H Hle. revert H.
  destruct (x ← _; _) as [s|]; [|done]. case_decide; [done|].
  destruct (find SP 0 s) as [i|]; [|done].
  destruct (substr s 0 (Some i)), (erase s 0 (Some (i + 1))); try done.
  destruct (args_loop fuel _ _) as [r'|] eqn:E; [|done].
  by rewrite (args_loop_mono _ _ _ _ _ E Hle).
Qed.

Lemma parse_command_none_iff input out :
  (∀ fuel, parse_command fuel input out = None) ↔ parse_spec input out = None.
Proof.
  rewrite <- (parse_command_spec (S (length input)) input out) by lia. split; [done|].
  intros Hn fuel. destruct (parse_command fuel input out) as [r|] eqn:E; [|done].
  assert (length input < S (length input) + fuel) as Hlt by lia.
  apply (parse_command_mono _ (S (length input) + fuel)) in E; [|lia].
  rewrite parse_command_spec in E, Hn by lia. congruence.
Qed.

(** A piece opens a quote the loop gets stuck on. *)
Definition stuck_pieces (pieces : list str) : Prop :=
  ∃ pre p post, pieces = pre ++ p :: post ∧ Forall (λ q, head q ≠ Some DQ) pre ∧
    head p = Some DQ ∧ DQ ∈ join_with SP post.

Lemma fate_spins pieces : fate pieces = Spins ↔ stuck_pieces pieces.
Proof.
  induction pieces as [|p ps IH].
  { split; [done|]. intros (pre & q & post & Heq & _). by destruct pre. }
  destruct (decide (ps = [])) as [->|Hne].
  { split; [done|]. intros (pre & q & post & Heq & _ & _ & Hin).
    destruct pre as [|? [|??]]; simplify_eq/=; set_solver. }
  rewrite fate_cons by done. destruct (decide (head p = Some DQ)) as [Hq|Hq].
  - case_decide as Hin.
    + split; [|done]. intros _. by exists [], p, ps.
    + split; [done|]. intros (pre & q & post & Heq & Hpre & Hhq & Hj).
      destruct pre; simplify_eq/=. by inversion Hpre.
  - trans (fate ps = Spins); [by destruct (fate ps)|]. rewrite IH. split.
    + intros (pre & q & post & -> & Hpre & ? & ?). exists (p :: pre), q, post. auto.
    + intros (pre & q & post & Heq & Hpre & ? & ?). destruct pre; simplify_eq/=.
      inversion Hpre; subst. by exists pre, q, post.
Qed.

Lemma parse_spec_spins input out :
  parse_spec input out = None ↔
  ∃ cmd args, split_at SP (trimmed input) = cmd :: args ∧ stuck_pieces args.
Proof.
  unfold parse_spec. destruct (trimmed input) as [|x s] eqn:Ht.
  { split; [done|]. intros (cmd & args & [= <- <-] & pre & p & post & Heq & _). by destruct pre. }
  destruct (split_at SP (x :: s)) as [|cmd [|p ps]] eqn:Es.
  - split; [done|]. by intros (cmd & args & ? & _).
  - split; [done|]. intros (cmd' & args & [= <- <-] & pre & p & post & Heq & _). by destruct pre.
  - trans (fate (p :: ps) = Spins); [by destruct (fate (p :: ps))|]. rewrite fate_spins. naive_solver.
Qed.

(** ** The error message *)

Lemma nice_error_msg_spec (msg : str) (loc : Z) (command : str) :
  (0 <= loc <= Z.of_nat (length command))%Z → (Z.of_nat (length command) < 2 ^ 62)%Z →
  generate_nice_error_msg msg loc command =
    if bool_decide (0 < loc ∧ (Z.of_nat (length command) < 80 ∨ loc < 77))%Z
    then Ok ([ESC] ++ $"[47;31mError:" ++ msg ++ [ESC] ++ $"[0m" ++ [NL]
             ++ (if decide (80 ≤ length command) then take 77 command ++ $"..." else command)
             ++ [NL] ++ replicate (Z.to_nat loc - 1) SP ++ $"^" ++ [NL])
    else Raise LengthError.
Proof.
  intros Hloc Hlen. unfold generate_nice_error_msg, substr. rewrite !decide_True by lia.
  set (len := Z.of_nat (length command)) in *.
  assert (∀ x, (0 < x < 2 ^ 62 + 1)%Z → str_fill (u64 (x - 1)) SP = Ok (replicate (Z.to_nat x - 1) SP)) as Hfill.
  { intros x Hx. unfold str_fill, max_size. rewrite wrapu_small by lia.
    rewrite bool_decide_true by lia. do 2 f_equal. lia. }
  assert (∀ x, (- 2 ^ 63 <= x < 0)%Z → str_fill (u64 x) SP = Raise LengthError) as Hbig.
  { intros x Hx. unfold str_fill, max_size, wrapu.
    rewrite bool_decide_false; [done|]. rewrite <- (Z_mod_plus_full x 1), Z.mod_small; lia. }
  destruct (bool_decide_reflect (80 <= len)%Z) as [H80|H80];
    [rewrite (decide_True (P := 80 ≤ length command)) by lia
    |rewrite (decide_False (P := 80 ≤ length command)) by lia].
  2:{ simpl. destruct (decide (loc = 0)%Z) as [->|].
      - rewrite Hbig, bool_decide_false by lia. done.
      - rewrite Hfill, bool_decide_true by lia. done. }
  destruct (bool_decide_reflect (loc < 77)%Z) as [H77|H77]; simpl.
  { destruct (decide (loc = 0)%Z) as [->|].
    - rewrite Hbig, bool_decide_false by lia. done.
    - rewrite Hfill, bool_decide_true by lia. by rewrite drop_0. }
  rewrite (bool_decide_false (0 < loc ∧ _)%Z) by lia.
  case_bool_decide as Hlast; simpl; [|done]. rewrite wrapu_small in Hlast by lia.
  unfold str_fill, max_size, wrapu. rewrite bool_decide_false; [done|].
  rewrite <- (Z_mod_plus_full (loc - len - 77) 1), (Z.mod_small (_ + _)) by lia.
  rewrite Z.mod_small by lia. lia.
Qed.

(** ** Properties *)

(** C16: with fuel for one pass per input character, [parse_command] computes exactly
    what the loop-free specification says, on every input and every branch: the
    empty-command error, a bare command, arguments, an unpaired quote with its
    error message (or the exception that building it throws), and the inputs on
    which the loop never ends. *)
Theorem parse_command_refines fuel input out :
  length input < fuel → parse_command fuel input out = parse_spec input out.
Proof. apply parse_command_spec. Qed.

Lemma parse_command_refines_witness :
  parse_command 20 $"  PEER  x " ([], []) = parse_spec $"  PEER  x " ([], []).
Proof. apply (parse_command_refines 20); vm_compute; lia. Defined.

(** C28: [parse_command] never returns exactly on the inputs that have, among the
    space-separated pieces after the command, a piece that begins with a double
    quote, is the first to do so, and is followed by a piece with another double
    quote in it: the quoted branch of the loop does not consume its input. *)
Theorem parse_command_spins_iff input out :
  (∀ fuel, parse_command fuel input out = None) ↔
  ∃ cmd args, split_at SP (trimmed input) = cmd :: args ∧
    ∃ pre p post, args = pre ++ p :: post ∧ Forall (λ q, head q ≠ Some DQ) pre ∧
      head p = Some DQ ∧ DQ ∈ join_with SP post.
Proof. rewrite parse_command_none_iff. apply parse_spec_spins. Qed.

Lemma last_not_NL s t : NL ∉ t → t ≠ [] → last (s ++ t) ≠ Some NL.
Proof.
  intros Hn Hne Hl. rewrite last_app in Hl.
  destruct (last t) as [c|] eqn:E; [|by apply last_None in E].
  apply Hn. simplify_eq. apply last_Some in E as [l ->]. set_solver.
Qed.

Lemma trimmed_line n text :
  head text ≠ Some SP → text ≠ [] → NL ∉ text → trimmed (replicate n SP ++ text ++ [NL]) = text.
Proof.
  intros Hh Hne Hn. unfold trimmed. rewrite trim_left_fill, trim_left_id by (by destruct text).
  rewrite (trim_right_id SP) by (by rewrite last_snoc).
  rewrite (trim_right_fill NL 1). apply trim_right_id. by apply (last_not_NL []).
Qed.

Lemma fate_plain args : Forall (λ a, head a ≠ Some DQ) args → fate args = Ends args.
Proof.
  induction 1 as [|a args Ha _ IH]; [done|]. destruct args; [done|].
  rewrite fate_cons, decide_False by done. by rewrite IH.
Qed.

Lemma join_with_mem c d ps : d ∈ join_with c ps → d = c ∨ ∃ p, p ∈ ps ∧ d ∈ p.
Proof.
  induction ps as [|p [|q ps] IH]; simpl in *; [set_solver|set_solver|].
  rewrite elem_of_app, elem_of_cons. intros [?|[?|Hin]]; [|by left|]; [right; set_solver|].
  destruct (IH Hin) as [?|(p' & ? & ?)]; [by left|]. right. exists p'. set_solver.
Qed.

(** A printed line parses back. *)
Lemma parse_command_printed n cmd args fuel out line :
  line = replicate n SP ++ join_with SP (cmd :: args) ++ [NL] →
  cmd ≠ [] →
  Forall (λ w, SP ∉ w ∧ NL ∉ w) (cmd :: args) →
  Forall (λ a, head a ≠ Some DQ) args →
  length line < fuel →
  parse_command fuel line out = Some (Ok (Status_OK, (cmd, args))).
Proof.
  intros -> Hcmd Hw Hq Hfuel. rewrite parse_command_spec by done. unfold parse_spec.
  assert (Forall (λ w, SP ∉ w) (cmd :: args)) as Hsp by (eapply Forall_impl; naive_solver).
  rewrite trimmed_line.
  - destruct (join_with SP (cmd :: args)) as [|x s] eqn:E.
    { destruct cmd, args; done. }
    rewrite <- E, split_join by done. destruct args as [|a args]; [done|].
    by rewrite fate_plain.
  - inversion Hsp; subst. destruct cmd as [|x cmd]; [done|]. destruct args; set_solver.
  - destruct cmd, args; done.
  - intros [?|(p & Hp & Hin)]%join_with_mem; [done|].
    rewrite Forall_forall in Hw. naive_solver.
Qed.

(** C29: parsing undoes printing: a line made of a command and arguments separated by
    single spaces, with any number of spaces in front and ended by a newline, is
    parsed back to that command and those arguments, provided no word contains a
    space or a newline and no argument begins with a double quote. *)
Theorem parse_command_roundtrip n cmd args fuel out :
  let line := replicate n SP ++ join_with SP (cmd :: args) ++ [NL] in
  cmd ≠ [] →
  Forall (λ w, SP ∉ w ∧ NL ∉ w) (cmd :: args) →
  Forall (λ a, head a ≠ Some DQ) args →
  length line < fuel →
  parse_command fuel line out = Some (Ok (Status_OK, (cmd, args))).
Proof. intros line. by apply (parse_command_printed n). Qed.

Lemma parse_command_roundtrip_witness :
  parse_command 40 (replicate 2 SP ++ join_with SP [$"USER"; $"LOGIN"; $"a@b"; $"pw"] ++ [NL]) ([], [])
  = Some (Ok (Status_OK, ($"USER", [$"LOGIN"; $"a@b"; $"pw"]))).
Proof.
  apply (parse_command_roundtrip 2 $"USER" [$"LOGIN"; $"a@b"; $"pw"] 40 ([], [])).
  all: by_decide.
Defined.

(** [generate_nice_error_msg] builds the three-line message, cut to 77
    characters and an ellipsis when the command has 80 characters or more, exactly
    when the error is not at the first character and, in a command of 80 characters
    or more, lies before character 77; otherwise the column it computes wraps below
    zero and the [std::string] of that many blanks throws [std::length_error]. *)
Theorem generate_nice_error_msg_spec (msg : str) (loc : Z) (command : str) :
  (0 <= loc <= Z.of_nat (length command))%Z → (Z.of_nat (length command) < 2 ^ 62)%Z →
  generate_nice_error_msg msg loc command =
    if bool_decide (0 < loc ∧ (Z.of_nat (length command) < 80 ∨ loc < 77))%Z
    then Ok ([ESC] ++ $"[47;31mError:" ++ msg ++ [ESC] ++ $"[0m" ++ [NL]
             ++ (if decide (80 ≤ length command) then take 77 command ++ $"..." else command)
             ++ [NL] ++ replicate (Z.to_nat loc - 1) SP ++ $"^" ++ [NL])
    else Raise LengthError.
Proof. apply nice_error_msg_spec. Qed.

Lemma generate_nice_error_msg_spec_witness :
  generate_nice_error_msg $"bad" 4 $"abcd efg" =
    Ok ([ESC] ++ $"[47;31mError:" ++ $"bad" ++ [ESC] ++ $"[0m" ++ [NL] ++ $"abcd efg" ++ [NL]
        ++ replicate 3 SP ++ $"^" ++ [NL]).
Proof. rewrite (generate_nice_error_msg_spec $"bad" 4 $"abcd efg"); [reflexivity|vm_compute; split; discriminate|vm_compute; reflexivity]. Defined.

(** An unpaired double quote in a first argument of 77 characters or more, when
    the argument text has 80 characters or more, makes [parse_command] throw [std::length_error] instead of reporting the bad quote. *)
Theorem parse_command_long_quote_throws n cmd p rest fuel out :
  let line := replicate n SP ++ cmd ++ SP :: p ++ SP :: rest ++ [NL] in
  cmd ≠ [] → SP ∉ cmd ++ p → NL ∉ cmd ++ p ++ rest →
  head p = Some DQ → DQ ∉ rest → 77 ≤ length p → 80 ≤ length (p ++ SP :: rest) →
  (Z.of_nat (length line) < 2 ^ 62)%Z → length line < fuel →
  parse_command fuel line out = Some (Raise LengthError).
Proof.
  intros line Hcmd Hsp Hnl Hq Hr Hp H80 Hmax Hfuel. rewrite parse_command_spec by done.
  unfold parse_spec, line.
  replace (cmd ++ SP :: p ++ SP :: rest ++ [NL]) with ((cmd ++ SP :: p ++ SP :: rest) ++ [NL])
    by (rewrite <- !app_assoc; simpl; by rewrite <- app_assoc).
  rewrite trimmed_line; [|destruct cmd; set_solver|by destruct cmd|set_solver].
  destruct (cmd ++ SP :: p ++ SP :: rest) as [|x s] eqn:E; [by destruct cmd|]. rewrite <- E.
  rewrite !split_at_app by set_solver.
  destruct (split_at SP rest) as [|q qs] eqn:Es; [by apply split_at_nonempty in Es|]. rewrite <- Es.
  rewrite fate_cons, decide_True, join_with_cons, join_split, decide_False by (rewrite ?Es; done).
  unfold unpaired_error. rewrite nice_error_msg_spec; [rewrite bool_decide_false; [done|]|..].
  all: unfold line in Hmax; clear Hfuel; length_lia.
Qed.

Lemma parse_command_long_quote_throws_witness :
  parse_command 200 (replicate 0 SP ++ $"FILE" ++ SP :: (DQ :: replicate 80 "a"%char) ++ SP :: $"b" ++ [NL])
    ([], []) = Some (Raise LengthError).
Proof.
  apply (parse_command_long_quote_throws 0 $"FILE" (DQ :: replicate 80 "a"%char) $"b" 200 ([], [])).
  all: by_decide.
Defined.
