(* ===== verification/Base64.v ===== *)
(** Base64 ([management_api/utils/base64_utils.cc]): [encode] and [decode] with
    their two tables, and the RFC 4648 encoding they are compared with. *)
From S2P Require Import Prelude.
Local Open Scope Z_scope.

(** ** The code *)

Definition alphabet_map : str :=
  $"ABCDEFGHIJKLMNOPQRSTUVWXYZabcdefghijklmnopqrstuvwxyz0123456789+/".

(** [kDecodingTable], its sixteen rows in order. *)
Definition kDecodingTable : list Z :=
  let none n := replicate n 64 in
  none 43%nat ++ [62] ++ none 3%nat ++ [63] ++
  seqZ 52 10 ++ none 6%nat ++
  [64] ++ seqZ 0 26 ++ none 5%nat ++
  [64] ++ seqZ 26 26 ++ none 5%nat ++
  none 128%nat.

(** [alphabet_map[i]] for a possibly negative [int] index: outside the array the
    access is undefined behaviour. *)
Definition alphabet_at (i : Z) : res ascii :=
  if bool_decide (0 <= i) then deref (UB OutOfBounds) (alphabet_map !! Z.to_nat i)
  else Raise (UB OutOfBounds).

(** [text[i]] is a signed [char]; the shifts act on its promotion to [int]. *)
Fixpoint encode (text : str) : res str :=
  match text with
  | t0 :: t1 :: t2 :: rest =>
      c0 ← alphabet_at (Z.shiftr (schar_of t0) 2);
      c1 ← alphabet_at (Z.lor (Z.land (Z.shiftl (schar_of t0) 4) 48) (Z.shiftr (schar_of t1) 4));
      c2 ← alphabet_at (Z.lor (Z.land (Z.shiftl (schar_of t1) 2) 60) (Z.shiftr (schar_of t2) 6));
      c3 ← alphabet_at (Z.land (schar_of t2) 63);
      os ← encode rest;
      Ok (c0 :: c1 :: c2 :: c3 :: os)
  | [t0] =>
      c0 ← alphabet_at (Z.shiftr (schar_of t0) 2);
      c1 ← alphabet_at (Z.land (Z.shiftl (schar_of t0) 4) 48);
      Ok (c0 :: c1 :: $"==")
  | [t0; t1] =>
      c0 ← alphabet_at (Z.shiftr (schar_of t0) 2);
      c1 ← alphabet_at (Z.lor (Z.land (Z.shiftl (schar_of t0) 4) 48) (Z.shiftr (schar_of t1) 4));
      c2 ← alphabet_at (Z.land (Z.shiftl (schar_of t1) 2) 60);
      Ok (c0 :: c1 :: c2 :: $"=")
  | [] => Ok []
  end.

Definition decoding_at (c : ascii) : Z := nth (Z.to_nat (byte_of c)) kDecodingTable 64.

(** One round of the [decode] loop: one to three characters. *)
Definition decode_group (i0 i1 i2 i3 : ascii) : str :=
  let c0 := decoding_at i0 in
  let c1 := decoding_at i1 in
  let c2 := decoding_at i2 in
  let c3 := decoding_at i3 in
  [char_of (Z.lor (u32 (Z.shiftl c0 2)) (Z.shiftr c1 4))] ++
  (if bool_decide (c2 ≠ 64)
   then [char_of (Z.lor (u32 (Z.shiftl (Z.land c1 15) 4)) (Z.shiftr c2 2))] else []) ++
  (if bool_decide (c3 ≠ 64)
   then [char_of (Z.lor (u32 (Z.shiftl (Z.land c2 3) 6)) c3)] else []).

Fixpoint decode (input : str) : str :=
  match input with
  | i0 :: i1 :: i2 :: i3 :: rest => decode_group i0 i1 i2 i3 ++ decode rest
  | _ => []
  end.

Example table_length : length kDecodingTable = 256%nat.
Proof. reflexivity. Qed.

(** ** The encoding of RFC 4648, by arithmetic on 24-bit groups *)

Definition digit (v : Z) : ascii := nth (Z.to_nat v) alphabet_map "A"%char.

Fixpoint rfc4648 (bytes : str) : str :=
  match bytes with
  | b0 :: b1 :: b2 :: rest =>
      let v := byte_of b0 * 65536 + byte_of b1 * 256 + byte_of b2 in
      digit (v / 262144) :: digit (v / 4096 mod 64) :: digit (v / 64 mod 64) :: digit (v mod 64)
        :: rfc4648 rest
  | [b0; b1] =>
      let v := (byte_of b0 * 256 + byte_of b1) * 4 in
      [digit (v / 4096); digit (v / 64 mod 64); digit (v mod 64); "="%char]
  | [b0] =>
      let v := byte_of b0 * 16 in
      [digit (v / 64); digit (v mod 64); "="%char; "="%char]
  | [] => []
  end.

(** ** Exhaustive facts about six- and seven-bit values *)

Lemma alphabet_at_digit i : 0 <= i < 64 → alphabet_at i = Ok (digit i).
Proof. intros. below 64 (λ i, bool_decide (alphabet_at i = Ok (digit i))) i. Qed.

Lemma decoding_digit i : 0 <= i < 64 → decoding_at (digit i) = i.
Proof. intros. below 64 (λ i, bool_decide (decoding_at (digit i) = i)) i. Qed.

Lemma alphabet_at_neg i : i < 0 → alphabet_at i = Raise (UB OutOfBounds).
Proof. intros. unfold alphabet_at. by rewrite bool_decide_false by lia. Qed.

Lemma schar_of_ascii c : byte_of c < 128 → schar_of c = byte_of c.
Proof.
  intros. pose proof (byte_of_range c). unfold schar_of, wraps.
  rewrite wrapu_small by lia. by rewrite bool_decide_true by lia.
Qed.

Lemma schar_of_high c : 128 <= byte_of c → schar_of c = byte_of c - 256.
Proof.
  intros. pose proof (byte_of_range c). unfold schar_of, wraps.
  rewrite wrapu_small by lia. by rewrite bool_decide_false by lia.
Qed.

(** The three index computations of [encode] on seven-bit characters. *)
Lemma enc_index0 a : 0 <= a < 128 → Z.shiftr a 2 = a / 4.
Proof. intros. by rewrite Z.shiftr_div_pow2 by lia. Qed.
Lemma enc_index1 a b : 0 <= a < 128 → 0 <= b < 128 →
  Z.lor (Z.land (Z.shiftl a 4) 48) (Z.shiftr b 4) = a mod 4 * 16 + b / 16.
Proof.
  intros. pairwise 128 128 (λ a b,
    bool_decide (Z.lor (Z.land (Z.shiftl a 4) 48) (Z.shiftr b 4) = a mod 4 * 16 + b / 16)) a b.
Qed.
Lemma enc_index2 a b : 0 <= a < 128 → 0 <= b < 128 →
  Z.lor (Z.land (Z.shiftl a 2) 60) (Z.shiftr b 6) = a mod 16 * 4 + b / 64.
Proof.
  intros. pairwise 128 128 (λ a b,
    bool_decide (Z.lor (Z.land (Z.shiftl a 2) 60) (Z.shiftr b 6) = a mod 16 * 4 + b / 64)) a b.
Qed.
Lemma enc_index3 a : 0 <= a < 128 → Z.land a 63 = a mod 64.
Proof. intros. below 128 (λ a, bool_decide (Z.land a 63 = a mod 64)) a. Qed.
Lemma enc_tail1 a : 0 <= a < 128 → Z.land (Z.shiftl a 4) 48 = a mod 4 * 16.
Proof. intros. below 128 (λ a, bool_decide (Z.land (Z.shiftl a 4) 48 = a mod 4 * 16)) a. Qed.
Lemma enc_tail2 a : 0 <= a < 128 → Z.land (Z.shiftl a 2) 60 = a mod 16 * 4.
Proof. intros. below 128 (λ a, bool_decide (Z.land (Z.shiftl a 2) 60 = a mod 16 * 4)) a. Qed.

(** The three byte computations of [decode] on six-bit digits. *)
Lemma dec_byte0 a b : 0 <= a < 64 → 0 <= b < 64 →
  Z.lor (u32 (Z.shiftl a 2)) (Z.shiftr b 4) = a * 4 + b / 16.
Proof.
  intros. pairwise 64 64 (λ a b,
    bool_decide (Z.lor (u32 (Z.shiftl a 2)) (Z.shiftr b 4) = a * 4 + b / 16)) a b.
Qed.
Lemma dec_byte1 a b : 0 <= a < 64 → 0 <= b < 64 →
  Z.lor (u32 (Z.shiftl (Z.land a 15) 4)) (Z.shiftr b 2) = a mod 16 * 16 + b / 4.
Proof.
  intros. pairwise 64 64 (λ a b,
    bool_decide (Z.lor (u32 (Z.shiftl (Z.land a 15) 4)) (Z.shiftr b 2) = a mod 16 * 16 + b / 4)) a b.
Qed.
Lemma dec_byte2 a b : 0 <= a < 64 → 0 <= b < 64 →
  Z.lor (u32 (Z.shiftl (Z.land a 3) 6)) b = a mod 4 * 64 + b.
Proof.
  intros. pairwise 64 64 (λ a b,
    bool_decide (Z.lor (u32 (Z.shiftl (Z.land a 3) 6)) b = a mod 4 * 64 + b)) a b.
Qed.

Lemma decoding_pad : decoding_at "="%char = 64.
Proof. reflexivity. Qed.

Lemma list_ind3 {A} (P : list A → Prop) :
  P [] → (∀ a, P [a]) → (∀ a b, P [a; b]) → (∀ a b c l, P l → P (a :: b :: c :: l)) →
  ∀ l, P l.
Proof.
  intros H0 H1 H2 H3. fix IH 1. intros [|a [|b [|c l]]]; [done|done|done|]. by apply H3.
Qed.

Definition ascii7 (c : ascii) : Prop := byte_of c < 128.
#[global] Instance ascii7_dec c : Decision (ascii7 c).
Proof. unfold ascii7. apply _. Defined.

(** Two strings of base-64 digits with equal digit values, position by position. *)
Ltac digits_eq :=
  repeat (apply (f_equal2 (@cons ascii));
          [first [reflexivity | apply (f_equal digit); div_lia]|]);
  try reflexivity.

Lemma encode_seven text : Forall ascii7 text → encode text = Ok (rfc4648 text).
Proof.
  induction text as [|a|a b|a b c l IH] using list_ind3; intros H; [done|..].
  all: decompose_Forall_hyps; unfold ascii7 in *.
  all: pose proof (byte_of_range a); try pose proof (byte_of_range b); try pose proof (byte_of_range c).
  all: cbn [encode rfc4648]; rewrite ?schar_of_ascii by done.
  all: rewrite ?enc_index1, ?enc_index2, ?enc_index3, ?enc_tail1, ?enc_tail2, ?enc_index0 by lia.
  all: rewrite !alphabet_at_digit by div_lia; simpl.
  1, 2: apply (f_equal Ok); digits_eq.
  rewrite IH by done. simpl. apply (f_equal Ok). digits_eq.
Qed.

Lemma alphabet_at_shiftr_high c n :
  ¬ ascii7 c → 0 <= n → alphabet_at (Z.shiftr (schar_of c) n) = Raise (UB OutOfBounds).
Proof.
  unfold ascii7. intros Hc Hn. apply alphabet_at_neg, Z.shiftr_neg.
  rewrite schar_of_high by lia. pose proof (byte_of_range c). lia.
Qed.

Lemma alphabet_at_lor_high a c n :
  ¬ ascii7 c → 0 <= n → alphabet_at (Z.lor a (Z.shiftr (schar_of c) n)) = Raise (UB OutOfBounds).
Proof.
  unfold ascii7. intros Hc Hn. apply alphabet_at_neg, Z.lor_neg. right. apply Z.shiftr_neg.
  rewrite schar_of_high by lia. pose proof (byte_of_range c). lia.
Qed.

(** A negative character makes its own index computation fail, or an earlier one has
    already failed with the same fault. *)
Lemma alphabet_at_cases i : (∃ c, alphabet_at i = Ok c) ∨ alphabet_at i = Raise (UB OutOfBounds).
Proof.
  unfold alphabet_at. case_bool_decide; [|by right].
  destruct (alphabet_map !! Z.to_nat i); naive_solver.
Qed.

Ltac next_digit :=
  match goal with |- context [alphabet_at ?i ≫= _] =>
    let E := fresh in
    destruct (alphabet_at_cases i) as [[? E]|E]; rewrite E; simpl; [|try done] end.

Lemma encode_high text : ¬ Forall ascii7 text → encode text = Raise (UB OutOfBounds).
Proof.
  induction text as [|a|a b|a b c l IH] using list_ind3; intros H; [by destruct H|..].
  all: cbn [encode].
  all: destruct (decide (ascii7 a)); [|by rewrite alphabet_at_shiftr_high by (done || lia)].
  1: by destruct H; repeat constructor.
  all: next_digit; destruct (decide (ascii7 b)); [|by rewrite (alphabet_at_lor_high _ b) by (done || lia)].
  1: by destruct H; repeat constructor.
  next_digit. destruct (decide (ascii7 c)); [|by rewrite (alphabet_at_lor_high _ c) by (done || lia)].
  do 2 next_digit. rewrite IH; [done|]. intros Hl. destruct H. by repeat constructor.
Qed.

Lemma decode_group_digits d0 d1 d2 d3 :
  0 <= d0 < 64 → 0 <= d1 < 64 → 0 <= d2 < 64 → 0 <= d3 < 64 →
  decode_group (digit d0) (digit d1) (digit d2) (digit d3) =
    [char_of (d0 * 4 + d1 / 16); char_of (d1 mod 16 * 16 + d2 / 4); char_of (d2 mod 4 * 64 + d3)].
Proof.
  intros. unfold decode_group. rewrite !decoding_digit by done.
  rewrite !bool_decide_true by lia. by rewrite dec_byte0, dec_byte1, dec_byte2 by done.
Qed.

Lemma decode_group_pad1 d0 d1 d2 :
  0 <= d0 < 64 → 0 <= d1 < 64 → 0 <= d2 < 64 →
  decode_group (digit d0) (digit d1) (digit d2) "="%char =
    [char_of (d0 * 4 + d1 / 16); char_of (d1 mod 16 * 16 + d2 / 4)].
Proof.
  intros. unfold decode_group. rewrite !decoding_digit, decoding_pad by done.
  rewrite bool_decide_true, bool_decide_false by lia. by rewrite dec_byte0, dec_byte1 by done.
Qed.

Lemma decode_group_pad2 d0 d1 :
  0 <= d0 < 64 → 0 <= d1 < 64 →
  decode_group (digit d0) (digit d1) "="%char "="%char = [char_of (d0 * 4 + d1 / 16)].
Proof.
  intros. unfold decode_group. rewrite !decoding_digit, !decoding_pad by done.
  rewrite !bool_decide_false by lia. by rewrite dec_byte0 by done.
Qed.

Lemma char_of_eq z c : z = byte_of c → char_of z = c.
Proof. intros ->. apply char_of_byte_of. Qed.

Lemma decode_rfc4648 bytes : decode (rfc4648 bytes) = bytes.
Proof.
  induction bytes as [|a|a b|a b c l IH] using list_ind3; [done|..]; cbn [decode rfc4648];
    pose proof (byte_of_range a); try pose proof (byte_of_range b); try pose proof (byte_of_range c).
  all: rewrite ?decode_group_digits, ?decode_group_pad1, ?decode_group_pad2
    by div_lia.
  all: rewrite ?app_nil_r, ?IH; cbn [app].
  all: repeat (apply (f_equal2 (@cons ascii)); [apply char_of_eq; div_lia|]).
  all: reflexivity.
Qed.

(** ** Properties *)

(** C32: on a [std::string] of seven-bit characters [encode] produces the RFC 4648
    encoding, padding included; a single character above 127 anywhere makes it index
    its alphabet with a negative number, because [char] is signed there. *)
Theorem encode_rfc4648 text :
  encode text =
    if decide (Forall (λ c, byte_of c < 128) text) then Ok (rfc4648 text)
    else Raise (UB OutOfBounds).
Proof. case_decide; [by apply encode_seven|by apply encode_high]. Qed.

(** C31: [decode] inverts the RFC 4648 encoding of every byte string, of any length
    and any bytes: this is what [client_certificate] relies on to write the
    downloaded certificate to disk. *)
Theorem decode_encode_rfc4648 bytes : decode (rfc4648 bytes) = bytes.
Proof. apply decode_rfc4648. Qed.

(** Whatever [encode] returns, [decode] gives back the text. *)
Theorem base64_roundtrip text e : encode text = Ok e → decode e = text.
Proof.
  destruct (decide (Forall ascii7 text)) as [H|H].
  - rewrite encode_seven by done. intros [= <-]. apply decode_rfc4648.
  - by rewrite encode_high.
Qed.

Lemma base64_roundtrip_witness : decode $"aGkh" = $"hi!".
Proof. apply (base64_roundtrip $"hi!"). vm_compute. reflexivity. Defined.
