(* ===== verification/Bitops.v ===== *)
(** The position of the most significant set bit ([utils/bitpos.h]): [fls] on 32-bit
    words by binary search, and [fls64] on top of it. *)
From S2P Require Import Prelude.
Local Open Scope N_scope.

Definition u32n (x : N) : N := x mod 2 ^ 32.
Definition u64n (x : N) : N := x mod 2 ^ 64.

(** ** The code *)

(** One [if (!(x & mask)) { x <<= n; r -= n; }]. *)
Definition fls_step (mask n : N) (xr : N * N) : N * N :=
  let '(x, r) := xr in
  if N.land x mask =? 0 then (u32n (N.shiftl x n), r - n) else (x, r).

Definition fls (x : N) : N :=
  if x =? 0 then 0
  else
    let xr := (x, 32) in
    let xr := fls_step 0xffff0000 16 xr in
    let xr := fls_step 0xff000000 8 xr in
    let xr := fls_step 0xf0000000 4 xr in
    let xr := fls_step 0xc0000000 2 xr in
    let xr := fls_step 0x80000000 1 xr in
    snd xr.

Definition fls64 (x : N) : N :=
  let h := u32n (N.shiftr x 32) in
  if negb (h =? 0) then fls h + 32 else fls (u32n x).

Example fls_doc : (fls 0, fls 1, fls 0x80000000) = (0, 1, 32).
Proof. reflexivity. Qed.

(** ** What each step of the search keeps *)

(** [mask] selects the top [n] of 32 bits. *)
Lemma land_top_zero x n :
  n <= 32 → x < 2 ^ 32 →
  (N.land x (N.shiftl (N.ones n) (32 - n)) =? 0) = (x <? 2 ^ (32 - n)).
Proof.
  intros Hn Hx. apply Bool.eq_iff_eq_true. rewrite N.eqb_eq, N.ltb_lt. split; intros H.
  - apply N.lt_nge. intros Hge. set (b := N.log2 x).
    assert (x ≠ 0) as Hx0 by (pose proof (N.pow_nonzero 2 (32 - n)); lia).
    assert (32 - n <= b) by (apply N.log2_le_pow2; lia).
    assert (b < 32) by (apply N.log2_lt_pow2; lia).
    assert (N.testbit (N.land x (N.shiftl (N.ones n) (32 - n))) b = true) as Hb; [|by rewrite H, N.bits_0 in Hb].
    rewrite N.land_spec, (N.bit_log2 x Hx0 : N.testbit x b = true). rewrite N.shiftl_spec_high' by lia.
    rewrite N.ones_spec_low by lia. done.
  - apply N.bits_inj. intros i. rewrite N.land_spec, N.bits_0.
    destruct (N.lt_ge_cases i (32 - n)).
    + by rewrite N.shiftl_spec_low, andb_false_r by done.
    + rewrite <- (N.mod_small x (2 ^ (32 - n))) by done. by rewrite N.mod_pow2_bits_high.
Qed.

(** After a step that looks at the top [n] bits, one of them is set. *)
Definition fls_inv (x0 b : N) (xr : N * N) : Prop :=
  2 ^ b <= fst xr ∧ fst xr < 2 ^ 32 ∧ N.log2 (fst xr) + snd xr = N.log2 x0 + 32 ∧ 32 - b <= snd xr.

Lemma fls_step_inv x0 n xr mask :
  1 <= n <= 16 → mask = N.shiftl (N.ones n) (32 - n) →
  fls_inv x0 (32 - 2 * n) xr → fls_inv x0 (32 - n) (fls_step mask n xr).
Proof.
  intros Hn -> (Hlo & Hhi & Hlog & Hr). destruct xr as [x r]; simpl in *.
  unfold fls_step. rewrite land_top_zero by lia.
  assert (0 < x) by (pose proof (N.pow_nonzero 2 (32 - 2 * n)); lia).
  destruct (N.ltb_spec x (2 ^ (32 - n))) as [Hlt|Hge]; unfold fls_inv; simpl.
  2:{ split_and!; [done|done|done|lia]. }
  assert (N.shiftl x n = x * 2 ^ n) as Hs by apply N.shiftl_mul_pow2.
  assert (2 ^ (32 - n) * 2 ^ n = 2 ^ 32) as Hp by (rewrite <- N.pow_add_r; f_equal; lia).
  assert (2 ^ (32 - 2 * n) * 2 ^ n = 2 ^ (32 - n)) as Hp' by (rewrite <- N.pow_add_r; f_equal; lia).
  assert (0 < 2 ^ n) by (pose proof (N.pow_nonzero 2 n); lia).
  assert (x * 2 ^ n < 2 ^ 32) by (rewrite <- Hp; by apply N.mul_lt_mono_pos_r).
  unfold u32n. rewrite Hs, N.mod_small by done. split_and!.
  - rewrite <- Hp'. by apply N.mul_le_mono_r.
  - done.
  - rewrite N.log2_mul_pow2 by lia. lia.
  - lia.
Qed.

Lemma fls_log2 x : x < 2 ^ 32 → fls x = if x =? 0 then 0 else N.log2 x + 1.
Proof.
  intros Hx. unfold fls. destruct (N.eqb_spec x 0) as [|Hx0]; [done|].
  assert (fls_inv x 0 (x, 32)) as H by (unfold fls_inv; simpl; lia).
  apply (fls_step_inv _ 16 _ 0xffff0000) in H; [|lia|done].
  apply (fls_step_inv _ 8 _ 0xff000000) in H; [|lia|done].
  apply (fls_step_inv _ 4 _ 0xf0000000) in H; [|lia|done].
  apply (fls_step_inv _ 2 _ 0xc0000000) in H; [|lia|done].
  apply (fls_step_inv _ 1 _ 0x80000000) in H; [|lia|done].
  revert H. generalize (fls_step 0x80000000 1 (fls_step 0xc0000000 2 (fls_step 0xf0000000 4
    (fls_step 0xff000000 8 (fls_step 0xffff0000 16 (x, 32)))))).
  intros [y r] (Hlo & Hhi & Hlog & _). simpl in *.
  assert (N.log2 y = 31); [|lia]. apply N.log2_unique; [lia|]. split; [exact Hlo|exact Hhi].
Qed.

Lemma fls64_log2 x : x < 2 ^ 64 → fls64 x = if x =? 0 then 0 else N.log2 x + 1.
Proof.
  intros Hx. unfold fls64, u32n.
  assert (N.shiftr x 32 = x / 2 ^ 32) as Hs by apply N.shiftr_div_pow2.
  assert (x / 2 ^ 32 < 2 ^ 32) by (apply N.Div0.div_lt_upper_bound; exact Hx).
  rewrite Hs, N.mod_small by done.
  destruct (N.eqb_spec (x / 2 ^ 32) 0) as [H0|H0]; simpl.
  - apply N.div_small_iff in H0; [|done]. rewrite N.mod_small by done. by apply fls_log2.
  - rewrite fls_log2 by done. rewrite (proj2 (N.eqb_neq _ _) H0).
    destruct (N.eqb_spec x 0) as [->|Hx0]; [done|].
    rewrite <- Hs, N.log2_shiftr. assert (32 <= N.log2 x); [|lia].
    apply N.log2_le_pow2; [lia|]. destruct (N.lt_ge_cases x (2 ^ 32)); [|done].
    by rewrite N.div_small in H0.
Qed.

(** ** Properties *)

(** For every 64-bit word, [fls64] is zero on zero and otherwise one more than the
    position of the most significant set bit. *)
Theorem fls64_spec x : x < 2 ^ 64 → fls64 x = if x =? 0 then 0 else N.log2 x + 1.
Proof. apply fls64_log2. Qed.

Lemma fls64_spec_witness : fls64 0xbfe6b8a5bf378d83 = 64.
Proof. rewrite (fls64_spec 0xbfe6b8a5bf378d83); [reflexivity|by_decide]. Defined.
