(* ===== verification/Gf2.v ===== *)
(** Polynomials over the two-element field, as binary numbers: bit [i] is the
    coefficient of [x^i], addition is exclusive or, [N.shiftl _ n] multiplies by
    [x^n].  Congruence modulo a polynomial is a setoid on which the operations of
    the fingerprint code are proper; a remainder of smaller degree is unique. *)
From S2P Require Import Prelude.
From Stdlib Require Import Setoid Morphisms Btauto.
Local Open Scope N_scope.

(** ** Bits *)

Lemma testbit_shiftl a n m : N.testbit (N.shiftl a n) m = negb (m <? n) && N.testbit a (m - n).
Proof.
  destruct (N.ltb_spec m n); simpl; [by apply N.shiftl_spec_low|by apply N.shiftl_spec_high'].
Qed.

Lemma testbit_mod a n m : N.testbit (a mod 2 ^ n) m = (m <? n) && N.testbit a m.
Proof.
  destruct (N.ltb_spec m n); simpl; [by apply N.mod_pow2_bits_low|by apply N.mod_pow2_bits_high].
Qed.

Create Rewrite HintDb nbits.
#[export] Hint Rewrite N.lxor_spec N.land_spec N.lor_spec N.shiftr_spec' testbit_shiftl testbit_mod
  N.bits_0 : nbits.

(** Equality of two numbers bit by bit, with case analysis on the bounds. *)
Ltac nbits_cases :=
  repeat match goal with |- context [?a <? ?b] => destruct (N.ltb_spec a b) end; simpl.
Ltac nbits := apply N.bits_inj; intros ?j; autorewrite with nbits; nbits_cases; try lia.

Lemma testbit_high a n j : a < 2 ^ n → n <= j → N.testbit a j = false.
Proof. intros Ha Hj. rewrite <- (N.mod_small a (2 ^ n)) by done. by apply N.mod_pow2_bits_high. Qed.

Lemma lt_pow2 a n : (∀ j, n <= j → N.testbit a j = false) → a < 2 ^ n.
Proof.
  intros H. assert (a = a mod 2 ^ n) as ->.
  - apply N.bits_inj. intros j. rewrite testbit_mod. destruct (N.ltb_spec j n); simpl; [done|by apply H].
  - apply N.mod_lt, N.pow_nonzero. lia.
Qed.

Lemma lt_pow2_mono a n m : a < 2 ^ n → n <= m → a < 2 ^ m.
Proof. intros Ha Hm. apply lt_pow2. intros j Hj. apply (testbit_high a n); [done|lia]. Qed.

Lemma lxor_lt a b n : a < 2 ^ n → b < 2 ^ n → N.lxor a b < 2 ^ n.
Proof.
  intros Ha Hb. apply lt_pow2. intros j Hj. rewrite N.lxor_spec.
  by rewrite (testbit_high a n), (testbit_high b n).
Qed.

Lemma shiftl_lt a n m : a < 2 ^ n → N.shiftl a m < 2 ^ (n + m).
Proof.
  intros Ha. apply lt_pow2. intros j Hj. rewrite testbit_shiftl.
  rewrite (testbit_high a n) by (done || lia). apply andb_false_r.
Qed.

Lemma shiftr_lt a n m : a < 2 ^ (n + m) → N.shiftr a m < 2 ^ n.
Proof.
  intros Ha. apply lt_pow2. intros j Hj. rewrite N.shiftr_spec'. apply (testbit_high a (n + m)); [done|lia].
Qed.

Lemma lt_pow2_pred a i : a < 2 ^ (i + 1) → N.testbit a i = false → a < 2 ^ i.
Proof.
  intros Ha Hi. apply lt_pow2. intros j Hj. destruct (N.eq_dec j i) as [->|]; [done|].
  apply (testbit_high a (i + 1)); [done|lia].
Qed.

(** Cancelling a common top bit. *)
Lemma lxor_top a b i :
  a < 2 ^ (i + 1) → b < 2 ^ (i + 1) → N.testbit a i = true → N.testbit b i = true →
  N.lxor a b < 2 ^ i.
Proof.
  intros Ha Hb Hai Hbi. apply lt_pow2_pred; [by apply lxor_lt|]. by rewrite N.lxor_spec, Hai, Hbi.
Qed.

Lemma lt_pow2_log2 d : d ≠ 0 → d < 2 ^ (N.log2 d + 1).
Proof. intros. rewrite N.add_1_r. apply N.log2_spec. lia. Qed.

(** ** Multiplication *)

(** The product of the [n] low coefficients of [a] with [b]. *)
Fixpoint clmul (n : nat) (a b : N) : N :=
  match n with
  | O => 0
  | S n' =>
      N.lxor (clmul n' a b) (if N.testbit a (N.of_nat n') then N.shiftl b (N.of_nat n') else 0)
  end.

Lemma clmul_lxor_l n a a' b : clmul n (N.lxor a a') b = N.lxor (clmul n a b) (clmul n a' b).
Proof.
  induction n as [|n IH]; simpl; [done|]. rewrite IH, N.lxor_spec.
  destruct (N.testbit a _), (N.testbit a' _); simpl; nbits; btauto.
Qed.

Lemma clmul_ext n a a' b :
  (∀ i, i < N.of_nat n → N.testbit a i = N.testbit a' i) → clmul n a b = clmul n a' b.
Proof.
  induction n as [|n IH]; intros H; simpl; [done|]. rewrite IH by (intros; apply H; lia).
  by rewrite H by lia.
Qed.

Lemma clmul_0_l n b : clmul n 0 b = 0.
Proof. induction n as [|n IH]; simpl; [done|]. by rewrite IH. Qed.

(** More coefficients than [a] has. *)
Lemma clmul_extend n k a b : a < 2 ^ N.of_nat n → clmul (n + k) a b = clmul n a b.
Proof.
  intros Ha. induction k as [|k IH]; [by rewrite Nat.add_0_r|].
  rewrite Nat.add_succ_r. simpl. rewrite IH, (testbit_high a (N.of_nat n)) by (done || lia).
  apply N.lxor_0_r.
Qed.

Lemma clmul_trunc n a b : clmul n (a mod 2 ^ N.of_nat n) b = clmul n a b.
Proof.
  apply clmul_ext. intros i Hi. rewrite testbit_mod. by rewrite (proj2 (N.ltb_lt _ _) Hi).
Qed.

Lemma clmul_double n q d : clmul (S n) (N.shiftl q 1) d = N.shiftl (clmul n q d) 1.
Proof.
  induction n as [|n IH]; [simpl; by rewrite testbit_shiftl|].
  change (clmul (S (S n)) ?a d) with
    (N.lxor (clmul (S n) a d) (if N.testbit a (N.of_nat (S n)) then N.shiftl d (N.of_nat (S n)) else 0)).
  rewrite IH. cbn [clmul]. rewrite N.shiftl_lxor. f_equal.
  rewrite testbit_shiftl. replace (N.of_nat (S n) - 1) with (N.of_nat n) by lia.
  rewrite (proj2 (N.ltb_ge (N.of_nat (S n)) 1)) by lia. simpl.
  destruct (N.testbit q (N.of_nat n)); [|by rewrite N.shiftl_0_l].
  rewrite N.shiftl_shiftl. f_equal. lia.
Qed.

(** Multiplying by a power of [x] is a shift. *)
Lemma clmul_pow n a m : a < 2 ^ N.of_nat n → clmul n a (N.shiftl 1 m) = N.shiftl a m.
Proof.
  revert a. induction n as [|n IH]; intros a Ha.
  { simpl in *. replace a with 0 by lia. by rewrite N.shiftl_0_l. }
  simpl. rewrite <- (clmul_trunc n a). rewrite IH by (apply N.mod_lt, N.pow_nonzero; lia).
  assert (N.of_nat (S n) = N.of_nat n + 1) as Hn by lia. rewrite Hn in Ha.
  destruct (N.testbit a (N.of_nat n)) eqn:E.
  - rewrite N.shiftl_shiftl, N.add_comm, <- N.shiftl_shiftl, <- N.shiftl_lxor. f_equal.
    apply N.bits_inj. intros j. autorewrite with nbits.
    destruct (N.lt_trichotomy j (N.of_nat n)) as [Hj|[->|Hj]].
    + rewrite !(proj2 (N.ltb_lt _ _) Hj). simpl. by rewrite xorb_false_r.
    + rewrite N.ltb_irrefl, N.sub_diag, E. done.
    + rewrite (proj2 (N.ltb_ge j (N.of_nat n))) by lia. cbn [negb andb].
      rewrite (testbit_high 1 1), (testbit_high a (N.of_nat n + 1)) by (done || lia). done.
  - rewrite N.lxor_0_r. f_equal. apply N.mod_small. by apply lt_pow2_pred.
Qed.

(** ** Congruence modulo a polynomial *)

(** The multiples of [d]. *)
Definition multiple (d x : N) : Prop := ∃ n q, x = clmul n q d.

Lemma multiple_0 d : multiple d 0.
Proof. by exists 0%nat, 0. Qed.

Lemma multiple_lxor d x y : multiple d x → multiple d y → multiple d (N.lxor x y).
Proof.
  intros (n & q & ->) (m & r & ->).
  exists (n + m)%nat, (N.lxor (q mod 2 ^ N.of_nat n) (r mod 2 ^ N.of_nat m)).
  rewrite clmul_lxor_l. f_equal.
  - rewrite clmul_extend by (apply N.mod_lt, N.pow_nonzero; lia). by rewrite clmul_trunc.
  - rewrite Nat.add_comm, clmul_extend by (apply N.mod_lt, N.pow_nonzero; lia). by rewrite clmul_trunc.
Qed.

Lemma multiple_shiftl d x n : multiple d x → multiple d (N.shiftl x n).
Proof.
  intros Hx. induction n as [|n IH] using N.peano_ind; [by rewrite N.shiftl_0_r|].
  rewrite <- N.add_1_r, <- N.shiftl_shiftl. destruct IH as (m & q & ->).
  exists (S m), (N.shiftl q 1). by rewrite clmul_double.
Qed.

Lemma multiple_self d : multiple d d.
Proof. exists 1%nat, 1. simpl. by rewrite N.shiftl_0_r, N.lxor_0_l. Qed.

(** A multiple of smaller degree is zero. *)
Lemma clmul_small n q d : d ≠ 0 → clmul n q d < 2 ^ N.log2 d → clmul n q d = 0.
Proof.
  intros Hd. assert (∀ m, clmul m q d < 2 ^ (N.log2 d + N.of_nat m)) as Hbound.
  { induction m as [|m IH]; simpl; [pose proof (N.pow_nonzero 2 (N.log2 d + 0)); lia|].
    apply lxor_lt; [apply (lt_pow2_mono _ _ _ IH); lia|].
    destruct (N.testbit q _); [|pose proof (N.pow_nonzero 2 (N.log2 d + N.pos (Pos.of_succ_nat m))); lia].
    eapply lt_pow2_mono; [apply shiftl_lt, lt_pow2_log2; done|lia]. }
  induction n as [|n IH]; [done|]. simpl. intros Hlt.
  destruct (N.testbit q (N.of_nat n)); [|rewrite N.lxor_0_r in *; by apply IH].
  exfalso. assert (N.testbit (N.lxor (clmul n q d) (N.shiftl d (N.of_nat n))) (N.log2 d + N.of_nat n) = true) as Hb.
  { rewrite N.lxor_spec, (testbit_high _ _ _ (Hbound n)) by lia. rewrite testbit_shiftl.
    rewrite (proj2 (N.ltb_ge _ _)) by lia. rewrite N.add_sub, N.bit_log2 by done. done. }
  by rewrite (testbit_high _ _ _ Hlt) in Hb by lia.
Qed.

Definition pequiv (d a b : N) : Prop := multiple d (N.lxor a b).

#[export] Instance pequiv_equiv d : Equivalence (pequiv d).
Proof.
  unfold pequiv. split.
  - intros a. rewrite N.lxor_nilpotent. apply multiple_0.
  - intros a b H. by rewrite N.lxor_comm.
  - intros a b c H1 H2. replace (N.lxor a c) with (N.lxor (N.lxor a b) (N.lxor b c)).
    + by apply multiple_lxor.
    + nbits. btauto.
Qed.

#[export] Instance lxor_proper d : Proper (pequiv d ==> pequiv d ==> pequiv d) N.lxor.
Proof.
  intros a a' Ha b b' Hb. unfold pequiv in *.
  replace (N.lxor (N.lxor a b) (N.lxor a' b')) with (N.lxor (N.lxor a a') (N.lxor b b')).
  - by apply multiple_lxor.
  - nbits. btauto.
Qed.

#[export] Instance shiftl_proper d : Proper (pequiv d ==> eq ==> pequiv d) N.shiftl.
Proof.
  intros a a' Ha n _ <-. unfold pequiv in *. rewrite <- N.shiftl_lxor. by apply multiple_shiftl.
Qed.

#[export] Instance clmul_proper d n a : Proper (pequiv d ==> pequiv d) (clmul n a).
Proof.
  intros b b' Hb. induction n as [|n IH]; simpl; [done|].
  apply lxor_proper; [done|]. destruct (N.testbit a _); [by apply shiftl_proper|done].
Qed.

(** Adding a multiple of the modulus changes nothing. *)
Lemma pequiv_add d a m : multiple d m → pequiv d (N.lxor a m) a.
Proof. intros Hm. unfold pequiv. replace (N.lxor (N.lxor a m) a) with m; [done|]. nbits. btauto. Qed.

(** Congruence modulo a multiple of [d]. *)
Lemma pequiv_shift d m a b : pequiv (N.shiftl d m) a b → pequiv d a b.
Proof.
  intros (n & q & Heq). unfold pequiv. rewrite Heq. clear Heq.
  induction n as [|n IH]; [apply multiple_0|]. simpl. apply multiple_lxor; [done|].
  destruct (N.testbit q _); [|apply multiple_0]. apply multiple_shiftl, multiple_shiftl, multiple_self.
Qed.

Lemma pequiv_unique d a b :
  d ≠ 0 → a < 2 ^ N.log2 d → b < 2 ^ N.log2 d → pequiv d a b → a = b.
Proof.
  intros Hd Ha Hb (n & q & Heq). apply N.lxor_eq. rewrite Heq. apply clmul_small; [done|].
  rewrite <- Heq. by apply lxor_lt.
Qed.
