(* ===== verification/Rabin.v ===== *)
(** Rabin fingerprints ([utils/rabin_checksum.cc]): the 128-by-64-bit reduction
    [polymod], the product [polymmult], the two lookup tables and the rolling
    checksum, with the theorem that rolling a 256-byte window by one byte is the
    fingerprint of the new window. *)
From S2P Require Import Prelude Bitops Gf2.
From Stdlib Require Import Setoid Morphisms Btauto.
Local Open Scope N_scope.

(** ** The code *)

Definition MSB64 : N := 0x8000000000000000.

Definition poly : N := 0xbfe6b8a5bf378d83.

(** [for (i = n - 1; i >= 0; i--) if (nh & 1 << i) ...] *)
Fixpoint polymod_high (n : nat) (d nh nl : N) : N * N :=
  match n with
  | O => (nh, nl)
  | S n' =>
      let i := N.of_nat n' in
      if negb (N.land nh (N.shiftl 1 i) =? 0)
      then polymod_high n' d (N.lxor nh (N.shiftr d (63 - i))) (N.lxor nl (u64n (N.shiftl d (i + 1))))
      else polymod_high n' d nh nl
  end.

(** [for (i = k + n - 1; i >= k; i--) if (nl & 1 << i) ...] *)
Fixpoint polymod_low (n : nat) (k d nl : N) : N :=
  match n with
  | O => nl
  | S n' =>
      let i := k + N.of_nat n' in
      polymod_low n' k d
        (if negb (N.land nl (N.shiftl 1 i) =? 0) then N.lxor nl (N.shiftr d (63 - i)) else nl)
  end.

Definition polymod (nh nl d : N) : N :=
  let k := fls64 d - 1 in
  let d := u64n (N.shiftl d (63 - k)) in
  let '(nh, nl) :=
    if negb (nh =? 0) then
      let nh := if negb (N.land nh MSB64 =? 0) then N.lxor nh d else nh in
      polymod_high 63 d nh nl
    else (nh, nl) in
  polymod_low (N.to_nat (64 - k)) k d nl.

(** The loop of [polymmult] over [i = 1 .. n], on the pair [(ph, pl)]. *)
Fixpoint polymmult_loop (n : nat) (x y : N) (p : N * N) : N * N :=
  match n with
  | O => p
  | S n' =>
      let '(ph, pl) := polymmult_loop n' x y p in
      let i := N.of_nat n in
      if negb (N.land x (N.shiftl 1 i) =? 0)
      then (N.lxor ph (N.shiftr y (64 - i)), N.lxor pl (u64n (N.shiftl y i)))
      else (ph, pl)
  end.

Definition polymmult (x y d : N) : N :=
  let pl := if negb (N.land x 1 =? 0) then y else 0 in
  let '(ph, pl) := polymmult_loop 63 x y (0, pl) in
  polymod ph pl d.

(** [T.at] checks its index. *)
Definition append8 (p m : N) (T : list N) : res N :=
  t ← deref OutOfRange (T !! N.to_nat (N.shiftr p (fls64 poly - 9)));
  Ok (N.lxor (N.lor (u64n (N.shiftl p 8)) m) t).

Definition calcT : list N :=
  let xshift := fls64 poly - 1 in
  let T1 := polymod 0 (N.shiftl 1 xshift) poly in
  (λ j, N.lor (polymmult (N.of_nat j) T1 poly) (u64n (N.shiftl (N.of_nat j) xshift))) <$> seq 0 256.

(** [n] rounds of [shift_size = append8(shift_size, 0, T)] *)
Fixpoint append_zeros (n : nat) (shift_size : N) (T : list N) : res N :=
  match n with
  | O => Ok shift_size
  | S n' => s ← append8 shift_size 0 T; append_zeros n' s T
  end.

Definition calcU (T : list N) : res (list N) :=
  shift_size ← append_zeros 255 1 T;
  Ok ((λ i, polymmult (N.of_nat i) shift_size poly) <$> seq 0 256).

(** The tables are [constexpr]: they are evaluated once, here as there. *)
Definition T : list N := Eval vm_compute in calcT.
Definition U : res (list N) := Eval vm_compute in calcU T.

Lemma T_calc : T = calcT.
Proof. vm_compute. reflexivity. Qed.
Lemma U_calc : U = calcU T.
Proof. vm_compute. reflexivity. Qed.

Definition rolling_checksum (csum : N) (c1 c2 : ascii) : res N :=
  U ← U;
  u ← deref (UB OutOfBounds) (U !! N.to_nat (N_of_ascii c1));
  append8 (N.lxor csum u) (N_of_ascii c2) T.

Fixpoint checksum_loop (sum : N) (buf : str) : res N :=
  match buf with
  | [] => Ok sum
  | c :: buf' => sum ← rolling_checksum sum zero c; checksum_loop sum buf'
  end.

Definition checksum (buf : str) : res N := checksum_loop 0 buf.

Example checksum_runs : checksum $"hi" = Ok (N.lxor (N.shiftl 104 8) 105).
Proof. vm_compute. reflexivity. Qed.

(** ** Reduction *)

Lemma land_bit a i : negb (N.land a (N.shiftl 1 i) =? 0) = N.testbit a i.
Proof.
  destruct (N.testbit a i) eqn:E.
  - apply negb_true_iff, N.eqb_neq. intros H.
    assert (N.testbit (N.land a (N.shiftl 1 i)) i = true) as Hb; [|by rewrite H, N.bits_0 in Hb].
    rewrite N.land_spec, E, testbit_shiftl, N.ltb_irrefl, N.sub_diag. done.
  - apply negb_false_iff, N.eqb_eq. apply N.bits_inj. intros j. autorewrite with nbits.
    destruct (N.ltb_spec j i) as [|Hj]; cbn [negb andb]; [by rewrite andb_false_r|].
    destruct (N.eq_dec j i) as [->|]; [by rewrite E|].
    by rewrite (testbit_high 1 1), andb_false_r by (done || lia).
Qed.

(** The 128-bit value the pair of words stands for. *)
Definition word128 (nh nl : N) : N := N.lxor (N.shiftl nh 64) nl.

Lemma word128_lxor a b c e : word128 (N.lxor a b) (N.lxor c e) = N.lxor (word128 a c) (word128 b e).
Proof. unfold word128. nbits; btauto. Qed.

Lemma word128_split d i : i <= 62 → word128 (N.shiftr d (63 - i)) (u64n (N.shiftl d (i + 1))) = N.shiftl d (i + 1).
Proof.
  intros Hi. unfold word128, u64n. nbits; rewrite ?xorb_false_l, ?xorb_false_r; try done; f_equal; lia.
Qed.

Section reduction.
Context (d : N) (Hd : N.log2 d = 63).
Local Notation "a ≡d b" := (pequiv d a b) (at level 70).

Lemma shiftr_top i : i <= 63 →
  N.shiftr d (63 - i) < 2 ^ (i + 1) ∧ N.testbit (N.shiftr d (63 - i)) i = true.
Proof.
  intros Hi. assert (d ≠ 0) as Hd0 by (intros ->; done). split.
  - apply shiftr_lt. replace (i + 1 + (63 - i)) with (N.log2 d + 1) by lia. by apply lt_pow2_log2.
  - rewrite N.shiftr_spec'. replace (i + (63 - i)) with (N.log2 d) by lia. by apply N.bit_log2.
Qed.

Lemma polymod_high_spec n nh nl :
  (n <= 63)%nat → nh < 2 ^ N.of_nat n → nl < 2 ^ 64 →
  ∃ nl', polymod_high n d nh nl = (0, nl') ∧ nl' < 2 ^ 64 ∧ nl' ≡d word128 nh nl.
Proof.
  revert nh nl. induction n as [|n IH]; intros nh nl Hn Hh Hl.
  { simpl in *. replace nh with 0 by lia. exists nl. split_and!; [done|done|].
    unfold word128. by rewrite N.shiftl_0_l, N.lxor_0_l. }
  cbn [polymod_high]. rewrite land_bit. replace (N.of_nat (S n)) with (N.of_nat n + 1) in Hh by lia.
  destruct (N.testbit nh (N.of_nat n)) eqn:E.
  - destruct (shiftr_top (N.of_nat n)) as [Ht1 Ht2]; [lia|].
    destruct (IH (N.lxor nh (N.shiftr d (63 - N.of_nat n)))
                (N.lxor nl (u64n (N.shiftl d (N.of_nat n + 1))))) as (nl' & Heq & Hlt & Hc).
    + lia.
    + by apply lxor_top.
    + apply lxor_lt; [done|]. by apply N.mod_lt.
    + exists nl'. split_and!; [done|done|]. rewrite Hc, word128_lxor, word128_split by lia.
      apply pequiv_add, multiple_shiftl, multiple_self.
  - apply IH; [lia|by apply lt_pow2_pred|done].
Qed.

Lemma polymod_high_phase nh nl :
  nh < 2 ^ 64 → nl < 2 ^ 64 →
  ∃ nl',
    (if negb (nh =? 0) then
       polymod_high 63 d (if negb (N.land nh MSB64 =? 0) then N.lxor nh d else nh) nl
     else (nh, nl)) = (0, nl') ∧ nl' < 2 ^ 64 ∧ nl' ≡d word128 nh nl.
Proof.
  intros Hh Hl. assert (d ≠ 0) as Hd0 by (intros ->; done).
  destruct (N.eqb_spec nh 0) as [->|Hnz]; cbn [negb].
  { exists nl. split_and!; [done|done|]. unfold word128. by rewrite N.shiftl_0_l, N.lxor_0_l. }
  change MSB64 with (N.shiftl 1 63). rewrite land_bit. destruct (N.testbit nh 63) eqn:E.
  - destruct (polymod_high_spec 63 (N.lxor nh d) nl) as (nl' & -> & Hlt & Hc); [lia| |done|].
    { pose proof (lt_pow2_log2 d Hd0) as Hlt. pose proof (N.bit_log2 d Hd0) as Hbit.
      rewrite Hd in Hlt, Hbit. by apply (lxor_top _ _ 63). }
    exists nl'. split_and!; [done|done|]. rewrite Hc.
    rewrite <- (N.lxor_0_r nl) at 1. rewrite word128_lxor. apply pequiv_add.
    unfold word128. rewrite N.lxor_0_r. apply multiple_shiftl, multiple_self.
  - destruct (polymod_high_spec 63 nh nl) as (nl' & -> & Hlt & Hc); [lia| |done|by exists nl'].
    by apply (lt_pow2_pred nh 63).
Qed.

(** [k] is the degree of the modulus before it is moved to the top of the word. *)
Lemma polymod_low_spec d0 k n nl :
  d = N.shiftl d0 (63 - k) → k + N.of_nat n <= 64 → nl < 2 ^ (k + N.of_nat n) →
  polymod_low n k d nl < 2 ^ k ∧ pequiv d0 (polymod_low n k d nl) nl.
Proof.
  intros Hd0. revert nl. induction n as [|n IH]; intros nl Hk Hl.
  { simpl in *. by rewrite N.add_0_r in Hl. }
  cbn [polymod_low]. rewrite land_bit. set (i := k + N.of_nat n).
  replace (k + N.of_nat (S n)) with (i + 1) in Hl by lia.
  destruct (N.testbit nl i) eqn:E; [|apply IH; [lia|by apply lt_pow2_pred]].
  destruct (shiftr_top i) as [Ht1 Ht2]; [lia|].
  destruct (IH (N.lxor nl (N.shiftr d (63 - i)))) as [Hlt Hc]; [lia|by apply lxor_top|].
  split; [done|]. rewrite Hc. apply pequiv_add.
  replace (N.shiftr d (63 - i)) with (N.shiftl d0 (i - k)); [apply multiple_shiftl, multiple_self|].
  rewrite Hd0. nbits; f_equal; lia.
Qed.
End reduction.

Lemma polymod_reduces nh nl d :
  0 < d < 2 ^ 64 → nh < 2 ^ 64 → nl < 2 ^ 64 →
  polymod nh nl d < 2 ^ N.log2 d ∧ pequiv d (polymod nh nl d) (word128 nh nl).
Proof.
  intros Hd Hh Hl. unfold polymod. rewrite fls64_log2 by lia.
  rewrite (proj2 (N.eqb_neq d 0)) by lia. rewrite N.add_sub. set (k := N.log2 d).
  assert (k < 64) by (apply N.log2_lt_pow2; lia).
  assert (u64n (N.shiftl d (63 - k)) = N.shiftl d (63 - k)) as ->.
  { unfold u64n. apply N.mod_small. replace 64 with (k + 1 + (63 - k)) by lia.
    apply shiftl_lt, lt_pow2_log2. lia. }
  set (d' := N.shiftl d (63 - k)).
  assert (N.log2 d' = 63) as Hd' by (unfold d'; rewrite N.log2_shiftl; lia).
  destruct (polymod_high_phase d' Hd' nh nl Hh Hl) as (nl' & -> & Hlt & Hc).
  apply pequiv_shift in Hc.
  destruct (polymod_low_spec d' Hd' d k (N.to_nat (64 - k)) nl') as [Hlt' Hc'].
  - done.
  - lia.
  - by replace (k + N.of_nat (N.to_nat (64 - k))) with 64 by lia.
  - split; [done|]. by rewrite Hc'.
Qed.

(** ** Product *)

Lemma word128_product y i : 1 <= i <= 63 → y < 2 ^ 64 →
  word128 (N.shiftr y (64 - i)) (u64n (N.shiftl y i)) = N.shiftl y i.
Proof.
  intros Hi Hy. unfold word128, u64n. nbits; rewrite ?xorb_false_l, ?xorb_false_r; try done; f_equal; lia.
Qed.

Lemma polymmult_loop_spec n x y :
  (n <= 63)%nat → y < 2 ^ 64 →
  let '(ph, pl) := polymmult_loop n x y (0, if negb (N.land x 1 =? 0) then y else 0) in
  ph < 2 ^ 64 ∧ pl < 2 ^ 64 ∧ word128 ph pl = clmul (S n) x y.
Proof.
  intros Hn Hy. assert (negb (N.land x 1 =? 0) = N.testbit x 0) as -> by apply (land_bit x 0).
  induction n as [|n IH].
  - cbn [polymmult_loop clmul]. unfold word128.
    rewrite N.shiftl_0_l, !N.lxor_0_l. change (N.of_nat 0) with 0. rewrite N.shiftl_0_r.
    destruct (N.testbit x 0); done.
  - cbn [polymmult_loop]. specialize (IH ltac:(lia)).
    destruct (polymmult_loop n x y _) as [ph pl]. destruct IH as (Hh & Hl & Hw).
    change (clmul (S (S n)) x y) with
      (N.lxor (clmul (S n) x y) (if N.testbit x (N.of_nat (S n)) then N.shiftl y (N.of_nat (S n)) else 0)).
    rewrite <- Hw, land_bit. destruct (N.testbit x (N.of_nat (S n))); [|by rewrite N.lxor_0_r].
    split_and!.
    + apply lxor_lt; [done|]. apply (lt_pow2_mono _ (N.of_nat (S n))); [|lia].
      apply shiftr_lt. by replace (N.of_nat (S n) + (64 - N.of_nat (S n))) with 64 by lia.
    + apply lxor_lt; [done|]. by apply N.mod_lt.
    + rewrite word128_lxor, word128_product; [done|lia|done].
Qed.

Lemma polymmult_multiplies x y d :
  0 < d < 2 ^ 64 → y < 2 ^ 64 →
  polymmult x y d < 2 ^ N.log2 d ∧ pequiv d (polymmult x y d) (clmul 64 x y).
Proof.
  intros Hd Hy. unfold polymmult. pose proof (polymmult_loop_spec 63 x y ltac:(lia) Hy) as H.
  destruct (polymmult_loop 63 x y _) as [ph pl]. destruct H as (Hh & Hl & <-).
  by apply polymod_reduces.
Qed.

(** ** The tables *)

Local Notation "a ≡P b" := (pequiv poly a b) (at level 70).

Lemma log2_poly : N.log2 poly = 63.
Proof. reflexivity. Qed.

#[local] Opaque T U.
Arguments append8 : simpl never.
Arguments rolling_checksum : simpl never.

(** A fingerprint: a remainder modulo [poly]. *)
Definition reduced (r : N) : Prop := r < 2 ^ 63.

Lemma reduced_unique a b : reduced a → reduced b → a ≡P b → a = b.
Proof. intros Ha Hb. by apply pequiv_unique. Qed.

Lemma polymmult_poly x y : y < 2 ^ 64 → reduced (polymmult x y poly) ∧ polymmult x y poly ≡P clmul 64 x y.
Proof. intros Hy. by apply (polymmult_multiplies x y poly). Qed.

Definition T1 : N := polymod 0 (N.shiftl 1 63) poly.

Lemma T1_spec : reduced T1 ∧ T1 ≡P N.shiftl 1 63.
Proof. by apply (polymod_reduces 0 (N.shiftl 1 63) poly). Qed.

Lemma T_lookup (j : nat) :
  (j < 256)%nat →
  T !! j = Some (N.lor (polymmult (N.of_nat j) T1 poly) (u64n (N.shiftl (N.of_nat j) 63))).
Proof.
  intros Hj. rewrite T_calc. unfold calcT. rewrite list_lookup_fmap, lookup_seq_lt by done. done.
Qed.

(** The product in a table entry is congruent to the shifted index. *)
Lemma polymmult_shift j y m :
  j < 256 → y < 2 ^ 64 → y ≡P N.shiftl 1 m → polymmult j y poly ≡P N.shiftl j m.
Proof.
  intros Hj Hy Hc. destruct (polymmult_poly j y Hy) as [_ ->]. rewrite Hc.
  rewrite clmul_pow; [done|]. by apply (lt_pow2_mono j 8).
Qed.

Lemma append8_bits p m t :
  reduced p → m < 256 → reduced t →
  N.lxor (N.lor (u64n (N.shiftl p 8)) m) (N.lor t (u64n (N.shiftl (N.shiftr p 55) 63))) =
    N.lxor (N.lxor (N.shiftl (p mod 2 ^ 55) 8) m) t.
Proof.
  unfold reduced, u64n. intros Hp Hm Ht. apply N.bits_inj. intros j. autorewrite with nbits.
  assert (∀ i, 63 <= i → N.testbit p i = false) as Hpi by (intros; by apply (testbit_high p 63)).
  assert (8 <= j → N.testbit m j = false) as Hmj by (intros; by apply (testbit_high m 8)).
  assert (63 <= j → N.testbit t j = false) as Htj by (intros; by apply (testbit_high t 63)).
  nbits_cases; rewrite ?Hmj, ?Htj, ?Hpi by lia; rewrite ?orb_false_r, ?xorb_false_r; try done; try lia.
  replace (j - 63 + 55) with (j - 8) by lia. by destruct (N.testbit p (j - 8)).
Qed.

Lemma append8_spec p m :
  reduced p → m < 256 →
  ∃ r, append8 p m T = Ok r ∧ reduced r ∧ r ≡P N.lxor (N.shiftl p 8) m.
Proof.
  intros Hp Hm. unfold append8. change (fls64 poly - 9) with 55. set (j := N.shiftr p 55).
  assert (j < 2 ^ 8) as Hj by by apply shiftr_lt.
  rewrite T_lookup by lia. rewrite N2Nat.id. simpl deref. destruct T1_spec as [HT1 HT1'].
  assert (T1 < 2 ^ 64) as HT64 by by apply (lt_pow2_mono T1 63).
  destruct (polymmult_poly j T1 HT64) as [Hr _]. pose proof (polymmult_shift j T1 63 Hj HT64 HT1') as Hc.
  set (t := polymmult j T1 poly) in *. eexists. split; [reflexivity|].
  rewrite append8_bits by done. split.
  - unfold reduced in *. repeat apply lxor_lt; [|by apply (lt_pow2_mono m 8)|done].
    apply (shiftl_lt _ 55 8). by apply N.mod_lt.
  - rewrite Hc. apply reflexive_eq. apply N.bits_inj. intros i. autorewrite with nbits. unfold j.
    autorewrite with nbits. nbits_cases; try lia; rewrite ?xorb_false_l, ?xorb_false_r; try done.
    replace (i - 63 + 55) with (i - 8) by lia. destruct (N.testbit p (i - 8)), (N.testbit m i); done.
Qed.

Lemma append_zeros_spec n s :
  reduced s → ∃ r, append_zeros n s T = Ok r ∧ reduced r ∧ r ≡P N.shiftl s (8 * N.of_nat n).
Proof.
  revert s. induction n as [|n IH]; intros s Hs; cbn [append_zeros].
  { exists s. by rewrite N.shiftl_0_r. }
  destruct (append8_spec s 0 Hs) as (r & -> & Hr & Hc); [done|]. simpl.
  destruct (IH r Hr) as (r' & -> & Hr' & Hc'). exists r'. split_and!; [done|done|].
  rewrite Hc', Hc, N.lxor_0_r, N.shiftl_shiftl. apply reflexive_eq. f_equal. lia.
Qed.

Lemma U_lookup : ∃ Us s, U = Ok Us ∧ s < 2 ^ 64 ∧ s ≡P N.shiftl 1 2040 ∧
  ∀ i, (i < 256)%nat → Us !! i = Some (polymmult (N.of_nat i) s poly).
Proof.
  rewrite U_calc. unfold calcU. destruct (append_zeros_spec 255 1) as (s & -> & Hs & Hc); [done|].
  eexists _, s. split_and!; [reflexivity|by apply (lt_pow2_mono s 63)|done|].
  intros i Hi. rewrite list_lookup_fmap, lookup_seq_lt by done. done.
Qed.

Lemma N_of_ascii_lt c : N_of_ascii c < 256.
Proof. apply N_ascii_bounded. Qed.

Lemma rolling_spec csum c1 c2 :
  reduced csum →
  ∃ r, rolling_checksum csum c1 c2 = Ok r ∧ reduced r ∧
    r ≡P N.lxor (N.shiftl (N.lxor csum (N.shiftl (N_of_ascii c1) 2040)) 8) (N_of_ascii c2).
Proof.
  intros Hs. unfold rolling_checksum. destruct U_lookup as (Us & s & -> & Hs64 & Hc & HU).
  pose proof (N_of_ascii_lt c1). pose proof (N_of_ascii_lt c2). simpl.
  rewrite HU by lia. rewrite N2Nat.id. simpl.
  destruct (polymmult_poly (N_of_ascii c1) s Hs64) as [Hu _].
  destruct (append8_spec (N.lxor csum (polymmult (N_of_ascii c1) s poly)) (N_of_ascii c2))
    as (r & -> & Hr & Hrc); [by apply lxor_lt|done|].
  exists r. split_and!; [done|done|]. rewrite Hrc.
  apply lxor_proper, reflexivity. apply shiftl_proper, eq_refl. apply lxor_proper; [reflexivity|].
  apply polymmult_shift; assumption.
Qed.

(** The polynomial a byte string stands for, first byte first. *)
Definition str_poly (buf : str) : N := foldl (λ s c, N.lxor (N.shiftl s 8) (N_of_ascii c)) 0 buf.

Lemma str_poly_snoc w c : str_poly (w ++ [c]) = N.lxor (N.shiftl (str_poly w) 8) (N_of_ascii c).
Proof. unfold str_poly. by rewrite foldl_app. Qed.

Lemma str_poly_cons b w :
  str_poly (b :: w) = N.lxor (N.shiftl (N_of_ascii b) (8 * N.of_nat (length w))) (str_poly w).
Proof.
  induction w as [|c w IH] using rev_ind.
  { simpl. unfold str_poly. simpl. by rewrite N.lxor_0_r, N.shiftl_0_r. }
  change (b :: w ++ [c]) with ((b :: w) ++ [c]). rewrite !str_poly_snoc, IH, N.shiftl_lxor.
  rewrite N.lxor_assoc, N.shiftl_shiftl, length_app. do 3 f_equal. simpl. lia.
Qed.

Lemma checksum_loop_spec sum buf :
  reduced sum → ∃ r, checksum_loop sum buf = Ok r ∧ reduced r ∧
    r ≡P foldl (λ s c, N.lxor (N.shiftl s 8) (N_of_ascii c)) sum buf.
Proof.
  intros Hs. assert (∀ t, sum ≡P t → ∃ r, checksum_loop sum buf = Ok r ∧ reduced r ∧
    r ≡P foldl (λ s c, N.lxor (N.shiftl s 8) (N_of_ascii c)) t buf) as H; [|by apply H].
  revert sum Hs. induction buf as [|c buf IH]; intros sum Hs t Ht; simpl; [by exists sum|].
  destruct (rolling_spec sum zero c Hs) as (r & -> & Hr & Hc). simpl.
  apply IH; [done|]. rewrite Hc. change (N_of_ascii zero) with 0. rewrite N.shiftl_0_l, N.lxor_0_r.
  by rewrite Ht.
Qed.

Lemma checksum_ok buf : ∃ r, checksum buf = Ok r ∧ reduced r ∧ r ≡P str_poly buf.
Proof. by apply checksum_loop_spec. Qed.

(** ** Properties *)

(** On 64-bit words and a non-zero modulus, [polymod] is the remainder of the
    128-bit polynomial [nh * x^64 + nl] by [d]: of degree below the degree of [d],
    and congruent to it modulo [d]. *)
Theorem polymod_spec nh nl d :
  0 < d < 2 ^ 64 → nh < 2 ^ 64 → nl < 2 ^ 64 →
  polymod nh nl d < 2 ^ N.log2 d ∧ pequiv d (polymod nh nl d) (N.lxor (N.shiftl nh 64) nl).
Proof. apply polymod_reduces. Qed.

Lemma polymod_spec_witness : polymod 5 0xffff 0x1b < 2 ^ 4.
Proof. apply (polymod_spec 5 0xffff 0x1b); by_decide. Defined.

(** C27: [checksum] never indexes its table out of range and returns the remainder of
    the string, read as a polynomial with byte coefficients, modulo [poly]: the only
    number below [2^63] congruent to it. *)
Theorem checksum_spec buf r :
  checksum buf = Ok r ↔ r < 2 ^ 63 ∧ pequiv poly r (str_poly buf).
Proof.
  destruct (checksum_ok buf) as (r' & -> & Hr' & Hc'). split; [intros [= <-]; done|].
  intros [Hr Hc]. f_equal. apply reduced_unique; [done|done|]. by rewrite Hc, Hc'.
Qed.

(** Rolling the fingerprint of a 256-byte window [b :: w] by moving [b] out and
    [c] in gives the fingerprint of the window [w ++ [c]]. *)
Lemma rolling_step b w c s :
  length w = 255%nat → checksum (b :: w) = Ok s →
  rolling_checksum s b c = checksum (w ++ [c]).
Proof.
  intros Hw. destruct (checksum_ok (b :: w)) as (s' & -> & Hs & Hc). intros [= ->].
  destruct (rolling_spec s b c Hs) as (r & -> & Hr & Hrc).
  destruct (checksum_ok (w ++ [c])) as (r' & -> & Hr' & Hrc'). f_equal.
  apply reduced_unique; [done|done|]. rewrite Hrc, Hrc', str_poly_snoc, Hc, str_poly_cons, Hw.
  change (8 * N.of_nat 255) with 2040. apply reflexive_eq. do 2 f_equal.
  rewrite (N.lxor_comm (N.shiftl _ _)), N.lxor_assoc, N.lxor_nilpotent. apply N.lxor_0_r.
Qed.

(** The window moved over an input, byte by byte; [w] is what is in it. *)
Fixpoint roll_over (w : str) (input : str) (sum : N) : res N :=
  match input, w with
  | [], _ => Ok sum
  | c :: input', b :: w' => sum ← rolling_checksum sum b c; roll_over (w' ++ [c]) input' sum
  | _ :: _, [] => Raise (UB OutOfBounds)
  end.

(** C4: moving a 256-byte window over an input of any length, one [rolling_checksum] per byte,
    gives the [checksum] of the last 256 bytes, whatever came before them. *)
Theorem rolling_checksum_window w input s :
  length w = 256%nat → checksum w = Ok s →
  roll_over w input s = checksum (drop (length input) (w ++ input)).
Proof.
  revert w s. induction input as [|c input IH]; intros [|b w] s Hw Hs; [done|by rewrite app_nil_r|done|].
  simpl. injection Hw as Hw. pose proof (rolling_step b w c s Hw Hs) as Hr.
  destruct (checksum_ok (w ++ [c])) as (r & Hc & _). rewrite Hc in Hr. rewrite Hr. simpl.
  rewrite (IH _ r); [by rewrite <- app_assoc|by rewrite length_app, Hw|done].
Qed.

Lemma rolling_checksum_window_witness :
  ∃ s, checksum (replicate 256 "a"%char) = Ok s ∧
    roll_over (replicate 256 "a"%char) $"bcd" s = checksum (replicate 253 "a"%char ++ $"bcd").
Proof.
  destruct (is_ok_inv (checksum (replicate 256 "a"%char))) as [s Hs]; [vm_compute; reflexivity|].
  exists s. split; [exact Hs|]. exact (rolling_checksum_window (replicate 256 "a"%char) $"bcd" s eq_refl Hs).
Defined.
