(* ===== verification/Regex.v ===== *)
(** Regular expressions as [std::regex_match] uses them: a pattern without back
    references matches a whole string exactly when the string is in the language of
    the pattern.  [matches] decides it by derivatives; [matches_lang] relates it to
    the inductive language. *)
From S2P Require Import Prelude.

Inductive regex :=
  | Void
  | Eps
  | Cls (p : ascii → bool)
  | Seq (r1 r2 : regex)
  | Alt (r1 r2 : regex)
  | Star (r : regex).

Inductive lang : regex → str → Prop :=
  | lang_eps : lang Eps []
  | lang_cls p c : p c = true → lang (Cls p) [c]
  | lang_seq r1 r2 s1 s2 : lang r1 s1 → lang r2 s2 → lang (Seq r1 r2) (s1 ++ s2)
  | lang_alt_l r1 r2 s : lang r1 s → lang (Alt r1 r2) s
  | lang_alt_r r1 r2 s : lang r2 s → lang (Alt r1 r2) s
  | lang_star_nil r : lang (Star r) []
  | lang_star_cons r s1 s2 : lang r s1 → lang (Star r) s2 → lang (Star r) (s1 ++ s2).

Create HintDb regex.
#[export] Hint Constructors lang : regex.

(** ** Matching *)

Fixpoint nullable (r : regex) : bool :=
  match r with
  | Void | Cls _ => false
  | Eps | Star _ => true
  | Seq r1 r2 => nullable r1 && nullable r2
  | Alt r1 r2 => nullable r1 || nullable r2
  end.

(** Constructors that drop [Void], to keep derivatives small. *)
Definition seq_ (r1 r2 : regex) : regex :=
  match r1 with Void => Void | Eps => r2 | _ => Seq r1 r2 end.
Definition alt_ (r1 r2 : regex) : regex :=
  match r1, r2 with Void, r => r | r, Void => r | _, _ => Alt r1 r2 end.

Fixpoint deriv (c : ascii) (r : regex) : regex :=
  match r with
  | Void | Eps => Void
  | Cls p => if p c then Eps else Void
  | Seq r1 r2 =>
      let d := seq_ (deriv c r1) r2 in
      if nullable r1 then alt_ d (deriv c r2) else d
  | Alt r1 r2 => alt_ (deriv c r1) (deriv c r2)
  | Star r' => seq_ (deriv c r') (Star r')
  end.

Fixpoint matches (r : regex) (s : str) : bool :=
  match s with
  | [] => nullable r
  | c :: s' => matches (deriv c r) s'
  end.

(** ** Correctness of the matcher *)

Lemma lang_seq_inv r1 r2 s : lang (Seq r1 r2) s ↔ ∃ s1 s2, s = s1 ++ s2 ∧ lang r1 s1 ∧ lang r2 s2.
Proof.
  split; [inversion 1; subst; eauto|]. intros (s1 & s2 & -> & ? & ?). eauto with regex.
Qed.

Lemma lang_alt_inv r1 r2 s : lang (Alt r1 r2) s ↔ lang r1 s ∨ lang r2 s.
Proof. split; [inversion 1; subst; eauto|]. intros [?|?]; eauto with regex. Qed.

Lemma lang_void s : ¬ lang Void s.
Proof. inversion 1. Qed.

Lemma lang_seq_ r1 r2 s : lang (seq_ r1 r2) s ↔ lang (Seq r1 r2) s.
Proof.
  destruct r1; simpl; try done; rewrite lang_seq_inv.
  - split; [by intros ?%lang_void|]. by intros (? & ? & ? & ?%lang_void & ?).
  - split; [intros; exists [], s; eauto with regex|].
    intros (s1 & s2 & -> & H1 & H2). by inversion H1; subst.
Qed.

Lemma lang_alt_ r1 r2 s : lang (alt_ r1 r2) s ↔ lang (Alt r1 r2) s.
Proof.
  rewrite lang_alt_inv.
  assert (∀ r, lang r s ↔ lang Void s ∨ lang r s) as Hl by (intros; pose proof (lang_void s); tauto).
  assert (∀ r, lang r s ↔ lang r s ∨ lang Void s) as Hr by (intros; pose proof (lang_void s); tauto).
  destruct r1; simpl; [apply Hl|..]; destruct r2; try apply Hr; rewrite lang_alt_inv; done.
Qed.

Lemma nullable_lang r : nullable r = true ↔ lang r [].
Proof.
  induction r as [| |p|r1 IH1 r2 IH2|r1 IH1 r2 IH2|r IH]; simpl.
  - split; [done|by intros ?%lang_void].
  - split; eauto with regex.
  - split; [done|inversion 1].
  - rewrite andb_true_iff, IH1, IH2, lang_seq_inv. split; [intros []; exists [], []; done|].
    intros (s1 & s2 & Heq & ? & ?). symmetry in Heq. apply app_eq_nil in Heq as [-> ->]. done.
  - by rewrite orb_true_iff, IH1, IH2, lang_alt_inv.
  - split; eauto with regex.
Qed.

Lemma lang_star_cons_inv r c s :
  lang (Star r) (c :: s) ↔ ∃ s1 s2, s = s1 ++ s2 ∧ lang r (c :: s1) ∧ lang (Star r) s2.
Proof.
  split.
  - intros H. remember (Star r) as r' eqn:Er. remember (c :: s) as t eqn:Et.
    induction H as [| | | | | |r0 s1 s2 H1 _ H2 IH]; simplify_eq.
    destruct s1 as [|x s1]; simplify_eq/=; [by apply IH|]. eauto.
  - intros (s1 & s2 & -> & ? & ?). change (c :: s1 ++ s2) with ((c :: s1) ++ s2). eauto with regex.
Qed.

Lemma deriv_lang c r s : lang (deriv c r) s ↔ lang r (c :: s).
Proof.
  revert s. induction r as [| |p|r1 IH1 r2 IH2|r1 IH1 r2 IH2|r IH]; intros s; simpl.
  - split; by intros ?%lang_void.
  - split; [by intros ?%lang_void|inversion 1].
  - destruct (p c) eqn:E.
    + split; [inversion 1; by constructor|inversion 1; constructor].
    + split; [by intros ?%lang_void|inversion 1; congruence].
  - assert (lang (seq_ (deriv c r1) r2) s ↔ ∃ s1 s2, s = s1 ++ s2 ∧ lang r1 (c :: s1) ∧ lang r2 s2) as Hseq.
    { rewrite lang_seq_, lang_seq_inv. by setoid_rewrite IH1. }
    rewrite (lang_seq_inv r1 r2).
    trans ((∃ s1 s2, s = s1 ++ s2 ∧ lang r1 (c :: s1) ∧ lang r2 s2) ∨ (nullable r1 = true ∧ lang r2 (c :: s))).
    { destruct (nullable r1); [rewrite lang_alt_, lang_alt_inv, Hseq, IH2; naive_solver|].
      rewrite Hseq. naive_solver. }
    rewrite nullable_lang. split.
    + intros [(s1 & s2 & -> & ? & ?)|[? ?]]; [by exists (c :: s1), s2|by exists [], (c :: s)].
    + intros ([|x s1] & s2 & ? & ? & ?); simplify_eq/=; [by right|left; eauto].
  - by rewrite lang_alt_, !lang_alt_inv, IH1, IH2.
  - rewrite lang_seq_, lang_seq_inv, lang_star_cons_inv. by setoid_rewrite IH.
Qed.

Lemma matches_lang r s : matches r s = true ↔ lang r s.
Proof.
  revert r. induction s as [|c s IH]; intros r; simpl; [apply nullable_lang|].
  by rewrite IH, deriv_lang.
Qed.

(** ** Pattern syntax *)

(** [r{n}], [r{n,m}], [r?], [r+], literals and character ranges *)
Fixpoint rep (n : nat) (r : regex) : regex :=
  match n with O => Eps | S n' => Seq r (rep n' r) end.
Definition opt (r : regex) : regex := Alt Eps r.
Fixpoint upto (n : nat) (r : regex) : regex :=
  match n with O => Eps | S n' => opt (Seq r (upto n' r)) end.
Definition rep_range (n m : nat) (r : regex) : regex := Seq (rep n r) (upto (m - n) r).
Definition plus (r : regex) : regex := Seq r (Star r).
Definition chr (c : ascii) : regex := Cls (λ x, bool_decide (x = c)).
Fixpoint lit (s : str) : regex := match s with [] => Eps | c :: s' => Seq (chr c) (lit s') end.
Definition range (a b : ascii) (x : ascii) : bool :=
  bool_decide (byte_of a <= byte_of x <= byte_of b)%Z.
Definition alts (rs : list regex) : regex := foldr Alt Void rs.

Lemma lang_plus_cls p s : s ≠ [] → Forall (λ c, p c = true) s → lang (plus (Cls p)) s.
Proof.
  intros Hne H. destruct H as [|c s Hc H]; [done|]. change (c :: s) with ([c] ++ s).
  constructor; [by constructor|]. clear Hc Hne. induction H as [|d s Hd H IH]; [constructor|].
  change (d :: s) with ([d] ++ s). constructor; [by constructor|done].
Qed.

Lemma lang_plus_cls_inv p s : lang (plus (Cls p)) s → s ≠ [] ∧ Forall (λ c, p c = true) s.
Proof.
  assert (∀ t, lang (Star (Cls p)) t → Forall (λ c, p c = true) t) as Hstar.
  { intros t. induction t as [|c t IH]; [constructor|].
    intros (s1 & s2 & -> & Hc & Hs)%lang_star_cons_inv. inversion Hc; subst.
    constructor; [done|by apply IH]. }
  intros (s1 & s2 & -> & Hc & Hs)%lang_seq_inv. inversion Hc; subst. split; [done|].
  constructor; [done|by apply Hstar].
Qed.
