(* ===== verification/IPAddress.v ===== *)
(** Peer addresses ([utils/ip_address.h], class [IPAddress]): construction from text
    by the two regular expressions of the header, construction from a socket
    address, printing and comparison. *)
From S2P Require Import Prelude CxxString Regex.
Local Open Scope Z_scope.

(** ** The patterns *)

Definition digit_re : regex := Cls isdigit.

(** [25[0-5]|2[0-4]\d|[0-1]?\d{1,2}] *)
Definition ipv4_octet : regex :=
  alts [Seq (lit $"25") (Cls (range "0" "5"));
        Seq (lit $"2") (Seq (Cls (range "0" "4")) digit_re);
        Seq (opt (Cls (range "0" "1"))) (rep_range 1 2 digit_re)].

Definition IPV4_PATTERN : regex :=
  Seq ipv4_octet (Seq (rep 3 (Seq (lit $".") ipv4_octet)) (Seq (lit $":") (plus digit_re))).

Definition hex_re : regex := Cls (λ c, range "0" "9" c || range "a" "f" c || range "A" "F" c).
Definition alnum_re : regex := Cls (λ c, range "0" "9" c || range "a" "z" c || range "A" "Z" c).
Definition h16 : regex := rep_range 1 4 hex_re.
Definition h16_colon : regex := Seq h16 (lit $":").
Definition colon_h16 : regex := Seq (lit $":") h16.

(** [25[0-5]|(2[0-4]|1{0,1}[0-9]){0,1}[0-9]] *)
Definition ipv6_octet : regex :=
  Alt (Seq (lit $"25") (Cls (range "0" "5")))
      (Seq (opt (Alt (Seq (lit $"2") (Cls (range "0" "4"))) (Seq (opt (lit $"1")) digit_re))) digit_re).
Definition ipv6_dotted : regex := Seq (rep 3 (Seq ipv6_octet (lit $"."))) ipv6_octet.

Definition IPV6_PATTERN : regex :=
  Seq (alts
    [Seq (rep 7 h16_colon) h16;
     Seq (rep_range 1 7 h16_colon) (lit $":");
     Seq (rep_range 1 6 h16_colon) (Seq (lit $":") h16);
     Seq (rep_range 1 5 h16_colon) (rep_range 1 2 colon_h16);
     Seq (rep_range 1 4 h16_colon) (rep_range 1 3 colon_h16);
     Seq (rep_range 1 3 h16_colon) (rep_range 1 4 colon_h16);
     Seq (rep_range 1 2 h16_colon) (rep_range 1 5 colon_h16);
     Seq h16_colon (rep_range 1 6 colon_h16);
     Seq (lit $":") (Alt (rep_range 1 7 colon_h16) (lit $":"));
     Seq (lit $"fe80:") (Seq (rep_range 0 4 (Seq (lit $":") (rep_range 0 4 hex_re)))
       (Seq (lit $"%") (plus alnum_re)));
     Seq (lit $"::") (Seq (opt (Seq (lit $"ffff") (Seq (opt (Seq (lit $":") (rep_range 1 4 (lit $"0")))) (lit $":"))))
       ipv6_dotted);
     Seq (rep_range 1 4 h16_colon) (Seq (lit $":") ipv6_dotted)])
    (Seq (lit $":") (plus digit_re)).

(** ** The class *)

Record IPAddress := mkIPAddress { _valid : bool; _port_number : Z; _ip_address_str : str }.

#[global] Instance IPAddress_eq_dec : EqDecision IPAddress.
Proof. solve_decision. Defined.

Definition COLON : ascii := ":"%char.

(** [IPAddress(const std::string&)] *)
Definition IPAddress_of_string (ip_string : str) : res IPAddress :=
  if matches IPV4_PATTERN ip_string || matches IPV6_PATTERN ip_string then
    let location := find COLON 0 ip_string in
    ip_address_str ← substr ip_string 0 location;
    port_str ← substr ip_string (npos_succ location) (Some (length ip_string));
    port_number ← stoi port_str;
    Ok (mkIPAddress true (u16 port_number) ip_address_str)
  else Ok (mkIPAddress false 0 []).

Definition IPAddress_copy (src : IPAddress) : IPAddress :=
  mkIPAddress (_valid src) (_port_number src) (_ip_address_str src).

Definition valid (ip : IPAddress) : bool := _valid ip.
Definition port (ip : IPAddress) : Z := _port_number ip.
Definition ip_address (ip : IPAddress) : str := _ip_address_str ip.

(** [operator<<] and [operator==] *)
Definition IPAddress_print (dt : IPAddress) : str :=
  _ip_address_str dt ++ $":" ++ show_dec (_port_number dt).
Definition IPAddress_eqb (a b : IPAddress) : bool :=
  bool_decide (_port_number a = _port_number b) && bool_decide (_ip_address_str a = _ip_address_str b).

(** *** Construction from a socket address *)

Record sockaddr_in := mkSockaddr { sin_family : Z; sin_addr : Z }.

Definition AF_INET : Z := 2.
Definition AF_INET6 : Z := 10.

Section socket.
(** [inet_ntop(family, addr, dst, 20)]: the text it writes, if it succeeds. *)
Context (inet_ntop : Z → Z → Z → option str).

(** [char sip[socket_in->sin_family]] is as long as the number of the address family;
    [inet_ntop] writes its text and the terminating zero there.  When it fails the
    buffer is read uninitialised. *)
Definition IPAddress_of_sockaddr (socket_in : sockaddr_in) (port : Z) : res IPAddress :=
  let port_number := u16 port in
  if bool_decide (sin_family socket_in = AF_INET) || bool_decide (sin_family socket_in = AF_INET6) then
    match inet_ntop (sin_family socket_in) (sin_addr socket_in) 20 with
    | Some text =>
        if bool_decide (Z.of_nat (length text) + 1 <= sin_family socket_in)
        then Ok (mkIPAddress true port_number text)
        else Raise (UB OutOfBounds)
    | None => Raise (UB Uninitialized)
    end
  else Ok (mkIPAddress false port_number []).
End socket.

Example ip_addr_normal :
  IPAddress_of_string $"100.100.100.1:1234" = Ok (mkIPAddress true 1234 $"100.100.100.1").
Proof. vm_compute. reflexivity. Qed.
Example ip_addr_not_valid :
  (λ s, _valid <$> IPAddress_of_string s) <$>
    [$"2990.100.100.1:1234"; $"1.00.100.1.1:1234"; $"1.1.9999999999999.1:1234"; $"1.1.100.1:";
     $"not valid string"; []; $"1avc.123.das.sd1:asd"] = replicate 7 (Ok false).
Proof. vm_compute. reflexivity. Qed.

(** ** Dotted quads are recognised *)

Definition dotted (a b c d : Z) : str :=
  show_dec a ++ $"." ++ show_dec b ++ $"." ++ show_dec c ++ $"." ++ show_dec d.

Lemma octet_lang a : 0 <= a < 256 → lang ipv4_octet (show_dec a).
Proof.
  intros. apply matches_lang.
  below 256 (λ a, bool_decide (matches ipv4_octet (show_dec a) = true)) a.
Qed.

Lemma lit_lang s : lang (lit s) s.
Proof.
  induction s as [|c s IH]; simpl; [constructor|]. change (c :: s) with ([c] ++ s).
  constructor; [|done]. constructor. by apply bool_decide_eq_true.
Qed.

Lemma ipv4_lang a b c d ds :
  0 <= a < 256 → 0 <= b < 256 → 0 <= c < 256 → 0 <= d < 256 →
  ds ≠ [] → Forall (λ x, isdigit x = true) ds →
  lang IPV4_PATTERN (dotted a b c d ++ COLON :: ds).
Proof.
  intros. unfold IPV4_PATTERN, dotted.
  replace ((show_dec a ++ $"." ++ show_dec b ++ $"." ++ show_dec c ++ $"." ++ show_dec d) ++ COLON :: ds)
    with (show_dec a ++ (($"." ++ show_dec b) ++ ($"." ++ show_dec c) ++ ($"." ++ show_dec d) ++ []) ++ $":" ++ ds)
    by (rewrite !app_nil_r; by rewrite <- !app_assoc).
  assert (∀ x, 0 <= x < 256 → lang (Seq (lit $".") ipv4_octet) ($"." ++ show_dec x)) as Hdot
    by (intros; apply lang_seq; [apply lit_lang|by apply octet_lang]).
  apply lang_seq; [by apply octet_lang|apply lang_seq].
  - simpl rep. repeat (apply lang_seq; [by apply Hdot|]). constructor.
  - apply lang_seq; [apply lit_lang|by apply lang_plus_cls].
Qed.

Lemma colon_not_digit ds : Forall (λ x, isdigit x = true) ds → COLON ∉ ds.
Proof. intros Hds Hin. rewrite Forall_forall in Hds. by specialize (Hds _ Hin). Qed.

Lemma dotted_no_colon a b c d : 0 <= a → 0 <= b → 0 <= c → 0 <= d → COLON ∉ dotted a b c d.
Proof.
  intros Ha Hb Hc Hd. unfold dotted.
  pose proof (colon_not_digit _ (proj1 (proj2 (show_dec_spec a Ha)))).
  pose proof (colon_not_digit _ (proj1 (proj2 (show_dec_spec b Hb)))).
  pose proof (colon_not_digit _ (proj1 (proj2 (show_dec_spec c Hc)))).
  pose proof (colon_not_digit _ (proj1 (proj2 (show_dec_spec d Hd)))).
  assert (COLON ∉ $".") by by_decide. set_solver.
Qed.

(** What the constructor computes once the text is accepted. *)
Lemma IPAddress_of_accepted pre ds :
  matches IPV4_PATTERN (pre ++ COLON :: ds) || matches IPV6_PATTERN (pre ++ COLON :: ds) = true →
  COLON ∉ pre →
  IPAddress_of_string (pre ++ COLON :: ds) =
    (p ← stoi ds; Ok (mkIPAddress true (u16 p) pre)).
Proof.
  intros Hm Hpre. unfold IPAddress_of_string. rewrite Hm, find_0, find0_app by done.
  unfold substr. rewrite !decide_True by length_lia. simpl. rewrite drop_0, take_app_length.
  replace (S (length pre)) with (length (pre ++ [COLON])) by length_lia.
  replace (pre ++ COLON :: ds) with ((pre ++ [COLON]) ++ ds) by (by rewrite <- app_assoc).
  rewrite drop_app_length, take_ge by length_lia. done.
Qed.

(** Conversely, whatever is stored as the address comes before the first colon. *)
Lemma IPAddress_of_string_address s ip :
  IPAddress_of_string s = Ok ip → COLON ∉ _ip_address_str ip.
Proof.
  unfold IPAddress_of_string. destruct (_ || _); [|intros [= <-]; set_solver].
  rewrite find_0. unfold substr. destruct (find0 COLON s) as [i|] eqn:E.
  - apply find0_Some in E as (l & r & -> & Hl & <-). rewrite !decide_True by length_lia.
    simpl. rewrite drop_0, take_app_length. destruct (stoi _); [|done]. by intros [= <-].
  - apply find0_None in E. simpl. rewrite drop_0. destruct (stoi _); [|done]. by intros [= <-].
Qed.

(** ** Properties *)

(** A dotted quad, a colon and any non-empty string of digits is a valid address:
    the quad is stored as text and the port is the number modulo 2^16, unless the
    number does not fit an [int], when [std::stoi] throws. *)
Theorem ipv4_of_string a b c d ds :
  0 <= a < 256 → 0 <= b < 256 → 0 <= c < 256 → 0 <= d < 256 →
  ds ≠ [] → Forall (λ x, isdigit x = true) ds →
  IPAddress_of_string (dotted a b c d ++ COLON :: ds) =
    if bool_decide (digits_value ds <= INT_MAX)
    then Ok (mkIPAddress true (u16 (digits_value ds)) (dotted a b c d))
    else Raise OutOfRange.
Proof.
  intros. rewrite IPAddress_of_accepted; [rewrite stoi_digits by done; by case_bool_decide|..].
  - rewrite (proj2 (matches_lang _ _)); [done|by apply ipv4_lang].
  - apply dotted_no_colon; lia.
Qed.

Lemma ipv4_of_string_witness :
  IPAddress_of_string (dotted 10 0 0 7 ++ COLON :: $"70000") =
    Ok (mkIPAddress true 4464 (dotted 10 0 0 7)).
Proof. rewrite (ipv4_of_string 10 0 0 7 $"70000"); by_decide. Defined.

(** Parsing what [operator<<] prints gives the address back: for every dotted quad
    and every port of 16 bits, and the result compares equal with [operator==]. *)
Theorem ipv4_print_roundtrip a b c d p ip :
  0 <= a < 256 → 0 <= b < 256 → 0 <= c < 256 → 0 <= d < 256 → 0 <= p < 2 ^ 16 →
  ip = mkIPAddress true p (dotted a b c d) →
  IPAddress_of_string (IPAddress_print ip) = Ok ip ∧ IPAddress_eqb ip ip = true.
Proof.
  intros Ha Hb Hc Hd Hp ->. unfold IPAddress_print, IPAddress_eqb; simpl.
  destruct (show_dec_spec p ltac:(lia)) as (Hv & Hds & Hne).
  change ($":" ++ show_dec p) with (COLON :: show_dec p).
  rewrite IPAddress_of_accepted.
  - rewrite stoi_digits, Hv by done. unfold INT_MAX. rewrite bool_decide_true by lia. simpl.
    rewrite wrapu_small by done. by rewrite !bool_decide_true.
  - rewrite (proj2 (matches_lang _ _)); [done|by apply ipv4_lang].
  - apply dotted_no_colon; lia.
Qed.

Lemma ipv4_print_roundtrip_witness :
  IPAddress_of_string (IPAddress_print (mkIPAddress true 3324 (dotted 10 10 0 118))) =
    Ok (mkIPAddress true 3324 (dotted 10 10 0 118)).
Proof. apply (ipv4_print_roundtrip 10 10 0 118 3324); by_decide. Defined.

(** The stored address never contains a colon, so no IPv6 address survives
    construction although the IPv6 pattern accepts it: the text is cut at its first
    colon and the port is read from the second group. *)
Theorem stored_address_no_colon s ip :
  IPAddress_of_string s = Ok ip → ":"%char ∉ ip_address ip.
Proof. apply IPAddress_of_string_address. Qed.

Lemma stored_address_no_colon_witness :
  IPAddress_of_string $"1:2:3:4:5:6:7:8:80" = Ok (mkIPAddress true 2 $"1") ∧
  ":"%char ∉ ip_address (mkIPAddress true 2 $"1").
Proof.
  assert (IPAddress_of_string $"1:2:3:4:5:6:7:8:80" = Ok (mkIPAddress true 2 $"1")) as H by (vm_compute; reflexivity).
  split; [exact H|]. exact (stored_address_no_colon _ _ H).
Defined.

(** Building an address from an IPv4 socket address always overruns the two-byte
    buffer [char sip[AF_INET]], whatever dotted text [inet_ntop] writes there. *)
Theorem sockaddr_ipv4_overruns inet_ntop addr port text :
  inet_ntop AF_INET addr 20 = Some text → 2 <= Z.of_nat (length text) →
  IPAddress_of_sockaddr inet_ntop (mkSockaddr AF_INET addr) port = Raise (UB OutOfBounds).
Proof.
  intros Hn Ht. unfold IPAddress_of_sockaddr. simpl. rewrite Hn.
  rewrite bool_decide_false; [done|]. unfold AF_INET. lia.
Qed.

Lemma sockaddr_ipv4_overruns_witness :
  IPAddress_of_sockaddr (λ _ _ _, Some $"127.0.0.1") (mkSockaddr AF_INET 16777343) 3324 = Raise (UB OutOfBounds).
Proof. apply (sockaddr_ipv4_overruns (λ _ _ _, Some $"127.0.0.1") 16777343 3324 $"127.0.0.1"); by_decide. Defined.
