(* ===== verification/FifoCache.v ===== *)
(** The duplicate filter ([utils/data_struct/fifo_cache.h], class [FIFOCache<T>]):
    a queue of the last ids seen and the set of the ids in it.  The constructor fills
    the queue with value-initialised ids, which are not in the set. *)
From S2P Require Import Prelude.

Section fifo_cache.
Context {T : Type} `{Countable T} (default : T).

(** ** The class *)

Record FIFOCache := mkFIFOCache { _max_cache_size : nat; _cache : list T; _cache_map : gset T }.

(** [_cache(cache_size)] is a list of [cache_size] default values;
    [_cache_map(cache_size)] is an empty set with that many buckets. *)
Definition FIFOCache_new (cache_size : nat) : FIFOCache :=
  mkFIFOCache cache_size (replicate cache_size default) ∅.

(** [_cache_map.erase(_cache.front()); _cache.pop_front()] *)
Definition drop_first (c : FIFOCache) : res FIFOCache :=
  match _cache c with
  | [] => Raise (UB EmptyContainer)
  | f :: q => Ok (mkFIFOCache (_max_cache_size c) q (_cache_map c ∖ {[f]}))
  end.

Definition is_cached (packet_id : T) (c : FIFOCache) : res (bool * FIFOCache) :=
  if decide (packet_id ∈ _cache_map c) then Ok (true, c) else
  c ← (if bool_decide (length (_cache c) = _max_cache_size c) then drop_first c else Ok c);
  Ok (false, mkFIFOCache (_max_cache_size c) (_cache c ++ [packet_id]) ({[packet_id]} ∪ _cache_map c)).

(** A sequence of calls, with the answers. *)
Fixpoint is_cached_all (ids : list T) (c : FIFOCache) : res (list bool * FIFOCache) :=
  match ids with
  | [] => Ok ([], c)
  | x :: ids' =>
      '(b, c) ← is_cached x c;
      '(bs, c) ← is_cached_all ids' c;
      Ok (b :: bs, c)
  end.

(** ** What it promises *)

(** The window of the last [n] accepted ids. *)
Definition last_n (n : nat) (l : list T) : list T := drop (length l - n) l.

(** The specification keeps every id it ever accepted and answers from the last [n]. *)
Definition seen (n : nat) (accepted : list T) (x : T) : bool := bool_decide (x ∈ last_n n accepted).

Fixpoint filter_spec (n : nat) (accepted : list T) (ids : list T) : list bool :=
  match ids with
  | [] => []
  | x :: ids' =>
      let b := seen n accepted x in
      b :: filter_spec n (if b then accepted else accepted ++ [x]) ids'
  end.

(** ** Refinement *)

Lemma last_n_short n l : length l ≤ n → last_n n l = l.
Proof. intros. unfold last_n. by replace (length l - n) with 0 by lia. Qed.

Lemma last_n_snoc n l x : n ≠ 0 → last_n n (l ++ [x]) = last_n (n - 1) l ++ [x].
Proof.
  intros. unfold last_n. rewrite length_app; simpl.
  replace (length l + 1 - n) with (length l - (n - 1)) by lia.
  rewrite drop_app_le by lia. done.
Qed.

Lemma length_last_n n l : length (last_n n l) = min n (length l).
Proof. unfold last_n. rewrite length_drop. lia. Qed.

Lemma drop_tail k (l : list T) : drop (S k) l = tail (drop k l).
Proof. revert k. induction l as [|x l IH]; intros [|k]; [done..|]. apply IH. Qed.

Lemma last_n_pred n l f q : length l ≥ n → last_n n l = f :: q → last_n (n - 1) l = q.
Proof.
  intros Hl Heq. destruct n as [|n].
  { pose proof (length_last_n 0 l) as Hlen. rewrite Heq in Hlen. done. }
  unfold last_n in *. replace (length l - (S n - 1)) with (S (length l - S n)) by lia.
  by rewrite drop_tail, Heq.
Qed.

(** ** Well-formed caches *)

(** The queue is full and not empty, and the set holds only ids that are in it. *)
Definition cache_ok (c : FIFOCache) : Prop :=
  _max_cache_size c ≠ 0 ∧ length (_cache c) = _max_cache_size c ∧ _cache_map c ⊆ list_to_set (_cache c).

Lemma FIFOCache_new_ok n : n ≠ 0 → cache_ok (FIFOCache_new n).
Proof. intros Hn. split; [done|]. simpl. rewrite length_replicate. split; [done|set_solver]. Qed.

(** A call on such a cache never faults, and leaves one of the same capacity. *)
Lemma is_cached_ok x c :
  cache_ok c → ∃ b c', is_cached x c = Ok (b, c') ∧ cache_ok c' ∧ _max_cache_size c' = _max_cache_size c.
Proof.
  destruct c as [n [|f q] m]; intros (Hn & Hl & Hm); simpl in *; [congruence|].
  unfold is_cached, cache_ok. simpl. case_decide; [eauto 10|]. rewrite bool_decide_true by done. simpl.
  eexists _, _. split; [done|]. simpl. split_and!; [done|rewrite length_app; simpl; lia| |done].
  rewrite list_to_set_app. set_solver.
Qed.

(** The set is as large as the queue at most. *)
Lemma cache_ok_bounded c : cache_ok c → size (_cache_map c) ≤ _max_cache_size c.
Proof.
  intros (_ & <- & Hm). etransitivity; [by apply subseteq_size|].
  generalize (_cache c). intros l. induction l as [|x l IH]; [by rewrite list_to_set_nil, size_empty|].
  rewrite list_to_set_cons, size_union_alt, size_singleton. simpl length. pose proof (subseteq_size (list_to_set l ∖ {[x]} : gset T) (list_to_set l) ltac:(set_solver)). lia.
Qed.

(** The queue is the last accepted ids behind the placeholders that are left, and the
    set is exactly those ids. *)
Definition represents (c : FIFOCache) (accepted : list T) : Prop :=
  let w := last_n (_max_cache_size c) accepted in
  _cache c = replicate (_max_cache_size c - length w) default ++ w
  ∧ _cache_map c = list_to_set w ∧ NoDup w ∧ default ∉ accepted.

Lemma FIFOCache_new_represents n : represents (FIFOCache_new n) [].
Proof.
  unfold represents, last_n. simpl. rewrite Nat.sub_0_r, app_nil_r. split_and!; [done..|constructor|set_solver].
Qed.

Lemma drop_first_represents c accepted :
  _max_cache_size c ≠ 0 → represents c accepted →
  ∃ c', drop_first c = Ok c' ∧ _max_cache_size c' = _max_cache_size c
    ∧ let w := last_n (_max_cache_size c - 1) accepted in
      _cache c' = replicate (_max_cache_size c - 1 - length w) default ++ w
      ∧ _cache_map c' = list_to_set w ∧ NoDup w.
Proof.
  destruct c as [n q m]; unfold represents, drop_first; simpl. intros Hn (-> & -> & Hnd & Hd).
  rewrite length_last_n. destruct (decide (length accepted < n)) as [Hlt|Hge].
  - replace (n - min n (length accepted)) with (S (n - 1 - length accepted)) by lia. simpl.
    eexists; split; [done|]. simpl. rewrite !last_n_short in * by lia. split_and!; [done|done| |done].
    assert (default ∉ (list_to_set accepted : gset T)) by (by rewrite elem_of_list_to_set). set_solver.
  - replace (n - min n (length accepted)) with 0 by lia. simpl.
    destruct (last_n n accepted) as [|f q] eqn:E.
    { pose proof (length_last_n n accepted) as Hlen. rewrite E in Hlen. simpl in Hlen. lia. }
    eexists; split; [done|]. simpl. rewrite (last_n_pred n accepted f q) by (done || lia).
    apply NoDup_cons in Hnd as [Hf Hnd].
    split_and!; [done| | |done].
    + pose proof (length_last_n n accepted) as Hlen. rewrite E in Hlen. simpl in Hlen.
      by replace (n - 1 - length q) with 0 by lia.
    + simpl. assert (f ∉ (list_to_set q : gset T)) by (by rewrite elem_of_list_to_set). set_solver.
Qed.

Lemma is_cached_refines c accepted x :
  _max_cache_size c ≠ 0 → represents c accepted → x ≠ default →
  ∃ c', is_cached x c = Ok (seen (_max_cache_size c) accepted x, c')
    ∧ _max_cache_size c' = _max_cache_size c
    ∧ represents c' (if seen (_max_cache_size c) accepted x then accepted else accepted ++ [x]).
Proof.
  intros Hn Hrep Hx. pose proof Hrep as (Hq & Hm & Hnd & Hd).
  unfold is_cached, seen. case_decide as Hin; rewrite Hm, elem_of_list_to_set in Hin.
  { rewrite (bool_decide_true _ Hin). eauto. }
  rewrite (bool_decide_false _ Hin),  bool_decide_true
    by (rewrite Hq, length_app, length_replicate, length_last_n; lia).
  destruct (drop_first_represents c accepted Hn Hrep) as (c' & -> & Hn' & Hq' & Hm' & Hnd').
  simpl. eexists; split; [done|]. split; [done|].
  unfold represents. simpl. rewrite Hn', !last_n_snoc by lia. split_and!.
  - rewrite Hq', !length_app, <- app_assoc. simpl.
    by replace (_max_cache_size c - (length (last_n (_max_cache_size c - 1) accepted) + 1))
      with (_max_cache_size c - 1 - length (last_n (_max_cache_size c - 1) accepted)) by lia.
  - rewrite Hm', list_to_set_app_L. set_solver.
  - apply NoDup_app. split_and!; [done| |apply NoDup_singleton].
    intros y Hy ->%list_elem_of_singleton. apply Hin.
    unfold last_n in *. apply list_elem_of_lookup in Hy as [i Hi]. rewrite lookup_drop in Hi.
    apply list_elem_of_lookup. destruct (decide (length accepted < _max_cache_size c)).
    + exists i. rewrite lookup_drop, <- Hi. f_equal. lia.
    + exists (S i). rewrite lookup_drop, <- Hi. f_equal. lia.
  - set_solver.
Qed.

(** C17: on any sequence of calls with non-default ids, a cache of [n > 0] entries never
    faults and answers exactly like the filter that remembers everything and looks at
    the last [n] ids it accepted: an id is reported as cached iff it is among them. *)
Theorem is_cached_all_refines n ids :
  n ≠ 0 → default ∉ ids →
  ∃ c, is_cached_all ids (FIFOCache_new n) = Ok (filter_spec n [] ids, c).
Proof.
  intros Hn. assert (∀ c accepted, _max_cache_size c = n → represents c accepted → default ∉ ids →
    ∃ c', is_cached_all ids c = Ok (filter_spec n accepted ids, c')) as Hgen;
    [|intros; by apply (Hgen (FIFOCache_new n)); [|apply FIFOCache_new_represents|]].
  induction ids as [|x ids IH]; intros c accepted Hc Hrep Hd; simpl; [eauto|].
  destruct (is_cached_refines c accepted x) as (c' & -> & Hc' & Hrep'); [congruence|done|set_solver|].
  simpl. rewrite Hc in *. destruct (IH c' _ Hc' Hrep') as (c'' & ->); [set_solver|]. simpl. eauto.
Qed.

Lemma is_cached_full n f q m x :
  x ∉ m → length (f :: q) = n →
  is_cached x (mkFIFOCache n (f :: q) m) = Ok (false, mkFIFOCache n (q ++ [x]) ({[x]} ∪ m ∖ {[f]})).
Proof.
  intros Hx Hn. unfold is_cached. simpl _cache_map. rewrite decide_False by done.
  simpl _cache. simpl _max_cache_size. by rewrite bool_decide_true.
Qed.

(** The placeholder of an unused slot equals a default id that was accepted: the next
    new id drops it from the set, so the default id is reported as new again although
    the cache has room for [n >= 2] ids. *)
Theorem default_id_forgotten n x :
  2 ≤ n → x ≠ default →
  ∃ c, is_cached_all [default; x; default] (FIFOCache_new n) = Ok ([false; false; false], c).
Proof.
  intros Hn Hx. destruct n as [|[|n]]; [lia..|]. unfold FIFOCache_new. cbn [replicate is_cached_all].
  rewrite is_cached_full by (set_solver || length_lia). cbn.
  rewrite is_cached_full by (set_solver || length_lia). cbn.
  destruct n as [|n]; cbn; rewrite is_cached_full by (set_solver || length_lia); cbn; eauto.
Qed.

End fifo_cache.
Arguments FIFOCache _ {_ _}.

Lemma is_cached_all_refines_witness :
  2 ≠ 0 ∧ ($"" : str) ∉ [$"a"; $"b"; $"a"; $"c"; $"a"] ∧
  ∃ c, is_cached_all [$"a"; $"b"; $"a"; $"c"; $"a"] (FIFOCache_new ($"" : str) 2) =
    Ok ([false; false; true; false; false], c).
Proof.
  split; [done|]. split; [by_decide|].
  exact (is_cached_all_refines ($"" : str) 2 [$"a"; $"b"; $"a"; $"c"; $"a"] ltac:(done) ltac:(by_decide)).
Defined.

Lemma default_id_forgotten_witness :
  ∃ c, is_cached_all [[]; $"a"; []] (FIFOCache_new ([] : str) 8) = Ok ([false; false; false], c).
Proof. apply (default_id_forgotten ([] : str) 8 $"a"); [lia|by_decide]. Defined.
