(* ===== verification/RoutingTable.v ===== *)
(** The tables shared between threads: the routing table
    ([utils/data_struct/routing_table.h], class [RoutingTable<T>]) and the instance pool
    ([utils/data_struct/instance_pool.h], class [InstancePool<KEY, INSTANCE>]).  The
    update of a route runs in two critical sections; the step relation interleaves them
    with the calls of other threads. *)
From S2P Require Import Prelude.
Local Open Scope Z_scope.

(** ** The instance pool *)

Module InstancePool.
Section pool.
Context {KEY INSTANCE : Type} `{Countable KEY}.

(** [std::unordered_map<KEY, std::shared_ptr<INSTANCE>>]; [None] is the null pointer. *)
Abbreviation pool := (gmap KEY (option INSTANCE)).

Definition add_instance (key : KEY) (instance : option INSTANCE) (p : pool) : bool * pool :=
  match p !! key with
  | None => (true, <[key := instance]> p)
  | Some _ => (false, p)
  end.

Definition get_instance (key : KEY) (p : pool) : option INSTANCE :=
  match p !! key with None => None | Some i => i end.

Lemma get_add_instance k k' i p :
  get_instance k (add_instance k' i p).2 =
    if bool_decide (k = k' ∧ p !! k = None) then i else get_instance k p.
Proof.
  unfold get_instance, add_instance. destruct (p !! k') eqn:E; simpl.
  - rewrite bool_decide_false by naive_solver. done.
  - destruct (decide (k = k')) as [->|].
    + rewrite lookup_insert_eq. by rewrite bool_decide_true.
    + rewrite lookup_insert_ne by done. by rewrite bool_decide_false by naive_solver.
Qed.
End pool.
End InstancePool.

(** ** The routing table *)

Module RoutingTable.
Section table.
Context {T ADDR : Type} `{Countable T}.

(** [std::pair<std::shared_ptr<IPAddress>, uint32_t>]: the next hop and its distance *)
Record route := mkRoute { hop : option ADDR; ttl : Z }.
Abbreviation table := (gmap T route).

(** [find(dest)->second.first]: the end iterator is dereferenced for an unknown peer. *)
Definition get_next_peer (dest : T) (m : table) : res (option ADDR) :=
  r ← deref (UB EndIterator) (m !! dest); Ok (hop r).

Definition can_delivered (dest : T) (m : table) : bool :=
  match m !! dest with Some _ => true | None => false end.

(** [int new_ttl] is converted to [uint32_t] by the assignment and by the comparison. *)
Definition add_new_route (dest : T) (new_ip : option ADDR) (new_ttl : Z) (m : table) : bool * table :=
  match m !! dest with
  | None => (true, <[dest := mkRoute new_ip (u32 new_ttl)]> m)
  | Some _ => (false, m)
  end.

(** The test both critical sections make on the entry found. *)
Definition upgradeable (new_ttl : Z) (r : route) : bool := bool_decide (ttl r > u32 new_ttl).

(** The second critical section: the test again, then the update. *)
Definition update_locked (dest : T) (new_ip : option ADDR) (new_ttl : Z) (m : table) : bool * table :=
  match m !! dest with
  | Some r =>
      if upgradeable new_ttl r
      then (true, <[dest := mkRoute new_ip (u32 new_ttl)]> m)
      else (false, m)
  | None => (false, m)
  end.

(** Both sections in one go, without another thread in between. *)
Definition try_update_table (dest : T) (new_ip : option ADDR) (new_ttl : Z) (m : table) : bool * table :=
  match m !! dest with
  | None => (false, m)
  | Some r => if upgradeable new_ttl r then update_locked dest new_ip new_ttl m else (false, m)
  end.

Definition get_routing_table (m : table) : table := m.

(** ** Interleavings *)

(** A thread that found its route upgradeable has left the first section. *)
Record pending := mkPending { p_dest : T; p_ip : option ADDR; p_ttl : Z }.

Inductive call :=
  | Add (dest : T) (ip : option ADDR) (t : Z)
  | Update (dest : T) (ip : option ADDR) (t : Z).

(** One critical section of one thread, with the call that returned in it, if one did. *)
Inductive step : table * list pending → option (call * bool) → table * list pending → Prop :=
  | step_add d i t m ps :
      step (m, ps) (Some (Add d i t, (add_new_route d i t m).1)) ((add_new_route d i t m).2, ps)
  | step_update_missing d i t m ps :
      m !! d = None → step (m, ps) (Some (Update d i t, false)) (m, ps)
  | step_update_rejected d i t m ps r :
      m !! d = Some r → upgradeable t r = false →
      step (m, ps) (Some (Update d i t, false)) (m, ps)
  | step_update_enter d i t m ps r :
      m !! d = Some r → upgradeable t r = true → step (m, ps) None (m, mkPending d i t :: ps)
  | step_update_commit m ps1 p ps2 :
      step (m, ps1 ++ p :: ps2)
        (Some (Update (p_dest p) (p_ip p) (p_ttl p), (update_locked (p_dest p) (p_ip p) (p_ttl p) m).1))
        ((update_locked (p_dest p) (p_ip p) (p_ttl p) m).2, ps1 ++ ps2).

Inductive steps : table * list pending → list (call * bool) → table * list pending → Prop :=
  | steps_nil s : steps s [] s
  | steps_silent s s' s'' tr : step s None s' → steps s' tr s'' → steps s tr s''
  | steps_call s s' s'' e tr : step s (Some e) s' → steps s' tr s'' → steps s (e :: tr) s''.

(** The calls one after the other, each in one go. *)
Definition run_call (c : call) (m : table) : bool * table :=
  match c with
  | Add d i t => add_new_route d i t m
  | Update d i t => try_update_table d i t m
  end.

Fixpoint run_calls (cs : list call) (m : table) : list bool * table :=
  match cs with
  | [] => ([], m)
  | c :: cs' => let '(b, m) := run_call c m in let '(bs, m) := run_calls cs' m in (b :: bs, m)
  end.

Lemma try_update_locked d i t m : try_update_table d i t m = update_locked d i t m.
Proof.
  unfold try_update_table, update_locked. destruct (m !! d); [|done]. by destruct (upgradeable _ _).
Qed.

Lemma step_run s e s' :
  step s e s' →
  match e with
  | Some (c, b) => run_call c s.1 = (b, s'.1)
  | None => s'.1 = s.1
  end.
Proof.
  destruct 1 as [d i t m ps|d i t m ps E|d i t m ps r E E'|d i t m ps r E E'|m ps1 p ps2]; simpl.
  - by destruct (add_new_route d i t m).
  - unfold try_update_table. by rewrite E.
  - unfold try_update_table. by rewrite E, E'.
  - done.
  - rewrite try_update_locked. by destruct (update_locked _ _ _ m).
Qed.

Lemma run_call_lookup c m d :
  (run_call c m).2 !! d =
    match c with
    | Add d' i t => match m !! d with
                    | None => if bool_decide (d' = d) then Some (mkRoute i (u32 t)) else None
                    | Some r => Some r
                    end
    | Update d' i t => match m !! d with
                       | None => None
                       | Some r => if bool_decide (d' = d) && upgradeable t r
                                   then Some (mkRoute i (u32 t)) else Some r
                       end
    end.
Proof.
  destruct c as [d' i t|d' i t]; simpl.
  - unfold add_new_route. destruct (decide (d' = d)) as [->|].
    + rewrite bool_decide_true by done. destruct (m !! d) eqn:E; simpl; [done|apply lookup_insert_eq].
    + rewrite bool_decide_false by done.
      destruct (m !! d') eqn:E; simpl; rewrite ?lookup_insert_ne by done; by destruct (m !! d).
  - rewrite try_update_locked. unfold update_locked. destruct (decide (d' = d)) as [->|].
    + rewrite bool_decide_true by done. destruct (m !! d) eqn:E; simpl; [|done].
      destruct (upgradeable t r); simpl; [apply lookup_insert_eq|done].
    + rewrite bool_decide_false by done. simpl.
      destruct (m !! d') as [r|] eqn:E; [destruct (upgradeable t r)|]; simpl;
        rewrite ?lookup_insert_ne by done; by destruct (m !! d).
Qed.

(** The distances the calls offer for [d]. *)
Definition offers (d : T) (cs : list call) : list Z :=
  omap (λ c, match c with
             | Update d' _ t => if bool_decide (d' = d) then Some (u32 t) else None
             | Add _ _ _ => None
             end) cs.

Lemma run_calls_min cs m d r :
  m !! d = Some r →
  ∃ r', (run_calls cs m).2 !! d = Some r' ∧ ttl r' = foldl Z.min (ttl r) (offers d cs).
Proof.
  revert m r. induction cs as [|c cs IH]; intros m r Hr; simpl; [eauto|].
  pose proof (run_call_lookup c m d) as Hl. rewrite Hr in Hl.
  destruct (run_call c m) as [b m'] eqn:Ec; simpl in *.
  destruct (run_calls cs m') as [bs m''] eqn:Ecs; simpl.
  destruct c as [d' i t|d' i t]; simpl in *.
  - destruct (IH m' r Hl) as (r' & Hr' & Ht). rewrite Ecs in Hr'. eauto.
  - unfold upgradeable in Hl. destruct (bool_decide (d' = d)); simpl in *.
    + case_bool_decide; destruct (IH m' _ Hl) as (r' & Hr' & Ht); rewrite Ecs in Hr';
        (exists r'; split; [done|]; rewrite Ht; f_equal; simpl; lia).
    + destruct (IH m' r Hl) as (r' & Hr' & Ht). rewrite Ecs in Hr'. eauto.
Qed.

Lemma steps_run s tr s' :
  steps s tr s' → run_calls (fst <$> tr) s.1 = (snd <$> tr, s'.1).
Proof.
  induction 1 as [s|s s' s'' tr Hs _ IH|s s' s'' [c b] tr Hs _ IH]; [done| |]; apply step_run in Hs; simpl in *.
  - by rewrite <- Hs.
  - unfold fmap in *; simpl. rewrite Hs; simpl. by rewrite IH.
Qed.


(** C26: in every interleaving a known peer stays reachable, and the distance stored for
    it is the smallest of the one it had and those its returned updates offered, as
    unsigned 32-bit numbers. *)
Theorem interleaving_keeps_min m ps tr m' ps' d r :
  steps (m, ps) tr (m', ps') → m !! d = Some r →
  can_delivered d m' = true ∧
  ∃ r', m' !! d = Some r' ∧ ttl r' = foldl Z.min (ttl r) (offers d (fst <$> tr)) ∧
    get_next_peer d m' = Ok (hop r').
Proof.
  intros Hs Hr. apply steps_run in Hs. simpl in Hs.
  destruct (run_calls_min (fst <$> tr) m d r Hr) as (r' & Hr' & Ht). rewrite Hs in Hr'. simpl in Hr'.
  unfold can_delivered, get_next_peer. rewrite Hr'. simpl. eauto.
Qed.
End table.
Arguments steps {_ _ _ _}.

(** Two threads offer distances 7 and 4 for a peer at distance 9; the thread with 4
    commits first, so the thread with 7 finds its test no longer true. *)
Definition race_start : gmap N (route (ADDR := N)) := {[1%N := mkRoute (Some 0%N) 9]}.
Definition race_end : gmap N (route (ADDR := N)) := {[1%N := mkRoute (Some 4%N) 4]}.
Definition race_trace : list (call (T := N) (ADDR := N) * bool) :=
  [(Update 1%N (Some 4%N) 4, true); (Update 1%N (Some 7%N) 7, false)].

Lemma race_steps : steps (race_start, []) race_trace (race_end, []).
Proof.
  eapply steps_silent; [eapply (step_update_enter 1%N (Some 7%N) 7); vm_compute; reflexivity|].
  eapply steps_silent; [eapply (step_update_enter 1%N (Some 4%N) 4); vm_compute; reflexivity|].
  eapply (steps_call _ _ _ (Update 1%N (Some 4%N) 4, true));
    [exact (step_update_commit race_start [] (mkPending 1%N (Some 4%N) 4) [mkPending 1%N (Some 7%N) 7])|].
  eapply (steps_call _ _ _ (Update 1%N (Some 7%N) 7, false));
    [exact (step_update_commit race_end [] (mkPending 1%N (Some 7%N) 7) [])|constructor].
Qed.


Lemma interleaving_keeps_min_witness :
  can_delivered 1%N race_end = true ∧
  ∃ r', race_end !! 1%N = Some r' ∧ ttl r' = 4 ∧ get_next_peer 1%N race_end = Ok (hop r').
Proof.
  exact (interleaving_keeps_min race_start [] race_trace race_end [] 1%N (mkRoute (Some 0%N) 9) race_steps eq_refl).
Defined.
End RoutingTable.
