(* ===== verification/Message.v ===== *)
(** Messages on the wire: the records of [packet/protocol.proto], the protobuf
    operations the code calls, and the sending task [Task::send_packet_tcp]
    ([packet/packet_tasks.cc]). *)
From S2P Require Import Prelude CxxString IPAddress.
Local Open Scope Z_scope.

(** ** The records *)

(** proto3 enums are open: any number can be stored in the field. *)
Inductive ProtoPayloadType :=
  | HELLO | REDIRECT | ACK | NACK | PING | PONG | HEARTBEAT | FILE_REQUEST | OtherPayload (n : Z).
Inductive ProtoSignAlgorithm := SHA_256 | OtherAlgorithm (n : Z).

#[global] Instance ProtoPayloadType_eq_dec : EqDecision ProtoPayloadType.
Proof. solve_decision. Defined.
#[global] Instance ProtoSignAlgorithm_eq_dec : EqDecision ProtoSignAlgorithm.
Proof. solve_decision. Defined.

Definition ProtoPayloadType_value (t : ProtoPayloadType) : Z :=
  match t with
  | HELLO => 0 | REDIRECT => 7 | ACK => 5 | NACK => 6 | PING => 1 | PONG => 2
  | HEARTBEAT => 4 | FILE_REQUEST => 3 | OtherPayload n => n
  end.

(** [google.protobuf.Any] is a type name with bytes, [google.protobuf.Timestamp] two numbers. *)
Record Any := mkAny { type_url : str; value : str }.

Record ProtoMessage := mkProtoMessage {
  pm_sender : str; pm_receiver : str;
  packet_type : ProtoPayloadType; timestamp : option (Z * Z); payload : option Any }.

Record SignedProtoMessage := mkSigned {
  sp_sender : str; sp_receiver : str; last_forward_port : Z; sp_ttl : Z;
  signature : str; signed_payload : str; sign_algorithm : ProtoSignAlgorithm }.

Record ProtoHelloMessage := mkHello { sender_id : str; verified_msg : str; x509_certificate : str }.

(** The message type a payload type stands for, when one is defined ([packet/packet_utils.h]). *)
Definition ToPayloadType (Value : ProtoPayloadType) : option Type :=
  match Value with HELLO => Some (ProtoHelloMessage : Type) | _ => None end.

(** A default-constructed message. *)
Definition SignedProtoMessage_default : SignedProtoMessage := mkSigned [] [] 0 0 [] [] SHA_256.
Definition ProtoMessage_default : ProtoMessage := mkProtoMessage [] [] HELLO None None.
Definition ProtoHelloMessage_default : ProtoHelloMessage := mkHello [] [] [].
Definition Any_default : Any := mkAny [] [].

Definition set_ttl (t : Z) (m : SignedProtoMessage) : SignedProtoMessage :=
  mkSigned (sp_sender m) (sp_receiver m) (last_forward_port m) (u32 t)
    (signature m) (signed_payload m) (sign_algorithm m).
Definition set_last_forward_port (p : Z) (m : SignedProtoMessage) : SignedProtoMessage :=
  mkSigned (sp_sender m) (sp_receiver m) (u32 p) (sp_ttl m)
    (signature m) (signed_payload m) (sign_algorithm m).
Definition set_signature (s : str) (m : SignedProtoMessage) : SignedProtoMessage :=
  mkSigned (sp_sender m) (sp_receiver m) (last_forward_port m) (sp_ttl m) s (signed_payload m) (sign_algorithm m).
Definition set_sign_algorithm (a : ProtoSignAlgorithm) (m : SignedProtoMessage) : SignedProtoMessage :=
  mkSigned (sp_sender m) (sp_receiver m) (last_forward_port m) (sp_ttl m) (signature m) (signed_payload m) a.
Definition set_signed_payload (s : str) (m : SignedProtoMessage) : SignedProtoMessage :=
  mkSigned (sp_sender m) (sp_receiver m) (last_forward_port m) (sp_ttl m) (signature m) s (sign_algorithm m).

(** The protobuf operations of a message type: [SerializeToArray] and [ParseFromArray],
    which leaves a message behind even when it fails. *)
Class Protobuf (M : Type) := {
  SerializeAsString : M → str;
  ParseFromString : str → bool * M }.

(** What protobuf documents: the fields of a parsed message are in the range of their
    types ([wf]), and a serialized message parses back. *)
Class ProtobufLaws (M : Type) (wf : M → Prop) `{Protobuf M} := {
  parse_wf (s : str) : wf (ParseFromString s).2;
  parse_serialize (m : M) : wf m → ParseFromString (SerializeAsString m) = (true, m) }.

Definition ProtoSignAlgorithm_value (a : ProtoSignAlgorithm) : Z :=
  match a with SHA_256 => 0 | OtherAlgorithm n => n end.

Definition in_u32 (n : Z) : Prop := 0 <= n < 2 ^ 32.
Definition SignedProtoMessage_wf (m : SignedProtoMessage) : Prop :=
  in_u32 (last_forward_port m) ∧ in_u32 (sp_ttl m) ∧ sign_algorithm m ≠ OtherAlgorithm 0.

(** *** A codec to run the definitions with *)

(** It has the laws of the messages that pass [ok]; its format is not protobuf's. *)
Section codec.
Context {M : Type} `{Countable M} (ok : M → bool) (dflt : M).
Fixpoint bits_of (p : positive) : str :=
  match p with xH => [] | xO p => "0"%char :: bits_of p | xI p => "1"%char :: bits_of p end.
Fixpoint of_bits (s : str) : positive :=
  match s with [] => xH | c :: s => if bool_decide (c = "1"%char) then xI (of_bits s) else xO (of_bits s) end.
Definition countable_codec : Protobuf M := {|
  SerializeAsString m := bits_of (encode m);
  ParseFromString s :=
    match decode (of_bits s) with Some m => if ok m then (true, m) else (false, dflt) | None => (false, dflt) end |}.

Lemma countable_codec_laws (wf : M → Prop) :
  (∀ m, ok m = true ↔ wf m) → wf dflt → ProtobufLaws (H := countable_codec) M wf.
Proof.
  intros Hok Hd. split; simpl.
  - intros s. destruct (decode _) as [m|]; [|done]. destruct (ok m) eqn:E; [by apply Hok|done].
  - intros m Hm. assert (∀ p, of_bits (bits_of p) = p) as -> by (induction p; simpl; congruence).
    rewrite decode_encode. by rewrite (proj2 (Hok m) Hm).
Qed.
End codec.

#[global] Instance ProtoSignAlgorithm_countable : Countable ProtoSignAlgorithm.
Proof.
  refine (inj_countable' (λ a, match a with SHA_256 => None | OtherAlgorithm n => Some n end)
    (λ o, match o with None => SHA_256 | Some n => OtherAlgorithm n end) _); by intros [].
Defined.
#[global] Instance SignedProtoMessage_eq_dec : EqDecision SignedProtoMessage.
Proof. solve_decision. Defined.
#[global] Instance SignedProtoMessage_countable : Countable SignedProtoMessage.
Proof.
  refine (inj_countable'
    (λ m, (sp_sender m, sp_receiver m, last_forward_port m, sp_ttl m, signature m, signed_payload m, sign_algorithm m))
    (λ '(a, b, c, d, e, f, g), mkSigned a b c d e f g) _); by intros [].
Defined.
#[global] Instance in_u32_dec n : Decision (in_u32 n).
Proof. unfold in_u32. apply _. Defined.
#[global] Instance SignedProtoMessage_wf_dec m : Decision (SignedProtoMessage_wf m).
Proof. unfold SignedProtoMessage_wf. apply _. Defined.
Definition signed_codec : Protobuf SignedProtoMessage :=
  countable_codec (λ m, bool_decide (SignedProtoMessage_wf m)) SignedProtoMessage_default.
Lemma signed_codec_laws : ProtobufLaws (H := signed_codec) SignedProtoMessage SignedProtoMessage_wf.
Proof. apply countable_codec_laws; [intros; apply bool_decide_eq_true|]. by_decide. Qed.

(** ** Framing *)

(** [uint32_t] in the host's (little-endian) byte order, as [send(&proto_size, 4)] sends it *)
Definition le32 (n : Z) : str :=
  char_of n :: char_of (Z.shiftr n 8) :: char_of (Z.shiftr n 16) :: char_of (Z.shiftr n 24) :: [].

Definition of_le32 (s : str) : Z :=
  match s with
  | [a; b; c; d] => byte_of a + 2 ^ 8 * byte_of b + 2 ^ 16 * byte_of c + 2 ^ 24 * byte_of d
  | _ => 0
  end.

Lemma of_le32_le32 n : 0 <= n < 2 ^ 32 → of_le32 (le32 n) = n.
Proof.
  intros Hn. unfold of_le32, le32. rewrite !byte_of_char_of. unfold wrapu.
  rewrite !Z.shiftr_div_pow2 by lia. change (2 ^ 32) with 4294967296 in Hn.
  change (2 ^ 8) with 256. change (2 ^ 16) with 65536. change (2 ^ 24) with 16777216. div_lia.
Qed.

Lemma length_le32 n : length (le32 n) = 4%nat.
Proof. done. Qed.
Lemma take_le32 n s : take 4 (le32 n ++ s) = le32 n.
Proof. done. Qed.
Lemma drop_le32 n s : drop 4 (le32 n ++ s) = s.
Proof. done. Qed.
#[global] Arguments le32 : simpl never.

(** [htons] on a little-endian host *)
Definition htons (p : Z) : Z := u16 (Z.lor (Z.shiftl p 8) (Z.shiftr (u16 p) 8)).

Section send.
Context `{Protobuf SignedProtoMessage}.

(** The socket calls the task makes: their results. *)
Record net := mkNet {
  socket : Z;
  inet_pton : str → Z * Z;          (** result and address *)
  connect : Z → Z → Z → Z           (** socket, port in network order, address *) }.

(** What a successful task put on the connection. *)
Definition frame (m : SignedProtoMessage) : str :=
  le32 (u32 (Z.of_nat (length (SerializeAsString m)))) ++ SerializeAsString m.

(** The message as the task changes it. *)
Definition forwarded (machine_port : Z) (msg : SignedProtoMessage) : SignedProtoMessage :=
  set_last_forward_port machine_port (set_ttl (sp_ttl msg - 1) msg).

(** A message after the hops of devices that listen on these ports. *)
Definition after_hops (ports : list Z) (msg : SignedProtoMessage) : SignedProtoMessage :=
  foldl (λ m p, forwarded p m) msg ports.

Lemma after_hops_same ports msg :
  sp_receiver (after_hops ports msg) = sp_receiver msg ∧ signature (after_hops ports msg) = signature msg ∧
  signed_payload (after_hops ports msg) = signed_payload msg.
Proof. unfold after_hops. revert msg. induction ports as [|p ports IH]; intros msg; simpl; [done|]. apply (IH (forwarded p msg)). Qed.

Lemma forwarded_wf p msg : SignedProtoMessage_wf msg → SignedProtoMessage_wf (forwarded p msg).
Proof. intros (? & ? & ?). split_and!; [apply wrapu_range; lia..|done]. Qed.

Lemma forwarded_ttl p msg : SignedProtoMessage_wf msg → 1 <= sp_ttl msg → sp_ttl (forwarded p msg) = sp_ttl msg - 1.
Proof. intros (_ & Ht & _) ?. apply wrapu_small. unfold in_u32 in Ht. lia. Qed.

(** Returns the answer, the message, and the bytes sent.  A message whose serialization
    does not fit an [int] is not written by [SerializeToArray]: the bytes of the
    uninitialised buffer would be sent. *)
Definition send_packet_tcp (n : net) (machine_port : Z) (msg : SignedProtoMessage)
    (ip_addr : option IPAddress) : res (bool * SignedProtoMessage * str) :=
  if bool_decide (socket n < 0) then Ok (false, msg, []) else
  ip ← deref (UB NullDeref) ip_addr;
  let '(r, sin_addr) := inet_pton n (ip_address ip) in
  if bool_decide (r <= 0) then Ok (false, msg, []) else
  if bool_decide (connect n (socket n) (htons (port ip)) sin_addr < 0) then Ok (false, msg, []) else
  let msg := set_ttl (sp_ttl msg - 1) msg in
  let msg := set_last_forward_port machine_port msg in
  let proto_size := u32 (Z.of_nat (length (SerializeAsString msg))) in
  if bool_decide (Z.of_nat (length (SerializeAsString msg)) <= INT_MAX)
  then Ok (true, msg, le32 proto_size ++ SerializeAsString msg)
  else Raise (UB Uninitialized).

Lemma send_packet_tcp_ok n machine_port msg ip msg' out :
  send_packet_tcp n machine_port msg ip = Ok (true, msg', out) →
  msg' = forwarded machine_port msg ∧ out = frame msg' ∧ Z.of_nat (length (SerializeAsString msg')) <= INT_MAX.
Proof.
  unfold send_packet_tcp. case_bool_decide; [done|]. destruct ip as [ip|]; [|done]. simpl.
  destruct (inet_pton n (ip_address ip)) as [r a]. do 2 (case_bool_decide; [done|]).
  case_bool_decide as Hlen; [|done]. intros [= <- <-]. done.
Qed.

Lemma send_packet_tcp_failed n machine_port msg ip msg' out :
  send_packet_tcp n machine_port msg ip = Ok (false, msg', out) → msg' = msg ∧ out = [].
Proof.
  unfold send_packet_tcp. case_bool_decide; [by intros [= <- <-]|]. destruct ip as [ip|]; [|done]. simpl.
  destruct (inet_pton n (ip_address ip)) as [r a]. do 2 (case_bool_decide; [by intros [= <- <-]|]).
  by case_bool_decide.
Qed.

(** The calls of the task succeed towards this address. *)
Definition connects (n : net) (ip_addr : option IPAddress) : Prop :=
  ∃ ip, ip_addr = Some ip ∧ 0 <= socket n ∧ 0 < (inet_pton n (ip_address ip)).1 ∧
    0 <= connect n (socket n) (htons (port ip)) (inet_pton n (ip_address ip)).2.

Lemma send_packet_tcp_connects n machine_port msg ip_addr :
  connects n ip_addr → Z.of_nat (length (SerializeAsString (forwarded machine_port msg))) <= INT_MAX →
  send_packet_tcp n machine_port msg ip_addr = Ok (true, forwarded machine_port msg, frame (forwarded machine_port msg)).
Proof.
  intros (ip & -> & Hs & Hp & Hc) Hlen. unfold send_packet_tcp. rewrite bool_decide_false by lia. simpl.
  destruct (inet_pton n (ip_address ip)) as [r a]. simpl in *.
  rewrite bool_decide_false by lia. rewrite bool_decide_false by lia. by rewrite bool_decide_true.
Qed.
End send.
