(* ===== verification/PeerSession.v ===== *)
(** Peer sessions ([peer_session.cc] and [P2PServerContext::PeerSession] of
    [p2p_interface.h]): the certificate check that creates one and the signature check
    with its cached digest context.  OpenSSL is a class of operations. *)
From S2P Require Import Prelude CxxString Message.
Local Open Scope Z_scope.

(** ** Certificate errors *)

(** The values of [openssl/x509_vfy.h] the code names; the rest are [X509_V_other]. *)
Inductive x509_error :=
  | X509_V_ERR_UNABLE_TO_GET_ISSUER_CERT
  | X509_V_ERR_UNABLE_TO_GET_CRL
  | X509_V_ERR_UNABLE_TO_DECRYPT_CERT_SIGNATURE
  | X509_V_ERR_UNABLE_TO_DECRYPT_CRL_SIGNATURE
  | X509_V_ERR_UNABLE_TO_DECODE_ISSUER_PUBLIC_KEY
  | X509_V_ERR_CERT_SIGNATURE_FAILURE
  | X509_V_ERR_CRL_SIGNATURE_FAILURE
  | X509_V_ERR_CERT_NOT_YET_VALID
  | X509_V_ERR_CERT_HAS_EXPIRED
  | X509_V_ERR_CRL_NOT_YET_VALID
  | X509_V_ERR_CRL_HAS_EXPIRED
  | X509_V_ERR_ERROR_IN_CERT_NOT_BEFORE_FIELD
  | X509_V_ERR_ERROR_IN_CERT_NOT_AFTER_FIELD
  | X509_V_ERR_ERROR_IN_CRL_LAST_UPDATE_FIELD
  | X509_V_ERR_ERROR_IN_CRL_NEXT_UPDATE_FIELD
  | X509_V_ERR_OUT_OF_MEM
  | X509_V_ERR_DEPTH_ZERO_SELF_SIGNED_CERT
  | X509_V_ERR_SELF_SIGNED_CERT_IN_CHAIN
  | X509_V_ERR_UNABLE_TO_GET_ISSUER_CERT_LOCALLY
  | X509_V_ERR_UNABLE_TO_VERIFY_LEAF_SIGNATURE
  | X509_V_ERR_CERT_CHAIN_TOO_LONG
  | X509_V_ERR_CERT_REVOKED
  | X509_V_ERR_INVALID_CA
  | X509_V_ERR_PATH_LENGTH_EXCEEDED
  | X509_V_ERR_INVALID_PURPOSE
  | X509_V_ERR_CERT_UNTRUSTED
  | X509_V_ERR_CERT_REJECTED
  | X509_V_ERR_SUBJECT_ISSUER_MISMATCH
  | X509_V_ERR_AKID_SKID_MISMATCH
  | X509_V_ERR_AKID_ISSUER_SERIAL_MISMATCH
  | X509_V_ERR_KEYUSAGE_NO_CERTSIGN
  | X509_V_ERR_INVALID_EXTENSION
  | X509_V_ERR_INVALID_POLICY_EXTENSION
  | X509_V_ERR_NO_EXPLICIT_POLICY
  | X509_V_ERR_APPLICATION_VERIFICATION
  | X509_V_other (e : Z).

#[global] Instance x509_error_eq_dec : EqDecision x509_error.
Proof. solve_decision. Defined.

Definition get_validation_errstr (e : x509_error) : str :=
  match e with
  | X509_V_ERR_UNABLE_TO_GET_ISSUER_CERT => $"ERR_UNABLE_TO_GET_ISSUER_CERT"
  | X509_V_ERR_UNABLE_TO_GET_CRL => $"ERR_UNABLE_TO_GET_CRL"
  | X509_V_ERR_UNABLE_TO_DECRYPT_CERT_SIGNATURE => $"ERR_UNABLE_TO_DECRYPT_CERT_SIGNATURE"
  | X509_V_ERR_UNABLE_TO_DECRYPT_CRL_SIGNATURE => $"ERR_UNABLE_TO_DECRYPT_CRL_SIGNATURE"
  | X509_V_ERR_UNABLE_TO_DECODE_ISSUER_PUBLIC_KEY => $"ERR_UNABLE_TO_DECODE_ISSUER_PUBLIC_KEY"
  | X509_V_ERR_CERT_SIGNATURE_FAILURE => $"ERR_CERT_SIGNATURE_FAILURE"
  | X509_V_ERR_CRL_SIGNATURE_FAILURE => $"ERR_CRL_SIGNATURE_FAILURE"
  | X509_V_ERR_CERT_NOT_YET_VALID => $"ERR_CERT_NOT_YET_VALID"
  | X509_V_ERR_CERT_HAS_EXPIRED => $"ERR_CERT_HAS_EXPIRED"
  | X509_V_ERR_CRL_NOT_YET_VALID => $"ERR_CRL_NOT_YET_VALID"
  | X509_V_ERR_CRL_HAS_EXPIRED => $"ERR_CRL_HAS_EXPIRED"
  | X509_V_ERR_ERROR_IN_CERT_NOT_BEFORE_FIELD => $"ERR_ERROR_IN_CERT_NOT_BEFORE_FIELD"
  | X509_V_ERR_ERROR_IN_CERT_NOT_AFTER_FIELD => $"ERR_ERROR_IN_CERT_NOT_AFTER_FIELD"
  | X509_V_ERR_ERROR_IN_CRL_LAST_UPDATE_FIELD => $"ERR_ERROR_IN_CRL_LAST_UPDATE_FIELD"
  | X509_V_ERR_ERROR_IN_CRL_NEXT_UPDATE_FIELD => $"ERR_ERROR_IN_CRL_NEXT_UPDATE_FIELD"
  | X509_V_ERR_OUT_OF_MEM => $"ERR_OUT_OF_MEM"
  | X509_V_ERR_DEPTH_ZERO_SELF_SIGNED_CERT => $"ERR_DEPTH_ZERO_SELF_SIGNED_CERT"
  | X509_V_ERR_SELF_SIGNED_CERT_IN_CHAIN => $"ERR_SELF_SIGNED_CERT_IN_CHAIN"
  | X509_V_ERR_UNABLE_TO_GET_ISSUER_CERT_LOCALLY => $"ERR_UNABLE_TO_GET_ISSUER_CERT_LOCALLY"
  | X509_V_ERR_UNABLE_TO_VERIFY_LEAF_SIGNATURE => $"ERR_UNABLE_TO_VERIFY_LEAF_SIGNATURE"
  | X509_V_ERR_CERT_CHAIN_TOO_LONG => $"ERR_CERT_CHAIN_TOO_LONG"
  | X509_V_ERR_CERT_REVOKED => $"ERR_CERT_REVOKED"
  | X509_V_ERR_INVALID_CA => $"ERR_INVALID_CA"
  | X509_V_ERR_PATH_LENGTH_EXCEEDED => $"ERR_PATH_LENGTH_EXCEEDED"
  | X509_V_ERR_INVALID_PURPOSE => $"ERR_INVALID_PURPOSE"
  | X509_V_ERR_CERT_UNTRUSTED => $"ERR_CERT_UNTRUSTED"
  | X509_V_ERR_CERT_REJECTED => $"ERR_CERT_REJECTED"
  | X509_V_ERR_SUBJECT_ISSUER_MISMATCH => $"ERR_SUBJECT_ISSUER_MISMATCH"
  | X509_V_ERR_AKID_SKID_MISMATCH => $"ERR_AKID_SKID_MISMATCH"
  | X509_V_ERR_AKID_ISSUER_SERIAL_MISMATCH => $"ERR_AKID_ISSUER_SERIAL_MISMATCH"
  | X509_V_ERR_KEYUSAGE_NO_CERTSIGN => $"ERR_KEYUSAGE_NO_CERTSIGN"
  | X509_V_ERR_INVALID_EXTENSION => $"ERR_INVALID_EXTENSION"
  | X509_V_ERR_INVALID_POLICY_EXTENSION => $"ERR_INVALID_POLICY_EXTENSION"
  | X509_V_ERR_NO_EXPLICIT_POLICY => $"ERR_NO_EXPLICIT_POLICY"
  | X509_V_ERR_APPLICATION_VERIFICATION => $"ERR_APPLICATION_VERIFICATION"
  | X509_V_other _ => $"ERR_UNKNOWN"
  end.

(** ** OpenSSL *)

(** A null pointer and a return value other than 1 are [None]. *)
Class OpenSSL := {
  pkey : Type; md_ctx : Type; x509 : Type; x509_store : Type;
  d2i_X509 : str → option x509;
  X509_verify_cert : x509_store → x509 → option x509_error;  (** [None]: valid *)
  X509_get_pubkey : x509 → pkey;
  EVP_MD_CTX_new : option md_ctx;
  EVP_DigestVerifyInit : md_ctx → pkey → option md_ctx;      (** with [EVP_sha256()] *)
  EVP_DigestVerifyUpdate : md_ctx → str → option md_ctx;
  EVP_DigestVerifyFinal : md_ctx → str → bool * md_ctx;
  i2d_X509 : x509 → option str;                              (** [None]: negative *)
  EVP_DigestSignInit : md_ctx → pkey → option md_ctx;
  EVP_DigestSignUpdate : md_ctx → str → option md_ctx;
  EVP_DigestSignFinal_length : md_ctx → option nat;          (** called with a null buffer *)
  EVP_DigestSignFinal : md_ctx → option (str * md_ctx) }.

(** What OpenSSL documents about a context: it digests what it is given since it was
    initialised, [Final] works on a copy and more data can be added afterwards; what is
    signed with a private key is a valid signature for its public key. *)
Class OpenSSLLaws `{OpenSSL} := {
  digesting : md_ctx → pkey → str → Prop;
  valid_signature : pkey → str → str → bool;
  init_digesting c k c' : EVP_DigestVerifyInit c k = Some c' → digesting c' k [];
  update_digesting c k d x c' : digesting c k d → EVP_DigestVerifyUpdate c x = Some c' → digesting c' k (d ++ x);
  final_digesting c k d s : digesting c k d →
    (EVP_DigestVerifyFinal c s).1 = valid_signature k d s ∧ digesting (EVP_DigestVerifyFinal c s).2 k d;
  public_of : pkey → pkey;
  signing : md_ctx → pkey → str → Prop;
  init_signing c k c' : EVP_DigestSignInit c k = Some c' → signing c' k [];
  update_signing c k d x c' : signing c k d → EVP_DigestSignUpdate c x = Some c' → signing c' k (d ++ x);
  final_signing c k d sig c' : signing c k d → EVP_DigestSignFinal c = Some (sig, c') →
    valid_signature (public_of k) d sig = true ∧ signing c' k d }.

(** ** The session *)

Section session.
Context `{OpenSSL}.

(** [_evp_md_ctx]: null, pointing to a context, or to one that was freed. *)
Inductive ctx_ptr := NullCtx | LiveCtx (c : md_ctx) | FreedCtx.

Record PeerSession := mkPeerSession { _public_key : pkey; _evp_md_ctx : ctx_ptr }.

Definition PeerSession_new (k : pkey) : PeerSession := mkPeerSession k NullCtx.

Definition PeerSession_destroy (s : PeerSession) : res unit :=
  match _evp_md_ctx s with FreedCtx => Raise (UB UseAfterFree) | _ => Ok () end.

(** The session, and what is logged at [ERROR]. *)
Definition new_session (store : x509_store) (raw_cert : str) : option PeerSession * list str :=
  match d2i_X509 raw_cert with
  | None => (None, [$"failed to unpack the device's X509 certificate"])
  | Some cert =>
      match X509_verify_cert store cert with
      | None => (Some (PeerSession_new (X509_get_pubkey cert)), [])
      | Some e => (None, [get_validation_errstr e])
      end
  end.

(** The first block of [verify]: [inl] is an early [return false]. *)
Definition init_ctx (method : ProtoSignAlgorithm) (s : PeerSession) : PeerSession + PeerSession :=
  match _evp_md_ctx s with
  | NullCtx =>
      match EVP_MD_CTX_new with
      | None => inl s
      | Some c =>
          match method with
          | SHA_256 =>
              match EVP_DigestVerifyInit c (_public_key s) with
              | Some c' => inr (mkPeerSession (_public_key s) (LiveCtx c'))
              | None => inl (mkPeerSession (_public_key s) (LiveCtx c))
              end
          | OtherAlgorithm _ => inl (mkPeerSession (_public_key s) FreedCtx)
          end
      end
  | _ => inr s
  end.

Definition verify (data sig : str) (method : ProtoSignAlgorithm) (s : PeerSession) : res (bool * PeerSession) :=
  match init_ctx method s with
  | inl s => Ok (false, s)
  | inr s =>
      match _evp_md_ctx s with
      | LiveCtx c =>
          match EVP_DigestVerifyUpdate c data with
          | None => Ok (false, s)
          | Some c =>
              let '(b, c) := EVP_DigestVerifyFinal c sig in
              Ok (b, mkPeerSession (_public_key s) (LiveCtx c))
          end
      | _ => Raise (UB UseAfterFree)
      end
  end.

(** Successive calls on one session. *)
Fixpoint verify_all (calls : list (str * str * ProtoSignAlgorithm)) (s : PeerSession) : res (list bool * PeerSession) :=
  match calls with
  | [] => Ok ([], s)
  | (data, sig, method) :: calls' =>
      '(b, s) ← verify data sig method s;
      '(bs, s) ← verify_all calls' s;
      Ok (b :: bs, s)
  end.

(** ** What verification checks *)

Context `{!OpenSSLLaws}.
Hypothesis update_succeeds : ∀ c x, EVP_DigestVerifyUpdate c x ≠ None.

(** Each signature against everything the session was ever asked to verify. *)
Fixpoint verify_spec (k : pkey) (before : str) (calls : list (str * str * ProtoSignAlgorithm)) : list bool :=
  match calls with
  | [] => []
  | (data, sig, _) :: calls' => valid_signature k (before ++ data) sig :: verify_spec k (before ++ data) calls'
  end.

Lemma verify_live c k d data sig method :
  digesting c k d →
  ∃ c', verify data sig method (mkPeerSession k (LiveCtx c)) =
      Ok (valid_signature k (d ++ data) sig, mkPeerSession k (LiveCtx c')) ∧ digesting c' k (d ++ data).
Proof.
  intros Hc. unfold verify. simpl. destruct (EVP_DigestVerifyUpdate c data) as [c'|] eqn:E;
    [|by apply update_succeeds in E].
  apply (update_digesting _ _ _ _ _ Hc) in E. destruct (final_digesting _ _ _ sig E) as [Hb Hc'].
  destruct (EVP_DigestVerifyFinal c' sig) as [b c'']. simpl in *. subst. eauto.
Qed.

Lemma verify_all_live calls c k d :
  digesting c k d → ∃ s, verify_all calls (mkPeerSession k (LiveCtx c)) = Ok (verify_spec k d calls, s).
Proof.
  revert c d. induction calls as [|[[data sig] method] calls IH]; intros c d Hc; simpl; [eauto|].
  destruct (verify_live c k d data sig method Hc) as (c' & -> & Hc'). simpl.
  destruct (IH _ _ Hc') as (s & ->). simpl. eauto.
Qed.


(** A first call with an unsupported algorithm answers [false] and leaves the session
    with a pointer to a freed context: every later call, with any algorithm, and the
    destructor use it after it was freed. *)
Theorem verify_unsupported_dangles k c n data sig :
  EVP_MD_CTX_new = Some c →
  ∃ s, verify data sig (OtherAlgorithm n) (PeerSession_new k) = Ok (false, s) ∧
    (∀ data' sig' method, verify data' sig' method s = Raise (UB UseAfterFree)) ∧
    PeerSession_destroy s = Raise (UB UseAfterFree).
Proof. intros Hnew. unfold verify, init_ctx. simpl. rewrite Hnew. eauto. Qed.

(** A session is created exactly for a certificate that parses and that the store
    accepts, with the certificate's key and no digest context. *)
Theorem new_session_spec store raw s :
  (new_session store raw).1 = Some s ↔
    ∃ cert, d2i_X509 raw = Some cert ∧ X509_verify_cert store cert = None ∧
      s = PeerSession_new (X509_get_pubkey cert).
Proof.
  unfold new_session. destruct (d2i_X509 raw) as [cert|]; simpl; [|naive_solver].
  destruct (X509_verify_cert store cert) eqn:E; simpl; naive_solver.
Qed.
End session.

(** ** A concrete library, to run the definitions with *)

(** Keys are numbers, the signature of [d] under [k] is [d] behind the digits of [k], and
    a certificate is valid when its first character is the store's. *)
Definition toy_signature (k : Z) (d : str) : str := show_dec k ++ d.
Definition ToySSL : OpenSSL := {|
  pkey := Z; md_ctx := option (Z * str); x509 := str; x509_store := ascii;
  d2i_X509 raw := match raw with [] => None | _ => Some raw end;
  X509_verify_cert st cert := if bool_decide (head cert = Some st) then None else Some X509_V_ERR_CERT_UNTRUSTED;
  X509_get_pubkey cert := Z.of_nat (length cert);
  EVP_MD_CTX_new := Some None;
  EVP_DigestVerifyInit c k := Some (Some (k, []));
  EVP_DigestVerifyUpdate c x := Some (match c with Some (k, d) => Some (k, d ++ x) | None => None end);
  EVP_DigestVerifyFinal c s :=
    (match c with Some (k, d) => bool_decide (s = toy_signature k d) | None => false end, c);
  i2d_X509 cert := Some cert;
  EVP_DigestSignInit c k := Some (Some (k, []));
  EVP_DigestSignUpdate c x := Some (match c with Some (k, d) => Some (k, d ++ x) | None => None end);
  EVP_DigestSignFinal_length c := Some 64%nat;
  EVP_DigestSignFinal c := match c with Some (k, d) => Some (toy_signature k d, c) | None => None end |}.

Definition ToySSL_laws : @OpenSSLLaws ToySSL.
Proof.
  refine {| digesting := (λ c k d, c = Some (k, d)) : @md_ctx ToySSL → @pkey ToySSL → str → Prop;
            valid_signature := (λ k d s, bool_decide (s = toy_signature k d)) : @pkey ToySSL → str → str → bool;
            public_of := (λ k, k) : @pkey ToySSL → @pkey ToySSL;
            signing := (λ c k d, c = Some (k, d)) : @md_ctx ToySSL → @pkey ToySSL → str → Prop |}; simpl.
  - by intros ??? [= <-].
  - by intros ????? -> [= <-].
  - by intros ???? ->.
  - by intros ??? [= <-].
  - by intros ????? -> [= <-].
  - intros ????? -> [= <- <-]. by rewrite bool_decide_true.
Defined.


Lemma verify_unsupported_dangles_witness :
  ∃ s, @verify ToySSL $"one" $"7one" (OtherAlgorithm 1) (@PeerSession_new ToySSL 7) = Ok (false, s) ∧
    (∀ data' sig' method, @verify ToySSL data' sig' method s = Raise (UB UseAfterFree)) ∧
    PeerSession_destroy s = Raise (UB UseAfterFree).
Proof. exact (@verify_unsupported_dangles ToySSL 7 None 1 $"one" $"7one" eq_refl). Defined.
