(* ===== verification/Server.v ===== *)
(** The packet server ([p2p_server_context.cc], class [P2PServerContext] of
    [p2p_interface.h]): accepting connections, reading packets, dropping duplicates and
    redirecting what is addressed to another device. *)
From S2P Require Import Prelude CxxString IPAddress FifoCache RoutingTable Message PeerSession.
Import RoutingTable.
Local Open Scope Z_scope.

(** ** State *)

(** The [sockaddr_in*] the callbacks pass along: it points to a live object or to a local
    variable of a function that has returned. *)
Inductive sockaddr_ptr := LiveAddr (a : sockaddr_in) | DanglingAddr.

(** What is submitted to the thread pool: a copy of the message with the other arguments. *)
Inductive task :=
  | SendTcp (machine_port : Z) (msg : SignedProtoMessage) (ip : option IPAddress)
  | Handle (msg : SignedProtoMessage) (sin : sockaddr_ptr).

(** [std::unordered_map<std::string, std::pair<std::shared_ptr<IPAddress>, uint32_t>>] *)
Abbreviation routes := (gmap str (route (ADDR := IPAddress))).

Section server.
Context `{Protobuf SignedProtoMessage} `{OpenSSL}.

(** The order in which [std::unordered_map] is walked is not specified. *)
Context (iteration : routes → list (str * route (ADDR := IPAddress))).

Record P2PServerContext := mkServer {
  _port : Z;
  _device_id : str;                                  (** of [_device_context] *)
  _client_cert : x509;
  _x509_store : x509_store;
  _client_priv_key : pkey;
  _evp_md_ctx : md_ctx;
  _thread_ref : option Z;                            (** the socket the thread listens on *)
  _peer_pool : gmap str (option PeerSession);
  _routing_map : routes;
  _packet_cache : FIFOCache str;
  _tasks : list task                                 (** submitted to [_thread_pool] *) }.

Definition set_cache (c : FIFOCache str) (s : P2PServerContext) : P2PServerContext :=
  mkServer (_port s) (_device_id s) (_client_cert s) (_x509_store s) (_client_priv_key s) (_evp_md_ctx s)
    (_thread_ref s) (_peer_pool s) (_routing_map s) c (_tasks s).
Definition set_routes (m : routes) (s : P2PServerContext) : P2PServerContext :=
  mkServer (_port s) (_device_id s) (_client_cert s) (_x509_store s) (_client_priv_key s) (_evp_md_ctx s)
    (_thread_ref s) (_peer_pool s) m (_packet_cache s) (_tasks s).
Definition set_peers (p : gmap str (option PeerSession)) (s : P2PServerContext) : P2PServerContext :=
  mkServer (_port s) (_device_id s) (_client_cert s) (_x509_store s) (_client_priv_key s) (_evp_md_ctx s)
    (_thread_ref s) p (_routing_map s) (_packet_cache s) (_tasks s).
Definition set_md_ctx (c : md_ctx) (s : P2PServerContext) : P2PServerContext :=
  mkServer (_port s) (_device_id s) (_client_cert s) (_x509_store s) (_client_priv_key s) c
    (_thread_ref s) (_peer_pool s) (_routing_map s) (_packet_cache s) (_tasks s).
Definition set_thread (fd : Z) (s : P2PServerContext) : P2PServerContext :=
  mkServer (_port s) (_device_id s) (_client_cert s) (_x509_store s) (_client_priv_key s) (_evp_md_ctx s)
    (Some fd) (_peer_pool s) (_routing_map s) (_packet_cache s) (_tasks s).
Definition submit (t : task) (s : P2PServerContext) : P2PServerContext :=
  mkServer (_port s) (_device_id s) (_client_cert s) (_x509_store s) (_client_priv_key s) (_evp_md_ctx s)
    (_thread_ref s) (_peer_pool s) (_routing_map s) (_packet_cache s) (_tasks s ++ [t]).

Definition get_online_peers (s : P2PServerContext) : routes := get_routing_table (_routing_map s).

(** ** Reading *)

(** One task per route, in the order the table is walked. *)
Definition broadcast (msg : SignedProtoMessage) (s : P2PServerContext) : P2PServerContext :=
  foldl (λ s node, submit (SendTcp (_port s) msg (hop node.2)) s) s (iteration (get_routing_table (_routing_map s))).

(** What happens to a packet that is complete and parsed. *)
Definition handle_packet (signed_msg : SignedProtoMessage) (sin : sockaddr_ptr) (s : P2PServerContext)
    : res P2PServerContext :=
  if bool_decide (sp_ttl signed_msg = 0) then Ok s else
  '(cached, c) ← is_cached (signature signed_msg) (_packet_cache s);
  let s := set_cache c s in
  if cached : bool then Ok s else
  let receiver := sp_receiver signed_msg in
  if bool_decide (_device_id s ≠ receiver) then
    if bool_decide (sp_ttl signed_msg > 1) && can_delivered receiver (_routing_map s) then
      next ← get_next_peer receiver (_routing_map s);
      Ok (submit (SendTcp (_port s) signed_msg next) s)
    else Ok (broadcast signed_msg s)
  else Ok (submit (Handle signed_msg sin) s).

(** The callback reads the connection's input buffer; [evbuffer_copyout] and
    [evbuffer_pullup] leave its bytes where they are, so the buffer comes back as it was. *)
Definition read_callback (buf : str) (sin : sockaddr_ptr) (s : P2PServerContext) : res (P2PServerContext * str) :=
  let recv_size := Z.of_nat (length buf) in
  if bool_decide (recv_size < 4) then Ok (s, buf) else
  let packet_len := of_le32 (take 4 buf) in
  if bool_decide (recv_size - 4 < packet_len) then Ok (s, buf) else
  let '(_, signed_msg) := ParseFromString (take (Z.to_nat packet_len) (drop 4 buf)) in
  s ← handle_packet signed_msg sin s;
  Ok (s, buf).

(** ** Connections *)

Record connection := mkConn { conn_fd : Z; conn_input : str; conn_sin : sockaddr_ptr }.

(** [accept]'s result; the address it fills is a local of the callback, to which
    [bufferevent_setcb] keeps a pointer. *)
Definition libev_callback (accepted : Z * sockaddr_in) : option connection :=
  let '(new_fd, sin) := accepted in
  if bool_decide (new_fd < 0) then None else Some (mkConn new_fd [] DanglingAddr).

Definition BEV_EVENT_EOF : Z := 0x10.
Definition BEV_EVENT_ERROR : Z := 0x20.

(** The connection that is left ([bufferevent_free] closes it), and whether unread bytes
    are reported. *)
Definition event_callback (c : connection) (events : Z) : option connection * bool :=
  let eof := negb (bool_decide (Z.land events BEV_EVENT_EOF = 0)) in
  let error := negb (bool_decide (Z.land events BEV_EVENT_ERROR = 0)) in
  (if eof || error then None else Some c, eof && negb (bool_decide (conn_input c = []))).

(** Data arrives: libevent appends it to the input buffer and calls [read_callback]. *)
Definition data_arrives (data : str) (c : connection) (s : P2PServerContext) : res (P2PServerContext * connection) :=
  '(s, buf) ← read_callback (conn_input c ++ data) (conn_sin c) s;
  Ok (s, mkConn (conn_fd c) buf (conn_sin c)).

Fixpoint chunks_arrive (chunks : list str) (c : connection) (s : P2PServerContext) : res (P2PServerContext * connection) :=
  match chunks with
  | [] => Ok (s, c)
  | data :: chunks' => '(s, c) ← data_arrives data c s; chunks_arrive chunks' c s
  end.

(** [listening_thread] on the socket it was started with: accepted connections are served
    until the event base stops. *)
Definition listening_thread (event_base : option unit) (fd : Z) : option Z :=
  match event_base with None => None | Some _ => Some fd end.

(** ** Lemmas *)

Lemma broadcast_tasks msg s :
  _tasks (broadcast msg s) =
    _tasks s ++ ((λ node, SendTcp (_port s) msg (hop node.2)) <$> iteration (_routing_map s)).
Proof.
  unfold broadcast, get_routing_table. generalize (iteration (_routing_map s)). intros l. revert s.
  induction l as [|node l IH]; intros s; simpl; [by rewrite app_nil_r|].
  rewrite IH. simpl. by rewrite <- app_assoc.
Qed.

Lemma broadcast_frame msg s :
  _routing_map (broadcast msg s) = _routing_map s ∧ _packet_cache (broadcast msg s) = _packet_cache s ∧
  _device_id (broadcast msg s) = _device_id s ∧ _peer_pool (broadcast msg s) = _peer_pool s.
Proof.
  unfold broadcast. generalize (iteration (get_routing_table (_routing_map s))). intros l. revert s.
  induction l as [|node l IH]; intros s; simpl; [done|]. destruct (IH (submit (SendTcp (_port s) msg (hop node.2)) s)) as (-> & -> & -> & ->).
  done.
Qed.

(** A buffer that starts with a complete packet is handled like the packet alone. *)
Lemma read_callback_complete buf sin s packet rest :
  buf = le32 (Z.of_nat (length packet)) ++ packet ++ rest → Z.of_nat (length packet) < 2 ^ 32 →
  read_callback buf sin s =
    (s' ← handle_packet (ParseFromString packet).2 sin s; Ok (s', buf)).
Proof.
  intros Hb Hlen. unfold read_callback.
  assert (length buf = 4 + (length packet + length rest))%nat as Hl by (subst; rewrite !length_app, length_le32; lia).
  rewrite bool_decide_false by lia.
  assert (of_le32 (take 4 buf) = Z.of_nat (length packet)) as ->.
  { rewrite Hb, take_le32. apply of_le32_le32. lia. }
  rewrite bool_decide_false by lia.
  assert (take (Z.to_nat (Z.of_nat (length packet))) (drop 4 buf) = packet) as ->.
  { rewrite Nat2Z.id, Hb, drop_le32. apply take_app_length. }
  by destruct (ParseFromString packet).
Qed.

Lemma is_cached_again (x : str) (c c' : FIFOCache str) b : is_cached x c = Ok (b, c') → is_cached x c' = Ok (true, c').
Proof.
  unfold is_cached. case_decide as Hin; [intros [= <- <-]; by rewrite decide_True|].
  intros (c'' & Hd & [= <- <-])%res_bind_ok. simpl. by rewrite decide_True by set_solver.
Qed.

Lemma handle_packet_again msg sin s s' :
  handle_packet msg sin s = Ok s' → handle_packet msg sin s' = Ok s'.
Proof.
  unfold handle_packet. case_bool_decide; [done|].
  intros ([b c] & Hc & Hs)%res_bind_ok.
  assert (_packet_cache s' = c) as Hc'.
  { destruct b; [by injection Hs as <-|]. case_bool_decide; [|by injection Hs as <-].
    destruct (_ && _).
    - apply res_bind_ok in Hs as (n & _ & [= <-]). done.
    - injection Hs as <-. by rewrite (proj1 (proj2 (broadcast_frame _ _))). }
  rewrite Hc'. rewrite (is_cached_again _ _ _ _ Hc). simpl. f_equal.
  destruct s'; simpl in *; by subst.
Qed.

Lemma chunks_arrive_stuck chunks c s packet rest :
  conn_input c = le32 (Z.of_nat (length packet)) ++ packet ++ rest → Z.of_nat (length packet) < 2 ^ 32 →
  handle_packet (ParseFromString packet).2 (conn_sin c) s = Ok s →
  chunks_arrive chunks c s = Ok (s, mkConn (conn_fd c) (conn_input c ++ concat chunks) (conn_sin c)).
Proof.
  intros Hin Hlen Hs. revert c rest Hin Hs. induction chunks as [|d chunks IH]; intros c rest Hin Hs; simpl.
  - rewrite app_nil_r. by destruct c.
  - unfold data_arrives. rewrite (read_callback_complete _ _ _ packet (rest ++ d)), Hs;
      [|by rewrite Hin, <- !app_assoc|done]. simpl.
    rewrite (IH _ (rest ++ d)); [by rewrite app_assoc|simpl; by rewrite Hin, <- !app_assoc|done].
Qed.

(** ** Properties *)


(** C5: a message that [send_packet_tcp] puts on the wire is read back by the receiving
    server: when the device is the receiver, the ttl was at least 2 and the signature is
    new, exactly one task is queued, which handles the message with the ttl one less
    and the sender's port, and neither routes nor peers change. *)
Theorem delivery_roundtrip `{!ProtobufLaws SignedProtoMessage SignedProtoMessage_wf}
    n port msg ip msg' out sin s c :
  SignedProtoMessage_wf msg → 2 <= sp_ttl msg →
  send_packet_tcp n port msg ip = Ok (true, msg', out) →
  _device_id s = sp_receiver msg → is_cached (signature msg) (_packet_cache s) = Ok (false, c) →
  ∃ s', read_callback out sin s = Ok (s', out) ∧
    _tasks s' = _tasks s ++ [Handle (forwarded port msg) sin] ∧
    _routing_map s' = _routing_map s ∧ _peer_pool s' = _peer_pool s.
Proof.
  intros (Hp & Ht & Ha) Httl (-> & -> & Hlen)%send_packet_tcp_ok Hid Hc.
  assert (SignedProtoMessage_wf (forwarded port msg)) as Hwf.
  { split_and!; [apply wrapu_range; lia..|done]. }
  assert (sp_ttl (forwarded port msg) = sp_ttl msg - 1) as Hsub by (apply wrapu_small; unfold in_u32 in Ht; lia).
  unfold frame. rewrite wrapu_small by (unfold INT_MAX in Hlen; lia).
  rewrite (read_callback_complete _ _ _ (SerializeAsString (forwarded port msg)) []);
    [|by rewrite app_nil_r|unfold INT_MAX in Hlen; lia].
  rewrite parse_serialize by done. unfold handle_packet. simpl snd.
  rewrite bool_decide_false by lia. change (signature (forwarded port msg)) with (signature msg).
  rewrite Hc. simpl. rewrite bool_decide_false by (intros Hne; by apply Hne).
  simpl. eauto 10.
Qed.

(** C18: a packet that is to be redirected is queued with a ttl of at least 1, so the
    decrement in [send_packet_tcp] never wraps around, and only towards hops of the
    routing table: to one when the receiver is known and the ttl is above 1, and
    otherwise to every known hop, also when the receiver is unknown. *)
Theorem redirect_spec msg sin s s' :
  in_u32 (sp_ttl msg) → sp_receiver msg ≠ _device_id s →
  handle_packet msg sin s = Ok s' →
  ∃ hops, _tasks s' = _tasks s ++ ((λ h, SendTcp (_port s) msg h) <$> hops) ∧
    (hops = [] ∨ 1 <= sp_ttl msg) ∧
    (is_cached (signature msg) (_packet_cache s) = Ok (false, _packet_cache s') → sp_ttl msg ≠ 0 →
      hops = match _routing_map s !! sp_receiver msg with
             | Some r => if bool_decide (sp_ttl msg > 1) then [hop r] else (λ n, hop n.2) <$> iteration (_routing_map s)
             | None => (λ n, hop n.2) <$> iteration (_routing_map s)
             end).
Proof.
  intros Ht Hr. unfold handle_packet. case_bool_decide as Hz.
  { intros [= <-]. exists []. rewrite app_nil_r. split_and!; [done|by left|done]. }
  intros ([b c] & Hc & Hs)%res_bind_ok. rewrite Hc. destruct b.
  { injection Hs as <-. exists []. simpl. rewrite app_nil_r. split_and!; [done|by left|done]. }
  rewrite bool_decide_true in Hs by (simpl; congruence). simpl in Hs.
  assert (1 <= sp_ttl msg) by (unfold in_u32 in Ht; lia).
  unfold can_delivered, get_next_peer in Hs.
  assert (_tasks (broadcast msg (set_cache c s)) = _tasks s ++ ((λ h, SendTcp (_port s) msg h) <$> ((λ n, hop n.2) <$> iteration (_routing_map s)))) as Hb.
  { rewrite broadcast_tasks. simpl. by rewrite <- list_fmap_compose. }
  destruct (_routing_map s !! sp_receiver msg) as [r|] eqn:E.
  - case_bool_decide; simpl in Hs; injection Hs as <-.
    + exists [hop r]. split_and!; [done|by right|done].
    + rewrite Hb. eexists. split_and!; [done|by right|done].
  - rewrite andb_false_r in Hs. injection Hs as <-. rewrite Hb. eexists. split_and!; [done|by right|done].
Qed.
End server.
Arguments P2PServerContext {_}.

(** ** A concrete server, to run the definitions with *)

#[local] Existing Instance signed_codec.
#[local] Existing Instance ToySSL.
#[local] Existing Instance ToySSL_laws.
#[local] Existing Instance signed_codec_laws.

Definition toy_server (id : str) (routes : routes) : @P2PServerContext ToySSL :=
  @mkServer ToySSL 3324 id ($"cert" : str) "c"%char 7 None None ∅ routes (FIFOCache_new ([] : str) 4) [].
Definition toy_net : net := mkNet 3 (λ _, (1, 16777343)) (λ _ _ _, 0).
Definition toy_ip : IPAddress := mkIPAddress true 3324 $"10.0.0.7".
Definition toy_msg : SignedProtoMessage := mkSigned $"a" $"b" 0 10 $"sig" $"hi" SHA_256.
Definition toy_conn : connection := mkConn 5 [] DanglingAddr.
Definition toy_packet : str := SerializeAsString toy_msg.
Definition toy_stream : str := le32 (Z.of_nat (length toy_packet)) ++ toy_packet ++ frame (set_signature $"other" toy_msg).


Lemma delivery_roundtrip_witness :
  ∃ s', read_callback map_to_list (frame (forwarded 3324 toy_msg)) DanglingAddr (toy_server $"b" ∅) =
      Ok (s', frame (forwarded 3324 toy_msg)) ∧
    _tasks s' = [Handle (forwarded 3324 toy_msg) DanglingAddr].
Proof.
  destruct (delivery_roundtrip map_to_list toy_net 3324 toy_msg (Some toy_ip) (forwarded 3324 toy_msg)
    (frame (forwarded 3324 toy_msg)) DanglingAddr (toy_server $"b" ∅) (mkFIFOCache 4 [[]; []; []; $"sig"] {[$"sig"]}))
    as (s' & Hs & Ht & _); [by_decide|by_decide|vm_compute; reflexivity|reflexivity|vm_compute; reflexivity|].
  exists s'. split; [exact Hs|exact Ht].
Defined.

Lemma redirect_spec_witness :
  ∃ s', handle_packet map_to_list toy_msg DanglingAddr (toy_server $"z" {[$"a" := mkRoute (Some toy_ip) 3]}) = Ok s' ∧
    ∃ hops, _tasks s' = ((λ h, SendTcp 3324 toy_msg h) <$> hops).
Proof.
  assert (∃ s', handle_packet map_to_list toy_msg DanglingAddr (toy_server $"z" {[$"a" := mkRoute (Some toy_ip) 3]}) = Ok s')
    as [s' Hs] by (eexists; vm_compute; reflexivity).
  exists s'. split; [exact Hs|].
  destruct (redirect_spec map_to_list toy_msg DanglingAddr (toy_server $"z" {[$"a" := mkRoute (Some toy_ip) 3]}) s'
    ltac:(by_decide) ltac:(by_decide) Hs) as (hops & Ht & _).
  by exists hops.
Defined.
