(* ===== verification/Network.v ===== *)
(** A network of packet servers that redirect each other's packets: the composition of
    [read_callback] and [send_packet_tcp] over any number of devices, any placement of
    addresses and any outcome of the socket calls.  Handling of delivered messages is
    left out: only what redirection alone puts on the wire is counted. *)
From S2P Require Import Prelude CxxString IPAddress FifoCache RoutingTable Message PeerSession Server.
Import RoutingTable.

Section network.
Context `{Protobuf SignedProtoMessage} `{OpenSSL} (iteration : routes → list (str * route (ADDR := IPAddress))).
Context `{!ProtobufLaws SignedProtoMessage SignedProtoMessage_wf}.
(** Walking the table visits every entry once. *)
Hypothesis iteration_visits : ∀ m, iteration m ≡ₚ map_to_list m.

(** ** Steps *)

Inductive sends : list task → list (N * str) → Prop :=
  | sends_nil : sends [] []
  | sends_handle m sin ts outs : sends ts outs → sends (Handle m sin :: ts) outs
  | sends_ok n p m ip m' out node ts outs :
      send_packet_tcp n p m ip = Ok (true, m', out) → sends ts outs →
      sends (SendTcp p m ip :: ts) ((node, out) :: outs)
  | sends_failed n p m ip m' out ts outs :
      send_packet_tcp n p m ip = Ok (false, m', out) → sends ts outs →
      sends (SendTcp p m ip :: ts) outs.

(** The servers, and what is on the wire to whom. *)
Definition net_state : Type := gmap N P2PServerContext * list (N * str).

Inductive net_step : net_state → net_state → Prop :=
  | net_deliver servers i s s' buf bytes l1 l2 ts outs sin :
      servers !! i = Some s → read_callback iteration bytes sin s = Ok (s', buf) →
      _tasks s' = _tasks s ++ ts → sends ts outs →
      net_step (servers, l1 ++ (i, bytes) :: l2) (<[i := s']> servers, l1 ++ l2 ++ outs).

Inductive net_steps : nat → net_state → net_state → Prop :=
  | net_steps_O st : net_steps 0 st st
  | net_steps_S k st st' st'' : net_step st st' → net_steps k st' st'' → net_steps (S k) st st''.

(** ** The measure *)

(** The message a server reads from the bytes. *)
Definition message_of (bytes : str) : SignedProtoMessage :=
  (ParseFromString (take (Z.to_nat (of_le32 (take 4 bytes))) (drop 4 bytes))).2.

Definition weight (B : nat) (bytes : str) : nat := S B ^ Z.to_nat (sp_ttl (message_of bytes)).
Definition total (B : nat) (flight : list (N * str)) : nat := sum_list_with (λ p, weight B p.2) flight.
Definition routes_bounded (B : nat) (servers : gmap N P2PServerContext) : Prop :=
  ∀ i s, servers !! i = Some s → size (_routing_map s) ≤ B.

Lemma total_app B l1 l2 : total B (l1 ++ l2) = total B l1 + total B l2.
Proof. apply sum_list_with_app. Qed.

Lemma total_cons B i b l : total B ((i, b) :: l) = weight B b + total B l.
Proof. done. Qed.

Lemma weight_pos B bytes : 0 < weight B bytes.
Proof. unfold weight. apply Nat.neq_0_lt_0, Nat.pow_nonzero. lia. Qed.

Lemma message_of_frame m :
  SignedProtoMessage_wf m → (Z.of_nat (length (SerializeAsString m)) < 2 ^ 32)%Z → message_of (frame m) = m.
Proof.
  intros Hwf Hlen. unfold message_of, frame. rewrite wrapu_small by lia.
  rewrite take_le32, drop_le32, of_le32_le32 by lia. rewrite take_ge by lia. by rewrite parse_serialize.
Qed.

(** What a handled packet queues: nothing to send, or at most one copy per route. *)
Lemma handle_packet_queues msg sin s s' :
  handle_packet iteration msg sin s = Ok s' →
  _routing_map s' = _routing_map s ∧
  ((∃ m a, _tasks s' = _tasks s ++ [Handle m a]) ∨
   ∃ hops, _tasks s' = _tasks s ++ ((λ h, SendTcp (_port s) msg h) <$> hops) ∧
     length hops ≤ size (_routing_map s) ∧ (hops = [] ∨ sp_ttl msg ≠ 0%Z)).
Proof.
  unfold handle_packet. case_bool_decide as Hz.
  { intros [= <-]. split; [done|]. right. exists []. rewrite app_nil_r. simpl. split_and!; [done|lia|by left]. }
  intros ([b c] & Hc & Hs)%res_bind_ok. destruct b.
  { injection Hs as <-. split; [done|]. right. exists []. simpl. rewrite app_nil_r. split_and!; [done|lia|by left]. }
  assert (length (iteration (_routing_map s)) = size (_routing_map s)) as Hlen.
  { rewrite iteration_visits. apply length_map_to_list. }
  assert (_tasks (broadcast iteration msg (set_cache c s)) =
    _tasks s ++ ((λ h, SendTcp (_port s) msg h) <$> ((λ n, hop n.2) <$> iteration (_routing_map s)))) as Hb.
  { rewrite broadcast_tasks. simpl. by rewrite <- list_fmap_compose. }
  case_bool_decide; [|injection Hs as <-; split; [done|left; eauto]].
  destruct (_ && _) eqn:E.
  - apply andb_prop in E as [_ E]. unfold can_delivered, get_next_peer in *. simpl in *.
    destruct (_routing_map s !! sp_receiver msg) as [r|] eqn:Er; [|done]. simpl in Hs. injection Hs as <-.
    split; [done|]. right. exists [hop r]. split_and!; [done| |by right].
    simpl. apply Nat.le_succ_l, Nat.neq_0_lt_0. intros Hsz%map_size_empty_inv. by rewrite Hsz, lookup_empty in Er.
  - injection Hs as <-. destruct (broadcast_frame iteration msg (set_cache c s)) as (-> & _). split; [done|].
    right. eexists. split_and!; [exact Hb|by rewrite length_fmap, Hlen|by right].
Qed.

(** Each copy sent weighs as much as a message with one hop less. *)
Lemma sends_weight B port msg hops outs :
  SignedProtoMessage_wf msg → (hops = [] ∨ sp_ttl msg ≠ 0%Z) →
  sends ((λ h, SendTcp port msg h) <$> hops) outs →
  total B outs ≤ length hops * S B ^ (Z.to_nat (sp_ttl msg) - 1).
Proof.
  intros (Hp & Ht & Ha) Hz Hs. remember ((λ h, SendTcp port msg h) <$> hops) as ts eqn:Ets.
  revert hops Hz Ets. induction Hs as [|m sin ts outs Hs IH|n p m ip m' out node ts outs Hsend Hs IH|n p m ip m' out ts outs Hsend Hs IH];
    intros hops Hz Ets.
  - unfold total. simpl. lia.
  - by destruct hops.
  - destruct hops as [|h hops]; [done|]. injection Ets as -> -> -> Ets. destruct Hz as [|Hz]; [done|].
    specialize (IH hops (or_intror Hz) Ets). apply send_packet_tcp_ok in Hsend as (-> & -> & Hlen).
    rewrite total_cons. unfold weight. rewrite message_of_frame;
      [|split_and!; [apply wrapu_range; lia..|done]|unfold INT_MAX in Hlen; lia].
    assert (sp_ttl (forwarded port msg) = (sp_ttl msg - 1)%Z) as -> by (apply wrapu_small; unfold in_u32 in Ht; lia).
    replace (Z.to_nat (sp_ttl msg - 1)) with (Z.to_nat (sp_ttl msg) - 1) by lia. simpl length. lia.
  - destruct hops as [|h hops]; [done|]. injection Ets as -> -> -> Ets. destruct Hz as [|Hz]; [done|].
    specialize (IH hops (or_intror Hz) Ets). simpl. lia.
Qed.

Lemma net_step_weight B servers flight servers' flight' :
  net_step (servers, flight) (servers', flight') → routes_bounded B servers →
  routes_bounded B servers' ∧ total B flight' < total B flight.
Proof.
  intros Hs HB. inversion Hs as [? i s s' buf bytes l1 l2 ts outs sin Hi Hr Hts Hout]; subst; clear Hs.
  assert (_routing_map s' = _routing_map s ∧ total B outs < weight B bytes) as [Hrt Hw].
  { unfold read_callback in Hr.
    assert (ts = [] → outs = []) as Hnil by (intros ->; by inversion Hout).
    case_bool_decide. { injection Hr as -> <-. split; [done|]. rewrite Hnil; [apply weight_pos|].
      apply (app_inv_head (_tasks s')). by rewrite app_nil_r. }
    case_bool_decide. { injection Hr as -> <-. split; [done|]. rewrite Hnil; [apply weight_pos|].
      apply (app_inv_head (_tasks s')). by rewrite app_nil_r. }
    unfold weight, message_of.
    pose proof (parse_wf (take (Z.to_nat (of_le32 (take 4 bytes))) (drop 4 bytes))) as Hwf.
    destruct (ParseFromString _) as [b msg]. simpl in *.
    apply res_bind_ok in Hr as (s1 & Hh & [= -> <-]).
    apply handle_packet_queues in Hh as (Hrt & Hq). split; [done|].
    destruct Hq as [(m & a & Hq)|(hops & Hq & Hlen & Hz)]; rewrite Hq in Hts; apply app_inv_head in Hts as <-.
    - inversion Hout as [|m1 a1 ts1 outs1 Hout'| |]; subst. inversion Hout'; subst. simpl.
      apply Nat.neq_0_lt_0, Nat.pow_nonzero. lia.
    - pose proof (sends_weight B _ _ _ _ Hwf Hz Hout) as Hle. specialize (HB i s Hi).
      destruct Hz as [->|Hz]; [simpl in Hle; assert (total B outs = 0) as -> by lia; apply Nat.neq_0_lt_0, Nat.pow_nonzero; lia|].
      destruct Hwf as (_ & Ht & _). unfold in_u32 in Ht.
      replace (Z.to_nat (sp_ttl msg)) with (S (Z.to_nat (sp_ttl msg) - 1)) by lia. rewrite Nat.pow_succ_r'.
      assert (0 < S B ^ (Z.to_nat (sp_ttl msg) - 1)) by (apply Nat.neq_0_lt_0, Nat.pow_nonzero; lia).
      assert (length hops * S B ^ (Z.to_nat (sp_ttl msg) - 1) ≤ B * S B ^ (Z.to_nat (sp_ttl msg) - 1))
        by (apply Nat.mul_le_mono_r; lia). nia. }
  split.
  - intros j t [[-> <-]|[? Hj]]%lookup_insert_Some; [rewrite Hrt|]; by eapply HB.
  - rewrite !total_app, total_cons. lia.
Qed.

(** C2: redirection cannot go on forever, whatever the topology: when no device has more
    than [B] routes, the number of packets received in any run is at most the sum of
    [(B+1)^ttl] over the packets on the wire at its start. *)
Theorem flood_bounded B k servers flight st' :
  routes_bounded B servers → net_steps k (servers, flight) st' →
  k + total B st'.2 ≤ total B flight.
Proof.
  intros HB Hs. remember (servers, flight) as st eqn:Est. revert servers flight Est HB.
  induction Hs as [st|k st [servers1 flight1] st'' Hstep Hs IH]; intros servers flight -> HB; simpl; [lia|].
  destruct (net_step_weight B _ _ _ _ Hstep HB) as [HB' Hlt]. specialize (IH _ _ eq_refl HB'). lia.
Qed.
(** ** Delivery along a path *)

(** The signature of the message is new to the server. *)
Definition fresh (msg : SignedProtoMessage) (s : P2PServerContext) : Prop :=
  ∃ c, is_cached (signature msg) (_packet_cache s) = Ok (false, c).

(** A server that passes the message on: it is not the receiver, it knows a route to the
    receiver, and connections to the next hop succeed. *)
Definition relays (msg : SignedProtoMessage) (s : P2PServerContext) : Prop :=
  _device_id s ≠ sp_receiver msg ∧ fresh msg s ∧
  ∃ r n, _routing_map s !! sp_receiver msg = Some r ∧ connects n (hop r).

Lemma handle_packet_relay msg sin s :
  relays msg s → (1 < sp_ttl msg)%Z →
  ∃ s' r n, handle_packet iteration msg sin s = Ok s' ∧ connects n (hop r) ∧
    _tasks s' = _tasks s ++ [SendTcp (_port s) msg (hop r)].
Proof.
  intros (Hid & (c & Hc) & r & n & Hr & Hn) Httl. unfold handle_packet. rewrite bool_decide_false by lia.
  rewrite Hc. simpl. rewrite bool_decide_true by done. rewrite bool_decide_true by lia.
  unfold can_delivered, get_next_peer. simpl. rewrite Hr. simpl. eauto 10.
Qed.

Lemma handle_packet_deliver msg sin s :
  _device_id s = sp_receiver msg → fresh msg s → sp_ttl msg ≠ 0%Z →
  ∃ s', handle_packet iteration msg sin s = Ok s' ∧ _tasks s' = _tasks s ++ [Handle msg sin].
Proof.
  intros Hid (c & Hc) Httl. unfold handle_packet. rewrite bool_decide_false by lia.
  rewrite Hc. simpl. rewrite bool_decide_false by (intros Hne; by apply Hne). eauto.
Qed.

Definition fits (msg : SignedProtoMessage) : Prop := (Z.of_nat (length (SerializeAsString msg)) <= INT_MAX)%Z.

Lemma read_callback_frame msg sin s :
  SignedProtoMessage_wf msg → fits msg →
  read_callback iteration (frame msg) sin s = (s' ← handle_packet iteration msg sin s; Ok (s', frame msg)).
Proof.
  unfold fits, INT_MAX. intros Hwf Hlen. rewrite (read_callback_complete iteration (frame msg) sin s (SerializeAsString msg) []).
  - by rewrite parse_serialize.
  - unfold frame. by rewrite wrapu_small, app_nil_r by lia.
  - lia.
Qed.

Lemma relays_forwarded p msg s : relays msg s → relays (forwarded p msg) s.
Proof. done. Qed.

(** One relay: the packet goes from it to any server it is addressed to. *)
Lemma net_relay servers i j s msg (sin : sockaddr_ptr) l1 l2 :
  SignedProtoMessage_wf msg → fits msg → fits (forwarded (_port s) msg) → (1 < sp_ttl msg)%Z →
  servers !! i = Some s → relays msg s →
  ∃ s', net_step (servers, l1 ++ (i, frame msg) :: l2)
    (<[i := s']> servers, (l1 ++ l2) ++ [(j, frame (forwarded (_port s) msg))]).
Proof.
  intros Hwf Hf Hf' Httl Hi Hrel. destruct (handle_packet_relay msg sin s Hrel Httl) as (s' & r & n & Hh & Hn & Ht).
  exists s'. rewrite <- app_assoc.
  eapply (net_deliver servers i s s' (frame msg) (frame msg) l1 l2 [SendTcp (_port s) msg (hop r)] _ sin); [done| |done|].
  - by rewrite read_callback_frame, Hh.
  - eapply (sends_ok n); [by apply send_packet_tcp_connects|constructor].
Qed.

(** Routing delivers.  When the devices of a path all relay a message (they know a route
    to its receiver, accept connections from each other and have not seen its signature),
    the path ends at the receiver, and the ttl exceeds the number of relays, the network
    can carry the message along it: after one step per device exactly one task is queued
    at the receiver, which handles the message with the ttl decreased by the number of
    relays and the signed payload unchanged; nothing else on the wire is touched. *)
Theorem delivery_along_path servers (path : list (N * P2PServerContext)) j d msg sin l1 l2 :
  SignedProtoMessage_wf msg → NoDup (path.*1 ++ [j]) →
  Forall (λ p, servers !! p.1 = Some p.2 ∧ relays msg p.2) path → servers !! j = Some d →
  _device_id d = sp_receiver msg → fresh msg d → (Z.of_nat (length path) < sp_ttl msg)%Z →
  (∀ k, k ≤ length path → fits (after_hops ((λ p, _port p.2) <$> take k path) msg)) →
  ∃ servers' d', let final := after_hops ((λ p, _port p.2) <$> path) msg in
    net_steps (S (length path)) (servers, l1 ++ (default j (head path.*1), frame msg) :: l2) (servers', l1 ++ l2) ∧
    servers' !! j = Some d' ∧ _tasks d' = _tasks d ++ [Handle final sin] ∧
    sp_ttl final = (sp_ttl msg - Z.of_nat (length path))%Z ∧ signed_payload final = signed_payload msg.
Proof.
  revert servers msg l1 l2. induction path as [|[i s] path IH]; intros servers msg l1 l2 Hwf Hnd Hrel Hj Hid Hfr Httl Hfit; simpl in *.
  - destruct (handle_packet_deliver msg sin d Hid Hfr ltac:(lia)) as (d' & Hh & Ht).
    exists (<[j := d']> servers), d'. split_and!; [|apply lookup_insert_eq|done|lia|done].
    eapply net_steps_S; [|constructor]. rewrite <- (app_nil_r (l1 ++ l2)), <- app_assoc.
    eapply (net_deliver servers j d d' (frame msg) (frame msg) l1 l2 [Handle msg sin] [] sin); [done| |done|repeat constructor].
    rewrite read_callback_frame; [by rewrite Hh|done|exact (Hfit 0 ltac:(lia))].
  - apply Forall_cons in Hrel as [[Hi Hs] Hrel]. apply NoDup_cons in Hnd as [Hni Hnd]. simpl in *.
    destruct (net_relay servers i (default j (head path.*1)) s msg sin l1 l2) as (s' & Hstep);
      [done|exact (Hfit 0 ltac:(lia))|exact (Hfit 1 ltac:(lia))|lia|done|done|].
    destruct (IH (<[i := s']> servers) (forwarded (_port s) msg) (l1 ++ l2) []) as (servers' & d' & Hsteps & Hd' & Ht & Hl & Hp).
    + by apply forwarded_wf.
    + done.
    + apply Forall_forall. intros [i' t] Hin. rewrite Forall_forall in Hrel. destruct (Hrel _ Hin) as [Hi' Ht]. simpl in *.
      split; [|by apply relays_forwarded]. rewrite lookup_insert_ne; [done|].
      intros ->. apply Hni, elem_of_app. left. by apply (list_elem_of_fmap_2 fst _ (i', t)).
    + rewrite lookup_insert_ne; [done|]. intros ->. apply Hni, elem_of_app. right. by apply list_elem_of_singleton.
    + done.
    + done.
    + rewrite forwarded_ttl by (done || lia). lia.
    + intros k Hk. exact (Hfit (S k) ltac:(lia)).
    + exists servers', d'. rewrite app_nil_r in Hsteps. split_and!; [by eapply net_steps_S|done|done| |done].
      etransitivity; [exact Hl|]. rewrite forwarded_ttl by (done || lia). lia.
Qed.
End network.

#[local] Existing Instance signed_codec.
#[local] Existing Instance ToySSL.
#[local] Existing Instance signed_codec_laws.

(** Device 0 knows a hop to device 1; the packet is for device [z], which nobody knows. *)
Definition toy_servers : gmap N (@P2PServerContext ToySSL) :=
  {[0%N := toy_server $"a" {[$"b" := mkRoute (Some toy_ip) 3]}]}.
Definition lost_msg : SignedProtoMessage := mkSigned $"q" $"z" 0 2 $"sig" $"hi" SHA_256.

Lemma flood_bounded_witness :
  ∃ st', net_steps map_to_list 1 (toy_servers, [(0%N, frame lost_msg)]) st' ∧
    1 + total 1 st'.2 ≤ total 1 [(0%N, frame lost_msg)].
Proof.
  assert (∃ s', read_callback map_to_list (frame lost_msg) DanglingAddr (toy_server $"a" {[$"b" := mkRoute (Some toy_ip) 3]})
    = Ok (s', frame lost_msg) ∧ _tasks s' = [] ++ [SendTcp 3324 lost_msg (Some toy_ip)]) as (s' & Hr & Ht)
    by (eexists; split; [vm_compute; reflexivity|vm_compute; reflexivity]).
  exists (<[0%N := s']> toy_servers, [] ++ [] ++ [(1%N, frame (forwarded 3324 lost_msg))]).
  assert (net_steps map_to_list 1 (toy_servers, [(0%N, frame lost_msg)])
    (<[0%N := s']> toy_servers, [] ++ [] ++ [(1%N, frame (forwarded 3324 lost_msg))])) as Hs.
  { eapply net_steps_S; [|constructor].
    eapply (net_deliver map_to_list toy_servers 0%N _ s' _ (frame lost_msg) [] []); [reflexivity|exact Hr|exact Ht|].
    eapply (sends_ok toy_net); [vm_compute; reflexivity|constructor]. }
  split; [exact Hs|].
  refine (flood_bounded map_to_list (λ m, _) 1 1 toy_servers _ _ _ Hs); [reflexivity|].
  intros i s Hi. unfold toy_servers in Hi. apply lookup_singleton_Some in Hi as [_ <-]. vm_compute. lia.
Defined.

(** Devices [a] and [b] relay to [z]. *)
Definition path_msg : SignedProtoMessage := mkSigned $"q" $"z" 0 10 $"sig" $"hi" SHA_256.
Definition toy_relay (id : str) : @P2PServerContext ToySSL := toy_server id {[$"z" := mkRoute (Some toy_ip) 3]}.
Definition path_servers : gmap N (@P2PServerContext ToySSL) :=
  <[0%N := toy_relay $"a"]> (<[1%N := toy_relay $"b"]> {[2%N := toy_server $"z" ∅]}).

Lemma toy_fresh id routes : fresh path_msg (toy_server id routes).
Proof. eexists. vm_compute. reflexivity. Qed.

Lemma toy_relays id : id ≠ $"z" → relays path_msg (toy_relay id).
Proof.
  intros Hid. split; [done|]. split; [apply toy_fresh|].
  exists (mkRoute (Some toy_ip) 3), toy_net. split; [apply lookup_singleton_eq|]. exists toy_ip. split_and!; by_decide.
Qed.

Lemma delivery_along_path_witness :
  ∃ servers' d', net_steps map_to_list 3 (path_servers, [(0%N, frame path_msg)]) (servers', []) ∧ servers' !! 2%N = Some d' ∧
    _tasks d' = [Handle (after_hops [3324; 3324]%Z path_msg) DanglingAddr] ∧
    sp_ttl (after_hops [3324; 3324]%Z path_msg) = 8%Z.
Proof.
  destruct (delivery_along_path map_to_list path_servers [(0%N, toy_relay $"a"); (1%N, toy_relay $"b")] 2%N
    (toy_server $"z" ∅) path_msg DanglingAddr [] []) as (servers' & d' & Hs & Hd & Ht & Hl & _).
  - by_decide.
  - by_decide.
  - repeat constructor; (by_decide || reflexivity || by apply toy_relays).
  - reflexivity.
  - reflexivity.
  - apply toy_fresh.
  - by_decide.
  - intros [|[|[|k]]] Hk; [unfold fits; by_decide..|simpl in Hk; lia].
  - exists servers', d'. split; [exact Hs|]. split; [exact Hd|]. split; [exact Ht|exact Hl].
Defined.
