(* ===== verification/ManagementApi.v ===== *)
(** The interfaces of the management library ([management_api/include/management_api.h] and
    [include/model/*.h]).  A class per abstract class; [W] is the outside world (the
    network and the disk) that the calls read and change. *)
From S2P Require Import Prelude.

(** ** Responses *)

Class IDeviceInfoResponse (R : Type) := {
  info_device_id : R → res str;
  machine_id : R → res str;
  device_ip : R → res str;
  register_user : R → res str }.

(** [std::map]: ordered by key *)
Class IPeerListResponse (R : Type) := peer_list_map : R → res (list (str * str)).

Class IUserDetailResponse (R : Type) := {
  name : R → res str;
  email : R → res str;
  group : R → res (gmap Z (str * str)) }.

(** ** Contexts *)

(** Null pointers are [None].  [U] and [D] are the implementing classes. *)
Class IUserContext (W U UserDetail : Type) := {
  logout : U → W → res (U * W);
  is_logged_in : U → bool;
  login : str → str → U → W → res (bool * str * U * W);
  user_detail : U → W → res (option UserDetail * W) }.

Class IDeviceContext (W D DeviceInfo PeerList : Type) := {
  is_enabled : D → W → res (bool * W);
  device_id : D → str;
  client_certificate : D → W → res (str * W);
  peer_list : D → W → res (option PeerList * W);
  device_info : D → W → res (option DeviceInfo * W) }.
