(* ===== verification/Config.v ===== *)
(** The device configuration ([management_api/include/configuration.h], class [Config])
    and its YAML file ([utils/config_reader.cc]).  The YAML library is a class of
    operations on documents; the file system maps paths to contents. *)
From S2P Require Import Prelude CxxString.
Local Open Scope Z_scope.

(** ** The class *)

Record Config := mkConfig {
  _worker_thread_num : Z; _packet_cached_size : Z; _management_server_url : str;
  _p2p_port : Z; _p2p_listen_address : str; _p2p_listen_interface : str;
  _mount_point : str; _config_folder : str; _manage_sock_url : str;
  _client_certificate_path : str; _server_certificate_path : str; _client_configuration_path : str }.

#[global] Instance Config_eq_dec : EqDecision Config.
Proof. solve_decision. Defined.

(** [std::filesystem::path::operator/] with a relative right-hand side *)
Definition path_append (p q : str) : str :=
  match last p with None => q | Some c => if bool_decide (c = "/"%char) then p ++ q else p ++ $"/" ++ q end.

Definition Config_default : Config :=
  let folder := $"/tmp/p2p_sync" in
  {| _worker_thread_num := 5; _packet_cached_size := 100;
     _management_server_url := $"http://10.10.0.118"; _p2p_port := 3324;
     _p2p_listen_address := []; _p2p_listen_interface := $"eth0";
     _mount_point := $"/mnt/p2pfs"; _config_folder := folder;
     _manage_sock_url := path_append folder $"sync.sock";
     _client_certificate_path := path_append folder $"device.p12";
     _server_certificate_path := path_append folder $"client_sign_root.crt";
     _client_configuration_path := path_append folder $"device.cfg" |}.

(** The parameters are a [uint8_t], a [uint32_t], a [uint16_t] and strings, in the order of
    the declaration, which is not that of the members. *)
Definition Config_new (worker_thread_num packet_cached_size : Z) (management_server_url : str)
    (p2p_port : Z) (p2p_listen_address p2p_listen_interface mount_point config_folder
     manage_sock_file client_configuration_path client_certificate_path server_certificate_path : str) : Config :=
  {| _worker_thread_num := u8 worker_thread_num; _packet_cached_size := u32 packet_cached_size;
     _management_server_url := management_server_url; _p2p_port := u16 p2p_port;
     _p2p_listen_address := p2p_listen_address; _p2p_listen_interface := p2p_listen_interface;
     _mount_point := mount_point; _config_folder := config_folder; _manage_sock_url := manage_sock_file;
     _client_certificate_path := client_certificate_path;
     _server_certificate_path := server_certificate_path;
     _client_configuration_path := client_configuration_path |}.

Definition p2p_port (c : Config) : Z := _p2p_port c.
Definition p2p_listen_address (c : Config) : str := _p2p_listen_address c.
Definition p2p_listen_interface (c : Config) : str := _p2p_listen_interface c.
Definition mount_point (c : Config) : str := _mount_point c.
Definition config_folder (c : Config) : str := _config_folder c.
Definition manage_sock (c : Config) : str := _manage_sock_url c.
Definition client_certificate_path (c : Config) : str := _client_certificate_path c.
Definition server_certificate_path (c : Config) : str := _server_certificate_path c.
Definition client_configuration_path (c : Config) : str := _client_configuration_path c.
Definition worker_thread_num (c : Config) : Z := _worker_thread_num c.
Definition packet_cache_size (c : Config) : Z := _packet_cached_size c.
Definition management_server_url (c : Config) : str := _management_server_url c.

(** The members hold values of their types. *)
Definition Config_wf (c : Config) : Prop :=
  0 <= _worker_thread_num c < 2 ^ 8 ∧ 0 <= _packet_cached_size c < 2 ^ 32 ∧ 0 <= _p2p_port c < 2 ^ 16.

(** ** YAML documents *)

Inductive node := Null | Scalar (s : str) | Mapping (kvs : list (str * node)).

Fixpoint assoc_set (k : str) (v : node) (kvs : list (str * node)) : list (str * node) :=
  match kvs with
  | [] => [(k, v)]
  | (k', v') :: kvs' => if decide (k = k') then (k, v) :: kvs' else (k', v') :: assoc_set k v kvs'
  end.

(** [node[k]] read, and [node[k] = v], [node[k1][k2] = v]: a null node becomes a mapping. *)
Definition get_key (k : str) (n : node) : option node :=
  match n with Mapping kvs => assoc k kvs | _ => None end.
Definition set_key (k : str) (v : node) (n : node) : node :=
  match n with Mapping kvs => Mapping (assoc_set k v kvs) | _ => Mapping [(k, v)] end.
Definition set_key2 (k1 k2 : str) (v : node) (n : node) : node :=
  set_key k1 (set_key k2 v (default Null (get_key k1 n))) n.

(** yaml-cpp: the text of a document, [YAML::Load], and [as] for the number types, given
    by their least and greatest value. *)
Class YAML := {
  emit : node → str;
  load : str → option node;
  as_number : Z → Z → str → option Z }.

(** A document reads back as it was written, and so do the numbers in it. *)
Class YAMLLaws `{YAML} := {
  load_emit n : load (emit n ++ [NL]) = Some n;
  as_number_show lo hi n : lo <= n <= hi → 0 <= n → as_number lo hi (show_dec n) = Some n }.

(** ** The file *)

(** The contents of the files, by path. *)
Abbreviation files := (gmap str str).

Section reader.
Context `{YAML}.

(** The document [save_config] builds, one assignment after the other. *)
Definition config_node (config : Config) : node :=
  let n := Null in
  let n := set_key $"worker_thread" (Scalar (show_dec (worker_thread_num config))) n in
  let n := set_key $"packet_cache_size" (Scalar (show_dec (packet_cache_size config))) n in
  let n := set_key $"management_server_url" (Scalar (management_server_url config)) n in
  let n := set_key2 $"p2p" $"p2p_port" (Scalar (show_dec (p2p_port config))) n in
  let n := set_key2 $"p2p" $"p2p_listen_address" (Scalar (p2p_listen_address config)) n in
  let n := set_key2 $"p2p" $"p2p_listen_interface" (Scalar (p2p_listen_interface config)) n in
  let n := set_key2 $"sync" $"manage_sock" (Scalar (manage_sock config)) n in
  let n := set_key2 $"sync" $"mount_point" (Scalar (mount_point config)) n in
  let n := set_key2 $"sync" $"config_folder" (Scalar (config_folder config)) n in
  let n := set_key2 $"sync" $"server_certificate_path" (Scalar (server_certificate_path config)) n in
  let n := set_key2 $"sync" $"client_certificate_path" (Scalar (client_certificate_path config)) n in
  set_key2 $"sync" $"client_configuration_path" (Scalar (client_configuration_path config)) n.

(** [writable] says whether the output stream opens; opening truncates the file. *)
Definition save_config (config : Config) (config_file : str) (writable : bool) (fs : files) : bool * files :=
  if writable then (true, <[config_file := emit (config_node config) ++ [NL]]> fs) else (false, fs).

(** [as<T>()]: a missing node and a failed conversion throw. *)
Definition as_string (n : option node) : res str :=
  match n with Some (Scalar s) => Ok s | _ => Raise RuntimeError end.
Definition as_int (lo hi : Z) (n : option node) : res Z :=
  s ← as_string n; deref RuntimeError (as_number lo hi s).
Definition get2 (k1 k2 : str) (n : node) : option node := n ← get_key k1 n; get_key k2 n.

(** [None] is the null pointer. *)
Definition load_config (config_file : str) (fs : files) : res (option Config) :=
  match fs !! config_file ≫= load with
  | None => Ok None
  | Some config =>
      worker_thread ← as_int INT_MIN INT_MAX (get_key $"worker_thread" config);
      packet_cache_size ← as_int 0 (2 ^ 32 - 1) (get_key $"packet_cache_size" config);
      management_server_url ← as_string (get_key $"management_server_url" config);
      p2p_port ← as_int 0 (2 ^ 16 - 1) (get2 $"p2p" $"p2p_port" config);
      p2p_listen_address ← as_string (get2 $"p2p" $"p2p_listen_address" config);
      p2p_listen_interface ← as_string (get2 $"p2p" $"p2p_listen_interface" config);
      mount_point ← as_string (get2 $"sync" $"mount_point" config);
      config_folder ← as_string (get2 $"sync" $"config_folder" config);
      manage_sock ← as_string (get2 $"sync" $"manage_sock" config);
      client_configuration_path ← as_string (get2 $"sync" $"client_configuration_path" config);
      client_certificate_path ← as_string (get2 $"sync" $"client_certificate_path" config);
      server_certificate_path ← as_string (get2 $"sync" $"server_certificate_path" config);
      Ok (Some (Config_new worker_thread packet_cache_size management_server_url p2p_port
        p2p_listen_address p2p_listen_interface mount_point config_folder manage_sock
        client_configuration_path client_certificate_path server_certificate_path))
  end.

Context `{!YAMLLaws}.

Lemma as_int_show lo hi n : lo <= n <= hi → 0 <= n → as_int lo hi (Some (Scalar (show_dec n))) = Ok n.
Proof. intros. unfold as_int. simpl. by rewrite as_number_show. Qed.

Lemma load_saved_config config config_file fs :
  Config_wf config →
  load_config config_file (<[config_file := emit (config_node config) ++ [NL]]> fs) = Ok (Some config).
Proof.
  intros (Hw & Hc & Hp). unfold load_config. rewrite lookup_insert_eq. simpl mbind.
  rewrite load_emit. destruct config; unfold config_node, get2; simpl in *.
  rewrite !as_int_show by (unfold INT_MIN, INT_MAX; lia). simpl.
  unfold Config_new. by rewrite !wrapu_small.
Qed.

(** C19: loading the file that a successful [save_config] wrote gives back the same
    configuration, member by member, whatever else is on the disk. *)
Theorem load_save_config config config_file fs fs' :
  Config_wf config → save_config config config_file true fs = (true, fs') →
  load_config config_file fs' = Ok (Some config).
Proof. intros Hwf [= <-]. by apply load_saved_config. Qed.
End reader.

(** ** A concrete YAML, to run the definitions with *)

Fixpoint node_tree (n : node) : gen_tree str :=
  match n with
  | Null => GenNode 0 []
  | Scalar s => GenLeaf s
  | Mapping kvs => GenNode 1 (map (λ '(k, v), GenNode 2 [GenLeaf k; node_tree v]) kvs)
  end.
Fixpoint tree_node (t : gen_tree str) : node :=
  match t with
  | GenLeaf s => Scalar s
  | GenNode 1 ts =>
      Mapping (map (λ t, match t with GenNode _ [GenLeaf k; v] => (k, tree_node v) | _ => ([], Null) end) ts)
  | GenNode _ _ => Null
  end.

Lemma tree_node_tree : ∀ n, tree_node (node_tree n) = n.
Proof.
  fix IH 1. intros [|s|kvs]; [done..|]. simpl. f_equal.
  induction kvs as [|[k v] kvs IHk]; simpl; [done|]. by rewrite IH, IHk.
Qed.

Fixpoint tree_bits (p : positive) : str :=
  match p with xH => [] | xO p => "0"%char :: tree_bits p | xI p => "1"%char :: tree_bits p end.
Fixpoint bits_tree (s : str) : positive :=
  match s with
  | [] => xH
  | c :: s => if bool_decide (c = NL) then xH else
      if bool_decide (c = "1"%char) then xI (bits_tree s) else xO (bits_tree s)
  end.

Definition ToyYAML : YAML := {|
  emit n := tree_bits (encode (node_tree n));
  load s := tree_node <$> decode (bits_tree s);
  as_number lo hi s :=
    if forallb isdigit s && bool_decide (s ≠ []) && bool_decide (lo <= digits_value s <= hi)
    then Some (digits_value s) else None |}.

Lemma ToyYAML_laws : @YAMLLaws ToyYAML.
Proof.
  split; simpl.
  - intros n. assert (∀ p, bits_tree (tree_bits p ++ [NL]) = p) as -> by (induction p; simpl; by f_equal).
    rewrite decode_encode. simpl. by rewrite tree_node_tree.
  - intros lo hi n Hn H0. destruct (show_dec_spec n H0) as (Hv & Hd & Hne).
    rewrite Hv, !bool_decide_true by done.
    by rewrite (proj2 (forallb_forall _ _)) by (intros c Hc%list_elem_of_In; by rewrite Forall_forall in Hd; apply Hd).
Qed.

Lemma load_save_config_witness :
  @load_config ToyYAML $"cfg.yml" (@save_config ToyYAML Config_default $"cfg.yml" true ∅).2 = Ok (Some Config_default).
Proof.
  exact (@load_save_config ToyYAML ToyYAML_laws Config_default $"cfg.yml" ∅
    (@save_config ToyYAML Config_default $"cfg.yml" true ∅).2 ltac:(unfold Config_wf; simpl; lia) eq_refl).
Defined.
