(* ===== verification/Hello.v ===== *)
(** Sending and handling messages: [P2PServerContext::send_pkg]
    ([p2p_server_context.cc]), the hello handler ([packet/handler/hello_message.tcc]) and
    [PacketHandler::handle] ([packet/packet_handler.cc]). *)
From S2P Require Import Prelude CxxString IPAddress FifoCache RoutingTable Message PeerSession Server.
Import InstancePool RoutingTable.
Local Open Scope Z_scope.

Section hello.
Context `{Protobuf SignedProtoMessage} `{Protobuf ProtoMessage} `{Protobuf Any} `{OpenSSL}.
(** Declared in [p2p_interface.h] without a definition. *)
Context (package_pkg : ProtoHelloMessage → str → ProtoMessage).
Context (inet_ntop : Z → Z → Z → option str).
(** [_handler_impl<ProtoHelloMessage>::handle], which the specialisation does not define. *)
Context (hello_handle : ProtoMessage → sockaddr_ptr → P2PServerContext → res (bool * P2PServerContext)).

(** ** Sending *)

(** [false]: the returned future is [false] and nothing is submitted; [Fatal]: [LOG(FATAL)]. *)
Definition send_pkg (data : ProtoMessage) (peer : option IPAddress) (s : P2PServerContext)
    : res (bool * P2PServerContext) :=
  let raw_packet := SerializeAsString data in
  if bool_decide (Z.of_nat (length raw_packet) > INT_MAX) then Raise (UB Uninitialized) else
  c ← deref Fatal (EVP_DigestSignInit (_evp_md_ctx s) (_client_priv_key s));
  c ← deref Fatal (EVP_DigestSignUpdate c raw_packet);
  match EVP_DigestSignFinal_length c with
  | None => Ok (false, set_md_ctx c s)
  | Some digest_len =>
      match EVP_DigestSignFinal c with
      | None => Ok (false, set_md_ctx c s)
      | Some (digest, c) =>
          let signed_msg := SignedProtoMessage_default in
          let signed_msg := set_ttl 10 signed_msg in
          let signed_msg := set_signature digest signed_msg in
          let signed_msg := set_sign_algorithm SHA_256 signed_msg in
          let signed_msg := set_signed_payload raw_packet signed_msg in
          Ok (true, submit (SendTcp (_port s) signed_msg peer) (set_md_ctx c s))
      end
  end.

(** [_handler_impl<ProtoHelloMessage>::internal_construct] *)
Definition internal_construct (cert : x509) (s : P2PServerContext) : res ProtoHelloMessage :=
  raw_cert ← deref (UB NullDeref) (i2d_X509 cert);
  Ok (mkHello (_device_id s) [] raw_cert).

(** ** Handling a hello *)

(** The part before the routing table: the session of the sender, made from the
    certificate in the message if there is none yet. *)
Definition ensure_session (message : ProtoHelloMessage) (s : P2PServerContext) : option P2PServerContext :=
  match get_instance (sender_id message) (_peer_pool s) with
  | Some _ => Some s
  | None =>
      match (new_session (_x509_store s) (x509_certificate message)).1 with
      | None => None
      | Some session => Some (set_peers (add_instance (sender_id message) (Some session) (_peer_pool s)).2 s)
      end
  end.

Definition load_sockaddr (p : sockaddr_ptr) : res sockaddr_in :=
  match p with LiveAddr a => Ok a | DanglingAddr => Raise (UB UseAfterFree) end.

Definition internal_handle (message : ProtoHelloMessage) (prev_port : Z) (client_address : sockaddr_ptr)
    (ttl : Z) (s : P2PServerContext) : res (bool * P2PServerContext) :=
  match ensure_session message s with
  | None => Ok (false, s)
  | Some s =>
      a ← load_sockaddr client_address;
      new_ip ← IPAddress_of_sockaddr inet_ntop a prev_port;
      if can_delivered (sender_id message) (_routing_map s) then
        let '(_, m) := try_update_table (sender_id message) (Some new_ip) ttl (_routing_map s) in
        let s := set_routes m s in
        hello ← internal_construct (_client_cert s) s;
        '(_, s) ← send_pkg (package_pkg hello (sender_id message)) (Some new_ip) s;
        Ok (true, s)
      else
        Ok (true, set_routes (add_new_route (sender_id message) (Some new_ip) ttl (_routing_map s)).2 s)
  end.

(** ** The primary template *)

(** [_handler_impl<PayloadType>] for a type without a specialisation: [UnpackTo] answers whether
    it could and what it left in the payload. *)
Section primary.
Context {PayloadType : Type} (PayloadType_default : PayloadType) (UnpackTo : Any → bool * PayloadType).
Definition primary_internal_handle (proto_msg : PayloadType) (incoming_connection : sockaddr_ptr) (s : P2PServerContext)
    : res (bool * P2PServerContext) := Ok (false, s).
Definition primary_internal_construct {Args : Type} (args : Args) : PayloadType := PayloadType_default.
Definition primary_handle (proto_msg : ProtoMessage) (incoming_connection : sockaddr_ptr) (s : P2PServerContext)
    : res (bool * P2PServerContext) :=
  let '(_, payload) := UnpackTo (default Any_default (payload proto_msg)) in
  primary_internal_handle payload incoming_connection s.
End primary.

(** ** Handling any message *)

Definition handle (signed_msg : SignedProtoMessage) (incoming_connection : sockaddr_ptr) (s : P2PServerContext)
    : res P2PServerContext :=
  let proto_msg := (ParseFromString (signed_payload signed_msg)).2 in
  if bool_decide (packet_type proto_msg = HELLO) then
    '(_, s) ← hello_handle proto_msg incoming_connection s; Ok s
  else
    match get_instance (pm_sender proto_msg) (_peer_pool s) with
    | None => Ok s
    | Some checker =>
        let data := SerializeAsString (default Any_default (payload proto_msg)) in
        '(_, checker) ← verify data (signature signed_msg) (sign_algorithm signed_msg) checker;
        Ok (set_peers (<[pm_sender proto_msg := Some checker]> (_peer_pool s)) s)
    end.

(** ** What is sent *)

Lemma send_pkg_ok data peer s s' :
  send_pkg data peer s = Ok (true, s') →
  ∃ msg c c' c'' digest, _tasks s' = _tasks s ++ [SendTcp (_port s) msg peer] ∧
    msg = mkSigned [] [] 0 10 digest (SerializeAsString data) SHA_256 ∧
    EVP_DigestSignInit (_evp_md_ctx s) (_client_priv_key s) = Some c ∧
    EVP_DigestSignUpdate c (SerializeAsString data) = Some c' ∧ EVP_DigestSignFinal c' = Some (digest, c'').
Proof.
  unfold send_pkg. case_bool_decide; [done|].
  destruct (EVP_DigestSignInit _ _) as [c|] eqn:E1; [|done]. simpl.
  destruct (EVP_DigestSignUpdate c _) as [c'|] eqn:E2; [|done]. simpl.
  destruct (EVP_DigestSignFinal_length c'); [|done].
  destruct (EVP_DigestSignFinal c') as [[digest c'']|] eqn:E3; [|done].
  intros [= <-]. eexists _, c, c', c'', digest. split_and!; [reflexivity|reflexivity|done..].
Qed.

(** What [send_pkg] queues: a message of its own for the peer, which names no receiver. *)
Definition own_task (port : Z) (peer : option IPAddress) (t : task) : Prop :=
  ∃ m, t = SendTcp port m peer ∧ SignedProtoMessage_wf m ∧ sp_receiver m = [].

(** Apart from the digest context and the tasks nothing changes. *)
Lemma send_pkg_shape data peer s s' b :
  send_pkg data peer s = Ok (b, s') →
  ∃ c ts, s' = mkServer (_port s) (_device_id s) (_client_cert s) (_x509_store s) (_client_priv_key s) c
    (_thread_ref s) (_peer_pool s) (_routing_map s) (_packet_cache s) (_tasks s ++ ts) ∧
    Forall (own_task (_port s) peer) ts.
Proof.
  unfold send_pkg. case_bool_decide; [done|].
  destruct (EVP_DigestSignInit _ _) as [c|]; [|done]. simpl.
  destruct (EVP_DigestSignUpdate c _) as [c'|]; [|done]. simpl.
  destruct (EVP_DigestSignFinal_length c'); [|intros [= _ <-]; exists c', []; by rewrite app_nil_r].
  destruct (EVP_DigestSignFinal c') as [[digest c'']|];
    intros [= _ <-]; [|exists c', []; by rewrite app_nil_r].
  eexists _, _. split; [done|]. apply Forall_singleton. eexists. split; [done|]. by split; [split_and!|].
Qed.

Lemma send_pkg_frame data peer s s' b :
  send_pkg data peer s = Ok (b, s') →
  _routing_map s' = _routing_map s ∧ _peer_pool s' = _peer_pool s ∧ _x509_store s' = _x509_store s ∧
  ∃ ts, _tasks s' = _tasks s ++ ts.
Proof. intros (c & ts & -> & _)%send_pkg_shape. simpl. eauto. Qed.

Context (iteration : routes → list (str * route (ADDR := IPAddress))).

(** A successful [send_pkg] queues one message with ttl 10, whose signature is valid
    for the serialized data under the device's public key; its receiver field is empty,
    so no device with a non-empty id ever hands it to [PacketHandler::handle], after any
    number of hops: each only redirects it. *)
Theorem sent_packages_never_handled `{!OpenSSLLaws} data peer s s' :
  send_pkg data peer s = Ok (true, s') →
  ∃ msg, _tasks s' = _tasks s ++ [SendTcp (_port s) msg peer] ∧ sp_ttl msg = 10 ∧
    valid_signature (public_of (_client_priv_key s)) (signed_payload msg) (signature msg) = true ∧
    signed_payload msg = SerializeAsString data ∧
    ∀ ports r r' sin m a, _device_id r ≠ [] →
      handle_packet iteration (after_hops ports msg) sin r = Ok r' →
      Handle m a ∈ _tasks r' → Handle m a ∈ _tasks r.
Proof.
  intros (msg & c & c' & c'' & digest & Ht & Hmsg & Hi & Hu & Hf)%send_pkg_ok. exists msg. split; [done|].
  rewrite Hmsg. split; [done|]. split.
  { eapply final_signing; [|exact Hf]. simpl. rewrite <- (app_nil_l (SerializeAsString data)).
    eapply update_signing; [|exact Hu]. by eapply init_signing. }
  split; [done|]. intros ports r r' sin m a Hid Hh Hin. unfold handle_packet in Hh.
  rewrite (proj1 (after_hops_same _ _)) in Hh. simpl sp_receiver in Hh.
  case_bool_decide; [by injection Hh as <-|].
  bind Hh as [[|] cc] _; [by injection Hh as <-|].
  rewrite bool_decide_true in Hh by done. destruct (_ && _).
  - apply res_bind_ok in Hh as (h & _ & [= <-]). simpl in Hin. by apply elem_of_app in Hin as [|[=]%list_elem_of_singleton].
  - injection Hh as <-. rewrite broadcast_tasks in Hin. apply elem_of_app in Hin as [|Hin]; [done|].
    apply list_elem_of_fmap in Hin as (? & [=] & _).
Qed.

(** ** Who is known *)

(** Every session in the pool has the key of a certificate the store accepts. *)
Definition peers_verified (s : P2PServerContext) : Prop :=
  ∀ id session, get_instance id (_peer_pool s) = Some session →
    ∃ cert, X509_verify_cert (_x509_store s) cert = None ∧ _public_key session = X509_get_pubkey cert.

Lemma ensure_session_spec message s s1 :
  ensure_session message s = Some s1 → peers_verified s →
  peers_verified s1 ∧ _x509_store s1 = _x509_store s ∧ _tasks s1 = _tasks s ∧ _routing_map s1 = _routing_map s.
Proof.
  unfold ensure_session. destruct (get_instance (sender_id message) (_peer_pool s)) eqn:E; [by intros [= <-]|].
  unfold new_session. destruct (d2i_X509 _) as [cert|]; [|done]. simpl.
  destruct (X509_verify_cert _ cert) eqn:Ec; [done|]. intros [= <-] Hp. split; [|done].
  intros id session. simpl. rewrite get_add_instance. case_bool_decide; [|apply Hp]. intros [= <-]. eauto.
Qed.

Lemma verify_key data sig method session b session' :
  verify data sig method session = Ok (b, session') → _public_key session' = _public_key session.
Proof.
  unfold verify, init_ctx. destruct (PeerSession._evp_md_ctx session) eqn:E; simpl.
  - destruct EVP_MD_CTX_new; [|by intros [= _ <-]]. destruct method; [|by intros [= _ <-]].
    destruct (EVP_DigestVerifyInit _ _); [|by intros [= _ <-]]. simpl.
    destruct (EVP_DigestVerifyUpdate _ _); [|by intros [= _ <-]].
    destruct (EVP_DigestVerifyFinal _ _). by intros [= _ <-].
  - rewrite E. destruct (EVP_DigestVerifyUpdate _ _); [|by intros [= _ <-]].
    destruct (EVP_DigestVerifyFinal _ _). by intros [= _ <-].
  - by rewrite E.
Qed.

Lemma internal_handle_verified message prev_port client_address ttl s b s' :
  internal_handle message prev_port client_address ttl s = Ok (b, s') → peers_verified s → peers_verified s'.
Proof.
  unfold internal_handle. destruct (ensure_session message s) as [s1|] eqn:E; [|by intros [= _ <-]].
  intros Hh Hp. destruct (ensure_session_spec _ _ _ E Hp) as (Hp1 & _).
  bind Hh as a _. bind Hh as ip _.
  destruct (can_delivered _ _); [|by injection Hh as _ <-].
  destruct (try_update_table _ _ _ _) as [u m].
  bind Hh as hello _. apply res_bind_ok in Hh as ([b' s2] & Hs & [= _ <-]).
  destruct (send_pkg_frame _ _ _ _ _ Hs) as (_ & Hpool & Hstore & _).
  intros id session. rewrite Hpool, Hstore. apply Hp1.
Qed.

(** Handling a message keeps the invariant that every session in the peer pool
    belongs to a certificate the device's own store accepts: a hello adds a session only
    after that check, and verifying a signature never changes a key. *)
Lemma handle_keeps_peers_verified signed_msg incoming s s' :
  (∀ m a s b s', hello_handle m a s = Ok (b, s') →
     ∃ message port ttl, internal_handle message port a ttl s = Ok (b, s')) →
  peers_verified s → handle signed_msg incoming s = Ok s' → peers_verified s'.
Proof.
  intros Hhello Hp. unfold handle. case_bool_decide.
  - intros ([b s1] & Hh & [= <-])%res_bind_ok. apply Hhello in Hh as (message & port & ttl & Hh).
    by eapply internal_handle_verified.
  - destruct (get_instance _ _) as [checker|] eqn:E; [|by intros [= <-]].
    intros ([b checker'] & Hv & [= <-])%res_bind_ok. apply verify_key in Hv.
    intros id session. unfold get_instance. simpl.
    destruct (decide (id = pm_sender ((ParseFromString (signed_payload signed_msg)).2))) as [->|].
    + rewrite lookup_insert_eq. intros [= <-]. rewrite Hv. by eapply Hp.
    + rewrite lookup_insert_ne by done. by apply Hp.
Qed.

(** The reply to a hello.  From a sender without a route the hello only adds the route
    and sends nothing; from a sender whose route is known it keeps the shorter distance
    and queues a new hello to the address it came from, every time. *)
Theorem hello_reply_only_when_known message prev_port sa ip ttl s s1 :
  ensure_session message s = Some s1 → peers_verified s →
  IPAddress_of_sockaddr inet_ntop sa prev_port = Ok ip →
  match _routing_map s !! sender_id message with
  | None =>
      ∃ s', internal_handle message prev_port (LiveAddr sa) ttl s = Ok (true, s') ∧ _tasks s' = _tasks s ∧
        _routing_map s' = <[sender_id message := mkRoute (Some ip) (u32 ttl)]> (_routing_map s)
  | Some r =>
      ∀ b s', internal_handle message prev_port (LiveAddr sa) ttl s = Ok (b, s') →
        b = true ∧ _routing_map s' = (try_update_table (sender_id message) (Some ip) ttl (_routing_map s)).2 ∧
        ∃ hello s2, internal_construct (_client_cert s2) s2 = Ok hello ∧ _tasks s2 = _tasks s ∧
          ∃ b', send_pkg (package_pkg hello (sender_id message)) (Some ip) s2 = Ok (b', s')
  end.
Proof.
  intros He Hp Hip. destruct (ensure_session_spec _ _ _ He Hp) as (_ & _ & Ht & Hr).
  unfold internal_handle. rewrite He. simpl. rewrite Hip. simpl. unfold can_delivered. rewrite Hr.
  destruct (_routing_map s !! sender_id message) as [r|] eqn:E.
  - destruct (try_update_table _ _ _ _) as [u m]. simpl.
    intros b s' (hello & Hc & Hs)%res_bind_ok. apply res_bind_ok in Hs as ([b' s3] & Hs & [= <- <-]).
    destruct (send_pkg_frame _ _ _ _ _ Hs) as (Hr3 & _). split; [done|]. split; [by rewrite Hr3|].
    exists hello, (set_routes m s1). eauto.
  - eexists. split; [done|]. simpl. unfold add_new_route. rewrite E. done.
Qed.
End hello.

(** ** Concrete instances, to run the definitions with *)

#[local] Existing Instance signed_codec.
#[local] Existing Instance ToySSL.
#[local] Existing Instance ToySSL_laws.

(** A message is its sender and its payload's bytes. *)
#[local] Instance toy_proto_codec : Protobuf ProtoMessage := {|
  SerializeAsString m := pm_sender m ++ value (default Any_default (payload m));
  ParseFromString s := (true, mkProtoMessage s [] PING None None) |}.
#[local] Instance toy_any_codec : Protobuf Any := {|
  SerializeAsString a := value a; ParseFromString s := (true, mkAny [] s) |}.
Definition toy_package (h : ProtoHelloMessage) (receiver : str) : ProtoMessage :=
  mkProtoMessage (sender_id h) receiver HELLO None (Some (mkAny [] (x509_certificate h))).
Definition toy_ntop (family _ _ : Z) : option str := if bool_decide (family = AF_INET6) then Some $"::1" else None.
Definition toy_hello_handle (m : ProtoMessage) (a : sockaddr_ptr) (s : @P2PServerContext ToySSL) :=
  internal_handle toy_package toy_ntop (mkHello (pm_sender m) [] $"cert") 3324 a 9 s.
Definition toy_data : ProtoMessage := toy_package (mkHello $"a" [] $"cert") $"b".

Lemma sent_packages_never_handled_witness :
  ∃ s', send_pkg toy_data (Some toy_ip) (toy_server $"a" ∅) = Ok (true, s') ∧
    ∃ msg, _tasks s' = [SendTcp 3324 msg (Some toy_ip)] ∧
      ∀ r r' sin m a, _device_id r ≠ [] →
        handle_packet map_to_list (after_hops [3324; 3325] msg) sin r = Ok r' → Handle m a ∈ _tasks r' → Handle m a ∈ _tasks r.
Proof.
  assert (∃ s', send_pkg toy_data (Some toy_ip) (toy_server $"a" ∅) = Ok (true, s')) as [s' Hs]
    by (eexists; reflexivity).
  exists s'. split; [exact Hs|].
  destruct (sent_packages_never_handled map_to_list toy_data (Some toy_ip) _ s' Hs) as (msg & Ht & _ & _ & _ & Hh).
  exists msg. split; [exact Ht|]. intros r r' sin m a. exact (Hh [3324; 3325] r r' sin m a).
Defined.

Lemma handle_keeps_peers_verified_witness :
  ∃ s', handle toy_hello_handle (mkSigned [] $"b" 0 3 $"x" $"b" SHA_256) DanglingAddr
      (set_peers {[$"b" := Some (@PeerSession_new ToySSL 4)]} (toy_server $"b" ∅)) = Ok s' ∧ peers_verified s'.
Proof.
  destruct (is_ok_inv (handle toy_hello_handle (mkSigned [] $"b" 0 3 $"x" $"b" SHA_256) DanglingAddr
      (set_peers {[$"b" := Some (@PeerSession_new ToySSL 4)]} (toy_server $"b" ∅)))) as [s' Hs]; [vm_compute; reflexivity|].
  exists s'. split; [exact Hs|].
  refine (handle_keeps_peers_verified toy_package toy_ntop toy_hello_handle _ _ _ _ _ _ Hs).
  - intros m a s b s1 Hh. exists (mkHello (pm_sender m) [] $"cert"), 3324, 9. exact Hh.
  - intros id session. unfold get_instance. simpl.
    destruct (decide (id = $"b")) as [->|]; [|by rewrite lookup_singleton_ne].
    rewrite lookup_singleton_eq. intros [= <-]. exists ($"cert"). by_decide.
Defined.

Lemma hello_reply_only_when_known_witness :
  ∃ s', internal_handle toy_package toy_ntop (mkHello $"a" [] $"cert") 3324 (LiveAddr (mkSockaddr AF_INET6 0)) 9
      (toy_server $"b" ∅) = Ok (true, s') ∧ _tasks s' = [] ∧
    _routing_map s' = {[$"a" := mkRoute (Some (mkIPAddress true 3324 $"::1")) 9]}.
Proof.
  assert (∃ s1, ensure_session (mkHello $"a" [] $"cert") (toy_server $"b" ∅) = Some s1) as [s1 He]
    by (eexists; reflexivity).
  refine (hello_reply_only_when_known toy_package toy_ntop (mkHello $"a" [] $"cert") 3324 (mkSockaddr AF_INET6 0)
    (mkIPAddress true 3324 $"::1") 9 (toy_server $"b" ∅) s1 He _ _); [|vm_compute; reflexivity].
  intros id session. unfold get_instance. simpl. by rewrite lookup_empty.
Defined.
