(* ===== verification/ServerInit.v ===== *)
(** Starting the packet server: [utils/singleton_helper.h], the constructor of
    [P2PServerContext], [P2PServerContext::init] and [P2PServerContext::start]
    ([p2p_server_context.cc]).  The device context is used through its interface. *)
From S2P Require Import Prelude CxxString IPAddress FifoCache RoutingTable Message PeerSession Server Hello.
From S2P Require Import Config ManagementApi.
Local Open Scope Z_scope.

(** ** The singleton *)

Module Singleton.
Section singleton.
Context {T : Type}.
(** [_instance]: null before the first [create]. *)
Definition get (instance : option T) : option T := instance.
Definition create (make : res T) (instance : option T) : res (T * option T) :=
  match instance with
  | None => t ← make; Ok (t, Some t)
  | Some t => Ok (t, Some t)
  end.
Definition init (make : res T) (instance : option T) : res (T * option T) :=
  match instance with
  | None => create make instance
  | Some t => Ok (t, Some t)
  end.

Lemma create_keeps make t : create make (Some t) = Ok (t, Some t).
Proof. done. Qed.
End singleton.
End Singleton.

Section server_init.
Context `{Protobuf SignedProtoMessage} `{Protobuf ProtoMessage} `{OpenSSL}.
Context (package_pkg : ProtoHelloMessage → str → ProtoMessage).
Context {W D DeviceInfo PeerList : Type} `{!IDeviceContext W D DeviceInfo PeerList} `{!IPeerListResponse PeerList}.

(** OpenSSL's stores and PKCS#12 files *)
Context (X509_STORE_new : x509_store) (X509_STORE_add_cert : x509_store → x509 → x509_store).
Context (PKCS12 : Type) (d2i_PKCS12_fp : str → W → option PKCS12)
  (PKCS12_parse : PKCS12 → str → option (pkey * x509 * list x509)).

(** ** Starting *)

(** One hello per entry of the peer list. *)
Fixpoint send_hellos (hello_message : ProtoHelloMessage) (peers : list (str * str)) (s : P2PServerContext)
    : res P2PServerContext :=
  match peers with
  | [] => Ok s
  | (id, addr) :: peers' =>
      ip_addr ← IPAddress_of_string addr;
      '(_, s) ← send_pkg (package_pkg hello_message id) (Some ip_addr) s;
      send_hellos hello_message peers' s
  end.

Definition start (fd : Z) (dev : D) (s : P2PServerContext) (w : W) : res (bool * P2PServerContext * W) :=
  match _thread_ref s with
  | None =>
      hello_message ← internal_construct (_client_cert s) s;
      let s := set_thread fd s in
      '(peer_list_resp, w) ← peer_list dev w;
      resp ← deref (UB NullDeref) peer_list_resp;
      peers ← peer_list_map resp;
      s ← send_hellos hello_message peers s;
      Ok (true, s, w)
  | Some _ => Ok (false, s, w)
  end.

(** [block_util_server_stop] joins the listening thread. *)
Definition block_util_server_stop (s : P2PServerContext) : res unit :=
  _ ← deref (UB NullDeref) (_thread_ref s); Ok ().

(** ** Construction *)

(** [event_base] and [md_ctx] are what [event_base_new] and [EVP_MD_CTX_new] return. *)
Definition P2PServerContext_new (packet_cache_size port : Z) (cert : x509) (private_key : pkey)
    (ca : list x509) (dev_id : str) (event_base : option unit) (md : md_ctx) : res P2PServerContext :=
  _ ← deref Fatal event_base;
  let store := foldl X509_STORE_add_cert X509_STORE_new ca in
  match X509_verify_cert store cert with
  | Some _ => Raise Fatal
  | None =>
      Ok (mkServer port dev_id cert (X509_STORE_add_cert store cert) private_key md None ∅ ∅
        (FIFOCache_new ([] : str) (Z.to_nat packet_cache_size)) [])
  end.

(** ** Initialisation *)

(** The results of the socket calls. *)
Record listen_env := mkListen { le_socket : Z; le_bind : Z; le_listen : Z; le_event_base : option unit; le_md_ctx : md_ctx }.

(** The singleton, the sockets that are open, and the outside world. *)
Record init_state := mkInit { instance : option P2PServerContext; open_fds : list Z; world : W }.

(** Polls [is_enabled] until it is true; [None]: not within [fuel] polls. *)
Fixpoint wait_enabled (fuel : nat) (dev : D) (w : W) : res (option W) :=
  match fuel with
  | O => Ok None
  | S fuel' => '(enabled, w) ← is_enabled dev w; if enabled : bool then Ok (Some w) else wait_enabled fuel' dev w
  end.

Definition init (fuel : nat) (env : listen_env) (config : Config) (dev : D) (st : init_state)
    : res (option (bool * init_state)) :=
  if decide (is_Some (Singleton.get (instance st))) then Ok (Some (false, st)) else
  w ← wait_enabled fuel dev (world st);
  match w with
  | None => Ok None
  | Some w =>
      let socket_fd := le_socket env in
      if bool_decide (socket_fd < 0) then Ok (Some (false, mkInit (instance st) (open_fds st) w)) else
      if bool_decide (le_bind env ≠ 0) then Ok (Some (false, mkInit (instance st) (open_fds st) w)) else
      if bool_decide (le_listen env < 0) then Ok (Some (false, mkInit (instance st) (open_fds st) w)) else
      let opened := socket_fd :: open_fds st in
      '(cert_path, w) ← client_certificate dev w;
      match d2i_PKCS12_fp cert_path w with
      | None => '(_, w) ← client_certificate dev w; Ok (Some (false, mkInit (instance st) opened w))
      | Some cert =>
          match PKCS12_parse cert (device_id dev) with
          | None => Ok (Some (false, mkInit (instance st) opened w))
          | Some (client_priv_key, client_cert, sign_chain) =>
              '(construct_obj, inst) ←
                Singleton.create (P2PServerContext_new (packet_cache_size config) (p2p_port config) client_cert
                  client_priv_key sign_chain (device_id dev) (le_event_base env) (le_md_ctx env)) (instance st);
              '(b, s, w) ← start socket_fd dev construct_obj w;
              Ok (Some (b, mkInit (Some s) opened w))
          end
      end
  end.

(** ** Properties *)

Lemma send_hellos_shape hello peers s s' :
  send_hellos hello peers s = Ok s' →
  ∃ c ts, s' = mkServer (_port s) (_device_id s) (_client_cert s) (_x509_store s) (_client_priv_key s) c
    (_thread_ref s) (_peer_pool s) (_routing_map s) (_packet_cache s) (_tasks s ++ ts) ∧
    Forall (λ t, ∃ ip, own_task (_port s) (Some ip) t) ts.
Proof.
  revert s. induction peers as [|[id addr] peers IH]; intros s; simpl.
  - intros [= <-]. exists (_evp_md_ctx s), []. rewrite app_nil_r. by destruct s.
  - intros (ip & _ & Hs)%res_bind_ok. bind Hs as [b s1] Hs1.
    apply send_pkg_shape in Hs1 as (c & ts & -> & Hts). apply IH in Hs as (c' & ts' & -> & Hts'). simpl in *.
    exists c', (ts ++ ts'). rewrite <- app_assoc. split; [done|]. apply Forall_app_2; [|done].
    eapply Forall_impl; [exact Hts|]. eauto.
Qed.

(** What a successful [init] on a fresh state leaves. *)
Lemma init_shape fuel env config dev st st' :
  instance st = None → init fuel env config dev st = Ok (Some (true, st')) →
  ∃ cert ca key c ts, let store := foldl X509_STORE_add_cert X509_STORE_new ca in
    instance st' = Some (mkServer (p2p_port config) (device_id dev) cert (X509_STORE_add_cert store cert) key c
      (Some (le_socket env)) ∅ ∅ (FIFOCache_new ([] : str) (Z.to_nat (packet_cache_size config))) ts) ∧
    X509_verify_cert store cert = None ∧ open_fds st' = le_socket env :: open_fds st ∧
    Forall (λ t, ∃ ip, own_task (p2p_port config) (Some ip) t) ts.
Proof.
  intros Hnone. unfold init. rewrite Hnone. rewrite decide_False by (intros [? [=]]).
  intros (w & _ & Hw)%res_bind_ok. destruct w as [w|]; [|done].
  case_bool_decide; [done|]. case_bool_decide; [done|]. case_bool_decide; [done|].
  bind Hw as [path w1] _.
  destruct (d2i_PKCS12_fp path w1) as [p12|]; [|by apply res_bind_ok in Hw as ([? ?] & _ & [=])].
  destruct (PKCS12_parse p12 (device_id dev)) as [[[key cert] ca]|]; [|done].
  bind Hw as [obj inst] Hnew. unfold Singleton.create in Hnew.
  apply res_bind_ok in Hnew as (obj' & Hnew & [= -> <-]). unfold P2PServerContext_new in Hnew.
  bind Hnew as [] _.
  destruct (X509_verify_cert _ cert) eqn:Hcert; [done|]. injection Hnew as <-.
  apply res_bind_ok in Hw as ([[b s] w2] & Hs & [= -> <-]). unfold start in Hs. simpl in Hs.
  bind Hs as hello _. bind Hs as [resp w3] _.
  bind Hs as r _. bind Hs as peers _.
  apply res_bind_ok in Hs as (s1 & Hs & [= -> <-]). apply send_hellos_shape in Hs as (c & ts & -> & Hts). simpl in *.
  eexists _, ca, _, c, ts. split_and!; [reflexivity|done..].
Qed.

(** A successful [init] leaves exactly one server, on a fresh state: its certificate is
    one its own store accepts, it listens on the socket that was opened, knows no peers
    and no routes, and has read nothing; and a second [init] then answers [false] and
    changes nothing. *)
Theorem init_once fuel env config dev st st' :
  instance st = None →
  init fuel env config dev st = Ok (Some (true, st')) →
  (∃ s ca, instance st' = Some s ∧
    X509_verify_cert (foldl X509_STORE_add_cert X509_STORE_new ca) (_client_cert s) = None ∧
    _thread_ref s = Some (le_socket env) ∧ open_fds st' = le_socket env :: open_fds st ∧
    _peer_pool s = ∅ ∧ _routing_map s = ∅ ∧ _port s = p2p_port config) ∧
  ∀ fuel2 env2 config2 dev2, init fuel2 env2 config2 dev2 st' = Ok (Some (false, st')).
Proof.
  intros Hnone Hi. destruct (init_shape _ _ _ _ _ _ Hnone Hi) as (cert & ca & key & c & ts & Hs & Hv & Hfd & _).
  split; [by eexists _, ca; split_and!; [exact Hs|done..]|].
  intros fuel2 env2 config2 dev2. unfold init. by rewrite Hs.
Qed.
End server_init.

(** ** A concrete start, to run the definitions with *)

#[local] Existing Instance signed_codec.
#[local] Existing Instance ToySSL.
#[local] Existing Instance toy_proto_codec.

(** A device that is enabled at the third poll; the world counts the polls. *)
#[local] Instance toy_device : IDeviceContext nat unit unit (list (str * str)) := {|
  is_enabled _ w := Ok (bool_decide (2 ≤ w)%nat, S w);
  device_id _ := $"a";
  client_certificate _ w := Ok ($"/tmp/device.p12", w);
  peer_list _ w := Ok (Some [($"b", $"10.0.0.7:3324")], w);
  device_info _ w := Ok (None, w) |}.
#[local] Instance toy_peer_list : IPeerListResponse (list (str * str)) := λ l, Ok l.
Definition toy_store : @x509_store ToySSL := "c"%char.
Definition toy_add (st : @x509_store ToySSL) (c : @x509 ToySSL) : @x509_store ToySSL := st.
Definition toy_parse (_ : unit) (_ : str) : option (@pkey ToySSL * @x509 ToySSL * list (@x509 ToySSL)) :=
  Some (7, $"cert", []).
Definition toy_env : listen_env (H1 := ToySSL) := @mkListen ToySSL 3 0 0 (Some ()) None.
Definition toy_init := init (W := nat) (D := unit) (DeviceInfo := unit) toy_package toy_store toy_add
  unit (λ _ _, Some ()) toy_parse 5 toy_env Config_default ().

Lemma init_once_witness :
  ∃ st' s, toy_init (mkInit None [] 0%nat) = Ok (Some (true, st')) ∧
    toy_init st' = Ok (Some (false, st')) ∧ instance st' = Some s ∧ _thread_ref s = Some 3.
Proof.
  destruct (is_ok_inv (toy_init (mkInit None [] 0%nat))) as [r Hst]; [vm_compute; reflexivity|].
  assert (from_option fst false r = true) as Hr
    by (apply (f_equal (λ x, match x with Ok r => from_option fst false r | Raise _ => false end)) in Hst;
        rewrite <- Hst; vm_compute; reflexivity).
  destruct r as [[[] st']|]; [|done..].
  destruct (init_once toy_package toy_store toy_add unit (λ _ _, Some ()) toy_parse 5 toy_env Config_default ()
    (mkInit None [] 0%nat) st' eq_refl Hst) as [(s & ca & Hs & _ & Hth & _) Hagain].
  exists st', s. split_and!; [exact Hst|apply (Hagain 5%nat)|exact Hs|exact Hth].
Defined.
