(* ===== verification/JsonModel.v ===== *)
(** The JSON model all requests and responses derive from
    ([management_api/model/json_model.h], class [JsonModel]).  rapidjson's parser and
    writer are a class of operations; its accessors assert the type of what they read. *)
From S2P Require Import Prelude CxxString.
Local Open Scope Z_scope.

(** ** Documents *)

Inductive json :=
  | JNull | JBool (b : bool) | JInt (n : Z) | JString (s : str)
  | JArray (items : list json) | JObject (members : list (str * json)).

Class RapidJSON := { json_parse : str → option json; json_write : json → str }.

(** What is written parses back. *)
Class RapidJSONLaws `{RapidJSON} := parse_write j : json_parse (json_write j) = Some j.

(** [HasMember], [operator[]], [AddMember], [GetArray] and [GetBool] *)
Definition has_member (key : str) (j : json) : res bool :=
  match j with JObject ms => Ok (bool_decide (is_Some (assoc key ms))) | _ => Raise AssertFailed end.
Definition member (key : str) (j : json) : res json :=
  match j with JObject ms => deref AssertFailed (assoc key ms) | _ => Raise AssertFailed end.
Definition add_member (key : str) (v : json) (j : json) : res json :=
  match j with JObject ms => Ok (JObject (ms ++ [(key, v)])) | _ => Raise AssertFailed end.
Definition get_members (j : json) : res (list (str * json)) :=
  match j with JObject ms => Ok ms | _ => Raise AssertFailed end.
Definition get_bool (j : json) : res bool := match j with JBool b => Ok b | _ => Raise AssertFailed end.
Definition get_string (j : json) : res str := match j with JString s => Ok s | _ => Raise AssertFailed end.
Definition get_int (j : json) : res Z := match j with JInt n => Ok n | _ => Raise AssertFailed end.

(** The types the [if constexpr] chains accept: [std::is_arithmetic<T>] and [std::string].
    [get_item] reads an item of an array: for strings the code asks the array itself. *)
Class JsonScalar (T : Type) := {
  get_scalar : json → res T;
  put_scalar : T → json;
  get_item : json → json → res T }.
#[global] Instance json_int : JsonScalar Z := {| get_scalar := get_int; put_scalar := JInt; get_item _ item := get_int item |}.
#[global] Instance json_string : JsonScalar str :=
  {| get_scalar := get_string; put_scalar := JString; get_item node _ := get_string node |}.

(** What was put is got back. *)
Class JsonScalarLaws (T : Type) `{JsonScalar T} := get_put (v : T) : get_scalar (put_scalar v) = Ok v.
#[global] Instance json_int_laws : JsonScalarLaws Z.
Proof. done. Qed.
#[global] Instance json_string_laws : JsonScalarLaws str.
Proof. done. Qed.

(** ** The class *)

(** [json_buf]: null, or the text that was parsed. *)
Record JsonModel := mkJsonModel { _response_flag : bool; json_buf : option str; root : json }.

(** The default constructor. *)
Definition JsonModel_empty : JsonModel := mkJsonModel false None (JObject []).

(** [memcpy(json_buf, ...)] writes through the null pointer of the new object; the response
    flag is not copied. *)
Definition JsonModel_copy (other : JsonModel) : res JsonModel :=
  match json_buf other with
  | Some _ => Raise (UB NullDeref)
  | None => Ok (mkJsonModel false None (root other))
  end.

Section model.
Context `{RapidJSON}.

(** [root.HasMember("success") && root.HasMember("responseBody")] *)
Definition is_response (j : json) : res bool :=
  s ← has_member $"success" j; if s : bool then has_member $"responseBody" j else Ok false.

(** From a C string. *)
Definition JsonModel_of_text (json : option str) : res JsonModel :=
  match json with
  | None => Ok (mkJsonModel false None (JObject []))
  | Some text =>
      match json_parse text with
      | None => Ok (mkJsonModel false json (JObject []))
      | Some j => flag ← is_response j; Ok (mkJsonModel flag json j)
      end
  end.

(** From a file; the document of a missing file stays null. *)
Definition JsonModel_of_file (json_file : str) (fs : gmap str str) : res JsonModel :=
  match fs !! json_file with
  | Some text =>
      match json_parse text with
      | None => Ok (mkJsonModel false None (JObject []))
      | Some j => flag ← is_response j; Ok (mkJsonModel flag None j)
      end
  | None => Ok (mkJsonModel false None JNull)
  end.

Definition success (m : JsonModel) : res bool :=
  if _response_flag m then v ← member $"success" (root m); get_bool v else Ok false.

(** Where keys are looked up. *)
Definition body (m : JsonModel) : res json :=
  if _response_flag m then member $"responseBody" (root m) else Ok (root m).

Definition message (m : JsonModel) : res str :=
  node ← body m;
  has ← has_member $"message" node;
  if has : bool then v ← member $"message" node; get_string v else Ok [].

Definition get_json (m : JsonModel) : str := json_write (root m).

(** [remove] when the file exists, then write: the same as replacing it. *)
Definition save (file : str) (m : JsonModel) (fs : gmap str str) : gmap str str :=
  let fs := if decide (is_Some (fs !! file)) then delete file fs else fs in
  <[file := get_json m]> fs.

Definition get_raw_node (key : str) (m : JsonModel) : res json :=
  node ← body m;
  has ← has_member key node;
  if has : bool then member key node else Raise StdException.

Definition get_value (T : Type) `{JsonScalar T} (key : str) (m : JsonModel) : res (option T) :=
  node ← body m;
  has ← has_member key node;
  if has : bool then v ← member key node; t ← get_scalar v; Ok (Some t) else Ok None.

Fixpoint get_items (T : Type) `{JsonScalar T} (node : json) (items : list json) : res (list T) :=
  match items with
  | [] => Ok []
  | item :: items' => t ← get_item node item; ts ← get_items T node items'; Ok (t :: ts)
  end.

Definition get_array (T : Type) `{JsonScalar T} (key : str) (m : JsonModel) : res (list T) :=
  node ← body m;
  has ← has_member key node;
  if has : bool then
    v ← member key node;
    match v with JArray items => get_items T v items | _ => Ok [] end
  else Ok [].

(** The loop stops at the first member that is an array or an object. *)
Fixpoint collect_map (T : Type) `{JsonScalar T} (ms : list (str * json)) (ret : gmap str T) : res (gmap str T) :=
  match ms with
  | [] => Ok ret
  | (k, v) :: ms' =>
      match v with
      | JArray _ | JObject _ => Ok ret
      | _ => t ← get_scalar v; collect_map T ms' (match ret !! k with Some _ => ret | None => <[k := t]> ret end)
      end
  end.

Definition get_map (T : Type) `{JsonScalar T} (key : str) (m : JsonModel) : res (gmap str T) :=
  node ← body m;
  has ← has_member key node;
  if has : bool then v ← member key node; ms ← get_members v; collect_map T ms ∅ else Ok ∅.

(** The key is looked for in the response body, but added at the top. *)
Definition add_value {T : Type} `{JsonScalar T} (key : str) (val : T) (m : JsonModel) : res (bool * JsonModel) :=
  node ← body m;
  has ← has_member key node;
  if has : bool then Ok (false, m) else
  r ← add_member key (put_scalar val) (root m);
  Ok (true, mkJsonModel (_response_flag m) (json_buf m) r).

(** After adding the array the function ends without a [return]. *)
Definition add_array {T : Type} `{JsonScalar T} (key : str) (array : list T) (m : JsonModel) : res (bool * JsonModel) :=
  node ← body m;
  has ← has_member key node;
  if has : bool then Ok (false, m) else
  r ← add_member key (JArray (put_scalar <$> array)) (root m);
  Raise (UB MissingReturn).

(** ** Adding and reading *)

(** The models the program builds itself: no response, an object at the top. *)
Definition is_request (m : JsonModel) : Prop := _response_flag m = false ∧ ∃ ms, root m = JObject ms.

Definition lookup_key (key : str) (m : JsonModel) : option json :=
  match root m with JObject ms => assoc key ms | _ => None end.

Lemma get_value_request `{JsonScalar T} key m :
  is_request m →
  get_value T key m = match lookup_key key m with Some v => t ← get_scalar v; Ok (Some t) | None => Ok None end.
Proof.
  intros (Hf & ms & Hr). unfold get_value, body, lookup_key. rewrite Hf, Hr. simpl.
  destruct (assoc key ms) eqn:E.
  - by rewrite bool_decide_true by done.
  - rewrite bool_decide_false by by intros []. done.
Qed.

Lemma add_value_request `{JsonScalar T} key (v : T) m :
  is_request m → lookup_key key m = None →
  ∃ m', add_value key v m = Ok (true, m') ∧ is_request m' ∧
    ∀ k, lookup_key k m' = if decide (k = key) then Some (put_scalar v) else lookup_key k m.
Proof.
  intros (Hf & ms & Hr). unfold lookup_key, add_value, body. rewrite Hf, Hr. intros Hnone. simpl.
  rewrite Hnone, bool_decide_false by by intros []. eexists; split; [reflexivity|].
  split; [by split; [|eexists]|]. intros k. simpl. rewrite assoc_snoc. case_decide as Hk; [|by destruct (assoc k ms)].
  subst. by rewrite Hnone.
Qed.

(** Adding and reading fields of a model the program builds: a new key is added and
    reads back with the value it was given, every other key reads as before, and adding
    an existing key changes nothing and answers [false]. *)
Theorem add_value_get_value {T} `{JsonScalarLaws T} key (v : T) m :
  is_request m →
  match lookup_key key m with
  | Some _ => add_value key v m = Ok (false, m)
  | None =>
      ∃ m', add_value key v m = Ok (true, m') ∧ is_request m' ∧ get_value T key m' = Ok (Some v) ∧
        ∀ k U `(HU : JsonScalar U), k ≠ key → get_value U k m' = get_value U k m
  end.
Proof.
  intros Hm. destruct (lookup_key key m) as [j|] eqn:E.
  - destruct Hm as (Hf & ms & Hr). unfold lookup_key, add_value, body in *. rewrite Hr in E.
    rewrite Hf, Hr. simpl. rewrite E. by rewrite bool_decide_true.
  - destruct (add_value_request key v m Hm E) as (m' & Ha & Hm' & Hl). exists m'. split; [done|]. split; [done|]. split.
    + rewrite get_value_request, Hl, decide_True by done. by rewrite get_put.
    + intros k U HU Hk. by rewrite !get_value_request, Hl, decide_False.
Qed.

(** An array of strings cannot be read back: reading any array under a key fails an
    assertion as soon as it has an element, because the loop asks the array itself for
    its string. *)
Theorem string_array_asserts key ms items :
  assoc key ms = Some (JArray items) → items ≠ [] →
  get_array str key (mkJsonModel false None (JObject ms)) = Raise AssertFailed.
Proof.
  intros Hk Hi. unfold get_array. simpl. rewrite Hk, bool_decide_true by done. simpl. by destruct items.
Qed.

(** Saving and loading *)
Lemma save_lookup file m fs : save file m fs !! file = Some (get_json m).
Proof. unfold save. apply lookup_insert_eq. Qed.

Context `{!RapidJSONLaws}.

Lemma load_saved file m fs :
  is_request m → lookup_key $"success" m = None →
  JsonModel_of_file file (save file m fs) = Ok (mkJsonModel false None (root m)).
Proof.
  intros (Hf & ms & Hr) Hs. unfold JsonModel_of_file, get_json. rewrite save_lookup. unfold get_json.
  rewrite parse_write. unfold lookup_key in Hs. rewrite Hr in *. unfold is_response. simpl.
  by rewrite Hs.
Qed.
End model.

Lemma add_value_get_value_witness :
  ∃ m', add_value $"k" $"v" JsonModel_empty = Ok (true, m') ∧ get_value str $"k" m' = Ok (Some $"v").
Proof.
  destruct (add_value_get_value $"k" ($"v" : str) JsonModel_empty ltac:(split; [done|by eexists])) as (m' & Ha & _ & Hg & _).
  exists m'. split; [exact Ha|exact Hg].
Defined.

Lemma string_array_asserts_witness :
  get_array str $"ip" (mkJsonModel false None (JObject [($"ip", JArray [JString $"10.0.0.1"])])) = Raise AssertFailed.
Proof. by apply (string_array_asserts $"ip" _ [JString $"10.0.0.1"]). Defined.
