(* ===== verification/Responses.v ===== *)
(** Requests, responses and the device configuration file
    ([management_api/model/request], [model/response], [model/data]): the classes derived
    from [JsonModel].  A missing field makes [std::optional::value] throw. *)
From S2P Require Import Prelude CxxString JsonModel ManagementApi.
Local Open Scope Z_scope.

(** [get_value<T>(key).value()] *)
Definition field (T : Type) `{JsonScalar T} (key : str) (m : JsonModel) : res T :=
  o ← get_value T key m; deref BadOptionalAccess o.

(** [add_value] with a type that is neither arithmetic nor [std::string] (a string literal
    is an array of [char]): the key is checked, nothing is added. *)
Definition add_value_unsupported (key : str) (m : JsonModel) : res (bool * JsonModel) :=
  node ← body m;
  has ← has_member key node;
  Ok (false, m).

(** ** Registration *)

Module RegisterClientRequest.
Definition RegisterClientRequest_new : res JsonModel :=
  '(_, m) ← add_value_unsupported $"group" JsonModel_empty; Ok m.
Definition setMachineID (machine_id : str) (m : JsonModel) : res JsonModel :=
  '(_, m) ← add_value $"machineID" machine_id m; Ok m.
Definition setIPAddress (ipaddress : str) (m : JsonModel) : res JsonModel :=
  '(_, m) ← add_value $"ip" ipaddress m; Ok m.
End RegisterClientRequest.

Module RegisterClientResponse.
Section response.
Context `{RapidJSON}.
Definition RegisterClientResponse_new (json : option str) : res JsonModel := JsonModel_of_text json.
Definition get_register_code (m : JsonModel) : res Z := field Z $"register_code" m.
Definition device_id (m : JsonModel) : res str := field str $"client_id" m.
Definition get_enable_url (m : JsonModel) : res str := field str $"enable_url" m.
(** [get_value] of a vector type: no branch accepts it, so it is empty whether or not the
    key exists. *)
Definition ip_address (m : JsonModel) : res (list str) :=
  node ← body m;
  has ← has_member $"ip_address" node;
  Raise BadOptionalAccess.
Definition jwt_key (m : JsonModel) : res str := field str $"login_token" m.
End response.
End RegisterClientResponse.

(** ** Groups ([public_method.h]) *)

(** [emplace] keeps the entry of an id that is there already. *)
Fixpoint groups_from (items : list json) (ret : gmap Z (str * str)) : res (gmap Z (str * str)) :=
  match items with
  | [] => Ok ret
  | g :: items' =>
      id ← member $"id" g; id ← get_int id;
      name ← member $"name" g; name ← get_string name;
      description ← member $"description" g; description ← get_string description;
      groups_from items' (match ret !! id with Some _ => ret | None => <[id := (name, description)]> ret end)
  end.
Definition get_user_group_from_node (groups : json) : res (gmap Z (str * str)) :=
  match groups with JArray items => groups_from items ∅ | _ => Raise AssertFailed end.

(** The item of a group. *)
Definition group_item (g : Z * (str * str)) : json :=
  JObject [($"id", JInt g.1); ($"name", JString g.2.1); ($"description", JString g.2.2)].

Lemma groups_from_items gs ret :
  groups_from (group_item <$> gs) ret = Ok (ret ∪ list_to_map gs).
Proof.
  revert ret. induction gs as [|[id [n d]] gs IH]; intros ret; simpl; [by rewrite (right_id_L ∅ (∪))|].
  rewrite IH. f_equal. destruct (ret !! id) as [x|] eqn:E.
  - apply map_eq. intros i. rewrite !lookup_union. destruct (decide (i = id)) as [->|]; [|by rewrite lookup_insert_ne].
    rewrite E, lookup_insert_eq. by destruct (list_to_map gs !! id).
  - rewrite <- insert_union_l. by apply insert_union_r.
Qed.

(** An array of groups is read back, the first group of an id winning. *)
Lemma get_user_group_items gs : get_user_group_from_node (JArray (group_item <$> gs)) = Ok (list_to_map gs).
Proof. simpl. rewrite groups_from_items. by rewrite (left_id_L ∅ (∪)). Qed.

(** ** Users *)

Module UserLoginResponse.
Section response.
Context `{RapidJSON}.
Definition UserLoginResponse_new (json : option str) : res JsonModel := JsonModel_of_text json.
Definition user_id (m : JsonModel) : res str := field str $"user_id" m.
Definition user_email (m : JsonModel) : res str := field str $"email" m.
End response.
End UserLoginResponse.

Module UserDetailResponse.
Section response.
Context `{RapidJSON}.
Definition UserDetailResponseImpl_new (json : option str) : res JsonModel := JsonModel_of_text json.
End response.
Definition detail_name (m : JsonModel) : res str := field str $"username" m.
Definition detail_email (m : JsonModel) : res str := field str $"email" m.
Definition detail_group (m : JsonModel) : res (gmap Z (str * str)) := Ok ∅.
#[export] Instance UserDetailResponseImpl : IUserDetailResponse JsonModel :=
  {| name := detail_name; email := detail_email; group := detail_group |}.
End UserDetailResponse.

Module UserGroupResponse.
Definition group (m : JsonModel) : res (gmap Z (str * str)) := Ok ∅.
End UserGroupResponse.

Module GroupInfoResponse.
Definition get_group_id (m : JsonModel) : res Z := field Z $"\group\id" m.
Definition get_group_name (m : JsonModel) : res str := field str $"\group\name" m.
Definition get_group_desc (m : JsonModel) : res str := field str $"\group\description" m.
End GroupInfoResponse.

(** ** Devices *)

Module ClientCertResponse.
Section response.
Context `{RapidJSON}.
Definition ClientCertResponse_new (json : option str) : res JsonModel := JsonModel_of_text json.
Definition device_id (m : JsonModel) : res str := field str $"client_id" m.
Definition PSCK12_certificate (m : JsonModel) : res str := field str $"PSCK12_certificate" m.
End response.
End ClientCertResponse.

Module DeviceInfoResponse.
Section response.
Context `{RapidJSON}.
Definition DeviceInfoResponseImpl_new (json : option str) : res JsonModel := JsonModel_of_text json.
End response.
Definition response_device_id (m : JsonModel) : res str := field str $"client_id" m.
Definition response_machine_id (m : JsonModel) : res str := field str $"machine_id" m.
Definition response_device_ip (m : JsonModel) : res str := field str $"ip_address" m.
Definition response_register_user (m : JsonModel) : res str := field str $"register_by" m.
#[export] Instance DeviceInfoResponseImpl : IDeviceInfoResponse JsonModel :=
  {| info_device_id := response_device_id; machine_id := response_machine_id;
     device_ip := response_device_ip; register_user := response_register_user |}.
End DeviceInfoResponse.

Module PeerListResponse.
Section response.
Context `{RapidJSON}.
Definition PeerListResponseImpl_new (json : option str) : res JsonModel := JsonModel_of_text json.
End response.
(** [std::map] is walked in the order of its keys; the order of this list is that of the
    model's finite map. *)
Definition response_peer_list (m : JsonModel) : res (list (str * str)) :=
  ps ← get_map str $"peers" m; Ok (map_to_list ps).
#[export] Instance PeerListResponseImpl : IPeerListResponse JsonModel := response_peer_list.
End PeerListResponse.

(** ** The device configuration file *)

Module DeviceConfiguration.
Section conf.
Context `{RapidJSON}.
Import RegisterClientResponse.

Definition DeviceConfiguration_of_file (device_cfg_file : str) (fs : gmap str str) : res JsonModel :=
  JsonModel_of_file device_cfg_file fs.

Definition DeviceConfiguration_of_response (resp : JsonModel) : res JsonModel :=
  id ← device_id resp;
  empty ← (if bool_decide (id = []) then Ok true else k ← jwt_key resp; Ok (bool_decide (k = [])));
  if empty : bool then Raise RuntimeError else
  k ← jwt_key resp;
  '(_, m) ← add_value $"jwt_key" k JsonModel_empty;
  id ← device_id resp;
  '(_, m) ← add_value $"device_id" id m;
  Ok m.

Definition conf_jwt_key (m : JsonModel) : res str := field str $"jwt_key" m.
Definition conf_device_id (m : JsonModel) : res str := field str $"device_id" m.
Definition conf_device_ip (m : JsonModel) : res (list str) := get_array str $"device_ip" m.

Lemma DeviceConfiguration_of_response_spec resp id k :
  device_id resp = Ok id → jwt_key resp = Ok k → id ≠ [] → k ≠ [] →
  DeviceConfiguration_of_response resp =
    Ok (mkJsonModel false None (JObject [($"jwt_key", JString k); ($"device_id", JString id)])).
Proof.
  intros Hid Hk Hid0 Hk0. unfold DeviceConfiguration_of_response. rewrite Hid, Hk. simpl.
  rewrite bool_decide_false by done. simpl. by rewrite bool_decide_false.
Qed.

Lemma DeviceConfiguration_of_response_inv resp conf :
  DeviceConfiguration_of_response resp = Ok conf →
  ∃ id k, id ≠ [] ∧ k ≠ [] ∧
    conf = mkJsonModel false None (JObject [($"jwt_key", JString k); ($"device_id", JString id)]).
Proof.
  intros H'. pose proof H' as (id & Hid & Hr)%res_bind_ok. destruct (decide (id = [])) as [->|Hid0]; [done|].
  rewrite bool_decide_false in Hr by done. bind Hr as e He.
  apply res_bind_ok in He as (k & Hk & [= <-]). case_bool_decide as Hk0; [done|].
  rewrite (DeviceConfiguration_of_response_spec resp id k) in H' by done. injection H' as <-. by exists id, k.
Qed.

Context `{!RapidJSONLaws}.

(** The configuration made from a registration response, saved and loaded again, gives
    the id and the token of the response; a response with an empty id or token is
    rejected by an exception. *)
Theorem device_configuration_roundtrip resp id k file fs :
  device_id resp = Ok id → jwt_key resp = Ok k →
  if bool_decide (id = [] ∨ k = [])
  then DeviceConfiguration_of_response resp = Raise RuntimeError
  else ∃ m m', DeviceConfiguration_of_response resp = Ok m ∧
    DeviceConfiguration_of_file file (save file m fs) = Ok m' ∧
    conf_device_id m' = Ok id ∧ conf_jwt_key m' = Ok k.
Proof.
  intros Hid Hk. case_bool_decide as He.
  - unfold DeviceConfiguration_of_response. rewrite Hid, Hk. simpl.
    destruct (decide (id = [])) as [->|]; [done|]. rewrite bool_decide_false by done. simpl.
    destruct He as [He|He]; [done|]. by subst k.
  - rewrite (DeviceConfiguration_of_response_spec resp id k) by tauto.
    eexists _, _. split; [done|]. split; [apply load_saved; [split; [done|by eexists]|done]|]. done.
Qed.
End conf.
End DeviceConfiguration.

(** ** A concrete rapidjson, to run the definitions with *)

Fixpoint json_tree (j : json) : gen_tree (str + Z) :=
  match j with
  | JNull => GenNode 0 []
  | JBool b => GenNode (if b then 1 else 2) []
  | JInt n => GenLeaf (inr n)
  | JString s => GenLeaf (inl s)
  | JArray items => GenNode 3 (map json_tree items)
  | JObject ms => GenNode 4 (map (λ '(k, v), GenNode 5 [GenLeaf (inl k); json_tree v]) ms)
  end.
Fixpoint tree_json (t : gen_tree (str + Z)) : json :=
  match t with
  | GenLeaf (inl s) => JString s
  | GenLeaf (inr n) => JInt n
  | GenNode 0 _ => JNull
  | GenNode 1 _ => JBool true
  | GenNode 2 _ => JBool false
  | GenNode 3 ts => JArray (map tree_json ts)
  | GenNode _ ts =>
      JObject (map (λ t, match t with GenNode _ [GenLeaf (inl k); v] => (k, tree_json v) | _ => ([], JNull) end) ts)
  end.

Lemma tree_json_tree : ∀ j, tree_json (json_tree j) = j.
Proof.
  fix IH 1. intros j. destruct j as [|b|n|s|items|ms]; [done|by destruct b|done|done| |]; simpl; f_equal.
  - induction items as [|j items IHi]; simpl; [done|]. by rewrite IH, IHi.
  - induction ms as [|[k v] ms IHm]; simpl; [done|]. by rewrite IH, IHm.
Qed.

Fixpoint json_bits (p : positive) : str :=
  match p with xH => [] | xO p => "0"%char :: json_bits p | xI p => "1"%char :: json_bits p end.
Fixpoint bits_json (s : str) : positive :=
  match s with [] => xH | c :: s => if bool_decide (c = "1"%char) then xI (bits_json s) else xO (bits_json s) end.
Definition ToyJSON : RapidJSON := {|
  json_write j := json_bits (encode (json_tree j));
  json_parse s := tree_json <$> decode (bits_json s) |}.

Lemma ToyJSON_laws : @RapidJSONLaws ToyJSON.
Proof.
  intros j. simpl. assert (∀ p, bits_json (json_bits p) = p) as -> by (induction p; simpl; by f_equal).
  rewrite decode_encode. simpl. by rewrite tree_json_tree.
Qed.

Definition toy_register_response : JsonModel := mkJsonModel true None (JObject
  [($"success", JBool true); ($"responseBody", JObject [($"client_id", JString $"d1"); ($"login_token", JString $"jwt")])]).

Lemma device_configuration_roundtrip_witness :
  ∃ m m', DeviceConfiguration.DeviceConfiguration_of_response toy_register_response = Ok m ∧
    @DeviceConfiguration.DeviceConfiguration_of_file ToyJSON $"device.cfg" (@save ToyJSON $"device.cfg" m ∅) = Ok m' ∧
    DeviceConfiguration.conf_device_id m' = Ok $"d1" ∧ DeviceConfiguration.conf_jwt_key m' = Ok $"jwt".
Proof.
  exact (@DeviceConfiguration.device_configuration_roundtrip ToyJSON ToyJSON_laws toy_register_response $"d1" $"jwt"
    $"device.cfg" ∅ eq_refl eq_refl).
Defined.
