(* ===== verification/Curl.v ===== *)
(** HTTP transfers ([management_api/utils/curl_utils.cc], namespace [Curl]): the options of a
    request, the write callbacks with their growing buffer, and the calls that return a
    response as a C string or save it to a file.  libcurl itself is a parameter. *)
From S2P Require Import Prelude CxxString.
Local Open Scope Z_scope.

(** ** Requests *)

Inductive HttpMethod := GET | POST | DELETE.

Definition HttpMethod_value (m : HttpMethod) : Z := match m with GET => 0 | POST => 1 | DELETE => 2 end.

(** The options the code sets, with their arguments. *)
Inductive curl_opt :=
  | CURLOPT_SHARE (share : Z)
  | CURLOPT_HTTPHEADER (lines : list str)
  | CURLOPT_POSTFIELDS (data : str)
  | CURLOPT_HTTPGET
  | CURLOPT_POST
  | CURLOPT_CUSTOMREQUEST (verb : str)
  | CURLOPT_URL (url : str)
  | CURLOPT_WRITEFUNCTION
  | CURLOPT_WRITEDATA
  | CURLOPT_FOLLOWLOCATION
  | CURLOPT_SSL_VERIFYPEER (b : bool)
  | CURLOPT_SSL_VERIFYHOST (b : bool)
  | CURLOPT_SSL_VERIFYSTATUS (b : bool).

(** The checked [curl_easy_setopt] calls of [get_data_from_server], in their order. *)
Definition request_options (http_method : HttpMethod) (post_data : option str) (json_string : bool)
    (curl_share : option Z) (request_url : str) (header : list str) (force_ssl : bool) : list curl_opt :=
  let list := match post_data with Some _ => if json_string then [$"Content-Type:application/json"] else [] | None => [] end in
  match curl_share with Some s => [CURLOPT_SHARE s] | None => [] end ++
  match post_data with Some d => [CURLOPT_HTTPHEADER list; CURLOPT_POSTFIELDS d] | None => [] end ++
  [match http_method with GET => CURLOPT_HTTPGET | POST => CURLOPT_POST | DELETE => CURLOPT_CUSTOMREQUEST $"DELETE" end] ++
  match header with [] => [] | _ => [CURLOPT_HTTPHEADER (list ++ header)] end ++
  [CURLOPT_URL request_url; CURLOPT_WRITEFUNCTION; CURLOPT_WRITEDATA; CURLOPT_FOLLOWLOCATION;
   CURLOPT_SSL_VERIFYPEER force_ssl; CURLOPT_SSL_VERIFYHOST force_ssl; CURLOPT_SSL_VERIFYSTATUS force_ssl].

(** ** Growing buffer *)

(** [ptr_data]: the bytes written so far ([head] is their number) in an allocation of
    [current_size] bytes. *)
Record ptr_data := mkPtr { data : str; current_size : Z }.
Definition head (p : ptr_data) : Z := Z.of_nat (length (data p)).

(** A write callback: the number of bytes it takes, and the state it leaves. *)
Definition write_to_ptr (realloc_ok : Z → bool) (block : str) (file_ptr : option ptr_data) : res (Z * option ptr_data) :=
  match file_ptr with
  | None => Ok (0, None)
  | Some p =>
      let block_size := Z.of_nat (length block) in
      let grown :=
        if bool_decide (current_size p < head p + block_size) then
          if realloc_ok (current_size p * 2) then Some (mkPtr (data p) (current_size p * 2)) else None
        else Some p in
      match grown with
      | None => Ok (0, Some p)
      | Some p =>
          if bool_decide (head p + block_size <= current_size p)
          then Ok (block_size, Some (mkPtr (data p ++ block) (current_size p)))
          else Raise (UB OutOfBounds)
      end
  end.

Definition write_to_disk (block : str) (file_stream : option str) : res (Z * option str) :=
  match file_stream with
  | None => Ok (0, None)
  | Some content => Ok (Z.of_nat (length block), Some (content ++ block))
  end.

(** libcurl passes the body on block by block; a short count from the callback stops the
    transfer with an error. *)
Fixpoint transfer {S : Type} (write : str → S → res (Z * S)) (blocks : list str) (st : S) : res (bool * S) :=
  match blocks with
  | [] => Ok (true, st)
  | block :: blocks' =>
      '(n, st) ← write block st;
      if bool_decide (n = Z.of_nat (length block)) then transfer write blocks' st else Ok (false, st)
  end.

Section curl.
(** [curl_easy_init] and each [curl_easy_setopt]: do they succeed; [curl_easy_perform]:
    the blocks of the body it receives under these options, and whether it then
    succeeds. *)
Context (easy_init : bool) (setopt : curl_opt → bool) (perform : list curl_opt → list str * bool).
Context (realloc_ok : Z → bool).

Definition get_data_from_server {S : Type} (http_method : HttpMethod) (input_data : S) (post_data : option str)
    (json_string : bool) (curl_share : option Z) (request_url : str) (header : list str)
    (write_function : str → S → res (Z * S)) (force_ssl : bool) : res (bool * S) :=
  let opts := request_options http_method post_data json_string curl_share request_url header force_ssl in
  if negb easy_init then Ok (false, input_data) else
  if negb (forallb setopt opts) then Ok (false, input_data) else
  let '(blocks, performed) := perform opts in
  '(written, st) ← transfer write_function blocks input_data;
  Ok (written && performed, st).

(** The zero byte stored at [data->head] of the result. *)
Definition terminate (p : option ptr_data) : res (option str) :=
  match p with
  | None => Raise (UB NullDeref)
  | Some p => if bool_decide (head p < current_size p) then Ok (Some (data p)) else Raise (UB OutOfBounds)
  end.

(** The response, or null. *)
Definition POST_and_save_to_ptr (curl_handler : option Z) (request_url : str) (post_data : option str)
    (is_json force_ssl : bool) : res (option str) :=
  '(ok, p) ← get_data_from_server POST (Some (mkPtr [] 1024)) post_data is_json curl_handler request_url []
               (write_to_ptr realloc_ok) force_ssl;
  if ok : bool then terminate p else Ok None.

Definition GET_and_save_to_ptr (curl_handler : option Z) (request_url : str) (header : list str)
    (force_ssl : bool) : res (option str) :=
  '(ok, p) ← get_data_from_server GET (Some (mkPtr [] (1024 * 1024))) None false curl_handler request_url header
               (write_to_ptr realloc_ok) force_ssl;
  if ok : bool then terminate p else Ok None.

Definition GET_and_save_to_path (curl_handler : option Z) (request_url file : str) (force_ssl : bool)
    (fs : gmap str str) : res (bool * gmap str str) :=
  '(ok, content) ← get_data_from_server GET (Some []) None false curl_handler request_url [] write_to_disk force_ssl;
  let fs := <[file := default [] content]> fs in
  Ok (ok, if ok : bool then fs else delete file fs).

(** ** Transfers *)

Hypothesis realloc_succeeds : ∀ n, realloc_ok n = true.

(** The capacity a buffer has after doubling. *)
Definition power_of (base cap : Z) : Prop := ∃ j, 0 <= j ∧ cap = base * 2 ^ j.

(** Blocks no longer than the first allocation never overflow the buffer. *)
Lemma transfer_small base blocks p :
  0 < base → power_of base (current_size p) → head p <= current_size p →
  Forall (λ b : str, Z.of_nat (length b) <= base) blocks →
  ∃ cap, transfer (write_to_ptr realloc_ok) blocks (Some p) = Ok (true, Some (mkPtr (data p ++ concat blocks) cap)) ∧
    power_of base cap ∧ Z.of_nat (length (data p ++ concat blocks)) <= cap.
Proof.
  intros Hb Hp Hh Hs. revert p Hp Hh. induction Hs as [|b blocks Hlen Hs IH]; intros p Hp Hh; simpl.
  { exists (current_size p). rewrite app_nil_r. destruct p. split_and!; done. }
  assert (base <= current_size p) as Hcap.
  { destruct Hp as (j & Hj & ->). pose proof (Z.pow_pos_nonneg 2 j ltac:(lia) Hj). nia. }
  unfold head in *. case_bool_decide.
  - rewrite realloc_succeeds. simpl. rewrite bool_decide_true by lia. simpl. rewrite bool_decide_true by done.
    destruct (IH (mkPtr (data p ++ b) (current_size p * 2))) as (cap & -> & Hc & Hl); simpl.
    + destruct Hp as (j & Hj & ->). exists (j + 1). split; [lia|]. rewrite Z.pow_add_r by lia. lia.
    + rewrite length_app. lia.
    + exists cap. rewrite app_assoc. done.
  - rewrite bool_decide_true by lia. simpl. rewrite bool_decide_true by done.
    destruct (IH (mkPtr (data p ++ b) (current_size p))) as (cap & -> & Hc & Hl); simpl; [done|rewrite length_app; lia|].
    exists cap. rewrite app_assoc. done.
Qed.


(** A POST whose response starts with a block of more than 2048 bytes writes behind its
    buffer: the 1024 bytes are doubled only once. *)
Theorem POST_overflows curl_handler url post_data is_json force_ssl opts block blocks performed :
  opts = request_options POST post_data is_json curl_handler url [] force_ssl →
  easy_init = true → forallb setopt opts = true → perform opts = (block :: blocks, performed) →
  2048 < Z.of_nat (length block) →
  POST_and_save_to_ptr curl_handler url post_data is_json force_ssl = Raise (UB OutOfBounds).
Proof.
  intros -> Hi Hset Hp Hlen. unfold POST_and_save_to_ptr, get_data_from_server. rewrite Hi, Hset, Hp. simpl negb. cbv iota.
  unfold transfer, write_to_ptr, head. simpl data. simpl current_size. simpl length.
  rewrite bool_decide_true by lia. rewrite realloc_succeeds. simpl current_size. simpl data. simpl length.
  by rewrite bool_decide_false by lia.
Qed.
End curl.


Lemma POST_overflows_witness :
  POST_and_save_to_ptr true (λ _, true) (λ _, ([replicate 2049 "x"%char], true)) (λ _, true) None $"http://s/api" None true false =
    Raise (UB OutOfBounds).
Proof.
  exact (POST_overflows true (λ _, true) (λ _, ([replicate 2049 "x"%char], true)) (λ _, true) (λ _, eq_refl) None
    $"http://s/api" None true false _ (replicate 2049 "x"%char) [] true eq_refl eq_refl eq_refl eq_refl eq_refl).
Defined.
