(* ===== verification/Management.v ===== *)
(** The management client: [user_context.cc], [device_context.cc], [management_context.cc] and
    [management_api_impl.h].  The contexts implement the interfaces of [ManagementApi]; a
    request is a call of [Curl] whose outcome depends on the number of requests made. *)
From S2P Require Import Prelude CxxString Config Base64 JsonModel ManagementApi Responses Curl.
Import RegisterClientRequest RegisterClientResponse UserLoginResponse UserDetailResponse.
Import ClientCertResponse DeviceInfoResponse PeerListResponse DeviceConfiguration.
Local Open Scope Z_scope.

(** ** Endpoints ([server_endpoint.h]) *)

Definition SERVER_PASSWORD_LOGIN_V1 : str := $"/api/v1/login".
Definition SERVER_PASSWORD_LOGOUT_V1 : str := $"/logout".
Definition SERVER_REGISTER_ENDPOINT_V1 : str := $"/api/v1/register_client".
Definition SERVER_USER_DETAIL_V1 : str := $"/api/v1/user".
Definition GET_CLIENT_INFO_ENDPOINT_V1 : str := $"/api/v1/device".
Definition GET_CLIENT_PEER_INFO_ENDPOINT_V1 : str := $"/api/v1/device/peer".
Definition GET_CLIENT_GROUP_INFO_ENDPOINT_V1 : str := $"/api/v1/device/group".
Definition GET_CLIENT_CERTIFICATE_ENDPOINT_V1 : str := $"/api/v1/device/certificate".

(** ** The outside world *)

(** The disk, and the number of requests made so far. *)
Record world := mkWorld { disk : gmap str str; requests : nat }.

(** A C string ends at its first zero byte. *)
Fixpoint c_str (s : str) : str :=
  match s with [] => [] | c :: s' => if bool_decide (c = char_of 0) then [] else c :: c_str s' end.

Section management.
Context `{RapidJSON}.
(** libcurl at each request, as in [Curl]; [d2i_PKCS12]: is the file a PKCS#12 container. *)
Context (easy_init : nat → bool) (setopt : nat → curl_opt → bool) (perform : nat → list curl_opt → list str * bool).
Context (realloc_ok : Z → bool) (d2i_PKCS12 : str → bool).

Definition http_get (share : option Z) (url : str) (header : list str) (w : world) : res (option str * world) :=
  let n := requests w in
  r ← GET_and_save_to_ptr (easy_init n) (setopt n) (perform n) realloc_ok share url header false;
  Ok (option_map c_str r, mkWorld (disk w) (S n)).
Definition http_post (share : option Z) (url : str) (post : option str) (is_json : bool) (w : world)
    : res (option str * world) :=
  let n := requests w in
  r ← POST_and_save_to_ptr (easy_init n) (setopt n) (perform n) realloc_ok share url post is_json false;
  Ok (option_map c_str r, mkWorld (disk w) (S n)).

(** ** Users *)

Record UserContextImpl := mkUser { _login : bool; _share_handle : Z; _user_server_address : str }.

Definition UserContextImpl_new (share : Z) (server_address : str) : UserContextImpl := mkUser false share server_address.

Definition user_logout (u : UserContextImpl) (w : world) : res (UserContextImpl * world) :=
  if _login u then
    '(_, w) ← http_post (Some (_share_handle u)) (_user_server_address u ++ SERVER_PASSWORD_LOGOUT_V1) None true w;
    Ok (mkUser false (_share_handle u) (_user_server_address u), w)
  else Ok (u, w).

Definition user_login (email password : str) (u : UserContextImpl) (w : world)
    : res (bool * str * UserContextImpl * world) :=
  if _login u then Ok (true, $"user already login", u, w) else
  '(text, w) ← http_post (Some (_share_handle u)) (_user_server_address u ++ SERVER_PASSWORD_LOGIN_V1)
                 (Some ($"email=" ++ email ++ $"&password=" ++ password)) false w;
  response ← UserLoginResponse_new text;
  ok ← success response;
  same ← (if ok : bool then e ← user_email response; Ok (bool_decide (e = email)) else Ok false);
  if same : bool then Ok (true, $"login success", mkUser true (_share_handle u) (_user_server_address u), w)
  else msg ← message response; Ok (false, msg, u, w).

Definition user_user_detail (u : UserContextImpl) (w : world) : res (option JsonModel * world) :=
  if negb (_login u) then Ok (None, w) else
  '(text, w) ← http_get (Some (_share_handle u)) (_user_server_address u ++ SERVER_USER_DETAIL_V1) [] w;
  response ← UserDetailResponseImpl_new text;
  ok ← success response;
  Ok (if ok : bool then Some response else None, w).

#[export] Instance UserContextImpl_context : IUserContext world UserContextImpl JsonModel :=
  {| logout := user_logout; is_logged_in := _login; login := user_login; user_detail := user_user_detail |}.

(** ** Devices *)

Record DeviceContextImpl := mkDevice {
  _dev_id : str; _login_token : str; _dev_server_address : str;
  _dev_certificate_path : str; _dev_configuration_path : str }.

Definition DeviceContextImpl_new (dev_conf : option JsonModel)
    (server_address client_configuration_path client_certificate_path : str) : res DeviceContextImpl :=
  conf ← deref (UB NullDeref) dev_conf;
  id ← conf_device_id conf;
  token ← conf_jwt_key conf;
  Ok (mkDevice id token server_address client_certificate_path client_configuration_path).

Definition authorization (d : DeviceContextImpl) : list str := [$"Authorization:" ++ _login_token d].

Definition dev_device_info (d : DeviceContextImpl) (w : world) : res (option JsonModel * world) :=
  if bool_decide (_login_token d = []) then Ok (None, w) else
  '(raw_json, w) ← http_get None (_dev_server_address d ++ GET_CLIENT_INFO_ENDPOINT_V1) (authorization d) w;
  text ← deref (UB NullDeref) raw_json;
  if bool_decide (text = []) then Ok (None, w) else
  response ← DeviceInfoResponseImpl_new (Some text);
  ok ← success response;
  if ok : bool then Ok (Some response, w) else msg ← message response; Ok (None, w).

Definition dev_is_enabled (d : DeviceContextImpl) (w : world) : res (bool * world) :=
  '(info, w) ← dev_device_info d w; Ok (bool_decide (is_Some info), w).

Definition MAX_DOWNLOAD_RETIRES : nat := 3.

(** The download at the end of a round, which keeps what it gets when it succeeds. *)
Definition download_certificate (d : DeviceContextImpl) (w : world) : res world :=
  '(text, w) ← http_get None (_dev_server_address d ++ GET_CLIENT_CERTIFICATE_ENDPOINT_V1) (authorization d) w;
  resp ← ClientCertResponse_new text;
  ok ← success resp;
  if ok : bool then
    encoded ← PSCK12_certificate resp;
    Ok (mkWorld (<[_dev_certificate_path d := Base64.decode encoded]> (disk w)) (requests w))
  else msg ← message resp; Ok w.

(** One round: [inl] is the [return], [inr] goes on to the next round. *)
Definition certificate_round (d : DeviceContextImpl) (w : world) : res (str + world) :=
  let path := _dev_certificate_path d in
  match disk w !! path with
  | Some content =>
      if d2i_PKCS12 content then Ok (inl path)
      else w ← download_certificate d (mkWorld (delete path (disk w)) (requests w)); Ok (inr w)
  | None => w ← download_certificate d w; Ok (inr w)
  end.

Fixpoint certificate_rounds (rounds : nat) (d : DeviceContextImpl) (w : world) : res (str * world) :=
  match rounds with
  | O => Raise Fatal
  | S rounds' =>
      r ← certificate_round d w;
      match r with inl path => Ok (path, w) | inr w => certificate_rounds rounds' d w end
  end.

Definition dev_client_certificate (d : DeviceContextImpl) (w : world) : res (str * world) :=
  certificate_rounds MAX_DOWNLOAD_RETIRES d w.

Definition dev_peer_list (d : DeviceContextImpl) (w : world) : res (option JsonModel * world) :=
  '(text, w) ← http_get None (_dev_server_address d ++ GET_CLIENT_PEER_INFO_ENDPOINT_V1) (authorization d) w;
  response ← PeerListResponseImpl_new text;
  ok ← success response;
  if ok : bool then Ok (Some response, w) else msg ← message response; Ok (None, w).

#[export] Instance DeviceContextImpl_context : IDeviceContext world DeviceContextImpl JsonModel JsonModel :=
  {| is_enabled := dev_is_enabled; ManagementApi.device_id := _dev_id; client_certificate := dev_client_certificate;
     peer_list := dev_peer_list; device_info := dev_device_info |}.

(** ** The management context *)

Record ManagementContext := mkContext {
  _p2p_listen_port : Z; _server_address : str; _p2p_listen_interface : str;
  _client_configuration_path : str; _client_certificate_path : str; _server_certifiacte_path : str;
  _device_ctx_instance : option DeviceContextImpl }.

Definition ManagementContext_new (config : Config) : ManagementContext :=
  mkContext (p2p_port config) (management_server_url config) (p2p_listen_interface config)
    (client_configuration_path config) (client_certificate_path config) (server_certificate_path config) None.

(** [instance] of [management_context.cc] is the argument; [None] is null. *)
Definition init (config : Config) : option ManagementContext := Some (ManagementContext_new config).

Definition usr_ctx (share : Z) (instance : option ManagementContext) : option UserContextImpl :=
  ctx ← instance; Some (UserContextImpl_new share (_server_address ctx)).

(** The addresses of the listening interface, with the port. *)
Definition address_list (interface : str) (port : Z) (local_ip : list (str * str)) : str :=
  foldl (λ oss ip,
    if bool_decide (ip.1 = interface)
    then oss ++ ip.2 ++ $":" ++ show_dec port ++ (if bool_decide (Some ip = last local_ip) then [] else $",")
    else oss) [] local_ip.

(** [local_ips]: the call of [getIPAddresses]; [dev_id]: the result of [get_device_id]. *)
Definition register_client (local_ips : res (list (str * str))) (dev_id : str) (instance : option ManagementContext) (w : world)
    : res world :=
  match instance with
  | None => Ok w
  | Some ctx =>
      reques_model ← RegisterClientRequest_new;
      local_ip ← local_ips;
      reques_model ← setIPAddress (address_list (_p2p_listen_interface ctx) (_p2p_listen_port ctx) local_ip) reques_model;
      reques_model ← setMachineID dev_id reques_model;
      '(raw_json, w) ← http_post None (_server_address ctx ++ SERVER_REGISTER_ENDPOINT_V1)
                         (Some (get_json reques_model)) true w;
      text ← deref Fatal raw_json;
      resp ← RegisterClientResponse_new (Some text);
      ok ← success resp;
      if negb ok then Raise Fatal else
      conf ← DeviceConfiguration_of_response resp;
      let w := mkWorld (save (_server_certifiacte_path ctx) conf (disk w)) (requests w) in
      url ← get_enable_url resp;
      Ok w
  end.

Definition dev_ctx (local_ips : res (list (str * str))) (dev_id : str) (instance : option ManagementContext) (w : world)
    : res (option DeviceContextImpl * option ManagementContext * world) :=
  match instance with
  | None => Ok (None, instance, w)
  | Some ctx =>
      match _device_ctx_instance ctx with
      | None =>
          '(conf, w) ← (if decide (is_Some (disk w !! _server_certifiacte_path ctx))
                        then c ← DeviceConfiguration_of_file (_server_certifiacte_path ctx) (disk w); Ok (Some c, w)
                        else w ← register_client local_ips dev_id instance w; Ok (None, w));
          d ← DeviceContextImpl_new conf (_server_address ctx) (_client_configuration_path ctx) (_client_certificate_path ctx);
          let ctx := mkContext (_p2p_listen_port ctx) (_server_address ctx) (_p2p_listen_interface ctx)
            (_client_configuration_path ctx) (_client_certificate_path ctx) (_server_certifiacte_path ctx) (Some d) in
          Ok (Some d, Some ctx, w)
      | Some d => Ok (Some d, instance, w)
      end
  end.

(** ** Requests *)

Lemma http_get_disk share url header w text w' :
  http_get share url header w = Ok (text, w') → disk w' = disk w ∧ requests w' = S (requests w).
Proof. unfold http_get. intros (r & _ & [= _ <-])%res_bind_ok. done. Qed.
Lemma http_post_disk share url post is_json w text w' :
  http_post share url post is_json w = Ok (text, w') → disk w' = disk w ∧ requests w' = S (requests w).
Proof. unfold http_post. intros (r & _ & [= _ <-])%res_bind_ok. done. Qed.

(** ** Login *)

(** [login] answers [true] exactly when the user is logged in afterwards; it makes one
    request when the user was not logged in before and none otherwise, and a user who
    becomes logged in is the one whose e-mail the server confirmed with success. *)
Lemma login_spec email password u w b msg u' w' :
  user_login email password u w = Ok (b, msg, u', w') →
  _login u' = b ∧ disk w' = disk w ∧
  (if _login u then u' = u ∧ requests w' = requests w
   else requests w' = S (requests w) ∧
     (b = true → ∃ text response, UserLoginResponse_new text = Ok response ∧
        success response = Ok true ∧ user_email response = Ok email)).
Proof.
  unfold user_login. destruct (_login u) eqn:El; [by intros [= <- _ <- <-]|].
  intros ([text w1] & Hp & Hr)%res_bind_ok. apply http_post_disk in Hp as [Hd Hn].
  bind Hr as response Hresp. bind Hr as ok Hok.
  bind Hr as same Hsame. destruct same.
  - injection Hr as <- _ <- <-. destruct ok; [|done].
    apply res_bind_ok in Hsame as (e & He & [= ->%bool_decide_eq_true_1]).
    split_and!; [done..|]. intros _. by exists text, response.
  - apply res_bind_ok in Hr as (m & _ & [= <- _ <- <-]). split_and!; done.
Qed.

(** ** The device certificate *)

Definition certificate_on_disk (path : str) (w : world) : Prop :=
  ∃ content, disk w !! path = Some content ∧ d2i_PKCS12 content = true.

Lemma download_certificate_requests d w w' :
  download_certificate d w = Ok w' → requests w' = S (requests w).
Proof.
  unfold download_certificate. intros ([text w1] & Hg & Hr)%res_bind_ok. apply http_get_disk in Hg as [_ <-].
  bind Hr as resp _. bind Hr as [] _;
    by apply res_bind_ok in Hr as (x & _ & [= <-]).
Qed.

Lemma certificate_round_spec d w r :
  certificate_round d w = Ok r →
  match r with
  | inl path => path = _dev_certificate_path d ∧ certificate_on_disk path w
  | inr w' => requests w' = S (requests w)
  end.
Proof.
  unfold certificate_round, certificate_on_disk. destruct (disk w !! _dev_certificate_path d) as [content|] eqn:E.
  - destruct (d2i_PKCS12 content) eqn:Ed; [intros [= <-]; eauto|].
    intros (w1 & Hd & [= <-])%res_bind_ok. by apply download_certificate_requests in Hd.
  - intros (w1 & Hd & [= <-])%res_bind_ok. by apply download_certificate_requests in Hd.
Qed.

(** C22: [client_certificate] returns only the configured path, with a certificate there that
    parses, after at most two downloads; it makes no request at all when such a
    certificate is already there.  When there is no file, and the server answers the first
    download with a container in the encoding of RFC 4648, the call returns after this one
    request and the file holds exactly the bytes of the container.  What a third download
    saves is never looked at: the call ends in [LOG(FATAL)] whatever the download brought. *)
Theorem client_certificate_spec d w :
  (certificate_on_disk (_dev_certificate_path d) w → dev_client_certificate d w = Ok (_dev_certificate_path d, w)) ∧
  (∀ path w', dev_client_certificate d w = Ok (path, w') →
     path = _dev_certificate_path d ∧ certificate_on_disk path w' ∧ (requests w' <= requests w + 2)%nat) ∧
  (∀ text resp pkcs12 w1,
     disk w !! _dev_certificate_path d = None →
     http_get None (_dev_server_address d ++ GET_CLIENT_CERTIFICATE_ENDPOINT_V1) (authorization d) w = Ok (text, w1) →
     ClientCertResponse_new text = Ok resp → success resp = Ok true →
     PSCK12_certificate resp = Ok (Base64.rfc4648 pkcs12) → d2i_PKCS12 pkcs12 = true →
     dev_client_certificate d w =
       Ok (_dev_certificate_path d, mkWorld (<[_dev_certificate_path d := pkcs12]> (disk w)) (S (requests w)))) ∧
  (∀ w1 w2 w3, certificate_round d w = Ok (inr w1) → certificate_round d w1 = Ok (inr w2) →
     certificate_round d w2 = Ok (inr w3) → dev_client_certificate d w = Raise Fatal).
Proof.
  split_and!.
  - intros (content & Hc & Hd). unfold dev_client_certificate, certificate_rounds, MAX_DOWNLOAD_RETIRES, certificate_round.
    rewrite Hc, Hd. done.
  - unfold dev_client_certificate. assert (∀ n w path w', certificate_rounds (S n) d w = Ok (path, w') →
      path = _dev_certificate_path d ∧ certificate_on_disk path w' ∧ (requests w' <= requests w + n)%nat) as Hn;
      [|apply (Hn 2%nat)].
    induction n as [|n IH]; intros w0 path w' (r & Hr & Hc)%res_bind_ok; apply certificate_round_spec in Hr;
      destruct r as [p|w1]; [injection Hc as -> <-|done|injection Hc as -> <-|].
    + destruct Hr as [-> ?]. split_and!; [done..|lia].
    + destruct Hr as [-> ?]. split_and!; [done..|lia].
    + destruct (IH _ _ _ Hc) as (? & ? & ?). split_and!; [done..|lia].
  - intros text resp pkcs12 w1 Hnone Hg Hresp Hok Hp12 Hd.
    set (w2 := mkWorld (<[_dev_certificate_path d := pkcs12]> (disk w)) (S (requests w))).
    assert (certificate_round d w = Ok (inr w2)) as H1.
    { unfold certificate_round, download_certificate. rewrite Hnone, Hg. simpl. rewrite Hresp. simpl. rewrite Hok. simpl.
      rewrite Hp12. simpl. apply http_get_disk in Hg as [-> ->]. by rewrite Base64.decode_rfc4648. }
    assert (certificate_round d w2 = Ok (inl (_dev_certificate_path d))) as H2
      by (unfold certificate_round; simpl; by rewrite lookup_insert_eq, Hd).
    unfold dev_client_certificate, certificate_rounds, MAX_DOWNLOAD_RETIRES. by rewrite H1; simpl; rewrite H2.
  - intros w1 w2 w3 H1 H2 H3. unfold dev_client_certificate, certificate_rounds, MAX_DOWNLOAD_RETIRES.
    by rewrite H1; simpl; rewrite H2; simpl; rewrite H3.
Qed.
(** ** Registration *)

Lemma register_client_saves local_ips dev_id ctx w w' :
  register_client local_ips dev_id (Some ctx) w = Ok w' →
  ∃ id k, id ≠ [] ∧ k ≠ [] ∧ disk w' = save (_server_certifiacte_path ctx)
    (mkJsonModel false None (JObject [($"jwt_key", JString k); ($"device_id", JString id)])) (disk w).
Proof.
  unfold register_client. intros (m & _ & H1)%res_bind_ok. bind H1 as ips _. bind H1 as m1 _.
  bind H1 as m2 _. bind H1 as [raw w1] Hp.
  apply http_post_disk in Hp as [<- _]. bind H1 as t _.
  bind H1 as resp _. bind H1 as [] _; [|done]. simpl in H1.
  bind H1 as conf Hc. apply res_bind_ok in H1 as (url & _ & [= <-]).
  apply DeviceConfiguration_of_response_inv in Hc as (id & k & ? & ? & ->). by exists id, k.
Qed.

Context `{!RapidJSONLaws}.

(** A device that is not registered: after a registration that succeeds the configuration is
    still null. *)
Lemma dev_ctx_unregistered local_ips dev_id config w w' :
  disk w !! server_certificate_path config = None →
  register_client local_ips dev_id (init config) w = Ok w' →
  dev_ctx local_ips dev_id (init config) w = Raise (UB NullDeref).
Proof.
  intros Hnone Hreg. unfold dev_ctx, init in *. simpl _device_ctx_instance. cbv iota. simpl _server_certifiacte_path.
  rewrite decide_False by (rewrite Hnone; by intros []). by rewrite Hreg.
Qed.

(** From then on a new process finds the registration on the disk and makes no request. *)
Lemma dev_ctx_registered local_ips dev_id config w w' :
  register_client local_ips dev_id (init config) w = Ok w' →
  (∀ path, path ≠ server_certificate_path config → disk w' !! path = disk w !! path) ∧
  ∃ d ctx, _dev_id d ≠ [] ∧ _login_token d ≠ [] ∧ _device_ctx_instance ctx = Some d ∧
    ∀ local_ips' dev_id', dev_ctx local_ips' dev_id' (init config) w' = Ok (Some d, Some ctx, w').
Proof.
  unfold init. intros (id & k & Hid & Hk & Hd)%register_client_saves. simpl _server_certifiacte_path in *. split.
  { intros path Hp. rewrite Hd. unfold save. rewrite lookup_insert_ne by done. case_decide; [by rewrite lookup_delete_ne|done]. }
  assert (DeviceConfiguration_of_file (server_certificate_path config) (disk w') =
    Ok (mkJsonModel false None (JObject [($"jwt_key", JString k); ($"device_id", JString id)]))) as Hconf.
  { unfold DeviceConfiguration_of_file. by rewrite Hd, load_saved by (done || by split; [|eexists]). }
  eexists _, _. split_and!; cycle 3.
  - intros ips' id'. unfold dev_ctx. simpl _device_ctx_instance. cbv iota. simpl _server_certifiacte_path.
    rewrite decide_True by (rewrite Hd, save_lookup; eauto). rewrite Hconf. reflexivity.
  - exact Hid.
  - exact Hk.
  - done.
Qed.
End management.

(** ** The registered addresses *)

Lemma address_list_prefix interface port pre ips acc :
  (∀ ip, ip ∈ ips → Some ip ≠ last pre) →
  foldl (λ oss ip,
    if bool_decide (ip.1 = interface)
    then oss ++ ip.2 ++ $":" ++ show_dec port ++ (if bool_decide (Some ip = last pre) then [] else $",")
    else oss) acc ips =
  acc ++ concat ((λ ip : str * str, ip.2 ++ $":" ++ show_dec port ++ $",") <$> filter (λ ip : str * str, ip.1 = interface) ips).
Proof.
  revert acc. induction ips as [|ip ips IH]; intros acc Hne; simpl; [by rewrite app_nil_r|].
  rewrite IH by set_solver. rewrite filter_cons. case_bool_decide as Hi; [rewrite decide_True by done|by rewrite decide_False].
  rewrite bool_decide_false by (apply Hne; set_solver). simpl. rewrite <- !app_assoc. done.
Qed.

(** The address list of a registration: every address of the listening interface with
    the port, each followed by a comma, except that the very last local address is not;
    so the list ends in a comma exactly when the listening interface has an address but
    not the last one of all interfaces. *)
Theorem address_list_spec interface port local_ip ip :
  NoDup (local_ip ++ [ip]) →
  address_list interface port (local_ip ++ [ip]) =
    concat ((λ ip : str * str, ip.2 ++ $":" ++ show_dec port ++ $",") <$> filter (λ ip : str * str, ip.1 = interface) local_ip)
    ++ (if bool_decide (ip.1 = interface) then ip.2 ++ $":" ++ show_dec port else []).
Proof.
  intros (_ & Hnd & _)%NoDup_app. unfold address_list. rewrite foldl_app.
  rewrite (address_list_prefix interface port (local_ip ++ [ip]) local_ip []); [|intros x Hx; rewrite last_snoc; intros [= ->]; apply (Hnd ip Hx); set_solver].
  simpl. case_bool_decide; [|by rewrite app_nil_r]. rewrite last_snoc, bool_decide_true by done. by rewrite app_nil_r.
Qed.

Lemma address_list_spec_witness :
  address_list $"eth0" 3324 ([($"eth0", $"10.0.0.7")] ++ [($"wlan0", $"10.0.1.9")]) = $"10.0.0.7:3324,".
Proof. rewrite address_list_spec; by_decide. Defined.

(** ** A concrete server, to run the definitions with *)

(** The text [ok] stands for a successful answer with all fields. *)
Definition toy_answer : json := JObject
  [($"success", JBool true);
   ($"responseBody", JObject [($"client_id", JString $"d1"); ($"login_token", JString $"jwt");
      ($"enable_url", JString $"http://s/enable"); ($"email", JString $"a@b.c"); ($"PSCK12_certificate", JString $"QUJD")])].
Definition AnswerJSON : RapidJSON := {|
  json_write := @json_write ToyJSON;
  json_parse s := if bool_decide (s = $"ok") then Some toy_answer else @json_parse ToyJSON s |}.
Lemma AnswerJSON_laws : @RapidJSONLaws AnswerJSON.
Proof.
  intros j. simpl. rewrite bool_decide_false; [apply ToyJSON_laws|].
  destruct (countable.encode (json_tree j)); simpl; by intros [=].
Qed.
#[local] Existing Instance AnswerJSON.

Definition all_ok (_ : nat) : bool := true.
Definition every (_ : nat) (_ : curl_opt) : bool := true.
Definition answers (_ : nat) (_ : list curl_opt) : list str * bool := ([$"ok"], true).
Definition enough (_ : Z) : bool := true.
Definition toy_user : UserContextImpl := mkUser false 1 $"http://s".
Definition toy_dev : DeviceContextImpl := mkDevice $"d1" $"jwt" $"http://s" $"dev.p12" $"dev.cfg".

Lemma login_spec_example :
  user_login all_ok every answers enough $"a@b.c" $"pw" toy_user (mkWorld ∅ 0) =
    Ok (true, $"login success", mkUser true 1 $"http://s", mkWorld ∅ 1) ∧ _login (mkUser true 1 $"http://s") = true.
Proof.
  assert (user_login all_ok every answers enough $"a@b.c" $"pw" toy_user (mkWorld ∅ 0) =
    Ok (true, $"login success", mkUser true 1 $"http://s", mkWorld ∅ 1)) as Hl by (vm_compute; reflexivity).
  split; [exact Hl|]. exact (proj1 (login_spec all_ok every answers enough _ _ _ _ _ _ _ _ Hl)).
Defined.

Lemma client_certificate_spec_witness :
  dev_client_certificate all_ok every answers enough (λ s, bool_decide (s = $"ABC")) toy_dev (mkWorld {[$"dev.p12" := $"ABC"]} 7) =
    Ok ($"dev.p12", mkWorld {[$"dev.p12" := $"ABC"]} 7).
Proof.
  apply (client_certificate_spec all_ok every answers enough (λ s, bool_decide (s = $"ABC")) toy_dev
    (mkWorld {[$"dev.p12" := $"ABC"]} 7)).
  exists ($"ABC"). split; reflexivity.
Defined.
