(* ===== verification/MachineId.v ===== *)
(** Identification of the machine ([management_api/utils]): the device id
    ([machine_id_utils.cc]), the local addresses ([ip_address_utils.cc]) and the UUID
    helpers ([uuid_utils.cc]). *)
From S2P Require Import Prelude CxxString IPAddress.
Local Open Scope Z_scope.

(** ** Output streams *)

(** A [std::ostream]: its text, and whether it has failed, after which nothing is written. *)
Record ostream := mkStream { text : str; failed : bool }.

Definition put (s : str) (o : ostream) : ostream := if failed o then o else mkStream (text o ++ s) false.
(** [os << file.rdbuf()]: a stream that no character can be read from makes [os] fail. *)
Definition put_file (content : option str) (o : ostream) : ostream :=
  if failed o then o else
  match content with
  | None | Some [] => mkStream (text o) true
  | Some s => mkStream (text o ++ s) false
  end.

(** ** The device id *)

Section device_id.
Context (SHA256 : str → list Z).

Definition hex_digit (n : Z) : ascii :=
  if bool_decide (n < 10) then char_of (48 + n) else char_of (87 + n).
(** ["%02x"] of an [unsigned char] *)
Definition hex2 (b : Z) : str := [hex_digit (u8 b / 16); hex_digit (u8 b mod 16)].

(** [SHA256_DIGEST_LENGTH] bytes in hexadecimal *)
Definition generate_sha256 (s : str) : str := concat (hex2 <$> SHA256 s).

(** What the function reads: [eax] of [cpuid] leaf 1, the entries of [/sys/class/net] with
    their type and real path, and two files. *)
Record dirent := mkDirent { d_name : str; d_is_dir : bool; d_realpath : str }.
Record machine := mkMachine { cpuid_eax : Z; net_dir : list dirent; file_txt : option str; machine_id_file : option str }.

Definition cpu_fields (eax : Z) : str :=
  let f n := show_dec (Z.land (Z.shiftr eax n) 0xF) in f 4 ++ f 8 ++ f 12 ++ f 16 ++ f 20.

Definition is_prefix (p s : str) : bool := bool_decide (take (length p) s = p).
Fixpoint contains (p s : str) : bool :=
  is_prefix p s || match s with [] => false | _ :: s' => contains p s' end.

Definition add_device (m : machine) (dp : dirent) (final_id : ostream) : ostream :=
  if is_prefix $"." (d_name dp) || is_prefix $".." (d_name dp) then final_id else
  if d_is_dir dp then
    if contains $"virtual/net/" (d_realpath dp) then final_id else put_file (file_txt m) final_id
  else final_id.

Definition get_device_id (m : machine) : str :=
  let final_id := put (cpu_fields (cpuid_eax m)) (mkStream [] false) in
  let final_id := foldl (λ o dp, add_device m dp o) final_id (net_dir m) in
  let final_id := match machine_id_file m with Some c => put_file (Some c) final_id | None => final_id end in
  generate_sha256 (text final_id).

Lemma hex_digit_lower n : 0 <= n < 16 → hex_digit n ∈ $"0123456789abcdef".
Proof.
  intros Hn.
  assert (forallb (λ n, bool_decide (hex_digit n ∈ $"0123456789abcdef")) (seqZ 0 16) = true) as H
    by (vm_compute; reflexivity).
  exact (bool_decide_eq_true_1 _ (all_below_spec 16 _ n H Hn)).
Qed.

Lemma hex2_lower b : Forall (λ c, c ∈ $"0123456789abcdef") (hex2 b).
Proof.
  pose proof (wrapu_range 8 b ltac:(lia)). change (2 ^ 8) with 256 in *.
  unfold hex2. apply Forall_cons; split; [|apply Forall_cons; split; [|apply Forall_nil_2]]; apply hex_digit_lower; div_lia.
Qed.

Lemma put_file_failed c o : failed o = true → put_file c o = o.
Proof. unfold put_file. by intros ->. Qed.

Lemma add_device_failed m dp o : failed o = true → add_device m dp o = o.
Proof. intros Ho. unfold add_device. repeat case_match; by rewrite ?put_file_failed. Qed.

Lemma add_devices_failed m dps o : failed o = true → foldl (λ o dp, add_device m dp o) o dps = o.
Proof. intros Ho. induction dps as [|dp dps IH]; simpl; [done|]. by rewrite add_device_failed. Qed.

(** A directory of a physical device. *)
Definition physical (dp : dirent) : Prop :=
  is_prefix $"." (d_name dp) = false ∧ is_prefix $".." (d_name dp) = false ∧
  d_is_dir dp = true ∧ contains $"virtual/net/" (d_realpath dp) = false.

Lemma add_devices_stop m dps o :
  Exists physical dps → default [] (file_txt m) = [] → failed o = false →
  foldl (λ o dp, add_device m dp o) o dps = mkStream (text o) true.
Proof.
  intros He Hf. revert o. induction He as [dp dps (Hd & Hdd & Hdir & Hv)|dp dps He IH]; intros o Ho; simpl.
  - unfold add_device at 2. rewrite Hd, Hdd, Hdir, Hv. simpl. unfold put_file. rewrite Ho.
    destruct (file_txt m) as [[|? ?]|]; simpl in Hf; [|done|]; by rewrite add_devices_failed.
  - unfold add_device at 2. destruct (_ || _); [by apply IH|]. destruct (d_is_dir dp); [|by apply IH].
    destruct (contains _ _); [by apply IH|]. unfold put_file. rewrite Ho.
    destruct (file_txt m) as [[|? ?]|]; simpl in Hf; [|done|]; by rewrite add_devices_failed.
Qed.

(** The device id is made of hexadecimal digits, two per byte of the digest.  Once the
    machine has a directory of a physical network device, and no readable [file.txt] in
    the working directory, it is the digest of the five cpu fields alone: the machine
    id is not written, because the stream has failed. *)
Theorem get_device_id_spec m :
  Forall (λ c, c ∈ $"0123456789abcdef") (get_device_id m) ∧
  (Exists physical (net_dir m) → default [] (file_txt m) = [] →
    get_device_id m = generate_sha256 (cpu_fields (cpuid_eax m))).
Proof.
  split.
  - unfold get_device_id, generate_sha256. induction (SHA256 _) as [|b bs IH]; simpl; [constructor|].
    apply (Forall_app_2 _ (hex2 b)); [apply hex2_lower|done].
  - intros He Hf. unfold get_device_id. rewrite (add_devices_stop m (net_dir m) _ He Hf) by done. simpl.
    destruct (machine_id_file m); by rewrite ?put_file_failed.
Qed.
End device_id.

Lemma get_device_id_spec_witness :
  get_device_id (λ s, byte_of <$> s)
      (mkMachine 0x306A9 [mkDirent $"eth0" true $"/sys/devices/pci/eth0"] None (Some $"4f3a")) =
    $"313036303330".
Proof.
  assert (cpu_fields 0x306A9 = $"106030") as Hc by by_decide.
  etransitivity; [apply get_device_id_spec; [apply Exists_cons_hd; by_decide|reflexivity]|].
  simpl cpuid_eax. rewrite Hc. by_decide.
Defined.

(** ** Local addresses *)

Definition INET_ADDRSTRLEN : Z := 16.
Definition INET6_ADDRSTRLEN : Z := 46.

Section addresses.
Context (inet_ntop : Z → Z → Z → option str).

(** [struct ifaddrs]: the name and the address, which may be null. *)
Record ifaddr := mkIfaddr { ifa_name : str; ifa_addr : option sockaddr_in }.

(** [address_buf] has [INET_ADDRSTRLEN] bytes. *)
Fixpoint collect_addresses (ifList : list ifaddr) : res (list (str * str)) :=
  match ifList with
  | [] => Ok []
  | ifa :: ifList' =>
      a ← deref (UB NullDeref) (ifa_addr ifa);
      if bool_decide (sin_family a = AF_INET6) then collect_addresses ifList' else
      match inet_ntop (sin_family a) (sin_addr a)
              (if bool_decide (sin_family a = AF_INET) then INET_ADDRSTRLEN else INET6_ADDRSTRLEN) with
      | Some address =>
          if bool_decide (Z.of_nat (length address) + 1 <= INET_ADDRSTRLEN)
          then rest ← collect_addresses ifList'; Ok ((ifa_name ifa, address) :: rest)
          else Raise (UB OutOfBounds)
      | None => collect_addresses ifList'
      end
  end.

(** [getifaddrs] gives [None] when it fails. *)
Definition getIPAddresses (ifaddrs : option (list ifaddr)) : res (list (str * str)) :=
  match ifaddrs with Some ifList => collect_addresses ifList | None => Ok [] end.
End addresses.

(** ** UUIDs *)

(** [uuid] is what [uuid_generate] makes.  The text goes into an allocation of 37 bytes, which
    can fail. *)
Definition new_uuid (uuid_unparse : list Z → str) (uuid : list Z) (malloc_ok : bool) : res str :=
  let uuid_str := uuid_unparse uuid in
  if negb malloc_ok then Raise (UB NullDeref) else
  if bool_decide (length uuid_str + 1 <= 37)%nat then Ok uuid_str else Raise (UB OutOfBounds).

(** [uuid_parse] into the pointer made from the first byte of the array, which is zero; it
    only writes when the text is a UUID. *)
Definition to_array (uuid_parse : str → option (list Z)) (uuid_string : str) : res (list Z) :=
  match uuid_parse uuid_string with
  | Some _ => Raise (UB NullDeref)
  | None => Ok (replicate 16 0)
  end.

(** What [new_uuid] makes cannot be converted back: a text that does parse is written through
    the null pointer. *)
Lemma to_array_of_new_uuid uuid_parse uuid_unparse uuid uuid_str :
  uuid_parse (uuid_unparse uuid) = Some uuid → new_uuid uuid_unparse uuid true = Ok uuid_str →
  to_array uuid_parse uuid_str = Raise (UB NullDeref).
Proof. unfold new_uuid, to_array. intros Hp. simpl. case_bool_decide; [|done]. intros [= <-]. by rewrite Hp. Qed.

Fixpoint compare_from (uuid : list Z) (uuid_string : str) : bool :=
  match uuid, uuid_string with
  | b :: uuid', c :: uuid_string' =>
      if bool_decide (u8 b ≠ schar_of c) then false else compare_from uuid' uuid_string'
  | _, _ => true
  end.
Definition compare (uuid : list Z) (uuid_string : str) : bool :=
  if bool_decide (length uuid_string ≠ 16%nat) then false else compare_from uuid uuid_string.

Lemma compare_from_spec uuid s :
  length uuid = length s → Forall (λ b, 0 <= b < 256) uuid →
  compare_from uuid s = true ↔ uuid = byte_of <$> s ∧ Forall (λ b, b < 128) uuid.
Proof.
  revert s. induction uuid as [|b uuid IH]; intros [|c s] Hlen Hu; simplify_eq/=; [done|].
  inversion Hu as [|? ? Hb Hu']; subst. specialize (IH s Hlen Hu').
  assert (u8 b = schar_of c ↔ b = byte_of c ∧ b < 128) as Hc.
  { rewrite wrapu_small by done. unfold schar_of, wraps. rewrite wrapu_small by apply byte_of_range.
    pose proof (byte_of_range c). case_bool_decide; lia. }
  case_bool_decide as Hne.
  - split; [done|]. intros [[= -> _] Hf]. inversion Hf; subst. exfalso. apply Hne, Hc. done.
  - apply Hc in Hne as [-> Hlt]. rewrite IH. split.
    + intros [-> Hf]. split; [done|]. by constructor.
    + intros [[= ->] Hf]. split; [done|]. by inversion Hf.
Qed.

(** A 16-byte UUID compares equal to a string exactly when the string holds its bytes
    and all of them are below 128: [char] is signed, so a larger byte never matches. *)
Theorem compare_spec uuid s :
  length uuid = 16%nat → Forall (λ b, 0 <= b < 256) uuid →
  compare uuid s = true ↔ uuid = byte_of <$> s ∧ Forall (λ b, b < 128) uuid.
Proof.
  intros Hlen Hu. unfold compare. case_bool_decide as Hs.
  - split; [done|]. intros [-> _]. by rewrite length_fmap in Hlen.
  - apply compare_from_spec; [congruence|done].
Qed.

Lemma compare_spec_witness :
  compare (replicate 16 200) (replicate 16 (char_of 200)) = true ↔
    replicate 16 200 = byte_of <$> replicate 16 (char_of 200) ∧ Forall (λ b, b < 128) (replicate 16 200).
Proof. apply (compare_spec (replicate 16 200)); [reflexivity|by_decide]. Defined.
