(* ===== verification/FileModel.v ===== *)
(** Files and their blocks ([file/models]): [DataBlock], [INode] and [FileNode].  A pointer
    to a block is [None] when it is null, as a moved-from pointer is. *)
From S2P Require Import Prelude CxxString.
Local Open Scope Z_scope.

(** ** Data blocks *)

(** Pointers to other blocks are addresses. *)
Record DataBlock := mkBlock {
  _block_index : Z; _block_size : Z; _block_hash : str; _next_block_ref : option Z; _prev_block_ref : option Z }.

Definition size (b : DataBlock) : Z := u32 (_block_size b).
Definition get_block_index (b : DataBlock) : Z := _block_index b.
Definition get_prev_block (b : DataBlock) : option Z := _prev_block_ref b.
Definition get_next_block (b : DataBlock) : option Z := _next_block_ref b.
Definition get_block_hash (b : DataBlock) : str := _block_hash b.

(** The class derives from [enable_shared_from_this] privately, and no [shared_ptr] owns the
    object while it is constructed: [shared_from_this] throws before the link is made. *)
Definition DataBlock_new (data : str) (block_size block_index : Z) (prev_block : option Z) : res DataBlock :=
  Raise BadWeakPtr.

(** [atomic_compare_exchange_strong(&_next_block_ref, &next_block, next_block)]: success, the
    new reference and the new value of [next_block]. *)
Definition compare_exchange (ref expected desired : option Z) : bool * option Z * option Z :=
  if bool_decide (ref = expected) then (true, desired, expected) else (false, ref, ref).

(** The loop of [set_next_block]; [None]: it needs more rounds than [fuel]. *)
Fixpoint set_next_block (fuel : nat) (ref next_block : option Z) : option (option Z) :=
  match fuel with
  | O => None
  | S fuel' =>
      let '(ok, ref, next_block) := compare_exchange ref next_block next_block in
      if ok : bool then Some ref else set_next_block fuel' ref next_block
  end.

Lemma set_next_block_keeps fuel ref next_block : (2 <= fuel)%nat → set_next_block fuel ref next_block = Some ref.
Proof.
  intros Hf. destruct fuel as [|[|fuel]]; [lia..|]. simpl. unfold compare_exchange.
  case_bool_decide as Hr; [by subst|]. simpl. by rewrite bool_decide_true.
Qed.

(** ** Directory entries *)

Module INode.
Inductive INodeType := kINodeTypeFile | kINodeTypeDirectory | kINodeTypeFileHardLink.
Definition INodeType_value (t : INodeType) : Z :=
  match t with kINodeTypeFile => 0 | kINodeTypeDirectory => 1 | kINodeTypeFileHardLink => 2 end.

Record INode := mkINode {
  size_ : Z; mtime_ : Z; ctime_ : Z; atime_ : Z; _name : str; _parent : option Z;
  _children : gmap str (option Z) }.

Definition is_root (n : INode) : bool := bool_decide (_parent n = None).

(** A node with a parent passes [shared_from_this()] on from its constructor, which throws. *)
Definition INode_new (parent : option Z) (name : str) (size mtime ctime atime : Z) : res INode :=
  let n := mkINode (wrapu 64 size) mtime ctime atime name parent ∅ in
  if negb (is_root n) then Raise BadWeakPtr else Ok n.

(** The keys of [_children] are views of strings that are gone when [add_child] returns: an
    entry is kept under the text it had, and comparing it with an equal path reads dead
    memory.  A path that is not there yet is added. *)
Definition add_child (path : str) (new_child : option Z) (n : INode) : res (bool * INode) :=
  match _children n !! path with
  | Some _ => Raise (UB UseAfterFree)
  | None =>
      Ok (true, mkINode (size_ n) (mtime_ n) (ctime_ n) (atime_ n) (_name n) (_parent n)
        (<[path := new_child]> (_children n)))
  end.

Lemma add_child_lookup path c n b n' p :
  add_child path c n = Ok (b, n') →
  b = true ∧ _children n' !! p = if bool_decide (p = path) then Some c else _children n !! p.
Proof.
  unfold add_child. destruct (_children n !! path) eqn:E; [done|]. intros [= <- <-]. split; [done|].
  case_bool_decide; subst; simpl; [apply lookup_insert_eq|by rewrite lookup_insert_ne].
Qed.
End INode.

(** ** Files *)

(** [_file_size] is not initialised: a new node starts with any value. *)
Record FileNode := mkFile { _file_size : Z; _versions : list str; _blocks : list (option DataBlock) }.

Definition FileNode_new (parent_node : option Z) : res FileNode := Raise BadWeakPtr.

Definition add_block (commit_id : str) (data_block : option DataBlock) (f : FileNode) : FileNode :=
  mkFile (_file_size f) (_versions f ++ [commit_id]) (_blocks f ++ [data_block]).

Definition add_blocks (commit_id : str) (data_blocks : list (option DataBlock)) (f : FileNode) : FileNode :=
  mkFile (_file_size f) (_versions f ++ [commit_id]) (_blocks f ++ data_blocks).

Definition replace_block (commit_id : str) (index : nat) (block : option DataBlock) (f : FileNode) : bool * FileNode :=
  if bool_decide (length (_blocks f) ≤ index)%nat then (false, f)
  else (true, mkFile (_file_size f) (_versions f ++ [commit_id]) (<[index := block]> (_blocks f))).

(** [block->size()] *)
Definition size_of (block : option DataBlock) : res Z := b ← deref (UB NullDeref) block; Ok (size b).
Definition block_at (blocks : list (option DataBlock)) (i : nat) : res (option DataBlock) :=
  deref (UB OutOfBounds) (blocks !! i).

(** One round of the loops: the size first grows by the new block, then shrinks by the old
    one, as unsigned 64-bit numbers. *)
Definition swap_block (i : nat) (block : option DataBlock) (st : Z * list (option DataBlock))
    : res (Z * list (option DataBlock)) :=
  let '(file_size, blocks) := st in
  n ← size_of block;
  let file_size := wrapu 64 (file_size + n) in
  old ← block_at blocks i;
  o ← size_of old;
  Ok (wrapu 64 (file_size - o), <[i := block]> blocks).

#[global] Arguments swap_block : simpl never.

Fixpoint replace_loop (block : list (nat * option DataBlock)) (st : Z * list (option DataBlock))
    : res (Z * list (option DataBlock)) :=
  match block with
  | [] => Ok st
  | (i, b) :: block' =>
      st ← (if bool_decide (0 < i)%nat || bool_decide (i ≤ length st.2)%nat then swap_block i b st else Ok st);
      replace_loop block' st
  end.

Definition replace_blocks (commit_id : str) (block : list (nat * option DataBlock)) (f : FileNode)
    : res (bool * FileNode) :=
  if forallb (λ b, bool_decide (b.1 < length (_blocks f))%nat) block then
    '(file_size, blocks) ← replace_loop block (_file_size f, _blocks f);
    Ok (true, mkFile file_size (_versions f ++ [commit_id]) blocks)
  else Ok (false, f).

(** The loop over [i] and [j]. *)
Fixpoint extend_loop (i : nat) (blocks : list (option DataBlock)) (st : Z * list (option DataBlock))
    : res (Z * list (option DataBlock)) :=
  match blocks with
  | [] => Ok st
  | b :: blocks' =>
      st ← (if bool_decide (i < length st.2)%nat then swap_block i b st
            else n ← size_of b; Ok (wrapu 64 (st.1 + n), st.2 ++ [b]));
      extend_loop (S i) blocks' st
  end.

Definition add_and_replace_block (commit_id : str) (index : nat) (blocks : list (option DataBlock)) (f : FileNode)
    : res (bool * FileNode) :=
  if bool_decide (length (_blocks f) ≤ index)%nat then Ok (false, f) else
  '(file_size, bs) ← extend_loop index blocks (_file_size f, _blocks f);
  Ok (true, mkFile file_size (_versions f ++ [commit_id]) bs).

(** ** Contents *)

Definition non_null (b : option DataBlock) : Prop := is_Some b.
(** The bytes a list of blocks holds. *)
Definition bytes (bs : list (option DataBlock)) : Z :=
  foldr (λ b n, match b with Some b => size b + n | None => n end) 0 bs.

Lemma bytes_app l1 l2 : bytes (l1 ++ l2) = bytes l1 + bytes l2.
Proof. induction l1 as [|[b|] l1 IH]; simpl; lia. Qed.

Lemma bytes_insert i bs o b :
  bs !! i = Some (Some o) → bytes (<[i := Some b]> bs) = bytes bs + size b - size o.
Proof.
  revert i. induction bs as [|[x|] bs IH]; intros [|i]; simpl; try done.
  - intros [= ->]. lia.
  - intros ->%IH. lia.
  - intros ->%IH. lia.
Qed.

(** What the stored size has over the bytes of the blocks. *)
Definition drift (file_size : Z) (bs : list (option DataBlock)) : Z := wrapu 64 (file_size - bytes bs).

Lemma swap_block_spec i b sz bs :
  Forall non_null bs → (i < length bs)%nat →
  ∃ sz', swap_block i (Some b) (sz, bs) = Ok (sz', <[i := Some b]> bs) ∧
    drift sz' (<[i := Some b]> bs) = drift sz bs ∧ Forall non_null (<[i := Some b]> bs).
Proof.
  intros Hnn Hi. destruct (lookup_lt_is_Some_2 bs i Hi) as [o Ho].
  assert (non_null o) as [o' ->] by (by eapply Forall_lookup_1).
  unfold swap_block, block_at. simpl. rewrite Ho. simpl. eexists. split; [done|]. split.
  - unfold drift. rewrite (bytes_insert _ _ _ _ Ho).
    change (wrapu 64 (wrapu 64 (wrapu 64 (sz + size b) - size o') - (bytes bs + size b - size o')) = wrapu 64 (sz - bytes bs)).
    rewrite wrapu_sub_l. rewrite <- Z.sub_add_distr, wrapu_sub_l. f_equal. lia.
  - apply Forall_insert; [done|by eexists].
Qed.

Lemma extend_loop_spec bs' i sz bs :
  Forall non_null bs → Forall non_null bs' → (i <= length bs)%nat →
  ∃ sz', extend_loop i bs' (sz, bs) = Ok (sz', take i bs ++ bs' ++ drop (i + length bs') bs) ∧
    drift sz' (take i bs ++ bs' ++ drop (i + length bs') bs) = drift sz bs.
Proof.
  revert i sz bs. induction bs' as [|b bs' IH]; intros i sz bs Hnn Hnn' Hi; simpl.
  { exists sz. rewrite Nat.add_0_r, take_drop. done. }
  inversion Hnn' as [|? ? [b' ->] Hnn'']; subst. case_bool_decide as Hlt.
  - destruct (swap_block_spec i b' sz bs Hnn Hlt) as (sz' & -> & Hd & Hn). simpl.
    destruct (IH (S i) sz' (<[i := Some b']> bs)) as (sz'' & -> & Hd'); [done|done|rewrite length_insert; lia|].
    exists sz''.
    assert (take (S i) (<[i := Some b']> bs) ++ bs' ++ drop (S i + length bs') (<[i := Some b']> bs) =
      take i bs ++ Some b' :: bs' ++ drop (i + S (length bs')) bs) as <-.
    { rewrite (take_S_r _ _ (Some b')) by (apply list_lookup_insert_eq; done). rewrite take_insert_ge by lia.
      rewrite drop_insert_lt by lia. rewrite <- app_assoc. by rewrite Nat.add_succ_r. }
    split; [done|]. by rewrite Hd'.
  - assert (i = length bs) as -> by lia. simpl.
    destruct (IH (S (length bs)) (wrapu 64 (sz + size b')) (bs ++ [Some b'])) as (sz'' & -> & Hd');
      [by apply Forall_app_2; [|repeat constructor; eexists]|done|length_lia|].
    exists sz''.
    assert (take (S (length bs)) (bs ++ [Some b']) ++ bs' ++ drop (S (length bs) + length bs') (bs ++ [Some b']) =
      take (length bs) bs ++ Some b' :: bs' ++ drop (length bs + S (length bs')) bs) as <-.
    { rewrite !take_ge by length_lia. rewrite !drop_ge by length_lia. by rewrite <- app_assoc. }
    split; [done|]. rewrite Hd'. unfold drift. rewrite bytes_app, wrapu_sub_l. simpl. f_equal. lia.
Qed.

(** C23: overwriting from a position inside the file, past its end if need be, answers [true]:
    the blocks before the position and after the new ones stay, the commit is recorded
    once, and the stored size moves by exactly the bytes gained; a position outside
    changes nothing and answers [false]. *)
Theorem add_and_replace_block_spec commit_id index blocks f :
  Forall non_null (_blocks f) → Forall non_null blocks →
  if bool_decide (index < length (_blocks f))%nat then
    ∃ f', add_and_replace_block commit_id index blocks f = Ok (true, f') ∧
      _blocks f' = take index (_blocks f) ++ blocks ++ drop (index + length blocks) (_blocks f) ∧
      _versions f' = _versions f ++ [commit_id] ∧
      drift (_file_size f') (_blocks f') = drift (_file_size f) (_blocks f)
  else add_and_replace_block commit_id index blocks f = Ok (false, f).
Proof.
  intros Hnn Hnn'. unfold add_and_replace_block. case_bool_decide; [rewrite bool_decide_false by lia|by rewrite bool_decide_true by lia].
  destruct (extend_loop_spec blocks index (_file_size f) (_blocks f) Hnn Hnn' ltac:(lia)) as (sz & -> & Hd). simpl.
  eexists. split; [done|]. done.
Qed.

Lemma replace_loop_spec block sz bs :
  Forall non_null bs → Forall (λ b, non_null b.2 ∧ (b.1 < length bs)%nat) block →
  ∃ sz', replace_loop block (sz, bs) = Ok (sz', foldl (λ bs b, <[b.1 := b.2]> bs) bs block) ∧
    drift sz' (foldl (λ bs b, <[b.1 := b.2]> bs) bs block) = drift sz bs.
Proof.
  revert sz bs. induction block as [|[i b] block IH]; intros sz bs Hnn Hb; simpl; [eauto|].
  inversion Hb as [|? ? [[b' Hb'] Hi] Hb'']; simpl in *; subst.
  assert (bool_decide (0 < i)%nat || bool_decide (i ≤ length bs)%nat = true) as ->
    by (apply orb_true_iff; right; apply bool_decide_eq_true; lia).
  destruct (swap_block_spec i b' sz bs Hnn Hi) as (sz' & -> & Hd & Hn). simpl.
  destruct (IH sz' (<[i := Some b']> bs)) as (sz'' & -> & Hd'); [done|by rewrite length_insert|].
  exists sz''. by rewrite Hd'.
Qed.

(** ** Sequences of operations *)

Inductive file_op :=
  | AddBlock (b : option DataBlock) | AddBlocks (bs : list (option DataBlock))
  | ReplaceBlock (i : nat) (b : option DataBlock) | ReplaceBlocks (bs : list (nat * option DataBlock))
  | AddAndReplace (i : nat) (bs : list (option DataBlock)).

Definition run_op (commit_id : str) (op : file_op) (f : FileNode) : res FileNode :=
  match op with
  | AddBlock b => Ok (add_block commit_id b f)
  | AddBlocks bs => Ok (add_blocks commit_id bs f)
  | ReplaceBlock i b => Ok (replace_block commit_id i b f).2
  | ReplaceBlocks bs => '(_, f) ← replace_blocks commit_id bs f; Ok f
  | AddAndReplace i bs => '(_, f) ← add_and_replace_block commit_id i bs f; Ok f
  end.

Definition op_blocks (op : file_op) : list (option DataBlock) :=
  match op with
  | AddBlock b | ReplaceBlock _ b => [b]
  | AddBlocks bs | AddAndReplace _ bs => bs
  | ReplaceBlocks bs => snd <$> bs
  end.

(** The bytes an operation adds without counting them. *)
Definition uncounted (op : file_op) (f : FileNode) : Z :=
  match op with
  | AddBlock b => bytes [b]
  | AddBlocks bs => bytes bs
  | ReplaceBlock i b =>
      match _blocks f !! i with Some old => bytes [b] - bytes [old] | None => 0 end
  | ReplaceBlocks _ | AddAndReplace _ _ => 0
  end.

(** C36: with non-null blocks no operation faults, and the stored size follows the bytes of
    the blocks only through [replace_block] of a vector and [add_and_replace_block]: what
    [add_block] appends and what a single [replace_block] exchanges is never counted. *)
Theorem file_size_accounting commit_id op f :
  Forall non_null (_blocks f) → Forall non_null (op_blocks op) →
  ∃ f', run_op commit_id op f = Ok f' ∧
    drift (_file_size f') (_blocks f') = wrapu 64 (drift (_file_size f) (_blocks f) - uncounted op f) ∧
    (_versions f' = _versions f ++ [commit_id] ∨ f' = f).
Proof.
  intros Hnn Hop. assert (∀ x, wrapu 64 (drift (_file_size f) (_blocks f) - x) = wrapu 64 (_file_size f - (bytes (_blocks f) + x))) as Hd
    by (intros; unfold drift; rewrite wrapu_sub_l; f_equal; lia).
  destruct op as [b|bs|i b|bs|i bs]; simpl in *.
  - eexists. split; [done|]. split; [|by left]. rewrite Hd. unfold drift. simpl. by rewrite bytes_app.
  - eexists. split; [done|]. split; [|by left]. rewrite Hd. unfold drift. simpl. by rewrite bytes_app.
  - eexists. split; [done|]. unfold replace_block. case_bool_decide as Hi; simpl.
    + split; [|by right]. rewrite (lookup_ge_None_2 (_blocks f) i) by lia. rewrite Hd. unfold drift. f_equal. lia.
    + split; [|by left]. destruct (lookup_lt_is_Some_2 (_blocks f) i ltac:(lia)) as [o Ho]. rewrite Ho, Hd.
      assert (non_null o) as [o' ->] by (exact (Forall_lookup_1 _ _ _ _ Hnn Ho)). inversion Hop as [|? ? [b' ->] _]; subst.
      unfold drift. rewrite (bytes_insert _ _ _ _ Ho). simpl. f_equal. lia.
  - unfold replace_blocks. destruct (forallb _ bs) eqn:E.
    + destruct (replace_loop_spec bs (_file_size f) (_blocks f) Hnn) as (sz & -> & Hdr).
      { apply Forall_forall. intros x Hx. split.
        - rewrite Forall_forall in Hop. apply Hop. by apply list_elem_of_fmap_2.
        - apply list_elem_of_In in Hx. apply (proj1 (forallb_forall _ _) E) in Hx. by apply bool_decide_eq_true in Hx. }
      simpl. eexists. split; [done|]. split; [|by left]. simpl. rewrite Hdr, Hd. unfold drift. f_equal. lia.
    + simpl. eexists. split; [done|]. split; [|by right]. rewrite Hd. unfold drift. f_equal. lia.
  - unfold add_and_replace_block. case_bool_decide as Hi; simpl.
    + eexists. split; [done|]. split; [|by right]. rewrite Hd. unfold drift. f_equal. lia.
    + destruct (extend_loop_spec bs i (_file_size f) (_blocks f) Hnn Hop ltac:(lia)) as (sz & -> & Hdr). simpl.
      eexists. split; [done|]. split; [|by left]. simpl. rewrite Hdr, Hd. unfold drift. f_equal. lia.
Qed.

Definition toy_block (n : Z) : option DataBlock := Some (mkBlock 0 n [] None None).

Lemma add_and_replace_block_spec_witness :
  ∃ f', add_and_replace_block $"c1" 1 [toy_block 5; toy_block 6] (mkFile 30 [] [toy_block 10; toy_block 20]) = Ok (true, f') ∧
    _blocks f' = [toy_block 10; toy_block 5; toy_block 6] ∧ _versions f' = [$"c1"] ∧ drift (_file_size f') (_blocks f') = 0.
Proof.
  exact (add_and_replace_block_spec $"c1" 1 [toy_block 5; toy_block 6] (mkFile 30 [] [toy_block 10; toy_block 20])
    ltac:(repeat constructor; by eexists) ltac:(repeat constructor; by eexists)).
Defined.

Lemma file_size_accounting_witness :
  ∃ f', run_op $"c1" (AddBlock (toy_block 5)) (mkFile 30 [] [toy_block 30]) = Ok f' ∧
    drift (_file_size f') (_blocks f') = wrapu 64 (0 - 5) ∧ (_versions f' = [$"c1"] ∨ f' = mkFile 30 [] [toy_block 30]).
Proof.
  exact (file_size_accounting $"c1" (AddBlock (toy_block 5)) (mkFile 30 [] [toy_block 30])
    ltac:(repeat constructor; by eexists) ltac:(repeat constructor; by eexists)).
Defined.
