(* ===== verification/ThreadPool.v ===== *)
(** The thread pool ([utils/data_struct/thread_pool.h], class [ThreadPool]) as a step
    relation: a step is what one thread does between two points where another can come
    in between. *)
From S2P Require Import Prelude.

Section thread_pool.
Context {T : Type}.

(** ** State *)

(** Where a worker is in [ThreadWorker::operator()]. *)
Inductive worker :=
  | Loop                        (** at the [while] condition *)
  | Check                       (** before [_task_queue.empty()], under [_mutex] *)
  | AboutToWait                 (** saw the queue empty, still holding [_mutex] *)
  | Waiting                     (** in [m_conditional_lock.wait] *)
  | Fetch                       (** before the shared lock *)
  | Shared                      (** holds the shared lock, saw a task *)
  | Moved (task : option T)     (** moved the front out, before [pop] *)
  | Running (task : option T)   (** released the lock, before [task()] *)
  | Stopped.

(** [_task_queue] holds functions; [None] is one that was moved from.  [submitted] and
    [executed] record the tasks in order; [notifies] counts [notify_one] calls to come;
    [crashed] is set by [pop] of an empty queue and by the call of an empty function. *)
Record pool := mkPool {
  _running_flag : bool; _worker_pool : list worker; _task_queue : list (option T);
  submitted : list T; executed : list T; notifies : nat; crashed : bool }.

Definition ThreadPool_new (thread_size : nat) : pool :=
  mkPool true (replicate thread_size Loop) [] [] [] 0 false.

Definition pool_size (p : pool) : nat := length (_worker_pool p).

Definition holds_shared (w : worker) : bool := match w with Shared | Moved _ => true | _ => false end.
Definition holds_mutex (w : worker) : bool := match w with AboutToWait => true | _ => false end.

Definition set_worker (i : nat) (w : worker) (p : pool) : pool :=
  mkPool (_running_flag p) (<[i := w]> (_worker_pool p)) (_task_queue p) (submitted p) (executed p) (notifies p) (crashed p).
Definition set_queue (q : list (option T)) (p : pool) : pool :=
  mkPool (_running_flag p) (_worker_pool p) q (submitted p) (executed p) (notifies p) (crashed p).
Definition crash (p : pool) : pool :=
  mkPool (_running_flag p) (_worker_pool p) (_task_queue p) (submitted p) (executed p) (notifies p) true.

(** ** One worker *)

(** What worker [i] does next; [None]: it is blocked. *)
Definition worker_step (i : nat) (p : pool) : option pool :=
  w ← _worker_pool p !! i;
  match w with
  | Loop => Some (set_worker i (if _running_flag p then Check else Stopped) p)
  | Check =>
      if existsb holds_mutex (_worker_pool p) then None else
      Some (set_worker i (match _task_queue p with [] => AboutToWait | _ => Fetch end) p)
  | AboutToWait => Some (set_worker i Waiting p)
  | Waiting | Stopped => None
  | Fetch => Some (set_worker i (match _task_queue p with [] => Loop | _ => Shared end) p)
  | Shared =>
      match _task_queue p with
      | x :: q => Some (set_worker i (Moved x) (set_queue (None :: q) p))
      | [] => Some (crash p)
      end
  | Moved x =>
      match _task_queue p with
      | _ :: q => Some (set_worker i (Running x) (set_queue q p))
      | [] => Some (crash p)
      end
  | Running (Some t) =>
      Some (mkPool (_running_flag p) (<[i := Loop]> (_worker_pool p)) (_task_queue p) (submitted p)
        (executed p ++ [t]) (notifies p) (crashed p))
  | Running None => Some (crash p)
  end.

(** [submit] pushes under the exclusive lock and notifies after releasing it. *)
Definition submit (t : T) (p : pool) : option pool :=
  if existsb holds_shared (_worker_pool p) then None else
  Some (mkPool (_running_flag p) (_worker_pool p) (_task_queue p ++ [Some t]) (submitted p ++ [t]) (executed p)
    (S (notifies p)) (crashed p)).

(** ** Steps *)

Inductive pool_step : pool → pool → Prop :=
  | step_worker i p p' : crashed p = false → worker_step i p = Some p' → pool_step p p'
  | step_submit t p p' : crashed p = false → submit t p = Some p' → pool_step p p'
  | step_wake i p :                                 (** notified, or a spurious wake-up *)
      crashed p = false → _worker_pool p !! i = Some Waiting → pool_step p (set_worker i Fetch p)
  | step_notified i p n :                           (** [notify_one] picks a waiting worker *)
      crashed p = false → notifies p = S n → _worker_pool p !! i = Some Waiting →
      pool_step p (mkPool (_running_flag p) (<[i := Fetch]> (_worker_pool p)) (_task_queue p) (submitted p) (executed p) n (crashed p))
  | step_notify_nobody p n :                        (** or finds none *)
      crashed p = false → notifies p = S n → Forall (λ w, w ≠ Waiting) (_worker_pool p) →
      pool_step p (mkPool (_running_flag p) (_worker_pool p) (_task_queue p) (submitted p) (executed p) n (crashed p))
  | step_stop p :                                   (** the destructor, before [join] *)
      crashed p = false →
      pool_step p (mkPool false ((λ w, match w with Waiting => Fetch | _ => w end) <$> _worker_pool p)
        (_task_queue p) (submitted p) (executed p) (notifies p) (crashed p)).

Inductive reachable (n : nat) : pool → Prop :=
  | reachable_new : reachable n (ThreadPool_new n)
  | reachable_step p p' : reachable n p → pool_step p p' → reachable n p'.

(** ** One worker is enough for order *)

(** The single worker's share of the tasks not executed yet, and what the queue holds. *)
Definition single_inv (p : pool) : Prop :=
  crashed p = false ∧ ∃ w rest, _worker_pool p = [w] ∧
    match w with
    | Moved x => ∃ t, x = Some t ∧ _task_queue p = None :: (Some <$> rest) ∧ submitted p = executed p ++ t :: rest
    | Running x => ∃ t, x = Some t ∧ _task_queue p = Some <$> rest ∧ submitted p = executed p ++ t :: rest
    | Shared => rest ≠ [] ∧ _task_queue p = Some <$> rest ∧ submitted p = executed p ++ rest
    | _ => _task_queue p = Some <$> rest ∧ submitted p = executed p ++ rest
    end.

Lemma single_inv_idle p w rest :
  crashed p = false → _worker_pool p = [w] → w ∈ [Loop; Check; AboutToWait; Waiting; Fetch; Stopped] →
  _task_queue p = Some <$> rest → submitted p = executed p ++ rest → single_inv p.
Proof.
  intros Hc Hw Hin Hq Hs. split; [done|]. exists w, rest. split; [done|].
  rewrite !elem_of_cons in Hin. destruct_or! Hin; subst; try done. by apply not_elem_of_nil in Hin.
Qed.

Lemma single_inv_worker_step i p p' : single_inv p → worker_step i p = Some p' → single_inv p'.
Proof.
  destruct p as [flag ws q sub ex nt cr]. intros (Hc & w & rest & Hw & Hinv) Hs. simpl in *. subst.
  unfold worker_step in Hs. simpl in Hs. destruct i as [|i]; [|done]. simpl in Hs.
  destruct w as [| | | | | |x|x|]; try done.
  - injection Hs as <-. destruct Hinv as [-> ->].
    by eapply (single_inv_idle _ (if flag then Check else Stopped) rest); [..|destruct flag; set_solver| |].
  - injection Hs as <-. destruct Hinv as [-> ->].
    by eapply (single_inv_idle _ (match Some <$> rest with [] => AboutToWait | _ => Fetch end) rest);
      [..|destruct rest; set_solver| |].
  - injection Hs as <-. destruct Hinv as [-> ->]. by eapply (single_inv_idle _ Waiting rest); [..|set_solver| |].
  - injection Hs as <-. destruct Hinv as [-> ->]. destruct rest as [|t rest]; simpl.
    + by eapply (single_inv_idle _ Loop []); [..|set_solver| |].
    + split; [done|]. by exists Shared, (t :: rest).
  - destruct Hinv as (Hne & -> & ->). destruct rest as [|t rest]; [done|]. injection Hs as <-.
    split; [done|]. exists (Moved (Some t)), rest. split; [done|]. by exists t.
  - destruct Hinv as (t & -> & -> & ->). injection Hs as <-.
    split; [done|]. exists (Running (Some t)), rest. split; [done|]. by exists t.
  - destruct Hinv as (t & -> & -> & ->). injection Hs as <-.
    eapply (single_inv_idle _ Loop rest); [done..|set_solver|done|by simpl; rewrite <- app_assoc].
Qed.

Lemma single_inv_submit t p p' : single_inv p → submit t p = Some p' → single_inv p'.
Proof.
  destruct p as [flag ws q sub ex nt cr]. intros (Hc & w & rest & Hw & Hinv) Hs. simpl in *. subst.
  unfold submit in Hs. simpl in Hs.
  destruct w as [| | | | | |x|x|]; try done; injection Hs as <-; split; try done;
    eexists _, (rest ++ [t]); (split; [done|]); simpl.
  all: first [destruct Hinv as (t' & -> & -> & ->); exists t' | destruct Hinv as [-> ->]];
    by rewrite fmap_app, <- ?app_assoc.
Qed.

Lemma single_inv_step p p' : single_inv p → pool_step p p' → single_inv p'.
Proof.
  intros Hinv Hs. destruct Hs as [i p p' _ Hs|t p p' _ Hs|i p _ Hi|i p n _ Hn Hi|p n _ Hn Hf|p _].
  - by eapply single_inv_worker_step.
  - by eapply single_inv_submit.
  - destruct p, Hinv as (Hc & w & rest & Hw & Hinv); simpl in *; subst. destruct i as [|]; [|done].
    injection Hi as ->. destruct Hinv as [-> ->]. by eapply (single_inv_idle _ Fetch rest); [..|set_solver| |].
  - destruct p, Hinv as (Hc & w & rest & Hw & Hinv); simpl in *; subst. destruct i as [|]; [|done].
    injection Hi as ->. destruct Hinv as [-> ->]. by eapply (single_inv_idle _ Fetch rest); [..|set_solver| |].
  - destruct Hinv as (Hc & w & rest & Hw & Hinv). split; [done|]. by exists w, rest.
  - destruct p, Hinv as (Hc & w & rest & Hw & Hinv); simpl in *; subst. split; [done|].
    exists (match w with Waiting => Fetch | _ => w end), rest. split; [done|]. by destruct w.
Qed.

Lemma single_inv_reachable p : reachable 1 p → single_inv p.
Proof.
  induction 1 as [|p p' _ IH Hs]; [|by eapply single_inv_step].
  apply (single_inv_idle _ Loop []); simpl; [done|done|set_solver|done|done].
Qed.

(** A pool of one worker never crashes and executes the submitted tasks in the order of
    submission, each at most once: at any time the tasks executed are a prefix of those
    submitted. *)
Lemma single_worker_fifo p :
  reachable 1 p → crashed p = false ∧ ∃ pending, submitted p = executed p ++ pending.
Proof.
  intros (Hc & w & rest & Hw & Hinv)%single_inv_reachable. split; [done|].
  destruct w as [| | | | | |x|x|]; destruct Hinv as [? Hinv]; try (by exists rest).
  - destruct Hinv as [_ ->]. by exists rest.
  - destruct Hinv as (_ & _ & ->). by eexists.
  - destruct Hinv as (_ & _ & ->). by eexists.
Qed.

(** ** An awake worker drains the queue *)

(** The worker steps in the order given. *)
Fixpoint run_workers (ids : list nat) (p : pool) : option pool :=
  match ids with
  | [] => Some p
  | i :: ids' => if crashed p then None else p ← worker_step i p; run_workers ids' p
  end.

Lemma run_workers_app ids ids' p p' p'' :
  run_workers ids p = Some p' → run_workers ids' p' = Some p'' → run_workers (ids ++ ids') p = Some p''.
Proof.
  revert p. induction ids as [|i ids IH]; intros p; simpl; [by intros [= ->]|].
  destruct (crashed p); [done|]. destruct (worker_step i p) as [p1|]; [|done]. apply IH.
Qed.

(** Not waiting and not about to. *)
Definition awake (w : worker) : bool := match w with AboutToWait | Waiting | Stopped => false | _ => true end.

(** One round of the loop of [operator()] on a queue that is not empty. *)
Lemma drain_loop rest sub ex nt :
  run_workers (replicate (6 * length rest) 0) (mkPool true [Loop] (Some <$> rest) sub ex nt false) =
    Some (mkPool true [Loop] [] sub (ex ++ rest) nt false).
Proof.
  revert ex. induction rest as [|t rest IH]; intros ex; [by rewrite app_nil_r|].
  replace (6 * length (t :: rest)) with (6 + 6 * length rest) by (simpl; lia). rewrite replicate_add.
  eapply run_workers_app; [reflexivity|]. cbn. rewrite IH. by rewrite <- app_assoc.
Qed.

Lemma drain_from n rest p ex sub nt :
  run_workers (replicate n 0) p = Some (mkPool true [Loop] (Some <$> rest) sub ex nt false) → sub = ex ++ rest →
  ∃ k p', run_workers (replicate k 0) p = Some p' ∧ executed p' = sub ∧ submitted p' = sub ∧ _task_queue p' = [].
Proof.
  intros Hn ->. exists (n + 6 * length rest), (mkPool true [Loop] [] (ex ++ rest) (ex ++ rest) nt false).
  split; [|done]. rewrite replicate_add. eapply run_workers_app; [exact Hn|]. apply drain_loop.
Qed.

(** C25: a single worker that is awake executes everything that was submitted, in order and
    without help from outside: while the pool runs, some number of its own steps leads to
    a state where all submitted tasks are executed and the queue is empty. *)
Theorem awake_worker_drains p w :
  reachable 1 p → _running_flag p = true → _worker_pool p !! 0 = Some w → awake w = true →
  ∃ k p', run_workers (replicate k 0) p = Some p' ∧ executed p' = submitted p ∧ submitted p' = submitted p ∧
    _task_queue p' = [].
Proof.
  intros Hr Hflag Hw Ha. apply single_inv_reachable in Hr. destruct p as [flag ws q sub ex nt cr].
  destruct Hr as (Hc & w' & rest & Hws & Hinv). simpl in *. subst. injection Hw as ->.
  destruct w as [| | | | | |x|x|]; try done.
  - destruct Hinv as [-> ->]. by eapply (drain_from 0 rest).
  - destruct Hinv as [-> ->]. destruct rest as [|t rest]; [exists 0; eexists; split; [done|]; by rewrite app_nil_r|].
    by eapply (drain_from 5 rest); [|rewrite <- app_assoc].
  - destruct Hinv as [-> ->]. destruct rest as [|t rest]; [by eapply (drain_from 1 [])|].
    by eapply (drain_from 4 rest); [|rewrite <- app_assoc].
  - destruct Hinv as (Hne & -> & ->). destruct rest as [|t rest]; [done|].
    by eapply (drain_from 3 rest); [|rewrite <- app_assoc].
  - destruct Hinv as (t & -> & -> & ->). by eapply (drain_from 2 rest); [|rewrite <- app_assoc].
  - destruct Hinv as (t & -> & -> & ->). by eapply (drain_from 1 rest); [|rewrite <- app_assoc].
Qed.

(** ** Workers stay where they are *)

Lemma worker_step_length i p p' : worker_step i p = Some p' → length (_worker_pool p') = length (_worker_pool p).
Proof.
  destruct p as [flag ws q sub ex nt cr]. unfold worker_step. simpl. destruct (ws !! i) as [[| | | | | |x|[t|]|]|]; try done; simpl.
  all: repeat case_match; try done; intros [= <-]; simpl; by rewrite ?length_insert.
Qed.

Lemma reachable_length n p : reachable n p → length (_worker_pool p) = n.
Proof.
  induction 1 as [|p p' _ IH Hs]; [apply length_replicate|]. rewrite <- IH.
  destruct Hs as [i p p' _ Hs|t p p' _ Hs|i p _ Hi|i p k _ Hn Hi|p k _ Hn Hf|p _]; simpl; rewrite ?length_insert, ?length_fmap; try done.
  - by eapply worker_step_length.
  - unfold submit in Hs. destruct (existsb _ _); [done|]. by injection Hs as <-.
Qed.

(** A worker that runs a task goes on with nothing else before the task is executed. *)
Lemma running_stays i t p p' :
  pool_step p p' → executed p' = executed p → _worker_pool p !! i = Some (Running (Some t)) →
  _worker_pool p' !! i = Some (Running (Some t)).
Proof.
  intros Hs He Hi. destruct Hs as [j p p' _ Hs|t' p p' _ Hs|j p _ Hj|j p k _ Hn Hj|p k _ Hn Hf|p _]; simpl in *.
  - destruct (decide (j = i)) as [->|].
    + unfold worker_step in Hs. rewrite Hi in Hs. injection Hs as <-. simpl in He.
      apply (f_equal length) in He. rewrite length_app in He. simpl in He. lia.
    + destruct p as [flag ws q sub ex nt cr]. unfold worker_step in Hs. simpl in *.
      destruct (ws !! j) as [[| | | | | |x|[t'|]|]|]; try done; simpl in Hs;
        repeat (case_match; try done); injection Hs as <-; simpl; by rewrite ?list_lookup_insert_ne.
  - unfold submit in Hs. destruct (existsb _ _); [done|]. by injection Hs as <-.
  - rewrite list_lookup_insert_ne; [done|]. intros ->. congruence.
  - rewrite list_lookup_insert_ne; [done|]. intros ->. congruence.
  - done.
  - by rewrite list_lookup_fmap, Hi.
Qed.

(** ** No task runs twice *)

(** The tasks a worker holds, and those in the queue. *)
Definition held (w : worker) : list T := match w with Moved (Some t) | Running (Some t) => [t] | _ => [] end.
Definition queued (q : list (option T)) : list T := omap id q.
Definition tasks_of (p : pool) : list T := executed p ++ (_worker_pool p ≫= held) ++ queued (_task_queue p).

Lemma held_insert i w w' (ws : list worker) :
  ws !! i = Some w → ∃ rest, ws ≫= held ≡ₚ held w ++ rest ∧ <[i:=w']> ws ≫= held ≡ₚ held w' ++ rest.
Proof.
  intros Hi. exists ((take i ws ++ drop (S i) ws) ≫= held).
  rewrite insert_take_drop by (by eapply lookup_lt_Some). rewrite <- (take_drop_middle ws i w Hi) at 1.
  rewrite !bind_app, !bind_cons. split; solve_Permutation.
Qed.

(** A worker that moves on takes what it holds from the queue, or has executed it. *)
Lemma account_worker i w w' p q ex :
  _worker_pool p !! i = Some w → ex ++ held w' ++ queued q ⊆+ executed p ++ held w ++ queued (_task_queue p) →
  ex ++ (<[i := w']> (_worker_pool p) ≫= held) ++ queued q ⊆+ tasks_of p.
Proof.
  intros (rest & Hw & Hw')%(held_insert _ _ w') Hs. unfold tasks_of. rewrite Hw, Hw'.
  trans (rest ++ (ex ++ held w' ++ queued q)); [apply Permutation_submseteq; solve_Permutation|].
  trans (rest ++ (executed p ++ held w ++ queued (_task_queue p))); [by apply submseteq_skips_l|].
  apply Permutation_submseteq. solve_Permutation.
Qed.

Lemma worker_step_account i p p' :
  worker_step i p = Some p' → submitted p' = submitted p ∧ tasks_of p' ⊆+ tasks_of p.
Proof.
  destruct p as [flag ws q sub ex nt cr]. unfold worker_step. simpl. destruct (ws !! i) as [w|] eqn:Ew; [|done]. simpl.
  pose proof (λ w' q' ex', account_worker i w w' (mkPool flag ws q sub ex nt cr) q' ex' Ew) as Ha. simpl in Ha.
  destruct w as [| | | | | |x|x|]; intros Hs; try done.
  - injection Hs as <-. split; [done|]. apply Ha. by destruct flag.
  - destruct (existsb _ _); [done|]. injection Hs as <-. split; [done|]. apply Ha. by destruct q.
  - injection Hs as <-. split; [done|]. by apply Ha.
  - injection Hs as <-. split; [done|]. apply Ha. by destruct q.
  - destruct q as [|x q]; injection Hs as <-; (split; [done|]); [done|]. apply Ha. by destruct x.
  - destruct q as [|y q]; injection Hs as <-; (split; [done|]); [done|]. apply Ha.
    destruct x; simpl; apply submseteq_skips_l; destruct y; simpl; repeat constructor; done.
  - destruct x as [t|]; injection Hs as <-; (split; [done|]); [|done]. apply Ha. simpl. by rewrite <- app_assoc.
Qed.

(** Whatever the number of workers, the tasks executed, held and queued are among those
    submitted, each as often: no task runs twice. *)
Lemma tasks_of_submitted n p : reachable n p → tasks_of p ⊆+ submitted p.
Proof.
  induction 1 as [|p p' _ IH Hs].
  { unfold tasks_of. simpl. rewrite app_nil_r. induction n as [|n IHn]; simpl; [done|exact IHn]. }
  destruct Hs as [i p p' _ Hs|t p p' _ Hs|i p _ Hi|i p k _ Hn Hi|p k _ Hn Hf|p _].
  - destruct (worker_step_account _ _ _ Hs) as [-> ?]. by etrans.
  - unfold submit in Hs. destruct (existsb _ _); [done|]. injection Hs as <-. unfold tasks_of, queued in *. simpl.
    rewrite omap_app. simpl. rewrite !app_assoc. apply submseteq_skips_r. by rewrite <- app_assoc.
  - etrans; [|exact IH]. by apply (account_worker i Waiting Fetch p (_task_queue p)).
  - etrans; [|exact IH]. by apply (account_worker i Waiting Fetch p (_task_queue p)).
  - exact IH.
  - etrans; [|exact IH]. unfold tasks_of. simpl. do 2 (apply submseteq_skips_l || apply submseteq_skips_r).
    apply Permutation_submseteq, reflexive_eq. generalize (_worker_pool p). intros ws.
    induction ws as [|w ws IHw]; [done|]. rewrite fmap_cons, !bind_cons, IHw. by destruct w.
Qed.

(** A task a worker runs was submitted. *)
Lemma running_submitted n p i t :
  reachable n p → _worker_pool p !! i = Some (Running (Some t)) → t ∈ submitted p.
Proof.
  intros Hr%tasks_of_submitted Hi. eapply elem_of_submseteq; [|exact Hr].
  unfold tasks_of. apply elem_of_app. right. apply elem_of_app. left. apply list_elem_of_bind.
  exists (Running (Some t)). split; [by left|]. by eapply list_elem_of_lookup_2.
Qed.

(** ** Two workers are not *)

Lemma run_workers_reachable n ids p p' : reachable n p → run_workers ids p = Some p' → reachable n p'.
Proof.
  revert p. induction ids as [|i ids IH]; intros p Hr; simpl; [by intros [= <-]|].
  destruct (crashed p) eqn:Ec; [done|]. destruct (worker_step i p) as [p1|] eqn:E; [|done]. simpl.
  apply IH. eapply reachable_step; [done|by eapply step_worker].
Qed.

Lemma submit_reachable n t p p' : reachable n p → crashed p = false → submit t p = Some p' → reachable n p'.
Proof. intros Hr Hc Hs. eapply reachable_step; [done|by eapply step_submit]. Qed.

(** C37: workers take tasks under a shared lock, so with two of them a task can be lost: after
    two submissions both workers see the queue filled, the second one moves out the
    function the first has already moved out, and both pop.  The queue is then empty, one
    worker runs the first task, the other calls an empty function, and the second task was
    never executed. *)
Theorem two_workers_lose_a_task (a b : T) :
  ∃ p, reachable 2 p ∧ submitted p = [a; b] ∧ _task_queue p = [] ∧
    _worker_pool p = [Running (Some a); Running None] ∧ executed p = [] ∧ crashed p = false.
Proof.
  eexists. split.
  - eapply (run_workers_reachable 2 [0; 0; 0; 1; 1; 1; 0; 1; 0; 1]).
    + eapply submit_reachable; [eapply (submit_reachable 2 a (ThreadPool_new 2)); [constructor|done|reflexivity]|done|].
      reflexivity.
    + reflexivity.
  - done.
Qed.

(** C38: a wake-up can be lost: neither [submit] nor the destructor holds [_mutex] when it
    notifies, so when a worker has seen the queue empty but does not wait yet, the
    notification reaches nobody.  Then the worker waits although a task is queued, or
    although the pool is being destroyed, in which case the destructor's [join] never
    returns; no worker can make a step. *)
Theorem wakeup_can_be_lost (a : T) :
  (∃ p, reachable 1 p ∧ _task_queue p = [Some a] ∧ executed p = [] ∧ notifies p = 0 ∧
    _running_flag p = true ∧ ∀ i, worker_step i p = None) ∧
  (∃ p, reachable 1 p ∧ _running_flag p = false ∧ notifies p = 0 ∧ Stopped ∉ _worker_pool p ∧
    ∀ i, worker_step i p = None).
Proof.
  assert (reachable 1 (mkPool true [AboutToWait] [] [] [] 0 false)) as Habout
    by (apply (run_workers_reachable 1 [0; 0] (ThreadPool_new 1)); [constructor|done]).
  split; [exists (mkPool true [Waiting] [Some a] [a] [] 0 false)|exists (mkPool false [Waiting] [] [] [] 0 false)].
  - split; [|split_and!; try done; intros [|i]; done].
    apply (run_workers_reachable 1 [0] (mkPool true [AboutToWait] [Some a] [a] [] 0 false)); [|done].
    apply (reachable_step 1 (mkPool true [AboutToWait] [Some a] [a] [] 1 false)); [|by constructor; repeat constructor].
    by apply (submit_reachable 1 a (mkPool true [AboutToWait] [] [] [] 0 false)).
  - split; [|split_and!; try done; [set_solver|intros [|i]; done]].
    apply (run_workers_reachable 1 [0] (mkPool false [AboutToWait] [] [] [] 0 false)); [|done].
    eapply reachable_step; [exact Habout|]. exact (step_stop (mkPool true [AboutToWait] [] [] [] 0 false) eq_refl).
Qed.
End thread_pool.

(** A task is queued while the worker is on its way. *)
Lemma awake_worker_drains_witness :
  ∃ k (p' : pool (T := N)), run_workers (replicate k 0) (mkPool true [Check] [Some 7%N] [7%N] [] 1 false) = Some p' ∧
    executed p' = [7%N] ∧ _task_queue p' = [].
Proof.
  assert (reachable 1 (mkPool true [Check] [Some 7%N] [7%N] [] 1 false)) as Hr.
  { apply (run_workers_reachable 1 [0] (mkPool true [Loop] [Some 7%N] [7%N] [] 1 false)); [|done].
    by apply (submit_reachable 1 7%N (ThreadPool_new 1)); [constructor| |]. }
  destruct (awake_worker_drains _ _ Hr eq_refl eq_refl eq_refl) as (k & p' & Hrun & He & _ & Hq).
  exists k, p'. split; [exact Hrun|]. split; [exact He|exact Hq].
Defined.
