(* ===== verification/CasQueue.v ===== *)
(** The lock-free queue ([utils/data_struct/cas_queue.h], class [CASQueue<T>]).  [_tail] is
    declared as a reference to [_head], so both are one pointer.  The operations are given
    twice: as the atomic steps of any number of threads on a heap of nodes, and, for one
    thread, as functions on the chain of nodes, which the steps refine. *)
From S2P Require Import Prelude.

Section cas_queue.
Context {T : Type}.

(** The data of the nodes from [_head] on; the empty list is the null pointer.  The
    reference counts that [next()] increments are never read. *)
Abbreviation chain := (list T).

Definition CASQueue_new : chain := [].
(** [_head == _tail] compares the pointer with itself. *)
Definition empty (q : chain) : bool := true.

(** How a round of a retry loop ends. *)
Inductive outcome (A : Type) := Return (a : A) (q : chain) | Retry (q : chain).
Arguments Return {_} _ _.
Arguments Retry {_} _.

(** One round of [push]: the new node is linked behind the tail when the tail has no
    successor; otherwise the tail, which is the head, moves to the successor. *)
Definition push_round (data : T) (q : chain) : res (outcome ()) :=
  match q with
  | [] => Raise (UB NullDeref)
  | [x] => Ok (Return () [x; data])
  | _ :: q' => Ok (Retry q')
  end.

(** One round of [pop]: head and tail are equal, so the tail moves on. *)
Definition pop_round (q : chain) : res (outcome (option T)) :=
  match q with
  | [] => Raise (UB NullDeref)
  | _ :: q' => Ok (Retry q')
  end.

Fixpoint retry {A} (fuel : nat) (round : chain → res (outcome A)) (q : chain) : option (res (A * chain)) :=
  match fuel with
  | O => None
  | S fuel' =>
      match round q with
      | Raise e => Some (Raise e)
      | Ok (Return a q') => Some (Ok (a, q'))
      | Ok (Retry q') => retry fuel' round q'
      end
  end.

Definition push (fuel : nat) (data : T) (q : chain) : option (res (() * chain)) := retry fuel (push_round data) q.
Definition pop (fuel : nat) (q : chain) : option (res (option T * chain)) := retry fuel pop_round q.

(** The functions end within one round per node and one more. *)
Lemma pop_faults fuel q : length q < fuel → pop fuel q = Some (Raise (UB NullDeref)).
Proof.
  unfold pop. revert fuel. induction q as [|x q IH]; intros [|fuel] Hf; simpl in *; try lia; [done|]. apply IH. lia.
Qed.

Lemma push_keeps_last fuel data q :
  length q < fuel →
  push fuel data q = match last q with
                     | Some x => Some (Ok ((), [x; data]))
                     | None => Some (Raise (UB NullDeref))
                     end.
Proof.
  unfold push. revert fuel. induction q as [|x [|y q] IH]; intros [|fuel] Hf; simpl in *; try lia; [done..|]. apply IH. lia.
Qed.

(** ** Atomic steps *)

(** The shared memory: the pointer, the live nodes with their data and successor, and the
    address of the next allocation.  The reference counts that [next()] increments are
    never read. *)
Record memory := mkMemory { _head : option N; nodes : gmap N (T * option N); fresh : N }.

Definition new_memory : memory := mkMemory None ∅ 0.

(** The next atomic access of a thread, with its local variables; [node] is the node a
    [push] has allocated. *)
Inductive pc :=
  | PushTail (node : N)                                              (** [tail = _tail.load()] *)
  | PushNext (node : N) (tail : option N)                            (** [_tail.load()], to be followed *)
  | PushNextOf (node : N) (tail p : option N)                        (** [->next().load()] *)
  | PushSame (node : N) (tail next : option N)                       (** [tail == _tail.load()] *)
  | PushLink (node : N) (tail : option N)                            (** [_tail.load()], to be followed *)
  | PushLinkOf (node : N) (tail p : option N)                        (** [->next().compare_exchange(next, node)] *)
  | PushAdvance (node : N) (tail next : option N)                    (** [_tail.compare_exchange(tail, next)] *)
  | PushSwing (node : N) (tail : option N)                           (** [_tail.compare_exchange(tail, node)] *)
  | PopTail                                                          (** [tail = _tail.load()] *)
  | PopNext (tail : option N)                                        (** [head.load()], to be followed *)
  | PopNextOf (tail p : option N)                                    (** [->next().load()] *)
  | PopLoad (tail next : option N)                                   (** [head == _head], first access *)
  | PopSame (tail next h : option N)                                 (** and the second *)
  | PopEqual (tail next : option N)                                  (** [head == tail] *)
  | PopEmpty (tail next : option N)                                  (** [head == nullptr] *)
  | PopAdvance (tail next : option N)                                (** [_tail.compare_exchange(tail, next)] *)
  | PopData (next : option N)                                        (** [next->data()] *)
  | PopHead (next : option N) (data : T)                             (** [head_node = head.load()] *)
  | PopSwing (next : option N) (data : T) (head_node : option N)     (** [head.compare_exchange], [delete next] *)
  | Done (result : option T).

(** Reading the node at a pointer. *)
Definition node_at (p : option N) (m : memory) : res (N * (T * option N)) :=
  l ← deref (UB NullDeref) p; n ← deref (UB UseAfterFree) (nodes m !! l); Ok (l, n).

Definition set_head (h : option N) (m : memory) : memory := mkMemory h (nodes m) (fresh m).

(** [compare_exchange_strong] on the pointer: the memory, and the expected value after it. *)
Definition exchange_head (expected desired : option N) (m : memory) : option N * memory :=
  if decide (_head m = expected) then (expected, set_head desired m) else (_head m, m).

(** [new Node(data)], with which a [push] starts. *)
Definition start_push (data : T) (m : memory) : pc * memory :=
  (PushTail (fresh m), mkMemory (_head m) (<[fresh m := (data, None)]> (nodes m)) (fresh m + 1)).

Definition step (c : pc) (m : memory) : res (pc * memory) :=
  match c with
  | PushTail node => Ok (PushNext node (_head m), m)
  | PushNext node tail => Ok (PushNextOf node tail (_head m), m)
  | PushNextOf node tail p => '(_, (_, next)) ← node_at p m; Ok (PushSame node tail next, m)
  | PushSame node tail next =>
      Ok (if decide (tail = _head m)
          then match next with None => PushLink node tail | Some _ => PushAdvance node tail next end
          else PushSwing node tail, m)
  | PushLink node tail => Ok (PushLinkOf node tail (_head m), m)
  | PushLinkOf node tail p =>
      '(l, (x, next)) ← node_at p m;
      Ok (match next with
          | None => (Done None, mkMemory (_head m) (<[l := (x, Some node)]> (nodes m)) (fresh m))
          | Some _ => (PushSwing node tail, m)
          end)
  | PushAdvance node tail next => let '(tail, m) := exchange_head tail next m in Ok (PushSwing node tail, m)
  | PushSwing node tail => let '(_, m) := exchange_head tail (Some node) m in Ok (PushTail node, m)
  | PopTail => Ok (PopNext (_head m), m)
  | PopNext tail => Ok (PopNextOf tail (_head m), m)
  | PopNextOf tail p => '(_, (_, next)) ← node_at p m; Ok (PopLoad tail next, m)
  | PopLoad tail next => Ok (PopSame tail next (_head m), m)
  | PopSame tail next h => Ok (if decide (h = _head m) then PopEqual tail next else PopTail, m)
  | PopEqual tail next => Ok (if decide (_head m = tail) then PopEmpty tail next else PopData next, m)
  | PopEmpty tail next => Ok (if decide (_head m = None) then Done None else PopAdvance tail next, m)
  | PopAdvance tail next => let '(_, m) := exchange_head tail next m in Ok (PopTail, m)
  | PopData next => '(_, (x, _)) ← node_at next m; Ok (PopHead next x, m)
  | PopHead next data => Ok (PopSwing next data (_head m), m)
  | PopSwing next data head_node =>
      if decide (_head m = head_node) then
        '(l, _) ← node_at next m; Ok (Done (Some data), mkMemory next (delete l (nodes m)) (fresh m))
      else Ok (PopTail, m)
  | Done result => Ok (c, m)
  end.

(** The threads, and a schedule: whose access is next.  A fault ends the process. *)
Fixpoint interleave (schedule : list nat) (threads : list pc) (m : memory) : res (list pc * memory) :=
  match schedule with
  | [] => Ok (threads, m)
  | i :: schedule' =>
      match threads !! i with
      | None => interleave schedule' threads m
      | Some c => '(c, m) ← step c m; interleave schedule' (<[i := c]> threads) m
      end
  end.

(** Threads that are about to start an operation each: [Some data] to push, [None] to pop. *)
Fixpoint start_ops (ops : list (option T)) (m : memory) : list pc * memory :=
  match ops with
  | [] => ([], m)
  | Some data :: ops' => let '(c, m) := start_push data m in let '(cs, m) := start_ops ops' m in (c :: cs, m)
  | None :: ops' => let '(cs, m) := start_ops ops' m in (PopTail :: cs, m)
  end.

(** ** The steps of one thread are the functions on chains *)

(** [q] is the data of the nodes from [p] on. *)
Fixpoint is_chain (p : option N) (q : chain) (m : memory) : Prop :=
  match q with
  | [] => p = None
  | x :: q' => ∃ l next, p = Some l ∧ nodes m !! l = Some (x, next) ∧ is_chain next q' m
  end.

(** [n] accesses of one thread. *)
Fixpoint steps (n : nat) (c : pc) (m : memory) : res (pc * memory) :=
  match n with O => Ok (c, m) | S n' => '(c, m) ← step c m; steps n' c m end.

Lemma steps_add n1 n2 c m : steps (n1 + n2) c m = ('(c, m) ← steps n1 c m; steps n2 c m).
Proof. revert c m. induction n1 as [|n IH]; intros c m; simpl; [done|]. destruct (step c m) as [[c' m']|]; simpl; [apply IH|done]. Qed.

Lemma is_chain_set_head p h q m : is_chain p q m → is_chain p q (set_head h m).
Proof. revert p. induction q as [|x q IH]; intros p; simpl; [done|]. intros (l & n & ? & ? & ?). exists l, n. eauto. Qed.

Lemma is_chain_unique p q1 q2 m : is_chain p q1 m → is_chain p q2 m → q1 = q2.
Proof.
  revert p q2. induction q1 as [|x q1 IH]; intros p [|y q2]; simpl; [done|naive_solver..|].
  intros (l & n & -> & Hl & H1) (l' & n' & [= <-] & Hl' & H2). rewrite Hl in Hl'. injection Hl' as <- <-. f_equal. by eapply IH.
Qed.

Lemma node_at_some l n m : nodes m !! l = Some n → node_at (Some l) m = Ok (l, n).
Proof. unfold node_at. simpl. by intros ->. Qed.

(** One round of [pop]. *)
Lemma pop_round_steps q m :
  is_chain (_head m) q m →
  match pop_round q with
  | Raise f => steps 3 PopTail m = Raise f
  | Ok (Retry q') => ∃ next, steps 8 PopTail m = Ok (PopTail, set_head next m) ∧ is_chain next q' m
  | Ok (Return _ _) => False
  end.
Proof.
  destruct q as [|x q]; simpl; [by intros ->|]. intros (l & next & Hh & Hl & Hq). exists next. split; [|done].
  rewrite Hh. simpl. rewrite (node_at_some _ _ _ Hl). simpl. rewrite Hh, decide_True by done. simpl. rewrite Hh, decide_True by done. simpl.
  rewrite Hh. simpl. unfold exchange_head. by rewrite Hh, decide_True.
Qed.

(** The chain from [p] on, which the node [node] is not in. *)
Fixpoint chain_without (node : N) (p : option N) (q : chain) (m : memory) : Prop :=
  match q with
  | [] => p = None
  | x :: q' => ∃ l next, p = Some l ∧ l ≠ node ∧ nodes m !! l = Some (x, next) ∧ chain_without node next q' m
  end.

Lemma chain_without_chain node p q m : chain_without node p q m → is_chain p q m.
Proof. revert p. induction q as [|x q IH]; intros p; simpl; [done|]. intros (l & n & ? & _ & ? & ?). exists l, n. eauto. Qed.

Lemma chain_without_set_head node p h q m : chain_without node p q m → chain_without node p q (set_head h m).
Proof. revert p. induction q as [|x q IH]; intros p; simpl; [done|]. intros (l & n & ? & ? & ? & ?). exists l, n. eauto. Qed.

(** A new node is not in any chain. *)
Definition memory_wf (m : memory) : Prop := ∀ l, is_Some (nodes m !! l) → (l < fresh m)%N.
Lemma start_push_chain data p q m :
  memory_wf m → is_chain p q m → chain_without (fresh m) p q (start_push data m).2.
Proof.
  intros Hm. revert p. induction q as [|x q IH]; intros p; simpl; [done|]. intros (l & n & -> & Hl & Hq).
  pose proof (Hm l ltac:(by eexists)). exists l, n. split; [done|]. split; [lia|].
  split; [by rewrite lookup_insert_ne by lia|by apply IH].
Qed.

(** One round of [push]. *)
Lemma push_round_steps data node q m :
  chain_without node (_head m) q m → nodes m !! node = Some (data, None) →
  match push_round data q with
  | Raise f => steps 3 (PushTail node) m = Raise f
  | Ok (Retry q') => ∃ next, steps 6 (PushTail node) m = Ok (PushTail node, set_head next m) ∧ chain_without node next q' m
  | Ok (Return _ q') => ∃ m', steps 6 (PushTail node) m = Ok (Done None, m') ∧ is_chain (_head m') q' m'
  end.
Proof.
  destruct q as [|x [|y q]]; simpl; [by intros ->|..].
  - intros (l & next & Hh & Hne & Hl & ->) Hn. rewrite Hh. simpl. rewrite (node_at_some _ _ _ Hl). simpl.
    rewrite Hh, decide_True by done. simpl. rewrite Hh. simpl. rewrite (node_at_some _ _ _ Hl). simpl. eexists. split; [done|]. simpl.
    exists l, (Some node). split; [done|]. split; [apply lookup_insert_eq|]. exists node, None.
    split; [done|]. split; [by rewrite lookup_insert_ne|done].
  - intros (l & next & Hh & _ & Hl & l2 & n2 & -> & Hne2 & Hl2 & Hq) Hn. exists (Some l2).
    split; [|by exists l2, n2]. apply chain_without_chain in Hq.
    rewrite Hh. simpl. rewrite (node_at_some _ _ _ Hl). simpl. rewrite Hh, decide_True by done. simpl. unfold exchange_head.
    rewrite Hh, decide_True by done. simpl. unfold exchange_head. simpl. rewrite decide_False; [done|]. intros [= <-].
    assert (x :: y :: q = y :: q) as Hlen%(f_equal length); [|simpl in Hlen; lia].
    apply (is_chain_unique (Some l2) _ _ m); simpl; [|by exists l2, n2]. exists l2, (Some l2). split_and!; [done..|].
    by exists l2, n2.
Qed.
Arguments steps : simpl never.

(** Whole operations of one thread: as many accesses as it takes. *)
Definition reaches (c : pc) (m : memory) (r : res (pc * memory)) : Prop := ∃ n, steps n c m = r.

Lemma reaches_steps n c m c' m' r : steps n c m = Ok (c', m') → reaches c' m' r → reaches c m r.
Proof. intros Hn [k Hk]. exists (n + k). rewrite steps_add, Hn. exact Hk. Qed.

Lemma pop_steps q m : is_chain (_head m) q m → reaches PopTail m (Raise (UB NullDeref)).
Proof.
  revert m. induction q as [|x q IH]; intros m Hq; apply pop_round_steps in Hq as Hr; cbn [pop_round] in Hr; [by exists 3|].
  destruct Hr as (next & Hs & Hc). eapply reaches_steps; [exact Hs|]. apply IH. by apply is_chain_set_head.
Qed.

Lemma push_steps data node q m :
  chain_without node (_head m) q m → nodes m !! node = Some (data, None) →
  match last q with
  | Some x => ∃ m', reaches (PushTail node) m (Ok (Done None, m')) ∧ is_chain (_head m') [x; data] m'
  | None => reaches (PushTail node) m (Raise (UB NullDeref))
  end.
Proof.
  revert m. induction q as [|x [|y q] IH]; intros m Hq Hn; pose proof (push_round_steps data node _ m Hq Hn) as Hr;
    cbn [push_round] in Hr.
  - by exists 3.
  - destruct Hr as (m' & Hs & Hc). exists m'. split; [by exists 6|done].
  - destruct Hr as (next & Hs & Hc). rewrite last_cons_cons.
    specialize (IH (set_head next m) (chain_without_set_head _ _ _ _ _ Hc) Hn).
    destruct (last (y :: q)) as [z|]; [destruct IH as (m' & Hr & ?); exists m'; split; [|done]|]; by eapply reaches_steps.
Qed.

(** ** Any number of threads on a new queue *)

(** A thread that has not followed the pointer yet, and how far it is. *)
Definition stage (c : pc) : option nat :=
  match c with
  | PushTail _ | PopTail => Some 0
  | PushNext _ None | PopNext None => Some 1
  | PushNextOf _ None None | PopNextOf None None => Some 2
  | _ => None
  end.

Lemma stage_le c k : stage c = Some k → k <= 2.
Proof. unfold stage. repeat case_match; intros; simplify_eq; lia. Qed.

Lemma step_stage c m k :
  _head m = None → stage c = Some k →
  if decide (k = 2) then step c m = Raise (UB NullDeref)
  else ∃ c', step c m = Ok (c', m) ∧ stage c' = Some (S k).
Proof.
  intros Hh Hc. unfold stage in Hc. repeat case_match; simplify_eq; simpl; rewrite ?Hh; eauto.
Qed.

(** A run of threads that have not followed the pointer yet: each access of a thread takes it
    one stage further, and the third one is the fault. *)
Lemma interleave_stages schedule threads m :
  _head m = None → Forall (λ c, is_Some (stage c)) threads →
  interleave schedule threads m = Raise (UB NullDeref) ∨
  ∃ threads', interleave schedule threads m = Ok (threads', m) ∧ length threads' = length threads ∧
    ∀ i c, threads !! i = Some c → ∃ c' k, threads' !! i = Some c' ∧ stage c = Some k ∧
      stage c' = Some (k + length (filter (i =.) schedule)).
Proof.
  intros Hh. revert threads. induction schedule as [|i schedule IH]; intros threads Ht; simpl.
  - right. exists threads. split; [done|]. split; [done|]. intros i c Hc. rewrite Forall_lookup in Ht. destruct (Ht _ _ Hc) as [k Hk].
    exists c, k. by rewrite Nat.add_0_r.
  - destruct (threads !! i) as [c|] eqn:Ei.
    + pose proof Ht as Ht'. rewrite Forall_lookup in Ht'. destruct (Ht' _ _ Ei) as [k Hk].
      pose proof (step_stage c m k Hh Hk) as Hs. case_decide; [left; by rewrite Hs|]. destruct Hs as (c1 & -> & Hc1). simpl.
      destruct (IH (<[i := c1]> threads)) as [Hr|(threads' & Hr & Hlen & Hst)]; [|by left|].
      { apply Forall_insert; [done|by eexists]. }
      right. exists threads'. split; [done|]. split; [by rewrite length_insert in Hlen|]. intros j d Hj. destruct (decide (j = i)) as [->|Hne].
      * rewrite Ei in Hj. injection Hj as <-. destruct (Hst i c1) as (c' & k' & Hc' & Hk' & Hl);
          [by apply list_lookup_insert_eq, lookup_lt_Some with c|]. rewrite Hc1 in Hk'. injection Hk' as <-.
        exists c', k. split_and!; [done..|]. rewrite filter_cons_True by done. simpl. rewrite Hl. f_equal. lia.
      * destruct (Hst j d) as (c' & k' & Hc' & Hk' & Hl); [by rewrite list_lookup_insert_ne|].
        exists c', k'. split_and!; [done..|]. by rewrite filter_cons_False.
    + destruct (IH threads Ht) as [Hr|(threads' & Hr & Hlen & Hst)]; [by left|]. right. exists threads'. split; [done|]. split; [done|].
      intros j d Hj. destruct (Hst j d Hj) as (c' & k' & ? & ? & Hl). exists c', k'. split_and!; [done..|].
      rewrite filter_cons_False; [done|]. intros ->. congruence.
Qed.

Lemma start_ops_stages ops m :
  let '(threads, m') := start_ops ops m in
  _head m' = _head m ∧ length threads = length ops ∧ Forall (λ c, stage c = Some 0) threads.
Proof.
  revert m. induction ops as [|[data|] ops IH]; intros m; simpl; [done|..].
  - specialize (IH (start_push data m).2). simpl in IH. destruct (start_ops ops _) as [cs m']. destruct IH as (? & ? & ?).
    simpl. split_and!; [done|lia|by constructor].
  - specialize (IH m). destruct (start_ops ops m) as [cs m']. destruct IH as (? & ? & ?). simpl. split_and!; [done|lia|by constructor].
Qed.

(** C39: the lock-free queue cannot be used.  On a new queue, whatever operations any number of
    threads start and however their accesses interleave, none of them ever ends: the third
    access of any thread dereferences the null pointer.  And if the queue did hold a
    chain of nodes, a single thread could still take nothing from it: [pop] drops the nodes one
    after the other and then dereferences null, and [push] drops all of them but the last. *)
Theorem cas_queue_unusable (ops : list (option T)) schedule data q m :
  memory_wf m → is_chain (_head m) q m →
  (let '(threads, m0) := start_ops ops new_memory in
   (interleave schedule threads m0 = Raise (UB NullDeref) ∨
    ∃ threads', interleave schedule threads m0 = Ok (threads', m0) ∧ ∀ r, Done r ∉ threads') ∧
   ∀ i, (i < length ops)%nat → (3 <= length (filter (i =.) schedule))%nat → interleave schedule threads m0 = Raise (UB NullDeref)) ∧
  reaches PopTail m (Raise (UB NullDeref)) ∧
  let '(c, m1) := start_push data m in
  match last q with
  | Some x => ∃ m', reaches c m1 (Ok (Done None, m')) ∧ is_chain (_head m') [x; data] m'
  | None => reaches c m1 (Raise (UB NullDeref))
  end.
Proof.
  intros Hm Hq. split; [|split; [by eapply pop_steps|]].
  - pose proof (start_ops_stages ops new_memory) as Hst. destruct (start_ops ops new_memory) as [threads m0].
    destruct Hst as (Hh & Hlen & Hst).
    destruct (interleave_stages schedule threads m0 Hh) as [Hr|(threads' & Hr & Hlen' & Hk)];
      [by eapply Forall_impl; [exact Hst|]; intros c ->|by split; [left|]|].
    rewrite Forall_lookup in Hst. split.
    + right. exists threads'. split; [done|]. intros r [i Hi]%list_elem_of_lookup.
      assert (i < length threads)%nat as [c Hc]%lookup_lt_is_Some_2 by (apply lookup_lt_Some in Hi; lia).
      destruct (Hk i c Hc) as (c' & k & Hc' & _ & Hs). rewrite Hi in Hc'. by injection Hc' as <-.
    + intros i Hi Hn. rewrite <- Hlen in Hi. apply lookup_lt_is_Some_2 in Hi as [c Hc].
      destruct (Hk i c Hc) as (c' & k & Hc' & Hc0 & Hs). exfalso. clear Hk.
      apply stage_le in Hs. lia.
  - simpl. apply push_steps; [by apply start_push_chain|]. simpl. apply lookup_insert_eq.
Qed.
End cas_queue.

(** Two threads on a new queue, and a chain of two nodes. *)
Definition toy_memory : memory := mkMemory (Some 0%N) (<[0%N := (7%N, Some 1%N)]> {[1%N := (8%N, None)]}) 2.

Lemma cas_queue_unusable_witness :
  (let '(threads, m0) := start_ops [Some 5%N; None] new_memory in interleave [0; 1; 1; 0; 1]%nat threads m0 = Raise (UB NullDeref)) ∧
  reaches PopTail toy_memory (Raise (UB NullDeref)) ∧
  ∃ m', reaches (start_push 9%N toy_memory).1 (start_push 9%N toy_memory).2 (Ok (Done None, m')) ∧
    is_chain (_head m') [8%N; 9%N] m'.
Proof.
  destruct (cas_queue_unusable [Some 5%N; None] [0; 1; 1; 0; 1]%nat 9%N [7%N; 8%N] toy_memory) as ((_ & H1) & H2 & H3).
  - intros l [n Hl]. unfold toy_memory in *. simpl in *.
    apply lookup_insert_Some in Hl as [[<- _]|[_ [<- _]%lookup_singleton_Some]]; lia.
  - exists 0%N, (Some 1%N). split; [reflexivity|]. split; [reflexivity|]. exists 1%N, None. split; [reflexivity|]. by split.
  - split; [exact (H1 1%nat ltac:(simpl; lia) ltac:(vm_compute; lia))|]. split; [exact H2|exact H3].
Defined.

(** Two [pop]s of a chain of three nodes: the second compares the head with a tail it has loaded
    before, takes the data of the node behind it, and frees the node it makes the head. *)
Definition three_nodes : memory :=
  mkMemory (Some 0%N) (<[0%N := (7%N, Some 1%N)]> (<[1%N := (8%N, Some 2%N)]> {[2%N := (9%N, None)]})) 3.

Lemma concurrent_pop_frees_the_head :
  match interleave ([1] ++ replicate 8 0 ++ replicate 8 1)%nat [PopTail; PopTail] three_nodes with
  | Ok (threads, m) => threads !! 1%nat = Some (Done (Some 9%N)) ∧ _head m = Some 2%N ∧ nodes m !! 2%N = None
  | Raise _ => False
  end.
Proof. vm_compute. done. Qed.
