(* ===== verification/CertUtils.v ===== *)
(** Key pairs ([utils/cert/cert_utils_ecdsa.cc]) and the storage folder ([file_database.h],
    [file_database.cc]).  OpenSSL's calls are parameters. *)
From S2P Require Import Prelude.
Local Open Scope Z_scope.

(** ** Key pairs *)

Section keys.
Context {EC_KEY : Type}.
(** [EC_KEY_new_by_curve_name], [EC_KEY_generate_key] with the key it leaves behind, and
    [EC_KEY_check_key]; a null key makes both answer 0. *)
Context (EC_KEY_new : option EC_KEY) (EC_KEY_generate_key : EC_KEY → Z * EC_KEY) (EC_KEY_check_key : EC_KEY → Z).
(** The text of the two PEM writers. *)
Context (PEM_EC_PUBKEY PEM_ECPrivateKey : EC_KEY → str).

Definition on_key (call : EC_KEY → Z * EC_KEY) (k : option EC_KEY) : Z * option EC_KEY :=
  match k with Some k => let '(r, k) := call k in (r, Some k) | None => (0, None) end.
Definition check_key (k : EC_KEY) : Z * EC_KEY := (EC_KEY_check_key k, k).

(** The operands of [&] are evaluated in an order the compiler chooses. *)
Definition generate_and_check (check_first : bool) (ec_key : option EC_KEY) : Z * option EC_KEY :=
  if check_first then
    let '(checked, ec_key) := on_key check_key ec_key in
    let '(generated, ec_key) := on_key EC_KEY_generate_key ec_key in (Z.land generated checked, ec_key)
  else
    let '(generated, ec_key) := on_key EC_KEY_generate_key ec_key in
    let '(checked, ec_key) := on_key check_key ec_key in (Z.land generated checked, ec_key).

(** [fopen(location, "w")], a PEM writer and [fclose]: a file that does not open is a null
    pointer to both of them. *)
Definition write_pem (writable : str → bool) (location text : str) (fs : gmap str str) : res (gmap str str) :=
  if writable location then Ok (<[location := text]> fs) else Raise (UB NullDeref).

Definition generate_key_pair (check_first : bool) (writable : str → bool) (pub_key_location priv_key_location : str)
    (fs : gmap str str) : res (option EC_KEY * gmap str str) :=
  let '(ok, ec_key) := generate_and_check check_first EC_KEY_new in
  if bool_decide (ok ≠ 1) then Ok (None, fs) else
  key ← deref (UB NullDeref) ec_key;
  fs ← write_pem writable pub_key_location (PEM_EC_PUBKEY key) fs;
  fs ← write_pem writable priv_key_location (PEM_ECPrivateKey key) fs;
  Ok (Some key, fs).

(** A key that is returned is in the file of the private key and, unless the two locations are
    the same, its public part in the other; no other file is touched, and no file at all
    when no key is returned. *)
Lemma generate_key_pair_spec check_first writable pub priv fs key fs' :
  generate_key_pair check_first writable pub priv fs = Ok (key, fs') →
  match key with
  | None => fs' = fs
  | Some key => fs' !! priv = Some (PEM_ECPrivateKey key) ∧ (pub ≠ priv → fs' !! pub = Some (PEM_EC_PUBKEY key)) ∧
      ∀ other, other ≠ pub → other ≠ priv → fs' !! other = fs !! other
  end.
Proof.
  unfold generate_key_pair, write_pem. destruct (generate_and_check check_first EC_KEY_new) as [ok [k|]];
    case_bool_decide; [by intros [= <- <-]| |by intros [= <- <-]|done].
  simpl. destruct (writable pub); [|done]. simpl. destruct (writable priv); [|done]. simpl. intros [= <- <-].
  split; [apply lookup_insert_eq|]. split; [intros; by rewrite lookup_insert_ne, lookup_insert_eq by done|].
  intros. by rewrite !lookup_insert_ne by done.
Qed.

(** A key with no key material does not pass the check: evaluated right to left, the function
    never makes a key. *)
Lemma check_first_never_succeeds writable pub priv fs :
  (∀ k, EC_KEY_new = Some k → EC_KEY_check_key k = 0) → generate_key_pair true writable pub priv fs = Ok (None, fs).
Proof.
  intros Hk. unfold generate_key_pair, generate_and_check, on_key, check_key. destruct EC_KEY_new as [k|]; simpl; [|done].
  rewrite (Hk k) by done. destruct (EC_KEY_generate_key k). by rewrite Z.land_0_r.
Qed.
End keys.

(** ** The storage folder *)

Section storage.
Context {ThreadPool : Type}.

Record StorageContext := mkStorage {
  _current_head_commit_id : str; _data_storage_path : str; _thread_pool : ThreadPool }.

(** The folders that exist; [creatable] says where [create_directories] succeeds, which throws
    otherwise. *)
Definition StorageContext_new (data_storage_path : str) (thread_pool : ThreadPool) (creatable : str → bool)
    (folders : gset str) : res (StorageContext * gset str) :=
  let ctx := mkStorage [] data_storage_path thread_pool in
  if decide (_data_storage_path ctx ∈ folders) then Ok (ctx, folders) else
  if creatable (_data_storage_path ctx) then Ok (ctx, {[_data_storage_path ctx]} ∪ folders) else Raise StdException.

Lemma StorageContext_new_folder path pool creatable folders ctx folders' :
  StorageContext_new path pool creatable folders = Ok (ctx, folders') →
  _data_storage_path ctx = path ∧ folders' = {[path]} ∪ folders.
Proof.
  unfold StorageContext_new. simpl. case_decide; [intros [= <- <-]; split; [done|set_solver]|].
  destruct (creatable path); [by intros [= <- <-]|done].
Qed.
End storage.
