(* ===== verification/Interface.v ===== *)
(** The local management console: [interface/connection_session], [command_factory],
    [interface/command/*.cc] and [connection_container.cc].  Commands use the user and
    device contexts through the interfaces of [ManagementApi]. *)
From S2P Require Import Prelude CxxString Status CommandParser IPAddress RoutingTable ManagementApi.
Local Open Scope Z_scope.

(** [environment.h] *)
Definition kTerminalMessage : str := $"P2PFileSync>".

(** ** Formatted output *)

(** [std::setw] with and without [std::left]: padding with spaces up to a width. *)
Definition setw_left (n : nat) (s : str) : str := s ++ replicate (n - length s) SP.
Definition setw_right (n : nat) (s : str) : str := replicate (n - length s) SP ++ s.
Definition endl : str := [NL].

(** ** Session options *)

(** [std::any]: a value of one of the types stored. *)
Inductive any := AnyInt (n : Z) | AnyString (s : str) | AnyEmpty.

Module ConnectionSession.
(** [operator[]] default-constructs a missing entry: an empty [std::any]. *)
Definition get_option_int (key : str) (storage : gmap str any) : res (Z * gmap str any) :=
  match storage !! key with
  | Some (AnyInt n) => Ok (n, storage)
  | _ => Raise BadAnyCast
  end.
Definition del_option (key : str) (storage : gmap str any) : gmap str any := delete key storage.
Definition exist_option (key : str) (storage : gmap str any) : bool := bool_decide (is_Some (storage !! key)).
Definition store_option (key : str) (value : any) (storage : gmap str any) : gmap str any := <[key := value]> storage.
End ConnectionSession.

Inductive command := FILE | INFO | PEER | TIME | USER.
#[global] Instance command_eq_dec : EqDecision command.
Proof. solve_decision. Defined.

Section interface.
Context {W U D UserDetail DeviceInfo PeerList : Type}.
Context `{!IUserContext W U UserDetail} `{!IUserDetailResponse UserDetail}.
Context `{!IDeviceContext W D DeviceInfo PeerList} `{!IDeviceInfoResponse DeviceInfo}.

(** [std::ctime] of now, with its newline. *)
Context (ctime_now : W → str).
(** [ManagementAPI::dev_ctx()] and [P2PServerContext::get()->get_online_peers()], walked in
    its order; [None] is the null pointer. *)
Context (dev_ctx : W → res (option D * W)).
Context (online_peers : W → option (list (str * RoutingTable.route (ADDR := IPAddress)))).

(** ** Commands *)

(** What a command works on: the user context of the session ([None] is null). *)
Abbreviation session := (option U).

Definition exec_file (args : list str) (s : session) (w : W) : res (str * session * W) :=
  let out := match args with [] => $"Usage: file <command> [args]" ++ endl | _ => [] end in
  user_ctx ← deref (UB NullDeref) s;
  if negb (is_logged_in user_ctx) then Ok (out ++ $"You are not logged in." ++ endl, s, w)
  else Ok (out ++ ctime_now w, s, w).

Definition exec_info (args : list str) (s : session) (w : W) : res (str * session * W) :=
  match args with
  | _ :: _ => Ok ($"INFO command does not need any arguments!", s, w)
  | [] =>
      '(device_ctx, w) ← dev_ctx w;
      d ← deref (UB NullDeref) device_ctx;
      '(device_info, w) ← device_info d w;
      info ← deref (UB NullDeref) device_info;
      id ← info_device_id info;
      '(enabled, w) ← is_enabled d w;
      hw ← machine_id info;
      ip ← device_ip info;
      user ← register_user info;
      Ok ($"Device info: " ++ endl ++
          $"  Device id: " ++ id ++ endl ++
          $"  Device status: " ++ (if enabled : bool then $"true" else $"false") ++ endl ++
          $"  Device hardware id: " ++ hw ++ endl ++
          $"  Device Registered ip: " ++ ip ++ endl ++
          $"  Device Register User: " ++ user, s, w)
  end.

Fixpoint print_peers (peers : list (str * RoutingTable.route (ADDR := IPAddress))) : res str :=
  match peers with
  | [] => Ok []
  | (id, r) :: peers' =>
      ip ← deref (UB NullDeref) (RoutingTable.hop r);
      rest ← print_peers peers';
      (** [setw(20)] applies to the address alone, the first thing [operator<<] prints *)
      Ok (setw_left 37 id ++ $" " ++ setw_left 20 (_ip_address_str ip) ++ $":" ++ show_dec (_port_number ip) ++ $" " ++
          setw_left 15 (show_dec (RoutingTable.ttl r)) ++ endl ++ rest)
  end.

Definition exec_peer (args : list str) (s : session) (w : W) : res (str * session * W) :=
  let out := match args with [] => [] | _ => $"PEER command does not need any arguments!" end in
  peers ← deref (UB NullDeref) (online_peers w);
  rows ← print_peers peers;
  Ok (out ++ setw_left 37 $"Peer ID" ++ $" " ++ setw_left 20 $"Next Jump Node" ++ $" " ++ setw_left 15 $"TTL" ++ endl ++ rows, s, w).

Definition exec_time (args : list str) (s : session) (w : W) : res (str * session * W) :=
  let out := match args with [] => [] | _ => $"na command does not need any arguments!" end in
  Ok (out ++ ctime_now w, s, w).

Definition print_group (g : Z * (str * str)) : str :=
  $"    " ++ setw_left 5 (show_dec g.1) ++ setw_left 15 g.2.1 ++ setw_left 20 g.2.2 ++ endl.

Definition exec_user (args : list str) (s : session) (w : W) : res (str * session * W) :=
  match args with
  | [] => Ok ($"Usage: USER [COMMAND] [OPTIONS]", s, w)
  | sub :: rest =>
      user_ctx ← deref (UB NullDeref) s;
      if bool_decide (sub = $"LOGIN") then
        match rest with
        | email :: password :: _ =>
            if is_logged_in user_ctx then Ok ($"You are already logged in.", s, w) else
            '(ok, msg, u, w) ← login email password user_ctx w;
            if ok : bool then Ok ($"Login successful.", Some u, w)
            else Ok ($"login failed: " ++ msg, Some u, w)
        | _ => Ok ($"Usage: USER LOGIN <email> <password>", s, w)
        end
      else if bool_decide (sub = $"INFO") then
        match rest with
        | _ :: _ => Ok ($"Usage: USER INFO", s, w)
        | [] =>
            if negb (is_logged_in user_ctx) then Ok ($"You are not logged in.", s, w) else
            '(detail, w) ← user_detail user_ctx w;
            info ← deref (UB NullDeref) detail;
            n ← name info;
            e ← email info;
            groups ← group info;
            Ok ($"User info:" ++ endl ++ $"  name: " ++ n ++ endl ++ $"  email: " ++ e ++ endl ++ $"  group: " ++ endl ++
                $"    " ++ setw_left 5 $"id" ++ setw_left 15 $"name" ++ setw_left 20 $"description" ++ endl ++
                concat (print_group <$> map_to_list groups), s, w)
        end
      else if bool_decide (sub = $"LOGOUT") then
        match rest with
        | _ :: _ => Ok ($"Usage: USER LOGOUT", s, w)
        | [] =>
            if negb (is_logged_in user_ctx) then Ok ($"You are not logged in.", s, w) else
            '(u, w) ← logout user_ctx w; Ok ([], Some u, w)
        end
      else Ok ($"Unknown command: " ++ sub, s, w)
  end.

Definition exec (c : command) (args : list str) (s : session) (w : W) : res (str * session * W) :=
  match c with
  | FILE => exec_file args s w
  | INFO => exec_info args s w
  | PEER => exec_peer args s w
  | TIME => exec_time args s w
  | USER => exec_user args s w
  end.

(** ** The factory *)

(** [_constructor_map] in the order it is walked: name, description, command. *)
Abbreviation constructors := (list (str * (str * command))).

Definition reg_command_internal (command_obj : command) (name description : str) (m : constructors) : bool * constructors :=
  match assoc name m with
  | Some _ => (false, m)
  | None => (true, m ++ [(name, (description, command_obj))])
  end.

(** The static initialisers of [AutoRegCommand]: [REGISTER_COMMAND(class, NAME, DEFAULT)]. *)
Definition registered : constructors :=
  foldl (λ m '(name, c), (reg_command_internal c name $"DEFAULT" m).2) []
    [($"FILE", FILE); ($"INFO", INFO); ($"PEER", PEER); ($"TIME", TIME); ($"USER", USER)].

Definition get_command_obj (m : constructors) (command_name : str) : option command := snd <$> assoc command_name m.

Definition get_help_msg (m : constructors) : str :=
  concat ((λ '(name, (description, _)), setw_right 15 name ++ description ++ endl) <$> m).

(** ** The container *)

(** The keys of [_instance_map] are views of the names in commands that were parsed earlier
    and are destroyed by now; the entries are kept under the name they had. *)
Inductive function_ref := LiveFunction | DeadFunction.
Record container := mkContainer { c_session : session; _destroy_callback : function_ref; _instance_map : list (str * command) }.

(** [usr_ctx] is what [ManagementAPI::usr_ctx()] returns for the new session.  The callback is a
    reference to the constructor's argument, a [std::function] made for the call (the default
    argument, or the conversion of a lambda) that is destroyed when the constructor returns. *)
Definition ConnectionContainer_new (usr_ctx : session) : container := mkContainer usr_ctx DeadFunction [].

(** The new object and the one moved from. *)
Definition ConnectionContainer_move (obj : container) : container * container :=
  (mkContainer (c_session obj) (_destroy_callback obj) [], mkContainer None (_destroy_callback obj) (_instance_map obj)).

(** [find]: an entry of the same name has the same hash, so its dead key is read. *)
Definition find_instance (name : str) (c : container) : res (option command) :=
  match assoc name (_instance_map c) with
  | Some _ => Raise (UB UseAfterFree)
  | None => Ok None
  end.

Definition execute_command (m : constructors) (cmd : ParsedCommand) (c : container) (w : W)
    : res (bool * str * container * W) :=
  if bool_decide (cmd.1 = $"help") then Ok (true, get_help_msg m, c, w) else
  command_ptr ← find_instance cmd.1 c;
  match command_ptr with
  | Some obj =>
      '(out, s, w) ← exec obj cmd.2 (c_session c) w;
      Ok (true, out ++ endl, mkContainer s (_destroy_callback c) (_instance_map c), w)
  | None =>
      match get_command_obj m cmd.1 with
      | None =>
          Ok (false, $"Command not found" ++ endl ++ $"available commands: " ++ get_help_msg m, c, w)
      | Some obj =>
          '(out, s, w) ← exec obj cmd.2 (c_session c) w;
          Ok (true, out ++ endl, mkContainer s (_destroy_callback c) (_instance_map c ++ [(cmd.1, obj)]), w)
      end
  end.

(** ** The connection loop *)

(** What [read(fd, &buf, 1)] returns: a byte, 0 at the end of the stream, or -1 when it
    times out or fails, which is a large [size_t] and keeps the inner loop going. *)
Inductive read_result := Byte (b : ascii) | EndOfStream | ReadError.

(** The inner loop: the text read, and the results left.  [None]: it waits for more, which no
    timeout and no [_running_flag] ends. *)
Fixpoint read_line (reads : list read_result) (command_buf : str) : option (str * list read_result) :=
  match reads with
  | [] => None
  | Byte b :: reads' => if bool_decide (b = NL) then Some (command_buf ++ [b], reads') else read_line reads' (command_buf ++ [b])
  | EndOfStream :: reads' => Some (command_buf, reads')
  | ReadError :: reads' => read_line reads' command_buf
  end.

(** One round of the main loop: what is written, and the state.  [None]: it waits for the peer,
    or the parser does not return within [fuel]. *)
Definition round (fuel : nat) (m : constructors) (reads : list read_result) (c : container) (w : W)
    : option (res (str * list read_result * container * W)) :=
  '(command_buf, reads) ← read_line reads [];
  if bool_decide (command_buf = []) then Some (Ok (kTerminalMessage, reads, c, w)) else
  parse ← parse_command fuel command_buf ([], []);
  Some (
    '(parse_ret, cmd) ← parse;
    if negb (Status.ok parse_ret) then Ok (kTerminalMessage ++ message parse_ret, reads, c, w) else
    '(_, os, c, w) ← execute_command m cmd c w;
    Ok (kTerminalMessage ++ os, reads, c, w)).

(** The main loop, when [_running_flag] is read true [rounds] times. *)
Fixpoint main_loop (rounds fuel : nat) (m : constructors) (reads : list read_result) (c : container) (w : W)
    : option (res (str * list read_result * container * W)) :=
  match rounds with
  | O => Some (Ok ([], reads, c, w))
  | S rounds' =>
      first ← round fuel m reads c w;
      match first with
      | Raise f => Some (Raise f)
      | Ok (out, reads, c, w) =>
          others ← main_loop rounds' fuel m reads c w;
          Some ('(out', reads, c, w) ← others; Ok (out ++ out', reads, c, w))
      end
  end.

(** [_destroy_callback()] *)
Definition call_function (f : function_ref) : res unit :=
  match f with LiveFunction => Ok () | DeadFunction => Raise (UB UseAfterFree) end.

(** The thread: the loop, [close], and the callback. *)
Definition run (rounds fuel : nat) (m : constructors) (reads : list read_result) (c : container) (w : W)
    : option (res (str * container * W)) :=
  looped ← main_loop rounds fuel m reads c w;
  Some ('(out, _, c, w) ← looped; _ ← call_function (_destroy_callback c); Ok (out, c, w)).

(** The destructor clears the flag, which is read between rounds only, and joins the thread:
    what the thread still does. *)
Definition ConnectionContainer_destroy (in_round : bool) (fuel : nat) (m : constructors) (reads : list read_result)
    (c : container) (w : W) : option (res (str * container * W)) :=
  run (if in_round then 1 else 0) fuel m reads c w.

(** ** Properties *)

Lemma read_line_bytes s rest acc :
  NL ∉ s → read_line ((Byte <$> s) ++ Byte NL :: rest) acc = Some (acc ++ s ++ [NL], rest).
Proof.
  revert acc. induction s as [|x s IH]; intros acc Hs; simpl.
  - done.
  - rewrite bool_decide_false by set_solver. rewrite IH by set_solver. by rewrite <- app_assoc.
Qed.

Lemma join_no_newline cmd args : Forall (λ v, SP ∉ v ∧ NL ∉ v) (cmd :: args) → NL ∉ join_with SP (cmd :: args).
Proof.
  intros Hv [?|(p & Hp & Hin)]%join_with_mem; [done|]. rewrite Forall_forall in Hv. naive_solver.
Qed.

(** A line typed as plain words: a command word and its arguments, none with a space or a
    newline, and no argument that opens a quote. *)
Definition typed_line (line : str * list str) : list read_result :=
  (Byte <$> join_with SP (line.1 :: line.2)) ++ [Byte NL].
#[global] Arguments typed_line : simpl never.
Fixpoint typed_lines (lines : list (str * list str)) : list read_result :=
  match lines with [] => [] | line :: lines' => typed_line line ++ typed_lines lines' end.
Definition plain_line (fuel : nat) (line : str * list str) : Prop :=
  line.1 ≠ [] ∧ Forall (λ v, SP ∉ v ∧ NL ∉ v) (line.1 :: line.2) ∧ Forall (λ a, head a ≠ Some DQ) line.2 ∧
  (length (join_with SP (line.1 :: line.2)) + 1 < fuel)%nat.

#[global] Instance plain_line_dec fuel line : Decision (plain_line fuel line).
Proof. apply _. Defined.

Lemma round_typed fuel m line rest c w :
  plain_line fuel line →
  round fuel m (typed_line line ++ rest) c w =
    Some ('(_, os, c, w) ← execute_command m line c w; Ok (kTerminalMessage ++ os, rest, c, w)).
Proof.
  destruct line as [cmd args]. intros (Hne & Hv & Hq & Hf). unfold round, typed_line. cbn [fst snd] in *.
  rewrite <- app_assoc. change ([Byte NL] ++ rest) with (Byte NL :: rest).
  rewrite read_line_bytes by by apply join_no_newline. cbn [mbind option_bind app].
  rewrite bool_decide_false by (intros ?%(f_equal length); rewrite length_app in *; simpl in *; lia).
  assert (length (join_with SP (cmd :: args) ++ [NL]) < fuel)%nat as Hlen by (rewrite length_app; exact Hf).
  by rewrite (parse_command_printed 0 cmd args fuel _ (join_with SP (cmd :: args) ++ [NL])) by done.
Qed.

(** ** Sessions *)

(** What a session of typed lines is to do: every line is answered with the prompt and the
    help text, what its command prints and a newline, or the list of commands; [used] are
    the commands the connection has used before, none of which it can use again. *)
Fixpoint session_spec (m : constructors) (lines : list (str * list str)) (used : list str) (s : session) (w : W)
    : res (str * list str * session * W) :=
  match lines with
  | [] => Ok ([], used, s, w)
  | (cmd, args) :: lines' =>
      '(answer, used, s, w) ←
        (if bool_decide (cmd = $"help") then Ok (get_help_msg m, used, s, w)
         else if bool_decide (cmd ∈ used) then Raise (UB UseAfterFree)
         else match get_command_obj m cmd with
              | None => Ok ($"Command not found" ++ endl ++ $"available commands: " ++ get_help_msg m, used, s, w)
              | Some obj => '(out, s, w) ← exec obj args s w; Ok (out ++ endl, used ++ [cmd], s, w)
              end);
      '(answers, used, s, w) ← session_spec m lines' used s w;
      Ok (kTerminalMessage ++ answer ++ answers, used, s, w)
  end.

Lemma assoc_used {V} (cmd : str) (im : list (str * V)) : is_Some (assoc cmd im) ↔ cmd ∈ im.*1.
Proof.
  induction im as [|[k v] im IH]; simpl; [split; [by intros []|set_solver]|].
  case_decide; [subst; split; [intros _; set_solver|by eexists]|]. rewrite IH. set_solver.
Qed.

(** The loop on typed lines, from any state of the connection. *)
Lemma console_session fuel m lines rest c w :
  Forall (plain_line fuel) lines →
  ∃ r, main_loop (length lines) fuel m (typed_lines lines ++ rest) c w = Some r ∧
    match session_spec m lines (_instance_map c).*1 (c_session c) w with
    | Raise f => r = Raise f
    | Ok (out, used, s, w') => ∃ c', r = Ok (out, rest, c', w') ∧ c_session c' = s ∧ (_instance_map c').*1 = used
    end.
Proof.
  intros Hl. revert c w. induction Hl as [|[cmd args] lines Hline _ IH]; intros c w; simpl.
  { eexists. split; [done|]. by exists c. }
  rewrite <- app_assoc, round_typed by done. simpl. unfold execute_command. simpl.
  case_bool_decide as Hhelp.
  - simpl. destruct (IH c w) as (r & -> & Hr). simpl. eexists. split; [done|].
    destruct (session_spec m lines _ _ w) as [[[[out used] s] w']|f]; [|by subst r].
    destruct Hr as (c' & -> & Hs & Hu). exists c'. split; [|done]. simpl. by rewrite <- ?app_assoc.
  - unfold find_instance. destruct (assoc cmd (_instance_map c)) as [obj0|] eqn:Ea.
    { rewrite bool_decide_true by (apply assoc_used; by rewrite Ea; eexists). simpl. by eexists. }
    rewrite bool_decide_false by (intros [? ?]%assoc_used; congruence). simpl.
    destruct (get_command_obj m cmd) as [obj|]; simpl.
    + destruct (exec obj args (c_session c) w) as [[[out s] w1]|f]; simpl; [|by eexists].
      destruct (IH (mkContainer s (_destroy_callback c) (_instance_map c ++ [(cmd, obj)])) w1) as (r & -> & Hr). simpl in *.
      rewrite fmap_app in Hr. simpl in Hr. eexists. split; [done|].
      destruct (session_spec m lines _ _ w1) as [[[[outs used] s'] w']|f]; [|by subst r].
      destruct Hr as (c' & -> & Hs & Hu). exists c'. split; [|done]. simpl. by rewrite <- ?app_assoc.
    + destruct (IH c w) as (r & -> & Hr). simpl. eexists. split; [done|].
      destruct (session_spec m lines _ _ w) as [[[[out used] s] w']|f]; [|by subst r].
      destruct Hr as (c' & -> & Hs & Hu). exists c'. split; [|done]. simpl. by rewrite <- ?app_assoc.
Qed.

(** Sessions one after the other. *)
Lemma session_spec_app m lines1 lines2 used s w :
  session_spec m (lines1 ++ lines2) used s w =
    ('(out1, used, s, w) ← session_spec m lines1 used s w;
     '(out2, used, s, w) ← session_spec m lines2 used s w; Ok (out1 ++ out2, used, s, w)).
Proof.
  revert used s w. induction lines1 as [|[cmd args] lines1 IH]; intros used s w; simpl.
  { by destruct (session_spec m lines2 used s w) as [[[[? ?] ?] ?]|]. }
  case_bool_decide; [|case_bool_decide; [done|destruct (get_command_obj m cmd) as [obj|]; simpl]].
  2: destruct (exec obj args s w) as [[[out s1] w1]|]; [simpl|done].
  all: simpl; rewrite IH; destruct (session_spec m lines1 _ _ _) as [[[[out1 used1] s2] w2]|]; [simpl|done];
    destruct (session_spec m lines2 _ _ _) as [[[[out2 used2] s3] w3]|]; [simpl|done]; rewrite <- ?app_assoc; simpl;
    by rewrite <- ?app_assoc.
Qed.

(** A line that runs a command. *)
Lemma session_spec_command m cmd args lines used s w r :
  cmd ≠ $"help" → is_Some (get_command_obj m cmd) → session_spec m ((cmd, args) :: lines) used s w = Ok r →
  cmd ∉ used ∧ ∃ obj out s1 w1, get_command_obj m cmd = Some obj ∧ exec obj args s w = Ok (out, s1, w1) ∧
    ('(outs, used, s, w) ← session_spec m lines (used ++ [cmd]) s1 w1;
     Ok (kTerminalMessage ++ (out ++ endl) ++ outs, used, s, w)) = Ok r.
Proof.
  intros Hh [obj Hobj]. simpl. rewrite bool_decide_false by done. case_bool_decide; [done|]. rewrite Hobj.
  destruct (exec obj args s w) as [[[out s1] w1]|] eqn:E; [|done]. simpl. intros Hr. split; [done|].
  exists obj, out, s1, w1. split; [done|]. split; [done|exact Hr].
Qed.

(** A line that does not. *)
Lemma session_spec_other m cmd args lines used s w r :
  cmd = $"help" ∨ get_command_obj m cmd = None → session_spec m ((cmd, args) :: lines) used s w = Ok r →
  ∃ answer, ('(outs, used, s, w) ← session_spec m lines used s w; Ok (kTerminalMessage ++ answer ++ outs, used, s, w)) = Ok r.
Proof.
  simpl. intros [-> | Hnone].
  - rewrite bool_decide_true by done. intros Hr. by eexists.
  - case_bool_decide; [intros Hr; by eexists|]. case_bool_decide; [done|]. rewrite Hnone. intros Hr. by eexists.
Qed.

(** A command works once per connection: after it was executed, executing a command of
    the same name again reads the name of the first one, which is gone. *)
Theorem second_use_dangles m cmd args args' c w b out c' w' :
  cmd ≠ $"help" → execute_command m (cmd, args) c w = Ok (b, out, c', w') → is_Some (get_command_obj m cmd) →
  execute_command m (cmd, args') c' w' = Raise (UB UseAfterFree).
Proof.
  intros Hh Hx [obj Hobj]. unfold execute_command, find_instance in *. simpl in *.
  rewrite bool_decide_false in * by done.
  destruct (assoc cmd (_instance_map c)) eqn:E; [done|]. simpl in Hx. rewrite Hobj in Hx.
  apply res_bind_ok in Hx as ([[o s] w1] & _ & [= _ _ <- _]). simpl.
  rewrite assoc_snoc, E. by rewrite decide_True.
Qed.

(** The loop does not notice that the peer has closed: with nothing but ends of the
    stream to read, every round writes the prompt again and changes nothing. *)
Lemma closed_connection_spins n fuel m rest c w :
  main_loop n fuel m (replicate n EndOfStream ++ rest) c w = Some (Ok (concat (replicate n kTerminalMessage), rest, c, w)).
Proof. induction n as [|n IH]; [done|]. simpl. by rewrite IH. Qed.

Lemma main_loop_add n1 n2 fuel m reads c w :
  main_loop (n1 + n2) fuel m reads c w =
    match main_loop n1 fuel m reads c w with
    | Some (Ok (out, reads, c, w)) =>
        looped ← main_loop n2 fuel m reads c w; Some ('(out', reads, c, w) ← looped; Ok (out ++ out', reads, c, w))
    | looped => looped
    end.
Proof.
  revert reads c w. induction n1 as [|n1 IH]; intros reads c w; simpl.
  { by destruct (main_loop n2 fuel m reads c w) as [[[[[? ?] ?] ?]|]|]. }
  destruct (round fuel m reads c w) as [[[[[out reads1] c1] w1]|]|]; simpl; [|done..]. rewrite IH.
  destruct (main_loop n1 fuel m reads1 c1 w1) as [[[[[out1 reads2] c2] w2]|]|]; simpl; [|done..].
  destruct (main_loop n2 fuel m reads2 c2 w2) as [[[[[out2 reads3] c3] w3]|]|]; simpl; [|done..]. by rewrite app_assoc.
Qed.


(** ** The end of a connection *)

Lemma execute_command_keeps_callback m cmd c w b out c' w' :
  execute_command m cmd c w = Ok (b, out, c', w') → _destroy_callback c' = _destroy_callback c.
Proof.
  unfold execute_command. case_bool_decide; [by intros [= _ _ <- _]|].
  intros (found & _ & Hx)%res_bind_ok. destruct found as [obj|]; [|destruct (get_command_obj m cmd.1) as [obj|]].
  - by apply res_bind_ok in Hx as ([[o s] w1] & _ & [= _ _ <- _]).
  - by apply res_bind_ok in Hx as ([[o s] w1] & _ & [= _ _ <- _]).
  - by injection Hx as _ _ <- _.
Qed.

Lemma main_loop_keeps_callback rounds fuel m reads c w out reads' c' w' :
  main_loop rounds fuel m reads c w = Some (Ok (out, reads', c', w')) → _destroy_callback c' = _destroy_callback c.
Proof.
  revert reads c w out reads' c' w'. induction rounds as [|n IH]; intros reads c w out reads' c' w'; simpl; [by intros [= _ _ <- _]|].
  unfold round. destruct (read_line reads []) as [[buf reads1]|]; [|done]. simpl. case_bool_decide; simpl.
  - destruct (main_loop n _ _ _ _ _) as [[[[[o r] c1] w1]|]|] eqn:E; simpl; [|done..]. intros [= _ _ <- _]. exact (IH _ _ _ _ _ _ _ E).
  - destruct (parse_command fuel buf ([], [])) as [[[st cmd]|]|]; [|done..]. simpl. destruct (negb (Status.ok st)); simpl.
    + destruct (main_loop n _ _ _ _ _) as [[[[[o r] c1] w1]|]|] eqn:E; simpl; [|done..]. intros [= _ _ <- _]. exact (IH _ _ _ _ _ _ _ E).
    + destruct (execute_command m cmd c w) as [[[[b os] c2] w2]|] eqn:Ex; [|done]. simpl.
      destruct (main_loop n _ _ _ _ _) as [[[[[o r] c1] w1]|]|] eqn:E; simpl; [|done..]. intros [= _ _ <- _].
      rewrite <- (execute_command_keeps_callback _ _ _ _ _ _ _ _ Ex). exact (IH _ _ _ _ _ _ _ E).
Qed.

(** C40: no connection ever ends cleanly.  Whatever the peer sends and however long the loop runs,
    the thread of a container never returns: its last call is through a reference to a
    function object that died with the constructor's argument.  And while the peer sends
    nothing, the destructor waits for it for ever. *)
Theorem connection_never_ends_cleanly u rounds fuel m reads w :
  (∀ r, run rounds fuel m reads (ConnectionContainer_new u) w ≠ Some (Ok r)) ∧
  ∀ n c, ConnectionContainer_destroy true fuel m (replicate n ReadError) c w = None.
Proof.
  split.
  - intros r. unfold run. destruct (main_loop rounds fuel m reads _ w) as [[[[[o rs] c1] w1]|]|] eqn:E; [|done..].
    simpl. apply main_loop_keeps_callback in E. by rewrite E.
  - intros n c. unfold ConnectionContainer_destroy, run. simpl. unfold round.
    assert (read_line (replicate n ReadError) [] = None) as -> by (induction n; done). done.
Qed.
End interface.

(** ** A concrete console, to run the definitions with *)


#[local] Instance toy_user_ctx : IUserContext nat bool str := {|
  logout u w := Ok (false, S w); is_logged_in u := u;
  login e p u w := if bool_decide (p = $"pw") then Ok (true, [], true, S w) else Ok (false, $"wrong", u, S w);
  user_detail u w := Ok (Some $"me", w) |}.
#[local] Instance toy_detail : IUserDetailResponse str := {| name r := Ok r; email r := Ok r; group r := Ok ∅ |}.
#[local] Instance toy_dev_ctx : IDeviceContext nat unit str str := {|
  is_enabled _ w := Ok (true, w); device_id _ := $"d"; client_certificate _ w := Ok ($"c", w);
  peer_list _ w := Ok (None, w); device_info _ w := Ok (Some $"i", w) |}.
#[local] Instance toy_info : IDeviceInfoResponse str :=
  {| info_device_id r := Ok r; machine_id r := Ok r; device_ip r := Ok r; register_user r := Ok r |}.
Definition toy_time (_ : nat) : str := $"Sat Jan  1" ++ endl.
Definition toy_dev (w : nat) : res (option unit * nat) := Ok (Some (), w).
Definition toy_loop (n : nat) := main_loop (W := nat) (U := bool) (D := unit) (UserDetail := str) (DeviceInfo := str) (PeerList := str)
  toy_time toy_dev (λ _, None) n 60 registered.

Definition toy_lines : list (str * list str) := [($"USER", [$"LOGIN"; $"a@b.c"; $"pw"]); ($"FILE", [$"x"])].


Lemma second_use_dangles_witness :
  execute_command (W := nat) (U := bool) (D := unit) (UserDetail := str) (DeviceInfo := str) (PeerList := str)
      toy_time toy_dev (λ _, None) registered ($"TIME", []) (mkContainer None DeadFunction [($"TIME", TIME)]) 0%nat =
    Raise (UB UseAfterFree).
Proof.
  refine (second_use_dangles (D := unit) (UserDetail := str) (DeviceInfo := str) (PeerList := str)
    toy_time toy_dev (λ _, None) registered $"TIME" [] [] (ConnectionContainer_new (None : option bool)) 0%nat true
    (toy_time 0%nat ++ endl) _ _ _ _ _); [by_decide|vm_compute; reflexivity|by_decide].
Defined.
