(* ===== verification/Daemon.v ===== *)
(** The daemon around the components: the management socket
    ([manage_interface.cc], class [ManagementInterface]) and the start-up sequence
    ([main.cc]), which composes the configuration, the management client and the packet
    server. *)
From S2P Require Import Prelude CxxString IPAddress ThreadPool Message PeerSession Server Hello.
From S2P Require Import Config ManagementApi JsonModel Responses Curl Management MachineId ServerInit.
Import PeerListResponse.
Local Open Scope Z_scope.

(** ** The management socket *)

Definition AF_UNIX : Z := 1.

(** The address given to [bind]. *)
Inductive bind_addr := UnixAddr (sun_path : str) | InetAddr (sin_port : Z) (host : str).

(** [sun_path] has 108 bytes; the path is copied with [memcpy], without a terminator. *)
Definition sun_path_size : nat := 108.

(** The event base (uninitialised before the thread sets it), the descriptors scheduled for
    destruction, the thread while it is joinable, with its descriptor, and the containers
    by file descriptor.  A container is identified by the number of connections accepted
    before it. *)
Record ManagementInterface := mkInterface {
  _event_base : option unit; _destroy_list : list Z; _manage_interface_thread : option Z;
  _thread_management_container : gmap Z nat; accepted : nat }.

(** [socket]'s and [bind]'s results; the address bound. *)
Definition ManagementInterface_new (socket_addr : str) (listen_type socket_fd bind_ret : Z)
    : res (ManagementInterface * bind_addr) :=
  if bool_decide (108 < length socket_addr)%nat then Raise Fatal else
  if bool_decide (socket_fd = -1) then Raise Fatal else
  addr ← (if bool_decide (listen_type = AF_UNIX) then Ok (UnixAddr socket_addr)
          else if bool_decide (listen_type = AF_INET) then
            ip_addr ← IPAddress_of_string socket_addr; Ok (InetAddr (port ip_addr) (ip_address ip_addr))
          else Raise Fatal);
  if bool_decide (bind_ret = -1) then Raise Fatal else
  Ok (mkInterface None [] (Some socket_fd) ∅ 0, addr).

(** The thread, up to [event_base_dispatch]; [listen_ret] and [event_base] are what [listen] and
    [event_base_new] return.  The constructor starts the thread, so [get ()] may still be
    null here. *)
Definition manage_interface_thread (listen_ret : Z) (event_base : option unit) (instance : option ManagementInterface)
    : res ManagementInterface :=
  if bool_decide (listen_ret < 0) then Raise Fatal else
  i ← deref (UB NullDeref) (Singleton.get instance);
  match event_base with
  | None => Raise Fatal
  | Some _ => Ok (mkInterface event_base (_destroy_list i) (_manage_interface_thread i)
                    (_thread_management_container i) (accepted i))
  end.

(** [join]: [ended] says whether the thread ends; [None] waits for ever. *)
Definition join (ended : bool) (i : ManagementInterface) : option (res ManagementInterface) :=
  match _manage_interface_thread i with
  | None => Some (Raise StdException)
  | Some _ => if ended then Some (Ok (mkInterface (_event_base i) (_destroy_list i) None
                                        (_thread_management_container i) (accepted i))) else None
  end.

(** A container that ended registers its descriptor; nothing ever reads the list. *)
Definition schedule_destroy (fd : Z) (i : ManagementInterface) : ManagementInterface :=
  mkInterface (_event_base i) (_destroy_list i ++ [fd]) (_manage_interface_thread i) (_thread_management_container i) (accepted i).

(** [new_fd] is [accept]'s result.  Destroying the old container of the descriptor joins its
    thread: [joined] says whether that thread ends. *)
Definition accept_handler (new_fd : Z) (joined : nat → bool) (i : ManagementInterface) : option ManagementInterface :=
  let emplace m := mkInterface (_event_base i) (_destroy_list i) (_manage_interface_thread i)
                     (<[new_fd := accepted i]> m) (S (accepted i)) in
  if bool_decide (new_fd < 0) then Some i else
  match _thread_management_container i !! new_fd with
  | Some old => if joined old then Some (emplace (delete new_fd (_thread_management_container i))) else None
  | None => Some (emplace (_thread_management_container i))
  end.

(** The destructor: the range-based loop over the containers erases the entry it stands on;
    after the body, the member [_manage_interface_thread] is destroyed, which is
    [std::terminate] while it is joinable. *)
Definition ManagementInterface_destroy (i : ManagementInterface) : res unit :=
  _ ← deref (UB Uninitialized) (_event_base i);
  if decide (_thread_management_container i = ∅) then
    match _manage_interface_thread i with Some _ => Raise Terminate | None => Ok () end
  else Raise (UB UseAfterFree).

(** What the rest of the program does with the interface. *)
Inductive interface_step : ManagementInterface → ManagementInterface → Prop :=
  | step_thread listen_ret event_base i i' :
      manage_interface_thread listen_ret event_base (Some i) = Ok i' → interface_step i i'
  | step_schedule fd i : interface_step i (schedule_destroy fd i)
  | step_accept new_fd joined i i' : accept_handler new_fd joined i = Some i' → interface_step i i'.

(** Nothing but [join], which nothing calls, ends the thread. *)
Lemma interface_never_destroyed i i' :
  is_Some (_manage_interface_thread i) → rtc interface_step i i' →
  is_Some (_manage_interface_thread i') ∧ is_ok (ManagementInterface_destroy i') = false.
Proof.
  intros Hi Hs. assert (is_Some (_manage_interface_thread i')) as [fd Hi'].
  { induction Hs as [|i1 i2 i3 Hstep _ IH]; [done|]. apply IH. revert Hi. clear IH.
    destruct Hstep as [lr eb j j' H|fd j|fd joined j j' H]; [..|done|].
    - unfold manage_interface_thread in H. case_bool_decide; [done|]. simpl in H. destruct eb; [|done]. by injection H as <-.
    - unfold accept_handler in H. case_bool_decide; [by injection H as <-|].
      destruct (_thread_management_container j !! fd) as [old|]; [destruct (joined old); [|done]|]; by injection H as <-. }
  split; [by exists fd|]. unfold ManagementInterface_destroy. rewrite Hi'.
  destruct (_event_base i'); [|done]. simpl. by case_decide.
Qed.

(** The constructor starts the thread before [_instance] is assigned: a thread that is
    faster dereferences a null pointer. *)
Lemma thread_before_instance listen_ret event_base :
  0 <= listen_ret → manage_interface_thread listen_ret event_base None = Raise (UB NullDeref).
Proof. intros. unfold manage_interface_thread. by rewrite bool_decide_false by lia. Qed.

(** ** Start-up *)

(** [getline(ip_list, substr, ',')] while the stream is good: the pieces between commas;
    the text [""] is one empty piece, and a final comma is followed by an empty one. *)
Fixpoint host_pieces (s : str) (acc : str) : list str :=
  match s with
  | [] => [acc]
  | c :: s' => if bool_decide (c = ","%char) then acc :: host_pieces s' [] else host_pieces s' (acc ++ [c])
  end.

Fixpoint known_hosts (pieces : list str) : res (list IPAddress) :=
  match pieces with
  | [] => Ok []
  | piece :: pieces' =>
      ip ← IPAddress_of_string piece;
      if valid ip then rest ← known_hosts pieces'; Ok (IPAddress_copy ip :: rest) else Raise Fatal
  end.

(** The flags and what the system answers. *)
Record options := mkOptions { FLAGS_host : option str; FLAGS_config : str }.

Section config.
Context `{YAML}.

(** The configuration: loaded when the file exists, otherwise the default, which is saved. *)
Definition main_config (opts : options) (writable : bool) (fs : files) : res (Config * files) :=
  if decide (is_Some (fs !! FLAGS_config opts)) then
    config ← load_config (FLAGS_config opts) fs;
    c ← deref Fatal config;
    Ok (c, fs)
  else
    let '(saved, fs) := save_config Config_default (FLAGS_config opts) writable fs in
    if saved : bool then Ok (Config_default, fs) else Raise Fatal.

(** The known hosts, which nothing uses. *)
Definition main_hosts (opts : options) : res (list IPAddress) :=
  match FLAGS_host opts with None => Ok [] | Some s => known_hosts (host_pieces s []) end.

Lemma main_config_fresh opts fs :
  fs !! FLAGS_config opts = None →
  main_config opts true fs = Ok (Config_default, <[FLAGS_config opts := emit (config_node Config_default) ++ [NL]]> fs).
Proof. intros Hn. unfold main_config. by rewrite decide_False by (rewrite Hn; by intros []). Qed.

Context `{!YAMLLaws}.

(** The file that was written is loaded, whatever else happened on the disk. *)
Lemma main_config_again opts writable fs :
  fs !! FLAGS_config opts = Some (emit (config_node Config_default) ++ [NL]) →
  main_config opts writable fs = Ok (Config_default, fs).
Proof.
  intros Hf. unfold main_config. rewrite decide_True by (rewrite Hf; eauto).
  pose proof (load_saved_config Config_default (FLAGS_config opts) fs) as Hl. rewrite insert_id in Hl by done.
  by rewrite Hl by (unfold Config_wf; simpl; lia).
Qed.
End config.

(** ** The whole program *)

Section main.
Context `{YAML} `{RapidJSON} `{Protobuf SignedProtoMessage} `{Protobuf ProtoMessage} `{OpenSSL}.
Context (package_pkg : ProtoHelloMessage → str → ProtoMessage).
Context (X509_STORE_new : x509_store) (X509_STORE_add_cert : x509_store → x509 → x509_store).
Context (PKCS12 : Type) (d2i_PKCS12 : str → option PKCS12) (PKCS12_parse : PKCS12 → str → option (pkey * x509 * list x509)).
Context (SHA256 : str → list Z) (inet_ntop : Z → Z → Z → option str).
(** libcurl at each request, and [realloc] *)
Context (easy_init : nat → bool) (setopt : nat → curl_opt → bool) (perform : nat → list curl_opt → list str * bool)
  (realloc_ok : Z → bool).
(** The tasks of the thread pool. *)
Context {T : Type}.

(** What the system answers: whether the configuration file can be written, which folders exist
    and can be created, the calls of the management socket, the machine, its addresses,
    and the calls of the server socket with the number of tests of the activation. *)
Record environment := mkEnv {
  writable : bool; folder_exists : str → bool; folder_created : str → bool; manage_socket : Z; manage_bind : Z;
  this_machine : machine; interfaces : option (list ifaddr); listening : listen_env; polls : nat }.

Definition is_PKCS12 (content : str) : bool := bool_decide (is_Some (d2i_PKCS12 content)).
Definition d2i_PKCS12_fp (path : str) (w : Management.world) : option PKCS12 := content ← disk w !! path; d2i_PKCS12 content.

#[local] Instance device_context : IDeviceContext Management.world DeviceContextImpl JsonModel JsonModel :=
  DeviceContextImpl_context easy_init setopt perform realloc_ok is_PKCS12.

(** [ManagementAPI::dev_ctx()] *)
Definition main_dev_ctx (env : environment) (context : option ManagementContext) (w : Management.world)
    : res (option DeviceContextImpl * option ManagementContext * Management.world) :=
  dev_ctx easy_init setopt perform realloc_ok (getIPAddresses inet_ntop (interfaces env))
    (get_device_id SHA256 (this_machine env)) context w.

Definition main_server_init (env : environment) (config : Config) (d : DeviceContextImpl) (w : Management.world)
    : res (option (bool * init_state)) :=
  ServerInit.init (W := Management.world) (DeviceInfo := JsonModel) (PeerList := JsonModel) package_pkg X509_STORE_new X509_STORE_add_cert PKCS12 d2i_PKCS12_fp PKCS12_parse
    (polls env) (listening env) config d (mkInit None [] w).

(** What has been made when the daemon waits for the server to stop. *)
Record daemon := mkDaemon {
  known_host : list IPAddress; config : Config; thread_pool : pool (T := T); manage_ctx : ManagementInterface;
  management : option ManagementContext; server : P2PServerContext; daemon_world : Management.world }.

(** [None]: the device is not activated within [polls] tests. *)
Definition main (opts : options) (env : environment) (w : Management.world) : res (option daemon) :=
  known_host ← main_hosts opts;
  '(config, fs) ← main_config opts (writable env) (disk w);
  let w := mkWorld fs (requests w) in
  if negb (folder_exists env (config_folder config)) && negb (folder_created env (config_folder config))
  then Raise Fatal else
  let thread_pool := ThreadPool_new (Z.to_nat (worker_thread_num config)) in
  let management := Management.init config in
  '(manage_ctx, _) ← ManagementInterface_new (manage_sock config) AF_UNIX (manage_socket env) (manage_bind env);
  '(device_context, management, w) ← main_dev_ctx env management w;
  d ← deref (UB NullDeref) device_context;
  started ← main_server_init env config d w;
  match started with
  | None => Ok None
  | Some (true, st) =>
      s ← deref (UB NullDeref) (Singleton.get (instance st));
      _ ← block_util_server_stop s;
      Ok (Some (mkDaemon known_host config thread_pool manage_ctx management s (ServerInit.world st)))
  | Some (false, _) => Raise Fatal
  end.

(** The calls of the system that a start with the default configuration needs. *)
Definition ready (env : environment) : Prop :=
  folder_exists env (config_folder Config_default) || folder_created env (config_folder Config_default) = true ∧
  manage_socket env ≠ -1 ∧ manage_bind env ≠ -1.

Lemma main_step opts env w hosts fs :
  main_hosts opts = Ok hosts → main_config opts (writable env) (disk w) = Ok (Config_default, fs) → ready env →
  main opts env w =
    '(device_context, management, w) ← main_dev_ctx env (Management.init Config_default) (mkWorld fs (requests w));
    d ← deref (UB NullDeref) device_context;
    started ← main_server_init env Config_default d w;
    match started with
    | None => Ok None
    | Some (true, st) =>
        s ← deref (UB NullDeref) (Singleton.get (instance st));
        _ ← block_util_server_stop s;
        Ok (Some (mkDaemon hosts Config_default (ThreadPool_new 5)
          (mkInterface None [] (Some (manage_socket env)) ∅ 0) management s (ServerInit.world st)))
    | Some (false, _) => Raise Fatal
    end.
Proof.
  intros Hh Hc (Hf & Hs & Hb). unfold main. rewrite Hh. cbn [mbind res_bind]. rewrite Hc. cbn [mbind res_bind].
  rewrite <- negb_orb, Hf. cbn [negb]. unfold ManagementInterface_new.
  rewrite bool_decide_false by (vm_compute; lia). by rewrite !bool_decide_false by done.
Qed.

(** The start of the server by [main]. *)
Lemma main_server_init_shape env d w st :
  main_server_init env Config_default d w = Ok (Some (true, st)) →
  ∃ s store, instance st = Some s ∧ _device_id s = _dev_id d ∧ _port s = 3324 ∧ _thread_ref s ≠ None ∧
    X509_verify_cert store (_client_cert s) = None ∧ _routing_map s = ∅ ∧ _peer_pool s = ∅.
Proof.
  intros Hi. apply init_shape in Hi as (cert & ca & key & c & ts & Hs & Hv & _); [|done].
  eexists _, _. split_and!; [exact Hs|done..|exact Hv|done|done].
Qed.

Context `{!YAMLLaws} `{!RapidJSONLaws}.

Definition main_register_client (env : environment) (w : Management.world) : res Management.world :=
  register_client easy_init setopt perform realloc_ok (getIPAddresses inet_ntop (interfaces env))
    (get_device_id SHA256 (this_machine env)) (Management.init Config_default) w.

(** The disk with the default configuration in the configuration file. *)
Definition configured (opts : options) (w : Management.world) : Management.world :=
  mkWorld (<[FLAGS_config opts := emit (config_node Config_default) ++ [NL]]> (disk w)) (requests w).

(** C13: the first two starts of a device.  On a new machine, without a configuration file and
    without a registration, [main] writes the default configuration, registers the
    device and then crashes, even when the registration succeeds.  Started again with
    the same options, the daemon loads both: it has the id and the token of the
    registration, neither empty, and as soon as the server starts it runs under that id with
    the default configuration, a certificate its store accepts, and no routes and no
    peers.  From there it never ends cleanly: whatever connections the management
    interface serves, its destructor faults. *)
Theorem first_run_crashes_second_starts opts env w hosts w' :
  main_hosts opts = Ok hosts → writable env = true → ready env →
  disk w !! FLAGS_config opts = None → disk w !! server_certificate_path Config_default = None →
  FLAGS_config opts ≠ server_certificate_path Config_default →
  main_register_client env (configured opts w) = Ok w' →
  main opts env w = Raise (UB NullDeref) ∧
  ∃ d, _dev_id d ≠ [] ∧ _login_token d ≠ [] ∧
    (∀ env', ∃ ctx, main_dev_ctx env' (Management.init Config_default) w' = Ok (Some d, Some ctx, w')) ∧
    ∀ env' st, ready env' → main_server_init env' Config_default d w' = Ok (Some (true, st)) →
    ∃ r store, main opts env' w' = Ok (Some r) ∧
      known_host r = hosts ∧ config r = Config_default ∧ _device_id (server r) = _dev_id d ∧ _port (server r) = 3324 ∧
      X509_verify_cert store (_client_cert (server r)) = None ∧ _routing_map (server r) = ∅ ∧ _peer_pool (server r) = ∅ ∧
      ∀ i, rtc interface_step (manage_ctx r) i → is_ok (ManagementInterface_destroy i) = false.
Proof.
  intros Hh Hw Hr Hconf Hcert Hne Hreg. split.
  - pose proof (main_config_fresh opts (disk w) Hconf) as Hc. rewrite <- Hw in Hc.
    rewrite (main_step _ _ _ _ _ Hh Hc Hr). unfold main_dev_ctx.
    by erewrite dev_ctx_unregistered; [|by simpl; rewrite lookup_insert_ne|exact Hreg].
  - destruct (dev_ctx_registered _ _ _ _ _ _ _ _ _ Hreg) as (Hdisk & d & ctx & Hid & Htok & _ & Hctx).
    exists d. split; [done|]. split; [done|]. split; [intros env'; exists ctx; apply Hctx|]. intros env' st Hr' Hst.
    assert (disk w' !! FLAGS_config opts = Some (emit (config_node Config_default) ++ [NL])) as Hc
      by (rewrite Hdisk by done; simpl; by rewrite lookup_insert_eq).
    apply (main_config_again opts (writable env')) in Hc.
    destruct (main_server_init_shape _ _ _ _ Hst) as (s & store & Hs & Hsid & Hport & Hth & Hv & Hrt & Hp).
    rewrite (main_step _ _ _ _ _ Hh Hc Hr'). unfold main_dev_ctx.
    assert (mkWorld (disk w') (requests w') = w') as -> by by destruct w'. rewrite Hctx. simpl. rewrite Hst. simpl.
    rewrite Hs. simpl. unfold block_util_server_stop. destruct (_thread_ref s); [|done]. simpl.
    eexists _, store. split_and!; [reflexivity|done..|]. simpl. intros i Hi.
    eapply interface_never_destroyed; [|exact Hi]. by eexists.
Qed.
End main.

(** ** A concrete device, to run the definitions with *)

#[local] Existing Instance ToyYAML.
#[local] Existing Instance AnswerJSON.
#[local] Existing Instance signed_codec.
#[local] Existing Instance toy_proto_codec.
#[local] Existing Instance ToySSL.

Definition toy_opts : options := mkOptions None $"p2p.yml".
Definition toy_environment : environment :=
  mkEnv true (λ _, false) (λ _, true) 5 0 (mkMachine 0 [] None None) (Some []) toy_env 3.
Definition toy_d2i (s : str) : option unit := if bool_decide (s = $"ABC") then Some () else None.
Definition toy_main : Management.world → res (option (daemon (T := unit))) :=
  main toy_package toy_store toy_add unit toy_d2i toy_parse (λ _, []) (λ _ _ _, None) all_ok every answers enough
    toy_opts toy_environment.
Definition toy_blank : Management.world := mkWorld ∅ 0.
Definition toy_registered : Management.world :=
  match main_register_client (λ _, []) (λ _ _ _, None) all_ok every answers enough toy_environment (configured toy_opts toy_blank) with
  | Ok w => w
  | Raise _ => toy_blank
  end.
Definition toy_dev_d1 : DeviceContextImpl :=
  mkDevice $"d1" $"jwt" $"http://10.10.0.118" $"/tmp/p2p_sync/device.p12" $"/tmp/p2p_sync/device.cfg".
Definition toy_server_init : res (option (bool * init_state)) :=
  main_server_init toy_package toy_store toy_add unit toy_d2i toy_parse all_ok every answers enough
    toy_environment Config_default toy_dev_d1 toy_registered.
Definition toy_init_state : init_state :=
  match toy_server_init with Ok (Some (_, st)) => st | _ => mkInit None [] toy_blank end.

Lemma first_run_crashes_second_starts_witness :
  toy_main toy_blank = Raise (UB NullDeref) ∧
  ∃ r, toy_main toy_registered = Ok (Some r) ∧ _device_id (server r) = $"d1" ∧
    is_ok (ManagementInterface_destroy (schedule_destroy 7 (manage_ctx r))) = false.
Proof.
  assert (ready toy_environment) as Hready by (split_and!; by_decide).
  destruct (first_run_crashes_second_starts (T := unit) toy_package toy_store toy_add unit toy_d2i toy_parse (λ _, [])
    (λ _ _ _, None) all_ok every answers enough (H4 := ToyYAML_laws) (H5 := AnswerJSON_laws)
    toy_opts toy_environment toy_blank [] toy_registered eq_refl eq_refl Hready eq_refl eq_refl ltac:(by_decide))
    as (Hcrash & d & _ & _ & Hctx & Hall); [vm_compute; reflexivity|].
  split; [exact Hcrash|].
  destruct (Hctx toy_environment) as [ctx Hc].
  apply (f_equal (λ r, match r with Ok (Some d, _, _) => Some d | _ => None end)) in Hc.
  assert (d = toy_dev_d1) as -> by (vm_compute in Hc; injection Hc as <-; reflexivity).
  destruct (Hall toy_environment toy_init_state Hready) as (r & store & Hr & _ & _ & Hid & _ & _ & _ & _ & Hend);
    [vm_compute; reflexivity|].
  exists r. split; [exact Hr|]. split; [exact Hid|]. apply Hend, rtc_once, step_schedule.
Defined.
