(* ===== verification/System.v ===== *)
(** The whole system: any number of packet servers with their queued tasks, the packets on
    the wire, and an environment that may put bytes of its own on it.  A step is one
    packet read, one task run or lost, or one package sent; they interleave in any order. *)
From S2P Require Import Prelude CxxString IPAddress FifoCache RoutingTable Message PeerSession Server.
From S2P Require Import Network Hello Config ManagementApi ServerInit.
From stdpp Require Import relations.
Import InstancePool RoutingTable.
Local Open Scope Z_scope.

Section system.
Context `{Protobuf SignedProtoMessage} `{Protobuf ProtoMessage} `{Protobuf Any} `{OpenSSL}.
Context `{!ProtobufLaws SignedProtoMessage SignedProtoMessage_wf}.
Context (package_pkg : ProtoHelloMessage → str → ProtoMessage).
Context (hello_handle : ProtoMessage → sockaddr_ptr → P2PServerContext → res (bool * P2PServerContext)).
Context (iteration : routes → list (str * route (ADDR := IPAddress))).

(** ** Steps *)

Definition set_tasks (ts : list task) (s : P2PServerContext) : P2PServerContext :=
  mkServer (_port s) (_device_id s) (_client_cert s) (_x509_store s) (_client_priv_key s) (_evp_md_ctx s)
    (_thread_ref s) (_peer_pool s) (_routing_map s) (_packet_cache s) ts.

(** The servers, and what is on the wire to whom. *)
Definition sys_state : Type := gmap N P2PServerContext * list (N * str).

(** [inject]: what the environment can send to a server. *)
Inductive sys_step (inject : N → str → Prop) : sys_state → sys_state → Prop :=
  | sys_inject servers wire i bytes :
      inject i bytes → sys_step inject (servers, wire) (servers, wire ++ [(i, bytes)])
  | sys_receive servers l1 l2 i s bytes sin s' buf :                (** the libevent thread *)
      servers !! i = Some s → read_callback iteration bytes sin s = Ok (s', buf) →
      sys_step inject (servers, l1 ++ (i, bytes) :: l2) (<[i := s']> servers, l1 ++ l2)
  | sys_send servers wire i s t1 t2 n p m ip b m' out node :        (** a worker runs a sending task *)
      servers !! i = Some s → _tasks s = t1 ++ SendTcp p m ip :: t2 →
      send_packet_tcp n p m ip = Ok (b, m', out) →
      sys_step inject (servers, wire)
        (<[i := set_tasks (t1 ++ t2) s]> servers, wire ++ if b : bool then [(node, out)] else [])
  | sys_lose servers wire i s t1 t t2 :                             (** or two workers drop one *)
      servers !! i = Some s → _tasks s = t1 ++ t :: t2 →
      sys_step inject (servers, wire) (<[i := set_tasks (t1 ++ t2) s]> servers, wire)
  | sys_handle servers wire i s t1 t2 m sin s' :                    (** or a handling task *)
      servers !! i = Some s → _tasks s = t1 ++ Handle m sin :: t2 →
      handle hello_handle m sin (set_tasks (t1 ++ t2) s) = Ok s' →
      sys_step inject (servers, wire) (<[i := s']> servers, wire)
  | sys_originate servers wire i s data ip b s' :                   (** a package of the device's own *)
      servers !! i = Some s → send_pkg data (Some ip) s = Ok (b, s') →
      sys_step inject (servers, wire) (<[i := s']> servers, wire).

Definition sys_reachable (inject : N → str → Prop) (servers0 : gmap N P2PServerContext) : sys_state → Prop :=
  rtc (sys_step inject) (servers0, []).

(** ** Well-formed servers *)

(** What no operation changes. *)
Definition identity (s : P2PServerContext) : Z * str * x509 * x509_store * pkey :=
  (_port s, _device_id s, _client_cert s, _x509_store s, _client_priv_key s).

Definition route_ok (r : route (ADDR := IPAddress)) : Prop := is_Some (hop r) ∧ in_u32 (ttl r).
Definition routes_ok (m : routes) : Prop := map_Forall (λ _, route_ok) m.
Definition task_ok (port : Z) (t : task) : Prop :=
  match t with
  | SendTcp p m ip => p = port ∧ SignedProtoMessage_wf m ∧ is_Some ip
  | Handle m _ => SignedProtoMessage_wf m
  end.

(** The members hold values of their types, no address in the table or in a task is null,
    and the duplicate filter is a full queue with its ids. *)
Definition server_wf (s : P2PServerContext) : Prop :=
  0 <= _port s < 2 ^ 16 ∧ cache_ok (_packet_cache s) ∧ routes_ok (_routing_map s) ∧
  Forall (task_ok (_port s)) (_tasks s).

Lemma add_new_route_ok d ip t m : routes_ok m → routes_ok (add_new_route d (Some ip) t m).2.
Proof.
  intros Hm. unfold add_new_route. destruct (m !! d); [done|]. simpl.
  apply map_Forall_insert_2; [|done]. split; [by eexists|apply wrapu_range; lia].
Qed.

Lemma try_update_table_ok d ip t m : routes_ok m → routes_ok (try_update_table d (Some ip) t m).2.
Proof.
  intros Hm. unfold try_update_table, update_locked. destruct (m !! d); [|done].
  destruct (upgradeable t _); [|done]. simpl.
  apply map_Forall_insert_2; [|done]. split; [by eexists|apply wrapu_range; lia].
Qed.

Lemma broadcast_identity msg s : identity (broadcast iteration msg s) = identity s.
Proof.
  unfold broadcast. generalize (iteration (get_routing_table (_routing_map s))). intros l. revert s.
  induction l as [|node l IH]; intros s; simpl; [done|]. by rewrite IH.
Qed.

Lemma own_task_ok port peer ts : is_Some peer → Forall (own_task port peer) ts → Forall (task_ok port) ts.
Proof. intros Hp Hts. eapply Forall_impl; [exact Hts|]. by intros ? (m & -> & Hm & _). Qed.

Lemma send_pkg_wf data ip s b s' :
  send_pkg data (Some ip) s = Ok (b, s') → server_wf s →
  server_wf s' ∧ identity s' = identity s ∧ _routing_map s' = _routing_map s ∧ _peer_pool s' = _peer_pool s.
Proof.
  intros (c & ts & -> & Hts)%send_pkg_shape (Hp & Hc & Hr & Ht). split; [|done].
  split; [done|]. split; [done|]. split; [done|]. simpl. apply Forall_app_2; [done|]. by eapply own_task_ok.
Qed.

(** Sending, reading and handling keep a server well-formed, and reading never faults. *)
Section preservation.
Hypothesis iteration_visits : ∀ m, iteration m ≡ₚ map_to_list m.

Lemma broadcast_ok msg s :
  SignedProtoMessage_wf msg → routes_ok (_routing_map s) → Forall (task_ok (_port s)) (_tasks s) →
  Forall (task_ok (_port s)) (_tasks (broadcast iteration msg s)).
Proof.
  intros Hmsg Hr Ht. rewrite broadcast_tasks. apply Forall_app_2; [done|]. apply Forall_fmap, Forall_forall.
  intros [d r] Hin. rewrite iteration_visits, elem_of_map_to_list in Hin. simpl.
  split; [done|]. split; [done|]. exact (proj1 (Hr d r Hin)).
Qed.

Lemma handle_packet_wf msg sin s :
  SignedProtoMessage_wf msg → server_wf s →
  ∃ s', handle_packet iteration msg sin s = Ok s' ∧ server_wf s' ∧ identity s' = identity s ∧
    _routing_map s' = _routing_map s ∧ _peer_pool s' = _peer_pool s.
Proof.
  intros Hmsg (Hp & Hc & Hr & Ht). unfold handle_packet. case_bool_decide; [by exists s|].
  destruct (is_cached_ok (signature msg) _ Hc) as (b & c' & -> & Hc' & _). simpl.
  destruct b; [by exists (set_cache c' s)|]. case_bool_decide.
  - destruct (bool_decide (sp_ttl msg > 1) && can_delivered (sp_receiver msg) (_routing_map s)) eqn:E.
    + apply andb_prop in E as [_ E]. unfold can_delivered, get_next_peer in *.
      destruct (_routing_map s !! sp_receiver msg) as [r|] eqn:Er; [|done]. simpl.
      eexists. split; [done|]. split; [|done]. split; [done|]. split; [done|]. split; [done|].
      simpl. apply Forall_app_2; [done|]. apply Forall_singleton. split_and!; [done|done|exact (proj1 (Hr _ _ Er))].
    + eexists. split; [done|]. destruct (broadcast_frame iteration msg (set_cache c' s)) as (Hbr & Hbc & Hbi & Hbp).
      pose proof (broadcast_identity msg (set_cache c' s)) as Hid.
      pose proof (f_equal (λ i, i.1.1.1.1) Hid) as Hport. simpl in Hport.
      rewrite Hbr, Hbp, Hid. split; [|done]. unfold server_wf. rewrite Hport, Hbc, Hbr.
      split; [done|]. split; [done|]. split; [done|]. by apply (broadcast_ok msg (set_cache c' s)).
  - eexists. split; [done|]. split; [|done]. split; [done|]. split; [done|]. split; [done|].
    simpl. by apply Forall_app_2; [|apply Forall_singleton].
Qed.

Lemma read_callback_wf bytes sin s :
  server_wf s →
  ∃ s', read_callback iteration bytes sin s = Ok (s', bytes) ∧ server_wf s' ∧ identity s' = identity s ∧
    _routing_map s' = _routing_map s ∧ _peer_pool s' = _peer_pool s.
Proof.
  intros Hs. unfold read_callback. case_bool_decide; [by exists s|]. case_bool_decide; [by exists s|].
  pose proof (parse_wf (take (Z.to_nat (of_le32 (take 4 bytes))) (drop 4 bytes))) as Hmsg.
  destruct (ParseFromString _) as [b msg]. simpl in *.
  destruct (handle_packet_wf msg sin s Hmsg Hs) as (s' & -> & Hs'). simpl. eauto.
Qed.
End preservation.

(** Handling, for any handler of hellos that calls [internal_handle]. *)
Section handling.
Context (inet_ntop : Z → Z → Z → option str).
Hypothesis hello_calls : ∀ m a s b s', hello_handle m a s = Ok (b, s') →
  ∃ message port ttl, internal_handle package_pkg inet_ntop message port a ttl s = Ok (b, s').

Lemma ensure_session_frame message s s1 :
  ensure_session message s = Some s1 →
  ∃ p, s1 = set_peers p s.
Proof.
  unfold ensure_session. destruct (get_instance _ _); [intros [= <-]; exists (_peer_pool s); by destruct s|].
  destruct (new_session _ _).1; [|done]. intros [= <-]. eauto.
Qed.

Lemma internal_handle_wf message port a ttl s b s' :
  internal_handle package_pkg inet_ntop message port a ttl s = Ok (b, s') → server_wf s →
  server_wf s' ∧ identity s' = identity s.
Proof.
  unfold internal_handle. destruct (ensure_session message s) as [s1|] eqn:E; [|by intros [= _ <-]].
  apply ensure_session_frame in E as [p ->]. intros Hh (Hp & Hc & Hr & Ht).
  bind Hh as sa _. bind Hh as ip _.
  destruct (can_delivered _ _).
  - destruct (try_update_table _ _ _ _) as [u m] eqn:Eu.
    bind Hh as hello _. apply res_bind_ok in Hh as ([b' s2] & Hs & [= _ <-]).
    apply send_pkg_wf in Hs as (? & -> & _); [done|]. split; [done|]. split; [done|]. split; [|done]. simpl.
    change m with (u, m).2. rewrite <- Eu. by apply try_update_table_ok.
  - injection Hh as _ <-. split; [|done]. split; [done|]. split; [done|]. split; [|done]. by apply add_new_route_ok.
Qed.

Lemma handle_wf msg sin s s' :
  handle hello_handle msg sin s = Ok s' → server_wf s → server_wf s' ∧ identity s' = identity s.
Proof.
  unfold handle. case_bool_decide.
  - intros ([b s1] & (message & port & ttl & Hh)%hello_calls & [= <-])%res_bind_ok. by eapply internal_handle_wf.
  - destruct (get_instance _ _) as [checker|]; [|by intros [= <-]].
    by intros ([b checker'] & _ & [= <-])%res_bind_ok.
Qed.
End handling.
(** ** Reachable states *)

(** What a step does to the server it is a step of. *)
Inductive server_step : P2PServerContext → P2PServerContext → Prop :=
  | step_read bytes sin s s' buf : read_callback iteration bytes sin s = Ok (s', buf) → server_step s s'
  | step_sent t1 t t2 s :
      _tasks s = t1 ++ t :: t2 → server_step s (set_tasks (t1 ++ t2) s)
  | step_handled t1 t2 m sin s s' :
      _tasks s = t1 ++ Handle m sin :: t2 →
      handle hello_handle m sin (set_tasks (t1 ++ t2) s) = Ok s' → server_step s s'
  | step_originated data ip b s s' : send_pkg data (Some ip) s = Ok (b, s') → server_step s s'.

Lemma sys_step_server inject st st' :
  sys_step inject st st' →
  st'.1 = st.1 ∨ ∃ i s s', st.1 !! i = Some s ∧ server_step s s' ∧ st'.1 = <[i := s']> st.1.
Proof. intros []; [by left|right; eexists _, _, _; split_and!; [done| |done]; by econstructor..]. Qed.

(** A relation to the initial server that every step keeps holds in every reachable state. *)
Lemma reachable_invariant inject servers0 st (P : P2PServerContext → P2PServerContext → Prop) :
  (∀ i s0, servers0 !! i = Some s0 → P s0 s0) →
  (∀ s0 s s', P s0 s → server_step s s' → P s0 s') →
  sys_reachable inject servers0 st →
  ∀ i s, st.1 !! i = Some s → ∃ s0, servers0 !! i = Some s0 ∧ P s0 s.
Proof.
  intros Hinit Hstep Hr. refine (rtc_ind_r (λ st, ∀ i s, st.1 !! i = Some s → ∃ s0, servers0 !! i = Some s0 ∧ P s0 s) _ _ _ st Hr).
  - intros i s Hs. eauto.
  - intros st1 st2 _ Hs IH i s Hi. apply sys_step_server in Hs as [E|(j & s1 & s2 & Hj & Hs & E)]; rewrite E in Hi; [by apply IH|].
    apply lookup_insert_Some in Hi as [[-> <-]|[_ Hi]]; [|by apply IH].
    destruct (IH _ _ Hj) as (s0 & Hs0 & Hp). eauto.
Qed.

Section invariants.
Context (inet_ntop : Z → Z → Z → option str).
Hypothesis iteration_visits : ∀ m, iteration m ≡ₚ map_to_list m.
Hypothesis hello_calls : ∀ m a s b s', hello_handle m a s = Ok (b, s') →
  ∃ message port ttl, internal_handle package_pkg inet_ntop message port a ttl s = Ok (b, s').

Lemma set_tasks_wf t1 t t2 s : _tasks s = t1 ++ t :: t2 → server_wf s → server_wf (set_tasks (t1 ++ t2) s).
Proof.
  intros Hts (Hp & Hc & Hr & Ht). split; [done|]. split; [done|]. split; [done|]. simpl.
  rewrite Hts, Forall_app, Forall_cons in Ht. apply Forall_app_2; tauto.
Qed.

Lemma server_step_wf s s' : server_step s s' → server_wf s → server_wf s' ∧ identity s' = identity s.
Proof.
  intros [bytes sin s1 s2 buf Hr|t1 t t2 s1 Ht|t1 t2 m sin s1 s2 Ht Hh|data ip b s1 s2 Hs] Hwf.
  - destruct (read_callback_wf iteration_visits bytes sin _ Hwf) as (s3 & Hr' & ? & ? & _). rewrite Hr in Hr'. by injection Hr' as -> _.
  - split; [by eapply set_tasks_wf|done].
  - apply (handle_wf inet_ntop hello_calls) in Hh; [done|by eapply set_tasks_wf].
  - apply send_pkg_wf in Hs; tauto.
Qed.

(** C9: the running system is well typed.  Whatever bytes the environment sends, and however
    reading, sending and handling interleave, every server of a system that starts
    well-formed stays well-formed and keeps its identity; its duplicate filter never
    holds more ids than its capacity; reading any bytes ends without a fault; and no
    task that was queued to send dereferences a null address. *)
Theorem system_well_typed inject servers0 st i s :
  map_Forall (λ _, server_wf) servers0 → sys_reachable inject servers0 st → st.1 !! i = Some s →
  server_wf s ∧ (∃ s0, servers0 !! i = Some s0 ∧ identity s = identity s0) ∧
  (size (_cache_map (_packet_cache s)) ≤ _max_cache_size (_packet_cache s))%nat ∧
  (∀ bytes sin, ∃ s', read_callback iteration bytes sin s = Ok (s', bytes)) ∧
  (∀ n p m ip, SendTcp p m ip ∈ _tasks s → send_packet_tcp n p m ip ≠ Raise (UB NullDeref)).
Proof.
  intros Hwf Hr Hi.
  destruct (reachable_invariant inject servers0 st (λ s0 s, server_wf s ∧ identity s = identity s0)
    (λ i s0 Hi0, conj (Hwf i s0 Hi0) eq_refl)) with i s as (s0 & Hs0 & Hs & Hid); [|done|done|].
  { intros s0 s1 s2 [Hs Hid] Hstep. destruct (server_step_wf _ _ Hstep Hs) as [? ->]. done. }
  split; [done|]. split; [by exists s0|]. split; [apply cache_ok_bounded; apply Hs|]. split.
  - intros bytes sin. destruct (read_callback_wf iteration_visits bytes sin s Hs) as (s' & Hs' & _). eauto.
  - intros n p m ip Hin. destruct Hs as (_ & _ & _ & Ht). rewrite Forall_forall in Ht.
    destruct (Ht _ Hin) as (_ & _ & [a ->]). unfold send_packet_tcp. simpl.
    case_bool_decide; [done|]. destruct (inet_pton n (ip_address a)). by repeat case_bool_decide.
Qed.

Lemma server_step_verified s s' :
  server_step s s' → server_wf s → peers_verified s → peers_verified s'.
Proof.
  intros [bytes sin s1 s2 buf Hr|t1 t t2 s1 Ht|t1 t2 m sin s1 s2 Ht Hh|data ip b s1 s2 Hs] Hwf Hv.
  - destruct (read_callback_wf iteration_visits bytes sin _ Hwf) as (s3 & Hr' & _ & Hid & _ & Hp).
    rewrite Hr in Hr'. injection Hr' as -> _. unfold peers_verified. rewrite Hp.
    injection Hid as _ _ _ -> _. exact Hv.
  - exact Hv.
  - eapply handle_keeps_peers_verified; [exact hello_calls| |exact Hh]. exact Hv.
  - destruct (send_pkg_frame _ _ _ _ _ Hs) as (_ & Hp & Hst & _). unfold peers_verified. by rewrite Hp, Hst.
Qed.

(** ** Routes *)

(** No session is null, and every destination of the routing table has a session. *)
Definition routes_known (s : P2PServerContext) : Prop :=
  map_Forall (λ _ i, is_Some i) (_peer_pool s) ∧ ∀ d, is_Some (_routing_map s !! d) → is_Some (_peer_pool s !! d).

(** No destination of the first table is lost, or farther in the second. *)
Definition no_worse (m0 m : routes) : Prop := ∀ d r0, m0 !! d = Some r0 → ∃ r, m !! d = Some r ∧ ttl r <= ttl r0.

#[global] Instance no_worse_preorder : PreOrder no_worse.
Proof.
  split; [intros m d r Hr; exists r; split; [done|lia]|].
  intros m1 m2 m3 H12 H23 d r1 Hr1. destruct (H12 d r1 Hr1) as (r2 & Hr2 & ?). destruct (H23 d r2 Hr2) as (r3 & ? & ?).
  exists r3. split; [done|lia].
Qed.

Lemma try_update_table_routes d i t m :
  no_worse m (try_update_table d i t m).2 ∧ ∀ d', is_Some ((try_update_table d i t m).2 !! d') → is_Some (m !! d').
Proof.
  unfold try_update_table, update_locked. destruct (m !! d) as [r|] eqn:E; [|by split].
  destruct (upgradeable t r) eqn:Eu; [|by split]. simpl. split.
  - intros d' r' Hr'. destruct (decide (d' = d)) as [->|]; [|rewrite lookup_insert_ne by done; exists r'; split; [done|lia]].
    rewrite E in Hr'. injection Hr' as <-. exists (mkRoute i (u32 t)). split; [apply lookup_insert_eq|].
    apply bool_decide_eq_true_1 in Eu. simpl. lia.
  - intros d'. destruct (decide (d' = d)) as [->|]; [rewrite E; by eexists|by rewrite lookup_insert_ne].
Qed.

Lemma add_new_route_no_worse d i t m : no_worse m (add_new_route d i t m).2.
Proof.
  unfold add_new_route. destruct (m !! d) eqn:E; [done|]. simpl. intros d' r' Hr'.
  exists r'. split; [|lia]. rewrite lookup_insert_ne; [done|]. intros ->. congruence.
Qed.

Lemma ensure_session_known message s s1 :
  ensure_session message s = Some s1 → routes_known s →
  routes_known s1 ∧ is_Some (_peer_pool s1 !! sender_id message) ∧ _routing_map s1 = _routing_map s.
Proof.
  unfold ensure_session, get_instance. destruct (_peer_pool s !! sender_id message) as [[i|]|] eqn:E.
  - intros [= <-] Hk. split; [done|]. split; [by rewrite E; eexists|done].
  - intros _ [Hf _]. by destruct (Hf _ _ E).
  - destruct (new_session _ _).1 as [session|]; [|done]. intros [= <-] [Hf Hk]. unfold add_instance, set_peers, routes_known.
    rewrite E. simpl. split; [|split; [by rewrite lookup_insert_eq; eexists|done]]. split; [by apply map_Forall_insert_2|].
    intros d Hd. destruct (decide (d = sender_id message)) as [->|]; [by rewrite lookup_insert_eq; eexists|].
    rewrite lookup_insert_ne by done. by apply Hk.
Qed.

Lemma internal_handle_routes message port a ttl s b s' :
  internal_handle package_pkg inet_ntop message port a ttl s = Ok (b, s') → routes_known s →
  routes_known s' ∧ no_worse (_routing_map s) (_routing_map s').
Proof.
  unfold internal_handle. destruct (ensure_session message s) as [s1|] eqn:E; [|by intros [= _ <-]].
  intros Hh Hk. destruct (ensure_session_known _ _ _ E Hk) as ([Hf1 Hk1] & Hs1 & <-).
  bind Hh as sa _. bind Hh as ip _. destruct (can_delivered _ _).
  - destruct (try_update_table _ _ _ _) as [u m] eqn:Eu. bind Hh as hello _.
    apply res_bind_ok in Hh as ([b' s2] & Hs & [= _ <-]). destruct (send_pkg_frame _ _ _ _ _ Hs) as (Hr & Hp & _).
    destruct (try_update_table_routes (sender_id message) (Some ip) ttl (_routing_map s1)) as [Hn Hd]. rewrite Eu in Hn, Hd.
    unfold routes_known. rewrite Hr, Hp. simpl in *. split; [|done]. split; [done|]. intros d Hd'. by apply Hk1, Hd.
  - injection Hh as _ <-. split; [|apply add_new_route_no_worse]. split; [done|]. simpl. intros d.
    unfold add_new_route. destruct (_routing_map s1 !! sender_id message) eqn:Er; [apply Hk1|]. simpl.
    destruct (decide (d = sender_id message)) as [->|]; [done|]. rewrite lookup_insert_ne by done. apply Hk1.
Qed.

Lemma server_step_routes s s' :
  server_step s s' → server_wf s → routes_known s → routes_known s' ∧ no_worse (_routing_map s) (_routing_map s').
Proof.
  intros [bytes sin s1 s2 buf Hr|t1 t t2 s1 Ht|t1 t2 m sin s1 s2 Ht Hh|data ip b s1 s2 Hs] Hwf Hk.
  - destruct (read_callback_wf iteration_visits bytes sin _ Hwf) as (s3 & Hr' & _ & _ & Hrt & Hp).
    rewrite Hr in Hr'. injection Hr' as -> _. unfold routes_known. by rewrite Hrt, Hp.
  - done.
  - unfold handle in Hh. case_bool_decide.
    { apply res_bind_ok in Hh as ([b s3] & (message & port & ttl & Hh)%hello_calls & [= <-]).
      by apply (internal_handle_routes _ _ _ _ _ _ _ Hh). }
    destruct (get_instance _ _) as [checker|]; [|by injection Hh as <-].
    apply res_bind_ok in Hh as ([b checker'] & _ & [= <-]). split; [|done]. destruct Hk as [Hf Hk]. split; simpl.
    + by apply map_Forall_insert_2; [eexists|].
    + intros d Hd. destruct (decide (d = pm_sender (ParseFromString (signed_payload m)).2)) as [->|];
        [by rewrite lookup_insert_eq; eexists|]. rewrite lookup_insert_ne by done. by apply Hk.
  - destruct (send_pkg_frame _ _ _ _ _ Hs) as (Hrt & Hp & _). unfold routes_known. by rewrite Hrt, Hp.
Qed.

(** Trust in the running system.  Whatever the environment sends, in every interleaving,
    every session a server ever keeps for a peer has the key of a certificate that the
    certificate store the server started with accepts; every destination of its routing
    table has such a session; and a destination it knew at the start is never lost and
    never gets farther away. *)
Theorem system_peers_verified inject servers0 st i s :
  map_Forall (λ _ s, server_wf s ∧ peers_verified s ∧ routes_known s) servers0 →
  sys_reachable inject servers0 st → st.1 !! i = Some s →
  ∃ s0, servers0 !! i = Some s0 ∧
    (∀ id session, get_instance id (_peer_pool s) = Some session →
       ∃ cert, X509_verify_cert (_x509_store s0) cert = None ∧ _public_key session = X509_get_pubkey cert) ∧
    (∀ d, can_delivered d (_routing_map s) = true → is_Some (get_instance d (_peer_pool s))) ∧
    no_worse (_routing_map s0) (_routing_map s).
Proof.
  intros Hwf Hr Hi.
  destruct (reachable_invariant inject servers0 st (λ s0 s, server_wf s ∧ peers_verified s ∧ _x509_store s = _x509_store s0 ∧
      routes_known s ∧ no_worse (_routing_map s0) (_routing_map s)))
    with i s as (s0 & Hs0 & Hs & Hv & Hst & [Hf Hk] & Hn); [| |done|done|].
  - intros j s0 Hj. by destruct (Hwf j s0 Hj) as (? & ? & ?).
  - intros s0 s1 s2 (Hs & Hv & Hst & Hk & Hn) Hstep. destruct (server_step_wf _ _ Hstep Hs) as [? Hid].
    destruct (server_step_routes _ _ Hstep Hs Hk) as [? Hn'].
    split; [done|]. split; [by eapply server_step_verified|]. split; [by injection Hid as _ _ _ -> _|].
    split; [done|]. by etrans.
  - exists s0. split; [done|]. rewrite <- Hst. split; [intros id session Hsess; exact (Hv _ _ Hsess)|]. split; [|done].
    intros d Hd. unfold can_delivered in Hd. destruct (_routing_map s !! d) eqn:Ed; [|done].
    destruct (Hk d) as [i' Hi']; [by rewrite Ed; eexists|]. unfold get_instance. rewrite Hi'. by apply (Hf d).
Qed.
End invariants.

(** ** The system without an adversary *)

(** Only messages without a receiver are queued, and only frames of such are on the wire. *)
Definition quiet_message (m : SignedProtoMessage) : Prop := SignedProtoMessage_wf m ∧ sp_receiver m = [].
Definition quiet_task (t : task) : Prop := ∃ p m ip, t = SendTcp p m ip ∧ quiet_message m.
Definition quiet_wire (bytes : str) : Prop := ∃ m, bytes = frame m ∧ fits m ∧ quiet_message m.

Lemma own_task_quiet port peer ts : Forall (own_task port peer) ts → Forall quiet_task ts.
Proof. intros Hts. eapply Forall_impl; [exact Hts|]. intros ? (m & -> & ? & ?). by exists port, m, peer. Qed.

Lemma handle_packet_quiet msg sin s s' :
  quiet_message msg → _device_id s ≠ [] → Forall quiet_task (_tasks s) →
  handle_packet iteration msg sin s = Ok s' → Forall quiet_task (_tasks s').
Proof.
  intros [Hm Hr] Hid Ht. unfold handle_packet. case_bool_decide; [by intros [= <-]|].
  intros ([b c] & _ & Hs)%res_bind_ok. destruct b; [by injection Hs as <-|].
  rewrite bool_decide_true in Hs by (simpl; congruence). destruct (_ && _).
  - apply res_bind_ok in Hs as (h & _ & [= <-]). simpl. apply Forall_app_2; [done|]. apply Forall_singleton.
    by exists (_port s), msg, h.
  - injection Hs as <-. rewrite broadcast_tasks. apply Forall_app_2; [done|]. apply Forall_fmap, Forall_true.
    intros r. simpl. by exists (_port s), msg, (hop r.2).
Qed.

(** What a closed run keeps for one server, and for the state. *)
Definition quiet_server (s0 s : P2PServerContext) : Prop :=
  server_wf s ∧ identity s = identity s0 ∧ _routing_map s = _routing_map s0 ∧ _peer_pool s = _peer_pool s0 ∧
  Forall quiet_task (_tasks s).
Definition quiet_state (servers0 : gmap N P2PServerContext) (st : sys_state) : Prop :=
  (∀ i s, st.1 !! i = Some s → ∃ s0, servers0 !! i = Some s0 ∧ _device_id s0 ≠ [] ∧ quiet_server s0 s) ∧
  Forall (λ p, quiet_wire p.2) st.2.

Lemma quiet_update servers0 servers i s s' wire wire' :
  quiet_state servers0 (servers, wire) → servers !! i = Some s →
  (∀ s0, quiet_server s0 s → _device_id s0 ≠ [] → quiet_server s0 s') → Forall (λ p, quiet_wire p.2) wire' →
  quiet_state servers0 (<[i := s']> servers, wire').
Proof.
  intros [Hs Hw] Hi Hk Hw'. split; [|done]. simpl. intros j t [[-> <-]|[_ Hj]]%lookup_insert_Some; [|by apply Hs].
  destruct (Hs _ _ Hi) as (s0 & ? & ? & ?). exists s0. split; [done|]. split; [done|]. by apply Hk.
Qed.

Section closed.
Hypothesis iteration_visits : ∀ m, iteration m ≡ₚ map_to_list m.

Lemma quiet_step servers0 st st' :
  sys_step (λ _ _, False) st st' → quiet_state servers0 st → quiet_state servers0 st'.
Proof.
  intros [servers wire i bytes []|servers l1 l2 i s bytes sin s' buf Hi Hr|servers wire i s t1 t2 n p m ip b m' out node Hi Ht Hs
    |servers wire i s t1 t t2 Hi Ht|servers wire i s t1 t2 m sin s' Hi Ht Hh|servers wire i s data ip b s' Hi Hs] Hq;
    pose proof (proj2 Hq) as Hw; simpl in Hw.
  - apply Forall_app in Hw as [Hw1 [Hb Hw2]%Forall_cons]. eapply quiet_update; [exact Hq|exact Hi| |by apply Forall_app_2].
    destruct Hb as (m & Hb & Hf & Hm). simpl in Hb. subst bytes. intros s0 (Hwf & Hid & Hrt & Hp & Ht) Hne.
    destruct (read_callback_wf iteration_visits (frame m) sin s Hwf) as (s3 & Hr' & Hwf' & Hid' & Hrt' & Hp').
    rewrite Hr in Hr'. injection Hr' as -> _. split; [done|]. split; [by rewrite Hid'|]. split; [by rewrite Hrt'|]. split; [by rewrite Hp'|].
    rewrite (read_callback_frame iteration) in Hr by (done || apply Hm). apply res_bind_ok in Hr as (s4 & Hr & [= <- _]).
    eapply handle_packet_quiet; [exact Hm| |exact Ht|exact Hr]. by injection Hid as _ -> _ _ _.
  - assert (quiet_message m) as Hm.
    { destruct Hq as [Hq _]. destruct (Hq _ _ Hi) as (s0 & _ & _ & _ & _ & _ & _ & Hts). rewrite Ht in Hts.
      apply Forall_app in Hts as [_ [Hts _]%Forall_cons]. by destruct Hts as (? & ? & ? & [= -> -> ->] & ?). }
    eapply quiet_update; [exact Hq|exact Hi| |].
    + intros s0 (Hwf & Hid & Hrt & Hp & Hts) _. split; [by eapply set_tasks_wf|]. split_and!; [done..|].
      simpl. rewrite Ht, Forall_app, Forall_cons in Hts. apply Forall_app_2; tauto.
    + apply Forall_app_2; [done|]. destruct b; [|constructor]. apply Forall_singleton. simpl.
      apply send_packet_tcp_ok in Hs as (-> & -> & Hf). exists (forwarded p m). split; [done|]. split; [done|].
      split; [apply forwarded_wf, Hm|exact (proj2 Hm)].
  - eapply quiet_update; [exact Hq|exact Hi| |done].
    intros s0 (Hwf & Hid & Hrt & Hp & Hts) _. split; [by eapply set_tasks_wf|]. split_and!; [done..|].
    simpl. rewrite Ht, Forall_app, Forall_cons in Hts. apply Forall_app_2; tauto.
  - destruct (proj1 Hq _ _ Hi) as (s0 & _ & _ & _ & _ & _ & _ & Hts). rewrite Ht in Hts.
    apply Forall_app in Hts as [_ [Hts _]%Forall_cons]. by destruct Hts as (? & ? & ? & ? & _).
  - eapply quiet_update; [exact Hq|exact Hi| |done]. intros s0 (Hwf & Hid & Hrt & Hp & Hts) _.
    pose proof (send_pkg_shape _ _ _ _ _ Hs) as (c & ts & Es & Hown).
    apply send_pkg_wf in Hs as (Hwf' & Hid' & Hrt' & Hp'); [|done].
    split; [done|]. split; [by rewrite Hid'|]. split; [by rewrite Hrt'|]. split; [by rewrite Hp'|].
    rewrite Es. simpl. apply Forall_app_2; [done|]. by eapply own_task_quiet.
Qed.

Lemma quiet_reachable servers0 st :
  map_Forall (λ _ s, server_wf s ∧ _device_id s ≠ [] ∧ Forall quiet_task (_tasks s)) servers0 →
  sys_reachable (λ _ _, False) servers0 st → quiet_state servers0 st.
Proof.
  intros Hwf Hr. refine (rtc_ind_r (quiet_state servers0) _ _ _ st Hr).
  - split; [|constructor]. intros i s Hi. destruct (Hwf i s Hi) as (? & ? & ?). exists s. by split_and!.
  - intros st1 st2 _ Hs. by apply quiet_step.
Qed.
End closed.

(** ** From the start *)

Section started.
Context {W D DeviceInfo PeerList : Type} `{!IDeviceContext W D DeviceInfo PeerList} `{!IPeerListResponse PeerList}.
Context (X509_STORE_new : x509_store) (X509_STORE_add_cert : x509_store → x509 → x509_store).
Context (PKCS12 : Type) (d2i_PKCS12_fp : str → W → option PKCS12)
  (PKCS12_parse : PKCS12 → str → option (pkey * x509 * list x509)).
Hypothesis iteration_visits : ∀ m, iteration m ≡ₚ map_to_list m.

(** A server as a successful [init] leaves it. *)
Definition started (s : P2PServerContext) : Prop :=
  ∃ fuel env config dev st st',
    Config_wf config ∧ packet_cache_size config ≠ 0 ∧ device_id (W := W) dev ≠ [] ∧ instance st = None ∧
    init package_pkg X509_STORE_new X509_STORE_add_cert PKCS12 d2i_PKCS12_fp PKCS12_parse fuel env config dev st =
      Ok (Some (true, st')) ∧ instance st' = Some s.

Lemma started_quiet s :
  started s → server_wf s ∧ _device_id s ≠ [] ∧ Forall quiet_task (_tasks s) ∧ _routing_map s = ∅ ∧ _peer_pool s = ∅.
Proof.
  intros (fuel & env & config & dev & st & st' & (_ & Hc & Hp) & Hsize & Hid & Hnone & Hinit & Hinst).
  destruct (init_shape _ _ _ _ _ _ _ _ _ _ _ _ Hnone Hinit) as (cert & ca & key & c & ts & Hs & _ & _ & Hts).
  rewrite Hinst in Hs. injection Hs as ->. simpl. split; [|split_and!; [done| |done|done]].
  - split; [done|]. split; [apply FIFOCache_new_ok; unfold packet_cache_size in *; lia|]. split; [apply map_Forall_empty|].
    simpl. eapply Forall_impl; [exact Hts|]. by intros t (ip & m & -> & Hm & _).
  - eapply Forall_impl; [exact Hts|]. intros t (ip & m & -> & ? & ?). by exists (p2p_port config), m, (Some ip).
Qed.

(** Devices never find each other.  In a system of started devices that receive only what
    the devices of the system send, however many hellos and other packages they send and
    however the steps interleave, no device ever learns a route or a peer, and no packet
    is ever handed to the packet handler: what [send_pkg] sends names no receiver, so
    every device takes it for a packet to redirect. *)
Theorem no_route_is_ever_learned servers0 st i s :
  map_Forall (λ _, started) servers0 → sys_reachable (λ _ _, False) servers0 st → st.1 !! i = Some s →
  get_online_peers s = ∅ ∧ _peer_pool s = ∅ ∧ ∀ m sin, Handle m sin ∉ _tasks s.
Proof.
  intros Hst Hr Hi. destruct (quiet_reachable iteration_visits servers0 st) as [Hq _]; [|done|].
  { eapply map_Forall_impl; [exact Hst|]. intros j s0 (? & ? & ? & _)%started_quiet. done. }
  destruct (Hq _ _ Hi) as (s0 & Hs0 & _ & _ & _ & Hrt & Hp & Ht).
  destruct (started_quiet s0 (Hst _ _ Hs0)) as (_ & _ & _ & Hrt0 & Hp0).
  split; [exact (eq_trans Hrt Hrt0)|]. split; [by rewrite Hp|].
  intros m sin Hin. rewrite Forall_forall in Ht. by destruct (Ht _ Hin) as (? & ? & ? & ? & _).
Qed.
End started.
End system.

(** ** Concrete systems, to run the definitions with *)

#[local] Existing Instance signed_codec.
#[local] Existing Instance signed_codec_laws.
#[local] Existing Instance toy_proto_codec.
#[local] Existing Instance toy_any_codec.
#[local] Existing Instance ToySSL.
#[local] Existing Instance toy_device.
#[local] Existing Instance toy_peer_list.

Lemma toy_hello_calls m a s b s' :
  toy_hello_handle m a s = Ok (b, s') →
  ∃ message port ttl, internal_handle toy_package toy_ntop message port a ttl s = Ok (b, s').
Proof. intros Hh. exists (mkHello (pm_sender m) [] $"cert"), 3324, 9. exact Hh. Qed.

(** A device [b] with a route to [a] and a session for it. *)
Definition toy_peer : @P2PServerContext ToySSL :=
  set_peers {[$"a" := Some (@PeerSession_new ToySSL 4)]} (toy_server $"b" {[$"a" := mkRoute (Some toy_ip) 3]}).
Definition toy_system : gmap N (@P2PServerContext ToySSL) := {[0%N := toy_peer]}.

Lemma toy_peer_wf : server_wf toy_peer.
Proof.
  split; [by_decide|]. split; [by apply FIFOCache_new_ok|]. split; [|constructor].
  apply map_Forall_singleton. split; [by eexists|by_decide].
Qed.

Lemma toy_peer_verified : peers_verified toy_peer.
Proof.
  intros id session. unfold get_instance. simpl. destruct (decide (id = $"a")) as [->|]; [|by rewrite lookup_singleton_ne].
  rewrite lookup_singleton_eq. intros [= <-]. exists ($"cert"). by_decide.
Qed.

(** The environment sends a frame to redirect, and the device reads it. *)
Definition any_bytes (_ : N) (_ : str) : Prop := True.
Definition toy_foreign : str := frame (mkSigned $"q" $"a" 0 10 $"sig" $"hi" SHA_256).

Lemma toy_run : ∃ s', read_callback map_to_list toy_foreign DanglingAddr toy_peer = Ok (s', toy_foreign) ∧
  sys_reachable toy_hello_handle map_to_list any_bytes toy_system (<[0%N := s']> toy_system, []).
Proof.
  destruct (is_ok_inv (read_callback map_to_list toy_foreign DanglingAddr toy_peer)) as [[s' buf] Hr]; [vm_compute; reflexivity|].
  assert (buf = toy_foreign) as -> by (apply (f_equal (λ r, match r with Ok (_, b) => b | _ => [] end)) in Hr; symmetry; exact Hr).
  exists s'. split; [exact Hr|].
  eapply rtc_l; [by apply (sys_inject _ _ any_bytes toy_system [] 0%N toy_foreign)|].
  eapply rtc_l; [|apply rtc_refl].
  exact (sys_receive _ _ any_bytes toy_system [] [] 0%N toy_peer toy_foreign DanglingAddr s' toy_foreign eq_refl Hr).
Qed.

Lemma system_well_typed_witness :
  ∃ s', read_callback map_to_list toy_foreign DanglingAddr toy_peer = Ok (s', toy_foreign) ∧ server_wf s' ∧
    (size (_cache_map (_packet_cache s')) ≤ _max_cache_size (_packet_cache s'))%nat.
Proof.
  destruct toy_run as (s' & Hr & Hreach). exists s'. split; [exact Hr|].
  destruct (system_well_typed toy_package toy_hello_handle map_to_list toy_ntop (λ m, reflexivity _) toy_hello_calls
    any_bytes toy_system _ 0%N s' ltac:(apply map_Forall_singleton, toy_peer_wf) Hreach (lookup_insert_eq _ _ _)) as (Hwf & _ & Hsize & _).
  split; [exact Hwf|exact Hsize].
Defined.

Lemma toy_peer_known : routes_known toy_peer.
Proof.
  split; [by apply map_Forall_singleton|]. simpl. intros d. destruct (decide (d = $"a")) as [->|]; [by rewrite !lookup_singleton_eq|].
  by rewrite !lookup_singleton_ne.
Qed.

Lemma system_peers_verified_witness :
  ∃ s' cert, read_callback map_to_list toy_foreign DanglingAddr toy_peer = Ok (s', toy_foreign) ∧
    X509_verify_cert (_x509_store toy_peer) cert = None ∧ X509_get_pubkey cert = 4.
Proof.
  destruct toy_run as (s' & Hr & Hreach).
  assert (get_instance $"a" (_peer_pool s') = Some (@PeerSession_new ToySSL 4)) as Hs.
  { apply (f_equal (λ r, match r with Ok (s, _) => get_instance $"a" (_peer_pool s) | _ => None end)) in Hr.
    rewrite <- Hr. vm_compute. reflexivity. }
  destruct (system_peers_verified toy_package toy_hello_handle map_to_list toy_ntop (λ m, reflexivity _) toy_hello_calls
    any_bytes toy_system _ 0%N s'
    ltac:(apply map_Forall_singleton; split; [apply toy_peer_wf|split; [apply toy_peer_verified|apply toy_peer_known]])
    Hreach (lookup_insert_eq _ _ _)) as (s0 & Hs0 & Hsess & _).
  destruct (Hsess $"a" _ Hs) as (cert & Hc & Hk).
  exists s', cert. split; [exact Hr|]. injection Hs0 as <-. split; [exact Hc|symmetry; exact Hk].
Defined.

(** Two devices started like the one of [ServerInit]; the first sends its hello to the
    second, which reads it. *)
Definition toy_state : init_state (W := nat) (H1 := ToySSL) :=
  match toy_init (mkInit None [] 0%nat) with Ok (Some (_, st)) => st | _ => mkInit None [] 0%nat end.
Definition toy_started : @P2PServerContext ToySSL := default (toy_server $"a" ∅) (instance toy_state).
Definition toy_hello : Z * SignedProtoMessage * option IPAddress :=
  match _tasks toy_started with SendTcp p m ip :: _ => (p, m, ip) | _ => (0, SignedProtoMessage_default, None) end.
Definition toy_devices : gmap N (@P2PServerContext ToySSL) := <[0%N := toy_started]> {[1%N := toy_started]}.
Definition toy_hello_frame : str := frame (forwarded toy_hello.1.1 toy_hello.1.2).

Lemma toy_started_ok :
  started (D := unit) (DeviceInfo := unit) toy_package toy_store toy_add unit (λ _ _, Some ()) toy_parse toy_started.
Proof.
  exists 5%nat, toy_env, Config_default, (), (mkInit None [] 0%nat), toy_state.
  split; [unfold Config_wf; simpl; lia|]. split; [by_decide|]. split; [by_decide|]. split; [done|].
  split; vm_compute; reflexivity.
Qed.

Lemma no_route_is_ever_learned_witness :
  ∃ s', read_callback map_to_list toy_hello_frame DanglingAddr toy_started = Ok (s', toy_hello_frame) ∧
    get_online_peers s' = ∅ ∧ _peer_pool s' = ∅.
Proof.
  destruct (is_ok_inv (read_callback map_to_list toy_hello_frame DanglingAddr toy_started)) as [[s' buf] Hr]; [vm_compute; reflexivity|].
  assert (buf = toy_hello_frame) as -> by (apply (f_equal (λ r, match r with Ok (_, b) => b | _ => [] end)) in Hr; symmetry; exact Hr).
  exists s'. split; [exact Hr|].
  set (sent := set_tasks ([] ++ []) toy_started).
  assert (sys_reachable toy_hello_handle map_to_list (λ _ _, False) toy_devices
    (<[1%N := s']> (<[0%N := sent]> toy_devices), [] ++ [])) as Hreach.
  { eapply rtc_l; [|eapply rtc_l; [|apply rtc_refl]].
    - eapply (sys_send _ _ _ toy_devices [] 0%N toy_started [] [] toy_net toy_hello.1.1 toy_hello.1.2 toy_hello.2 true
        (forwarded toy_hello.1.1 toy_hello.1.2) toy_hello_frame 1%N); vm_compute; reflexivity.
    - refine (sys_receive _ _ _ (<[0%N := sent]> toy_devices) [] [] 1%N toy_started toy_hello_frame DanglingAddr s' toy_hello_frame _ Hr).
      reflexivity. }
  destruct (no_route_is_ever_learned toy_package toy_hello_handle map_to_list toy_store toy_add unit (λ _ _, Some ()) toy_parse
    (λ m, reflexivity _) toy_devices _ 1%N s' ltac:(apply map_Forall_insert_2; [|apply map_Forall_singleton]; exact toy_started_ok)
    Hreach (lookup_insert_eq _ _ _)) as (Ho & Hp & _).
  split; [exact Ho|exact Hp].
Defined.
