(* ===== verification/Signing.v ===== *)
(** Signing in [send_pkg] ([p2p_server_context.cc]) when several threads send at once: the four
    calls of OpenSSL are atomic steps on the one context [_evp_md_ctx] of the server, which
    no lock protects.  And what becomes of a signature at the receiver. *)
From S2P Require Import Prelude CxxString IPAddress RoutingTable Message PeerSession Server Hello.
Local Open Scope Z_scope.

Section signing.
Context `{Protobuf SignedProtoMessage} `{Protobuf ProtoMessage} `{Protobuf Any} `{OpenSSL}.

(** ** Steps *)

(** Where a call of [send_pkg] is, with the packet it signs. *)
Inductive sign_pc :=
  | SignInit (d : str)      (** [EVP_DigestSignInit] *)
  | SignUpdate (d : str)    (** [EVP_DigestSignUpdate] *)
  | SignLength (d : str)    (** [EVP_DigestSignFinal] without a buffer *)
  | SignFinal (d : str)     (** [EVP_DigestSignFinal] *)
  | Signed (d : str)
  | SignFailed.

(** The next call of OpenSSL; a signature with the packet it is sent with. *)
Definition sign_step (key : pkey) (c : sign_pc) (ctx : md_ctx) : res (list (str * str) * sign_pc * md_ctx) :=
  match c with
  | SignInit d => ctx ← deref Fatal (EVP_DigestSignInit ctx key); Ok ([], SignUpdate d, ctx)
  | SignUpdate d => ctx ← deref Fatal (EVP_DigestSignUpdate ctx d); Ok ([], SignLength d, ctx)
  | SignLength d =>
      match EVP_DigestSignFinal_length ctx with
      | None => Ok ([], SignFailed, ctx)
      | Some _ => Ok ([], SignFinal d, ctx)
      end
  | SignFinal d =>
      match EVP_DigestSignFinal ctx with
      | None => Ok ([], SignFailed, ctx)
      | Some (sig, ctx) => Ok ([(d, sig)], Signed d, ctx)
      end
  | Signed _ | SignFailed => Ok ([], c, ctx)
  end.

(** A schedule says which call is next; the signatures in the order they are made. *)
Fixpoint sign_run (key : pkey) (schedule : list nat) (calls : list sign_pc) (ctx : md_ctx)
    : res (list (str * str) * list sign_pc * md_ctx) :=
  match schedule with
  | [] => Ok ([], calls, ctx)
  | i :: schedule' =>
      match calls !! i with
      | None => sign_run key schedule' calls ctx
      | Some c =>
          '(made, c, ctx) ← sign_step key c ctx;
          '(log, calls, ctx) ← sign_run key schedule' (<[i := c]> calls) ctx;
          Ok (made ++ log, calls, ctx)
      end
  end.

(** A call that is not interrupted is [send_pkg]. *)
Lemma send_pkg_signs data peer s s' :
  send_pkg data peer s = Ok (true, s') →
  ∃ sig msg, sign_run (_client_priv_key s) [0; 0; 0; 0]%nat [SignInit (SerializeAsString data)] (Server._evp_md_ctx s) =
      Ok ([(SerializeAsString data, sig)], [Signed (SerializeAsString data)], Server._evp_md_ctx s') ∧
    _tasks s' = _tasks s ++ [SendTcp (_port s) msg peer] ∧ signature msg = sig ∧ signed_payload msg = SerializeAsString data.
Proof.
  unfold send_pkg. case_bool_decide; [done|]. simpl.
  destruct (EVP_DigestSignInit _ _) as [c|]; [|done]. simpl.
  destruct (EVP_DigestSignUpdate c _) as [c'|]; [|done]. simpl.
  destruct (EVP_DigestSignFinal_length c'); [|done]. simpl.
  destruct (EVP_DigestSignFinal c') as [[digest c'']|]; [|done].
  intros [= <-]. simpl. eexists _, _. split_and!; reflexivity.
Qed.

(** ** What is signed *)

(** The same schedule without OpenSSL: [acc] is what has been digested since the last
    initialisation, by whichever call; each signature is over all of it. *)
Fixpoint digests (schedule : list nat) (calls : list sign_pc) (acc : str) : list (str * str) :=
  match schedule with
  | [] => []
  | i :: schedule' =>
      match calls !! i with
      | Some (SignInit d) => digests schedule' (<[i := SignUpdate d]> calls) []
      | Some (SignUpdate d) => digests schedule' (<[i := SignLength d]> calls) (acc ++ d)
      | Some (SignLength d) => digests schedule' (<[i := SignFinal d]> calls) acc
      | Some (SignFinal d) => (d, acc) :: digests schedule' (<[i := Signed d]> calls) acc
      | _ => digests schedule' calls acc
      end
  end.

Context `{!OpenSSLLaws}.

Lemma sign_run_failed key schedule calls ctx log calls' ctx' :
  sign_run key schedule calls ctx = Ok (log, calls', ctx') → SignFailed ∈ calls → SignFailed ∈ calls'.
Proof.
  revert calls ctx log calls' ctx'. induction schedule as [|i schedule IH]; intros calls ctx log calls' ctx'; simpl; [by intros [= _ <- _]|].
  destruct (calls !! i) as [c|] eqn:Ei; [|apply IH]. intros Hr Hin.
  bind Hr as [[made c'] ctx1] Hs. apply res_bind_ok in Hr as ([[log1 calls1] ctx2] & Hr & [= _ <- _]).
  eapply IH; [exact Hr|]. apply list_elem_of_lookup in Hin as [j Hj]. destruct (decide (j = i)) as [->|].
  - rewrite Ei in Hj. injection Hj as ->. injection Hs as _ <- _. apply list_elem_of_lookup. exists i.
    by apply list_lookup_insert_eq, lookup_lt_Some with SignFailed.
  - apply list_elem_of_lookup. exists j. by rewrite list_lookup_insert_ne.
Qed.

Definition at_init (c : sign_pc) : Prop := ∃ d, c = SignInit d.

(** The signatures that are made are over what [digests] says. *)
Lemma sign_run_digests key schedule calls ctx acc log calls' ctx' :
  (signing ctx key acc ∨ Forall at_init calls) → sign_run key schedule calls ctx = Ok (log, calls', ctx') →
  SignFailed ∉ calls' →
  Forall2 (λ made over, made.1 = over.1 ∧ valid_signature (public_of key) over.2 made.2 = true) log (digests schedule calls acc).
Proof.
  revert calls ctx acc log calls' ctx'. induction schedule as [|i schedule IH]; intros calls ctx acc log calls' ctx' Hctx; simpl.
  { intros [= <- _ _] _. constructor. }
  destruct (calls !! i) as [c|] eqn:Ei; [|by apply IH]. intros Hr Hf.
  bind Hr as [[made c'] ctx1] Hs. apply res_bind_ok in Hr as ([[log1 calls1] ctx2] & Hr & [= <- -> ->]).
  assert (c' ≠ SignFailed) as Hc'.
  { intros ->. apply Hf. eapply sign_run_failed; [exact Hr|]. apply list_elem_of_lookup. exists i.
    by apply list_lookup_insert_eq, lookup_lt_Some with c. }
  assert (signing ctx key acc ∨ at_init c) as Hsig
    by (destruct Hctx as [|Ha]; [by left|right; rewrite Forall_lookup in Ha; exact (Ha _ _ Ei)]).
  destruct c as [d|d|d|d|d|]; simpl in Hs;
    (destruct Hsig as [Hsig|[d' Hd']]; [|try discriminate Hd']).
  1,2: bind Hs as ctx3 Hi; apply deref_ok in Hi; injection Hs as <- <- <-; eapply IH; [left; by eapply init_signing|done..].
  - bind Hs as ctx3 Hu. apply deref_ok in Hu. injection Hs as <- <- <-. eapply IH; [left; by eapply update_signing|done..].
  - destruct (EVP_DigestSignFinal_length ctx); injection Hs as <- <- <-; [|done]. eapply IH; [by left|done..].
  - destruct (EVP_DigestSignFinal ctx) as [[sig ctx3]|] eqn:Ef; injection Hs as <- <- <-; [|done].
    destruct (final_signing ctx key acc sig ctx3 Hsig Ef). simpl. constructor; [done|]. eapply IH; [by left|done..].
  - injection Hs as <- <- <-. rewrite list_insert_id in Hr by done. simpl. eapply IH; [by left|done..].
  - by injection Hs as _ <- _.
Qed.

(** ** Schedules *)

Lemma digests_uninterrupted d before after schedule acc :
  digests (replicate 4 (length before) ++ schedule) (before ++ SignInit d :: after) acc =
    (d, d) :: digests schedule (before ++ Signed d :: after) d.
Proof.
  assert (∀ x y, <[length before:=x]> (before ++ y :: after) = before ++ x :: after) as Hins
    by (intros x y; rewrite <- (Nat.add_0_r (length before)), insert_app_r; done).
  simpl. by repeat (rewrite list_lookup_middle, Hins by done).
Qed.

(** One call after the other. *)
Definition serial (n : nat) : list nat := concat (replicate 4 <$> seq 0 n).

Lemma digests_serial ds acc : digests (serial (length ds)) (SignInit <$> ds) acc = (λ d, (d, d)) <$> ds.
Proof.
  unfold serial. assert (∀ before, digests (concat (replicate 4 <$> seq (length before) (length ds))) (before ++ (SignInit <$> ds)) acc =
    (λ d, (d, d)) <$> ds) as Hgen; [|exact (Hgen [])].
  revert acc. induction ds as [|d ds IH]; intros acc before; [done|]. cbn [length seq fmap list_fmap concat].
  rewrite digests_uninterrupted. f_equal. specialize (IH d (before ++ [Signed d])).
  rewrite length_app in IH. simpl in IH. rewrite Nat.add_1_r, <- app_assoc in IH. exact IH.
Qed.


(** ** At the receiver *)

End signing.

(** ** Concrete calls, to run the definitions with *)

#[local] Existing Instance signed_codec.
#[local] Existing Instance ToySSL.
#[local] Existing Instance ToySSL_laws.
#[local] Existing Instance toy_any_codec.

(** A codec of messages that has the laws. *)
#[local] Instance ProtoPayloadType_countable : Countable ProtoPayloadType.
Proof.
  refine (inj_countable' (λ t, match t with OtherPayload n => inr n | t => inl (ProtoPayloadType_value t) end)
    (λ o, match o with
          | inr n => OtherPayload n
          | inl z => if decide (z = 0) then HELLO else if decide (z = 7) then REDIRECT else if decide (z = 5) then ACK else
              if decide (z = 6) then NACK else if decide (z = 1) then PING else if decide (z = 2) then PONG else
              if decide (z = 4) then HEARTBEAT else FILE_REQUEST
          end) _); by intros [].
Defined.
#[local] Instance Any_eq_dec : EqDecision Any.
Proof. solve_decision. Defined.
#[local] Instance Any_countable : Countable Any.
Proof. refine (inj_countable' (λ a, (type_url a, value a)) (λ '(t, v), mkAny t v) _); by intros []. Defined.
#[local] Instance ProtoMessage_eq_dec : EqDecision ProtoMessage.
Proof. solve_decision. Defined.
#[local] Instance ProtoMessage_countable : Countable ProtoMessage.
Proof.
  refine (inj_countable' (λ m, (pm_sender m, pm_receiver m, packet_type m, timestamp m, payload m))
    (λ '(a, b, c, d, e), mkProtoMessage a b c d e) _); by intros [].
Defined.
#[local] Instance message_codec : Protobuf ProtoMessage := countable_codec (λ _, true) ProtoMessage_default.
Lemma message_codec_laws : ProtobufLaws ProtoMessage (λ _, True).
Proof. by apply countable_codec_laws. Qed.


