(* ===== verification/Console.v ===== *)
(** The console on the contexts of the management client: the session of a connection is the
    user context that [ManagementAPI::usr_ctx()] makes, and its commands make requests. *)
From S2P Require Import Prelude CxxString JsonModel ManagementApi Responses Curl Management IPAddress RoutingTable.
From S2P Require Import CommandParser Interface.
Import UserLoginResponse UserDetailResponse DeviceInfoResponse.
Local Open Scope Z_scope.

Section console.
Context `{RapidJSON}.
Context (easy_init : nat → bool) (setopt : nat → curl_opt → bool) (perform : nat → list curl_opt → list str * bool).
Context (realloc_ok : Z → bool) (d2i_PKCS12 : str → bool).
Context (ctime_now : world → str) (dev_context : world → res (option DeviceContextImpl * world)).
Context (online_peers : world → option (list (str * RoutingTable.route (ADDR := IPAddress)))).

#[local] Instance user_context : IUserContext world UserContextImpl JsonModel :=
  UserContextImpl_context easy_init setopt perform realloc_ok.
#[local] Instance device_context : IDeviceContext world DeviceContextImpl JsonModel JsonModel :=
  DeviceContextImpl_context easy_init setopt perform realloc_ok d2i_PKCS12.

(** What the thread of a connection does with the lines typed on it. *)
Definition console (fuel : nat) (lines : list (str * list str)) (share : Z) (ctx : option ManagementContext) (w : world)
    : option (res (str * list read_result * container * world)) :=
  main_loop (D := DeviceContextImpl) ctime_now dev_context online_peers (length lines) fuel registered (typed_lines lines)
    (ConnectionContainer_new (usr_ctx share ctx)) w.

Lemma console_spec fuel lines share ctx w :
  Forall (plain_line fuel) lines →
  ∃ r, console fuel lines share ctx w = Some r ∧
    match session_spec (D := DeviceContextImpl) ctime_now dev_context online_peers registered lines [] (usr_ctx share ctx) w with
    | Raise f => r = Raise f
    | Ok (out, used, s, w') => ∃ c', r = Ok (out, [], c', w') ∧ c_session c' = s ∧ (_instance_map c').*1 = used
    end.
Proof.
  intros Hl. unfold console.
  destruct (console_session ctime_now dev_context online_peers fuel registered lines [] (ConnectionContainer_new (usr_ctx share ctx)) w Hl)
    as (r & Hr & Hs). rewrite app_nil_r in Hr. eauto.
Qed.

(** A login and a use of it, as typed. *)
Definition login_lines (email password arg : str) : list (str * list str) :=
  [($"USER", [$"LOGIN"; email; password]); ($"FILE", [arg])].


(** ** Whole connections *)

(** The requests a command can make. *)
Definition cost (c : command) : nat := match c with INFO => 2 | USER => 1 | _ => 0 end.

Lemma device_info_world d w info w' :
  dev_device_info easy_init setopt perform realloc_ok d w = Ok (info, w') →
  disk w' = disk w ∧ (requests w' <= requests w + 1)%nat.
Proof.
  unfold dev_device_info. case_bool_decide; [intros [= _ <-]; split; [done|lia]|].
  intros ([text w1] & [Hd Hn]%http_get_disk & Hr)%res_bind_ok. bind Hr as t _.
  assert (disk w1 = disk w ∧ (requests w1 <= requests w + 1)%nat) as Hw by (split; [done|lia]).
  case_bool_decide; [by injection Hr as _ <-|]. bind Hr as resp _. bind Hr as ok _.
  destruct ok; [by injection Hr as _ <-|]. by apply res_bind_ok in Hr as (msg & _ & [= _ <-]).
Qed.

Lemma user_detail_world u w info w' :
  user_user_detail easy_init setopt perform realloc_ok u w = Ok (info, w') →
  disk w' = disk w ∧ (requests w' <= requests w + 1)%nat.
Proof.
  unfold user_user_detail. destruct (negb (_login u)); [intros [= _ <-]; split; [done|lia]|].
  intros ([text w1] & [Hd Hn]%http_get_disk & Hr)%res_bind_ok. bind Hr as resp _.
  apply res_bind_ok in Hr as (ok & _ & [= _ <-]). split; [done|lia].
Qed.

Lemma user_logout_world u w u' w' :
  user_logout easy_init setopt perform realloc_ok u w = Ok (u', w') →
  disk w' = disk w ∧ (requests w' <= requests w + 1)%nat.
Proof.
  unfold user_logout. destruct (_login u); [|intros [= _ <-]; split; [done|lia]].
  intros ([text w1] & [Hd Hn]%http_post_disk & [= _ <-])%res_bind_ok. split; [done|lia].
Qed.

(** [ManagementAPI::dev_ctx()] once the device context is made, which the daemon does before it
    accepts a connection. *)
Definition console_dev_ctx (local_ips : res (list (str * str))) (dev_id : str) (ctx : ManagementContext) (w : world)
    : res (option DeviceContextImpl * world) :=
  '(device, _, w) ← dev_ctx easy_init setopt perform realloc_ok local_ips dev_id (Some ctx) w; Ok (device, w).

Lemma console_dev_ctx_quiet local_ips dev_id ctx d w :
  _device_ctx_instance ctx = Some d → console_dev_ctx local_ips dev_id ctx w = Ok (Some d, w).
Proof. unfold console_dev_ctx, dev_ctx. by intros ->. Qed.

Hypothesis dev_context_quiet : ∀ w device w', dev_context w = Ok (device, w') → w' = w.

Abbreviation run_command := (exec ctime_now dev_context online_peers).
Abbreviation session_answers := (session_spec (D := DeviceContextImpl) ctime_now dev_context online_peers registered).

(** The management server confirmed a login that was typed. *)
Definition confirmed (args : list str) : Prop :=
  ∃ email password rest text response, args = $"LOGIN" :: email :: password :: rest ∧
    UserLoginResponse_new text = Ok response ∧ success response = Ok true ∧ user_email response = Ok email.

Lemma exec_user_spec args u w out s' w' :
  exec_user args (Some u) w = Ok (out, s', w') →
  disk w' = disk w ∧ (requests w' <= requests w + 1)%nat ∧
  ∃ u', s' = Some u' ∧ (_login u' = true → _login u = true ∨ confirmed args).
Proof.
  assert (∀ o, Ok (o, Some u, w) = Ok (out, s', w') → disk w' = disk w ∧ (requests w' <= requests w + 1)%nat ∧
    ∃ u', s' = Some u' ∧ (_login u' = true → _login u = true ∨ confirmed args)) as Hsame
    by (intros o [= _ <- <-]; split; [done|]; split; [lia|]; exists u; auto).
  unfold exec_user. destruct args as [|sub rest]; [apply Hsame|]. simpl.
  case_bool_decide as Hlogin; [|case_bool_decide; [|case_bool_decide; [|apply Hsame]]].
  - destruct rest as [|email [|password rest]]; [apply Hsame..|]. destruct (_login u) eqn:Eu; [apply Hsame|].
    intros ([[[ok msg] u1] w1] & Hlog & Hr)%res_bind_ok. apply login_spec in Hlog as (Hok & Hd & Hn). rewrite Eu in Hn.
    destruct Hn as [Hn Hconf]. assert (Some u1 = s' ∧ w1 = w') as [<- <-] by (destruct ok; by injection Hr as _ <- <-).
    split; [done|]. split; [lia|]. exists u1. split; [done|]. rewrite Hok. intros Ht. right.
    destruct (Hconf Ht) as (text & response & ? & ? & ?). exists email, password, rest, text, response. by subst.
  - destruct rest; [|apply Hsame]. destruct (_login u) eqn:Eu; [|apply Hsame].
    intros ([detail w1] & [Hd Hn]%user_detail_world & Hr)%res_bind_ok. bind Hr as info _. bind Hr as n _. bind Hr as e _.
    injection Hr as _ <- <-. split; [done|]. split; [done|]. exists u. auto.
  - destruct rest; [|apply Hsame]. destruct (_login u) eqn:Eu; [|apply Hsame].
    intros ([u1 w1] & [Hd Hn]%user_logout_world & [= _ <- <-])%res_bind_ok. split; [done|]. split; [done|]. exists u1. auto.
Qed.

(** Before a login. *)
Lemma exec_user_refused sub u w :
  _login u = false → sub = $"INFO" ∨ sub = $"LOGOUT" →
  exec_user [sub] (Some u) w = Ok ($"You are not logged in.", Some u, w).
Proof. intros Hu [-> | ->]; unfold exec_user; simpl; by rewrite Hu. Qed.

(** What the commands other than [USER] leave alone. *)
Lemma exec_world obj args s w out s' w' :
  run_command obj args s w = Ok (out, s', w') →
  disk w' = disk w ∧ (requests w' <= requests w + cost obj)%nat ∧ (obj ≠ USER → s' = s).
Proof.
  destruct obj; simpl.
  - unfold exec_file. destruct s as [u|]; [|done]. simpl. by case_match; intros [= _ <- <-]; split_and!; try lia.
  - unfold exec_info. destruct args; [|by intros [= _ <- <-]; split_and!; try lia].
    intros ([device w1] & ->%dev_context_quiet & Hr)%res_bind_ok. bind Hr as d0 _. bind Hr as [info w2] Hi. simpl in Hi.
    apply device_info_world in Hi as [Hd2 Hn2]. bind Hr as i _. bind Hr as id _. bind Hr as [enabled w3] He. simpl in He.
    apply res_bind_ok in He as ([info' w4] & [Hd3 Hn3]%device_info_world & [= _ ->]).
    bind Hr as hw _. bind Hr as ip _. apply res_bind_ok in Hr as (user & _ & [= _ <- <-]).
    split; [by rewrite Hd3|]. split; [lia|done].
  - unfold exec_peer. intros (peers & _ & (rows & _ & [= _ <- <-])%res_bind_ok)%res_bind_ok. split_and!; [done|lia|done].
  - unfold exec_time. intros [= _ <- <-]. split_and!; [done|lia|done].
  - destruct s as [u|].
    + intros (? & ? & _)%exec_user_spec. by split_and!.
    + unfold exec_user. destruct args; [|done]. intros [= _ <- <-]. split_and!; [done|lia|done].
Qed.

(** ** Lines, one after the other *)

Definition command_name (c : command) : str :=
  match c with FILE => $"FILE" | INFO => $"INFO" | PEER => $"PEER" | TIME => $"TIME" | USER => $"USER" end.

Lemma registered_name cmd obj : get_command_obj registered cmd = Some obj → cmd = command_name obj ∧ cmd ≠ $"help".
Proof.
  assert (registered = (λ c, (command_name c, ($"DEFAULT", c))) <$> [FILE; INFO; PEER; TIME; USER]) as -> by (vm_compute; reflexivity).
  unfold get_command_obj. cbn [fmap list_fmap assoc].
  repeat (case_decide; [subst cmd; intros [= <-]; split; [done|by_decide]|]). done.
Qed.

(** The commands typed that are executed. *)
Definition executed_commands (lines : list (str * list str)) : list str :=
  filter (λ cmd, is_Some (get_command_obj registered cmd)) lines.*1.

(** What a connection can still request. *)
Definition budget (used : list str) : nat :=
  (if decide ($"INFO" ∈ used) then 0 else 2) + (if decide ($"USER" ∈ used) then 0 else 1).

Lemma budget_snoc used obj :
  command_name obj ∉ used → (budget (used ++ [command_name obj]) + cost obj = budget used)%nat.
Proof.
  intros Hn. unfold budget. destruct obj; simpl in *; repeat case_decide; set_unfold; naive_solver lia.
Qed.

Lemma session_bounds lines used s w out used' s' w' :
  session_answers lines used s w = Ok (out, used', s', w') →
  used' = used ++ executed_commands lines ∧ (NoDup used → NoDup used') ∧
  disk w' = disk w ∧ (requests w' + budget used' <= requests w + budget used)%nat ∧ ($"USER" ∉ used' → s' = s).
Proof.
  revert used s w out used' s' w'. induction lines as [|[cmd args] lines IH]; intros used s w out used' s' w' Hs.
  { injection Hs as _ <- <- <-. unfold executed_commands. simpl. rewrite app_nil_r. split_and!; done. }
  unfold executed_commands. rewrite fmap_cons, filter_cons. simpl.
  destruct (get_command_obj registered cmd) as [obj|] eqn:Eo.
  - rewrite decide_True by by eexists. destruct (registered_name _ _ Eo) as [Hcmd Hhelp].
    apply session_spec_command in Hs as (Hn & obj' & out1 & s1 & w1 & Eo' & Hx & Hr); [|done|by eexists].
    rewrite Eo in Eo'. injection Eo' as <-. apply exec_world in Hx as (Hd1 & Hn1 & Hs1).
    apply res_bind_ok in Hr as ([[[outs used1] s2] w2] & Hr & [= _ <- <- <-]).
    destruct (IH _ _ _ _ _ _ _ Hr) as (-> & Hnd & Hd & Hq & Hu). rewrite <- app_assoc in *. simpl in *.
    pose proof (budget_snoc used obj) as Hb. rewrite <- Hcmd in Hb. specialize (Hb Hn). split; [done|]. split; [|split; [|split]].
    + intros Hused. apply Hnd, NoDup_app. split; [done|]. split; [set_solver|apply NoDup_singleton].
    + congruence.
    + lia.
    + intros Huser. rewrite Hu by done. apply Hs1. intros ->. subst cmd. set_solver.
  - rewrite decide_False by by intros [].
    apply session_spec_other in Hs as [answer Hr]; [|by right].
    apply res_bind_ok in Hr as ([[[outs used1] s2] w2] & Hr & [= _ <- <- <-]). by apply IH in Hr.
Qed.

(** Who is logged in was confirmed. *)
Lemma session_login lines used u w out used' s' w' :
  session_answers lines used (Some u) w = Ok (out, used', s', w') →
  ∃ u', s' = Some u' ∧ (_login u' = true → _login u = true ∨ ∃ args, ($"USER", args) ∈ lines ∧ confirmed args).
Proof.
  revert used u w out used' s' w'. induction lines as [|[cmd args] lines IH]; intros used u w out used' s' w' Hs.
  { injection Hs as _ _ <- _. exists u. auto. }
  destruct (get_command_obj registered cmd) as [obj|] eqn:Eo.
  - destruct (registered_name _ _ Eo) as [Hcmd Hhelp].
    apply session_spec_command in Hs as (_ & obj' & out1 & s1 & w1 & Eo' & Hx & Hr); [|done|by eexists].
    rewrite Eo in Eo'. injection Eo' as <-. apply res_bind_ok in Hr as ([[[outs used1] s2] w2] & Hr & [= _ _ <- _]).
    assert (∃ u1, s1 = Some u1 ∧ (_login u1 = true → _login u = true ∨ cmd = $"USER" ∧ confirmed args)) as (u1 & -> & Hu1).
    { destruct (decide (obj = USER)) as [->|]; [|exists u; split; [by eapply exec_world|auto]].
      apply exec_user_spec in Hx as (_ & _ & u1 & -> & Hu1). exists u1. split; [done|]. naive_solver. }
    destruct (IH _ _ _ _ _ _ _ Hr) as (u' & -> & Hu'). exists u'. split; [done|]. intros Hl.
    destruct (Hu' Hl) as [Hl1|(args' & Hin & Hc)]; [|right; exists args'; split; [by right|done]].
    destruct (Hu1 Hl1) as [?|[-> Hc]]; [by left|]. right. exists args. split; [by left|done].
  - apply session_spec_other in Hs as [answer Hr]; [|by right].
    apply res_bind_ok in Hr as ([[[outs used1] s2] w2] & Hr & [= _ _ <- _]).
    destruct (IH _ _ _ _ _ _ _ Hr) as (u' & -> & Hu'). exists u'. split; [done|]. intros Hl.
    destruct (Hu' Hl) as [?|(args' & Hin & Hc)]; [by left|]. right. exists args'. split; [by right|done].
Qed.

End console.

(** ** A concrete console, to run the definitions with *)

#[local] Existing Instance AnswerJSON.
Definition toy_context : ManagementContext := ManagementContext_new Config.Config_default.
Definition toy_clock (w : world) : str := $"at " ++ show_dec (Z.of_nat (requests w)).
Definition toy_console (email : str) : option (res (str * list read_result * container * world)) :=
  console all_ok every answers enough (λ _, true) toy_clock (λ w, Ok (None, w)) (λ _, None) 60
    (login_lines email $"pw" $"x") 1 (Some toy_context) (mkWorld ∅ 0).


(** A connection that tries to log out. *)
Definition toy_session : list (str * list str) :=
  [($"TIME", []); ($"USER", [$"LOGOUT"]); ($"help", []); ($"FILE", [$"x"])].
Definition toy_connection : option (res (str * list read_result * container * world)) :=
  console all_ok every answers enough (λ _, true) toy_clock (λ w, Ok (None, w)) (λ _, None) 60
    toy_session 1 (Some toy_context) (mkWorld ∅ 0).

