(* ===== verification/Locks.v ===== *)
(** What a thread of the packet server holds and touches in one go: the mutexes of
    [utils/data_struct], the members of [P2PServerContext] ([p2p_interface.h]) that threads
    share, and when two threads race.  [Handlers] gives every section its footprint. *)
From S2P Require Import Prelude.

(** ** Mutexes *)

(** [RoutingTable::_lock_mutex], [InstancePool::_lock_mutex] of [_peer_pool], and
    [ThreadPool::m_mutex] are shared mutexes; [ThreadPool::_mutex] is a plain one. *)
Inductive mutex := RoutingMutex | PeersMutex | TasksMutex | WaitMutex.
Inductive mode := SharedLock | UniqueLock.

#[global] Instance mutex_eq_dec : EqDecision mutex.
Proof. solve_decision. Defined.
#[global] Instance mode_eq_dec : EqDecision mode.
Proof. solve_decision. Defined.

(** Two threads can hold what they hold at the same time. *)
Definition compatible (h1 h2 : option (mutex * mode)) : bool :=
  match h1, h2 with
  | Some (_, SharedLock), Some (_, SharedLock) => true
  | Some (m1, _), Some (m2, _) => bool_decide (m1 ≠ m2)
  | _, _ => true
  end.

(** ** Shared members *)

Inductive location :=
  | Routes                   (** [_routing_map] *)
  | Peers                    (** the map of [_peer_pool] *)
  | SessionCtx (id : str)    (** the context of the session of a peer *)
  | SignCtx                  (** [_evp_md_ctx] of the server *)
  | PacketCache              (** the base class [FIFOCache] *)
  | Fixed                    (** what is never assigned after [init]: port, device, keys, store *)
  | TaskQueue                (** [_task_queue] of the pool *)
  | RunningFlag.             (** [_running_flag] of the pool, a plain [bool] *)
Inductive access := Reads | Writes.

#[global] Instance location_eq_dec : EqDecision location.
Proof. solve_decision. Defined.
#[global] Instance access_eq_dec : EqDecision access.
Proof. solve_decision. Defined.

(** A footprint: the lock held, if any, and what is touched. *)
Record footprint := mkFootprint { holds : option (mutex * mode); touches : list (location * access) }.

#[global] Instance footprint_eq_dec : EqDecision footprint.
Proof. solve_decision. Defined.

(** ** Races *)

(** Two threads touch a location at the same time, one of them writes it, and no lock keeps
    them apart. *)
Definition races (l : location) (f1 f2 : footprint) : bool :=
  compatible (holds f1) (holds f2) &&
  existsb (λ a1, existsb (λ a2, bool_decide (a1.1 = l ∧ a2.1 = l ∧ (a1.2 = Writes ∨ a2.2 = Writes))) (touches f2)) (touches f1).

Lemma compatible_sym h1 h2 : compatible h1 h2 = compatible h2 h1.
Proof.
  destruct h1 as [[m1 []]|], h2 as [[m2 []]|]; simpl; try done; apply bool_decide_ext; split; congruence.
Qed.

Lemma races_spec l f1 f2 :
  races l f1 f2 = true ↔ compatible (holds f1) (holds f2) = true ∧
    ∃ a1 a2, (l, a1) ∈ touches f1 ∧ (l, a2) ∈ touches f2 ∧ (a1 = Writes ∨ a2 = Writes).
Proof.
  unfold races. rewrite andb_true_iff, existsb_exists. split.
  - intros [Hc ([l1 a1] & H1 & ([l2 a2] & H2 & Hd%bool_decide_eq_true_1)%existsb_exists)]. simpl in Hd.
    destruct Hd as (-> & -> & Hw). split; [done|]. exists a1, a2. by rewrite !list_elem_of_In.
  - intros [Hc (a1 & a2 & H1%list_elem_of_In & H2%list_elem_of_In & Hw)]. split; [done|].
    exists (l, a1). split; [done|]. apply existsb_exists. exists (l, a2). split; [done|]. by apply bool_decide_eq_true_2.
Qed.

Lemma races_sym l f1 f2 : races l f1 f2 = races l f2 f1.
Proof.
  apply eq_true_iff_eq. rewrite !races_spec, compatible_sym. naive_solver.
Qed.

(** Nothing held. *)
Definition unlocked (l : location) (a : access) : footprint := mkFootprint None [(l, a)].
Definition under (m : mutex) (h : mode) (l : location) (a : access) : footprint := mkFootprint (Some (m, h)) [(l, a)].

(** ** The critical sections of the containers *)

(** [get_next_peer], [can_delivered], and the first section of [try_update_table]. *)
Definition route_lookup : footprint := under RoutingMutex SharedLock Routes Reads.
(** [add_new_route] inserts under the shared lock. *)
Definition route_insert : footprint := under RoutingMutex SharedLock Routes Writes.
(** The second section of [try_update_table]. *)
Definition route_update : footprint := under RoutingMutex UniqueLock Routes Writes.
(** [get_routing_table] gives the map away: who walks it holds nothing. *)
Definition route_walk : footprint := unlocked Routes Reads.
(** [get_instance] and [add_instance] of [_peer_pool]. *)
Definition peer_lookup : footprint := under PeersMutex SharedLock Peers Reads.
Definition peer_insert : footprint := under PeersMutex UniqueLock Peers Writes.
(** [is_cached] *)
Definition cache_test : footprint := unlocked PacketCache Writes.
(** [submit] of the pool *)
Definition task_push : footprint := under TasksMutex UniqueLock TaskQueue Writes.
Definition fixed : footprint := unlocked Fixed Reads.
