(* ===== verification/Threads.v ===== *)
(** Threads that share a state.  A program is a tree of critical sections, each of which runs
    in one go and has a label, and of submissions to a thread pool; between two of them other
    threads can come in.  The file has the programs, what they do alone, a rely-guarantee
    logic (what a program keeps promising whatever the other threads do between its
    sections), and properties of all sections of a program. *)
From S2P Require Import Prelude.

Section programs.
Context {S E L : Type}.        (** the shared state, what can be submitted, and labels *)
Context (log : E → S → S).     (** the state after a submission *)

(** ** Programs *)

(** [Critical l f k]: the section [f] with the label [l], which answers with a value for what
    comes next. *)
Inductive prog (A : Type) : Type :=
  | Ret (a : A)
  | Throw (f : fault)
  | Critical {B : Type} (l : L) (f : S → res (B * S)) (k : B → prog A)
  | Submit (e : E) (k : prog A).
Arguments Ret {_} _.
Arguments Throw {_} _.
Arguments Critical {_ _} _ _ _.
Arguments Submit {_} _ _.

#[global] Instance prog_ret : MRet prog := @Ret.
#[global] Instance prog_bind : MBind prog := λ A B g,
  fix go p := match p with
    | Ret a => g a
    | Throw f => Throw f
    | Critical l f k => Critical l f (λ b, go (k b))
    | Submit e k => Submit e (go k)
    end.

Definition critical {B} (l : L) (f : S → res (B * S)) : prog B := Critical l f Ret.
Definition reads {B} (l : L) (f : S → B) : prog B := critical l (λ s, Ok (f s, s)).
Definition writes (l : L) (f : S → S) : prog () := critical l (λ s, Ok ((), f s)).
Definition lift {B} (r : res B) : prog B := match r with Ok b => Ret b | Raise f => Throw f end.
Definition submits (e : E) : prog () := Submit e (Ret ()).

Lemma ret_bind {A B} (a : A) (g : A → prog B) : mret a ≫= g = g a.
Proof. done. Qed.
Lemma lift_bind {A B} (r : res A) a (g : A → prog B) : r = Ok a → lift r ≫= g = g a.
Proof. by intros ->. Qed.

(** ** Running *)

(** The next section or submission of a program; [None] when it has ended. *)
Definition prog_step {A} (p : prog A) (s : S) : option (res (option E * prog A * S)) :=
  match p with
  | Ret _ => None
  | Throw f => Some (Raise f)
  | Critical _ f k => Some ('(b, s') ← f s; Ok (None, k b, s'))
  | Submit e k => Some (Ok (Some e, k, log e s))
  end.

(** The whole program with no other thread around. *)
Fixpoint alone {A} (p : prog A) (s : S) : res (A * S) :=
  match p with
  | Ret a => Ok (a, s)
  | Throw f => Raise f
  | Critical _ f k => '(b, s') ← f s; alone (k b) s'
  | Submit e k => alone k (log e s)
  end.

Lemma alone_bind {A B} (p : prog A) (g : A → prog B) s :
  alone (p ≫= g) s = ('(a, s') ← alone p s; alone (g a) s').
Proof.
  revert s. induction p as [a|f|C l f k IH|e k IH]; intros s; simpl; [done|done| |apply IH].
  destruct (f s) as [[b s']|]; simpl; [apply IH|done].
Qed.

Lemma alone_lift {A} (r : res A) s : alone (lift r) s = (a ← r; Ok (a, s)).
Proof. by destruct r. Qed.

Lemma alone_critical {A B} l (f : S → res (A * S)) (g : A → prog B) s :
  alone (critical l f ≫= g) s = ('(a, s') ← f s; alone (g a) s').
Proof. done. Qed.

Lemma alone_reads {A B} l (f : S → A) (g : A → prog B) s : alone (reads l f ≫= g) s = alone (g (f s)) s.
Proof. done. Qed.

(** ** Rely and guarantee *)

(** [rely]: what the other threads may do between two sections; [guarantee]: what each
    section and each submission of this one does; [allowed]: the faults it may end in. *)
Section logic.
Context (I : S → Prop) (rely : S → S → Prop) (guarantee : option E → S → S → Prop) (allowed : fault → Prop).

Fixpoint safe {A} (p : prog A) (s : S) (Q : A → S → Prop) : Prop :=
  match p with
  | Ret a => ∀ s1, rely s s1 → I s1 → Q a s1
  | Throw f => allowed f
  | Critical _ f k => ∀ s1, rely s s1 → I s1 →
      match f s1 with
      | Ok (b, s2) => guarantee None s1 s2 ∧ I s2 ∧ safe (k b) s2 Q
      | Raise e => allowed e
      end
  | Submit e k => ∀ s1, rely s s1 → I s1 → guarantee (Some e) s1 (log e s1) ∧ I (log e s1) ∧ safe k (log e s1) Q
  end.

Context `{!PreOrder rely}.

(** Other threads do no harm. *)
Lemma safe_rely {A} (p : prog A) s s1 Q : safe p s Q → rely s s1 → safe p s1 Q.
Proof. intros Hp Hr. destruct p; simpl in *; [|done|..]; intros s2 Hr2; apply Hp; by etrans. Qed.

Lemma safe_step {A} (p : prog A) s s1 Q r :
  safe p s Q → rely s s1 → I s1 → prog_step p s1 = Some r →
  match r with Ok (e, p', s2) => guarantee e s1 s2 ∧ I s2 ∧ safe p' s2 Q | Raise e => allowed e end.
Proof.
  intros Hp Hr Hi. destruct p as [a|f|C l f k|e k]; simpl in *; [done| | |]; intros [= <-].
  - done.
  - specialize (Hp s1 Hr Hi). by destruct (f s1) as [[b s2]|].
  - by apply Hp.
Qed.

Lemma safe_mono {A} (p : prog A) s (Q Q' : A → S → Prop) :
  safe p s Q → (∀ a s1, I s1 → Q a s1 → Q' a s1) → safe p s Q'.
Proof.
  intros Hp HQ. revert s Hp. induction p as [a|f|C l f k IH|e k IH]; intros s Hp; simpl in *; [|done|..]; intros s1 Hr Hi.
  - by apply HQ, Hp.
  - specialize (Hp s1 Hr Hi). destruct (f s1) as [[b s2]|]; [|done]. destruct Hp as (? & ? & ?). auto.
  - destruct (Hp s1 Hr Hi) as (? & ? & ?). auto.
Qed.

Lemma safe_bind {A B} (p : prog A) (g : A → prog B) s Q :
  I s → safe p s (λ a s1, safe (g a) s1 Q) → safe (p ≫= g) s Q.
Proof.
  revert s. induction p as [a|f|C l f k IH|e k IH]; intros s Hi Hp; simpl in *; [by apply Hp|done|..]; intros s1 Hr Hi1.
  - specialize (Hp s1 Hr Hi1). destruct (f s1) as [[b s2]|]; [|done]. destruct Hp as (? & ? & ?). auto.
  - destruct (Hp s1 Hr Hi1) as (? & ? & ?). auto.
Qed.

Lemma safe_lift {A B} (r : res A) (g : A → prog B) s Q :
  (∀ a, r = Ok a → safe (g a) s Q) → (∀ e, r = Raise e → allowed e) → safe (lift r ≫= g) s Q.
Proof. destruct r; simpl; auto. Qed.

Lemma safe_reads {A B} l (f : S → A) (g : A → prog B) s Q :
  (∀ s1, guarantee None s1 s1) → (∀ s1, rely s s1 → I s1 → safe (g (f s1)) s1 Q) → safe (reads l f ≫= g) s Q.
Proof. intros Hg Hk s1 Hr Hi. simpl. auto. Qed.

(** What is promised under interference holds alone. *)
Lemma safe_alone {A} (p : prog A) s Q a s1 : I s → safe p s Q → alone p s = Ok (a, s1) → Q a s1 ∧ I s1.
Proof.
  revert s. induction p as [a'|f|C l f k IH|e k IH]; intros s Hi Hp; simpl in *; [|done|..].
  - intros [= <- <-]. split; [apply Hp; [reflexivity|done]|done].
  - specialize (Hp s (reflexivity s) Hi). destruct (f s) as [[b s2]|]; [|done]. simpl.
    destruct Hp as (_ & ? & ?). by apply IH.
  - destruct (Hp s (reflexivity s) Hi) as (_ & ? & ?). by apply IH.
Qed.
End logic.

(** ** All sections of a program *)

(** What a program does next: a section with its label, or a submission. *)
Definition next_label {A} (p : prog A) : option (L + E) :=
  match p with
  | Critical l _ _ => Some (inl l)
  | Submit e _ => Some (inr e)
  | Ret _ | Throw _ => None
  end.

Section sections.
Context (P : L → ∀ B, (S → res (B * S)) → Prop).

Fixpoint all_sections {A} (p : prog A) : Prop :=
  match p with
  | Ret _ | Throw _ => True
  | Critical l f k => P l _ f ∧ ∀ b, all_sections (k b)
  | Submit _ k => all_sections k
  end.

Lemma all_sections_bind {A B} (p : prog A) (g : A → prog B) :
  all_sections p → (∀ a, all_sections (g a)) → all_sections (p ≫= g).
Proof. intros Hp Hg. induction p as [a|f|C l f k IH|e k IH]; simpl in *; naive_solver. Qed.

Lemma all_sections_lift {A} (r : res A) : all_sections (lift r).
Proof. by destruct r. Qed.

Lemma all_sections_step {A} (p : prog A) s e p' s' :
  all_sections p → prog_step p s = Some (Ok (e, p', s')) → all_sections p'.
Proof.
  destruct p as [a|f|C l f k|e' k]; simpl; intros Hp [=].
  - destruct (f s) as [[b s1]|]; simplify_eq/=. naive_solver.
  - by simplify_eq.
Qed.
End sections.

Lemma all_sections_label (P : L → ∀ B, (S → res (B * S)) → Prop) (Q : L → Prop) {A} (p : prog A) l :
  (∀ l B f, P l B f → Q l) → all_sections P p → next_label p = Some (inl l) → Q l.
Proof. intros HPQ Hp Hl. destruct p; simplify_eq/=. naive_solver. Qed.
End programs.
Arguments prog : clear implicits.
Arguments Ret {_ _ _ _} _.
Arguments Throw {_ _ _ _} _.
Arguments Critical {_ _ _ _ _} _ _ _.
Arguments Submit {_ _ _ _} _ _.
