(* ===== verification/Handlers.v ===== *)
(** The functions of the packet server that threads run at the same time, section by section:
    [read_callback] on the thread of libevent, [PacketHandler::handle] and the handler of
    hellos on the workers of the pool, [send_pkg] and the hellos of [start] on any.  A
    section is what runs under one lock, or one access to a shared member that has none; its
    label is its footprint. *)
From S2P Require Import Prelude CxxString IPAddress FifoCache RoutingTable Message PeerSession Server.
From S2P Require Import Hello ManagementApi ServerInit System Locks Threads.
Import InstancePool RoutingTable.
Local Open Scope Z_scope.

Section handlers.
Context `{Protobuf SignedProtoMessage} `{Protobuf ProtoMessage} `{Protobuf Any} `{OpenSSL}.
Context (package_pkg : ProtoHelloMessage → str → ProtoMessage).
Context (inet_ntop : Z → Z → Z → option str).
Context (iteration : routes → list (str * route (ADDR := IPAddress))).
(** The message, port and ttl with which the undefined [_handler_impl<ProtoHelloMessage>::handle]
    calls [internal_handle]; [None]: it answers [false] without the call. *)
Context (hello_args : ProtoMessage → option (ProtoHelloMessage * Z * Z)).

Abbreviation thread := (prog P2PServerContext task footprint).

(** ** Sending *)

Definition sign_init : thread () :=
  critical (unlocked SignCtx Writes) (λ s, c ← deref Fatal (EVP_DigestSignInit (_evp_md_ctx s) (_client_priv_key s)); Ok ((), set_md_ctx c s)).
Definition sign_update (raw_packet : str) : thread () :=
  critical (unlocked SignCtx Writes) (λ s, c ← deref Fatal (EVP_DigestSignUpdate (_evp_md_ctx s) raw_packet); Ok ((), set_md_ctx c s)).
Definition sign_final : thread (option str) :=
  critical (unlocked SignCtx Writes) (λ s, match EVP_DigestSignFinal (_evp_md_ctx s) with
                 | None => Ok (None, s)
                 | Some (digest, c) => Ok (Some digest, set_md_ctx c s)
                 end).

Definition send_pkg_thread (data : ProtoMessage) (peer : option IPAddress) : thread bool :=
  let raw_packet := SerializeAsString data in
  if bool_decide (Z.of_nat (length raw_packet) > INT_MAX) then Throw (UB Uninitialized) else
  _ ← sign_init;
  _ ← sign_update raw_packet;
  digest_len ← reads (unlocked SignCtx Reads) (λ s, EVP_DigestSignFinal_length (_evp_md_ctx s));
  match digest_len with
  | None => mret false
  | Some _ =>
      digest ← sign_final;
      match digest with
      | None => mret false
      | Some digest =>
          let signed_msg := SignedProtoMessage_default in
          let signed_msg := set_ttl 10 signed_msg in
          let signed_msg := set_signature digest signed_msg in
          let signed_msg := set_sign_algorithm SHA_256 signed_msg in
          let signed_msg := set_signed_payload raw_packet signed_msg in
          port ← reads fixed _port;
          _ ← submits (SendTcp port signed_msg peer);
          mret true
      end
  end.

(** The hellos of [start], which the main thread sends while libevent's thread runs already. *)
Fixpoint send_hellos_thread (hello_message : ProtoHelloMessage) (peers : list (str * str)) : thread () :=
  match peers with
  | [] => mret ()
  | (id, addr) :: peers' =>
      ip_addr ← lift (IPAddress_of_string addr);
      _ ← send_pkg_thread (package_pkg hello_message id) (Some ip_addr);
      send_hellos_thread hello_message peers'
  end.

(** ** Handling a hello *)

Definition ensure_session_thread (message : ProtoHelloMessage) : thread bool :=
  session_ret ← reads peer_lookup (λ s, get_instance (sender_id message) (_peer_pool s));
  match session_ret with
  | Some _ => mret true
  | None =>
      session ← reads fixed (λ s, (new_session (_x509_store s) (x509_certificate message)).1);
      match session with
      | None => mret false
      | Some session =>
          _ ← writes peer_insert (λ s, set_peers (add_instance (sender_id message) (Some session) (_peer_pool s)).2 s);
          mret true
      end
  end.

(** The two sections of [try_update_table]. *)
Definition try_update_table_thread (dest : str) (new_ip : option IPAddress) (new_ttl : Z) : thread bool :=
  better ← reads route_lookup (λ s, match _routing_map s !! dest with Some r => upgradeable new_ttl r | None => false end);
  if better : bool then
    critical route_update (λ s, let '(b, m) := update_locked dest new_ip new_ttl (_routing_map s) in Ok (b, set_routes m s))
  else mret false.

Definition internal_handle_thread (message : ProtoHelloMessage) (prev_port : Z) (client_address : sockaddr_ptr)
    (ttl : Z) : thread bool :=
  known ← ensure_session_thread message;
  if known : bool then
    a ← lift (load_sockaddr client_address);
    new_ip ← lift (IPAddress_of_sockaddr inet_ntop a prev_port);
    dest ← reads peer_lookup (λ s, get_instance (sender_id message) (_peer_pool s));
    reachable ← reads route_lookup (λ s, can_delivered (sender_id message) (_routing_map s));
    if reachable : bool then
      _ ← try_update_table_thread (sender_id message) (Some new_ip) ttl;
      hello ← critical fixed (λ s, hello ← internal_construct (_client_cert s) s; Ok (hello, s));
      _ ← send_pkg_thread (package_pkg hello (sender_id message)) (Some new_ip);
      mret true
    else
      _ ← writes route_insert (λ s, set_routes (add_new_route (sender_id message) (Some new_ip) ttl (_routing_map s)).2 s);
      mret true
  else mret false.

(** ** Checking a signature *)

(** A section on the session of a peer.  [add_instance] never removes or replaces an entry,
    so the pointer [get_instance] returned is the entry of the key. *)
Definition on_session {B} (id : str) (a : access) (f : PeerSession → res (B * PeerSession)) : thread B :=
  critical (unlocked (SessionCtx id) a) (λ s, session ← deref (UB EndIterator) (get_instance id (_peer_pool s));
                 '(b, session) ← f session;
                 Ok (b, set_peers (<[id := Some session]> (_peer_pool s)) s)).

Definition is_null (p : ctx_ptr) : bool := match p with NullCtx => true | _ => false end.

(** A call of OpenSSL on the session's context, with the session's key. *)
Definition with_ctx {B} (f : pkey → md_ctx → B * ctx_ptr) (session : PeerSession) : res (B * PeerSession) :=
  match PeerSession._evp_md_ctx session with
  | NullCtx => Raise (UB NullDeref)
  | FreedCtx => Raise (UB UseAfterFree)
  | LiveCtx c => let '(b, p) := f (_public_key session) c in Ok (b, mkPeerSession (_public_key session) p)
  end.

(** [EVP_MD_CTX_free], which ignores a null pointer. *)
Definition free_ctx (session : PeerSession) : res (() * PeerSession) :=
  match PeerSession._evp_md_ctx session with
  | NullCtx => Ok ((), session)
  | FreedCtx => Raise (UB UseAfterFree)
  | LiveCtx _ => Ok ((), mkPeerSession (_public_key session) FreedCtx)
  end.

Definition verify_update (id data sig : str) : thread bool :=
  updated ← on_session id Writes (with_ctx (λ _ c,
    match EVP_DigestVerifyUpdate c data with Some c' => (true, LiveCtx c') | None => (false, LiveCtx c) end));
  if updated : bool then
    on_session id Writes (with_ctx (λ _ c, let '(b, c') := EVP_DigestVerifyFinal c sig in (b, LiveCtx c')))
  else mret false.

Definition verify_thread (id data sig : str) (method : ProtoSignAlgorithm) : thread bool :=
  null ← on_session id Reads (λ session, Ok (is_null (PeerSession._evp_md_ctx session), session));
  if null : bool then
    created ← on_session id Writes (λ session, Ok
      match EVP_MD_CTX_new with
      | Some c => (true, mkPeerSession (_public_key session) (LiveCtx c))
      | None => (false, mkPeerSession (_public_key session) NullCtx)
      end);
    if created : bool then
      match method with
      | SHA_256 =>
          initialised ← on_session id Writes (with_ctx (λ k c,
            match EVP_DigestVerifyInit c k with Some c' => (true, LiveCtx c') | None => (false, LiveCtx c) end));
          if initialised : bool then verify_update id data sig else mret false
      | OtherAlgorithm _ =>
          _ ← on_session id Writes free_ctx;
          mret false
      end
    else mret false
  else verify_update id data sig.

(** ** Handling any message *)

Definition handle_thread (signed_msg : SignedProtoMessage) (incoming_connection : sockaddr_ptr) : thread () :=
  let proto_msg := (ParseFromString (signed_payload signed_msg)).2 in
  if bool_decide (packet_type proto_msg = HELLO) then
    match hello_args proto_msg with
    | None => mret ()
    | Some (message, prev_port, ttl) => _ ← internal_handle_thread message prev_port incoming_connection ttl; mret ()
    end
  else
    checker ← reads peer_lookup (λ s, get_instance (pm_sender proto_msg) (_peer_pool s));
    match checker with
    | None => mret ()
    | Some _ =>
        let data := SerializeAsString (default Any_default (payload proto_msg)) in
        _ ← verify_thread (pm_sender proto_msg) data (signature signed_msg) (sign_algorithm signed_msg);
        mret ()
    end.

(** ** Reading *)

Fixpoint submit_all (ts : list task) : thread () :=
  match ts with [] => mret () | t :: ts' => _ ← submits t; submit_all ts' end.

(** The walk of the table is one section; its submissions are not. *)
Definition handle_packet_thread (signed_msg : SignedProtoMessage) (sin : sockaddr_ptr) : thread () :=
  if bool_decide (sp_ttl signed_msg = 0) then mret () else
  cached ← critical cache_test (λ s, '(cached, c) ← is_cached (signature signed_msg) (_packet_cache s); Ok (cached, set_cache c s));
  if cached : bool then mret () else
  let receiver := sp_receiver signed_msg in
  '(port, device_id) ← reads fixed (λ s, (_port s, _device_id s));
  if bool_decide (device_id ≠ receiver) then
    reachable ← (if bool_decide (sp_ttl signed_msg > 1) then reads route_lookup (λ s, can_delivered receiver (_routing_map s)) else mret false);
    if reachable : bool then
      next ← critical route_lookup (λ s, next ← get_next_peer receiver (_routing_map s); Ok (next, s));
      submits (SendTcp port signed_msg next)
    else
      nodes ← reads route_walk (λ s, iteration (get_routing_table (_routing_map s)));
      submit_all ((λ node, SendTcp port signed_msg (hop node.2)) <$> nodes)
  else submits (Handle signed_msg sin).

Definition read_callback_thread (buf : str) (sin : sockaddr_ptr) : thread () :=
  let recv_size := Z.of_nat (length buf) in
  if bool_decide (recv_size < 4) then mret () else
  let packet_len := of_le32 (take 4 buf) in
  if bool_decide (recv_size - 4 < packet_len) then mret () else
  let '(_, signed_msg) := ParseFromString (take (Z.to_nat packet_len) (drop 4 buf)) in
  handle_packet_thread signed_msg sin.

(** ** Alone *)

Abbreviation run := (alone submit).
#[local] Arguments send_pkg_thread : simpl never.
#[local] Arguments try_update_table_thread : simpl never.
#[local] Arguments ensure_session_thread : simpl never.
#[local] Arguments verify_update : simpl never.

Lemma res_ok_bind {A B} (a : A) (f : A → res B) : Ok a ≫= f = f a.
Proof. done. Qed.

Lemma alone_send_pkg data peer s : run (send_pkg_thread data peer) s = send_pkg data peer s.
Proof.
  unfold send_pkg_thread, send_pkg. case_bool_decide; [done|]. simpl.
  destruct (EVP_DigestSignInit _ _) as [c|]; [|done]. simpl.
  destruct (EVP_DigestSignUpdate c _) as [c'|]; [|done]. simpl.
  destruct (EVP_DigestSignFinal_length c'); [|done]. simpl.
  by destruct (EVP_DigestSignFinal c') as [[digest c'']|].
Qed.

Lemma alone_send_hellos hello peers s :
  run (send_hellos_thread hello peers) s = (s' ← send_hellos package_pkg hello peers s; Ok ((), s')).
Proof.
  revert s. induction peers as [|[id addr] peers IH]; intros s; cbn [send_hellos_thread send_hellos]; [done|].
  rewrite alone_bind, alone_lift. destruct (IPAddress_of_string addr) as [ip|]; [|done]. rewrite !res_ok_bind.
  rewrite alone_bind, alone_send_pkg. destruct (send_pkg _ _ s) as [[b s']|]; [|done]. rewrite !res_ok_bind. apply IH.
Qed.

Lemma alone_ensure_session message s :
  run (ensure_session_thread message) s =
    Ok match ensure_session message s with Some s' => (true, s') | None => (false, s) end.
Proof.
  unfold ensure_session_thread, ensure_session. simpl. destruct (get_instance _ _); [done|]. simpl.
  by destruct (new_session _ _).1.
Qed.

Lemma alone_try_update_table dest ip t s :
  run (try_update_table_thread dest ip t) s =
    Ok ((try_update_table dest ip t (_routing_map s)).1, set_routes (try_update_table dest ip t (_routing_map s)).2 s).
Proof.
  assert (set_routes (_routing_map s) s = s) as Hs by by destruct s.
  unfold try_update_table_thread, try_update_table. simpl.
  destruct (_routing_map s !! dest) as [r|]; simpl; [|by rewrite Hs].
  destruct (upgradeable t r); simpl; [|by rewrite Hs]. by destruct (update_locked _ _ _ _).
Qed.

Lemma alone_internal_handle message prev_port a ttl s :
  run (internal_handle_thread message prev_port a ttl) s = internal_handle package_pkg inet_ntop message prev_port a ttl s.
Proof.
  unfold internal_handle_thread, internal_handle. rewrite alone_bind, alone_ensure_session.
  destruct (ensure_session message s) as [s1|]; [|done]. rewrite !res_ok_bind.
  rewrite alone_bind, alone_lift. destruct (load_sockaddr a) as [sa|]; [|done]. rewrite !res_ok_bind.
  rewrite alone_bind, alone_lift. destruct (IPAddress_of_sockaddr _ _ _) as [ip|]; [|done]. rewrite !res_ok_bind.
  rewrite !alone_reads. destruct (can_delivered _ _); [|done]. rewrite alone_bind, alone_try_update_table, !res_ok_bind.
  destruct (try_update_table _ _ _ _) as [u m]. rewrite alone_critical. cbn [fst snd].
  destruct (internal_construct _ _) as [hello|]; [|done]. rewrite !res_ok_bind.
  rewrite alone_bind, alone_send_pkg. by destruct (send_pkg _ _ _) as [[b s2]|].
Qed.

(** The session of a peer replaced. *)
Definition with_session (id : str) (session : PeerSession) (s : P2PServerContext) : P2PServerContext :=
  set_peers (<[id := Some session]> (_peer_pool s)) s.

Lemma get_with_session id session s : get_instance id (_peer_pool (with_session id session s)) = Some session.
Proof. unfold get_instance. simpl. by rewrite lookup_insert_eq. Qed.

Lemma with_session_twice id session session' s :
  with_session id session' (with_session id session s) = with_session id session' s.
Proof. unfold with_session, set_peers. simpl. by rewrite insert_insert_eq. Qed.

Lemma alone_on_session {A B} id acc (f : PeerSession → res (A * PeerSession)) (g : A → thread B) session s :
  get_instance id (_peer_pool s) = Some session →
  run (on_session id acc f ≫= g) s = ('(a, session') ← f session; run (g a) (with_session id session' s)).
Proof. intros Hs. simpl. rewrite Hs. simpl. by destruct (f session) as [[a session']|]. Qed.

Lemma run_on_session {A} id acc (f : PeerSession → res (A * PeerSession)) session s :
  get_instance id (_peer_pool s) = Some session →
  run (on_session id acc f) s = ('(a, session') ← f session; Ok (a, with_session id session' s)).
Proof. intros Hs. simpl. rewrite Hs. simpl. by destruct (f session) as [[a session']|]. Qed.

Lemma with_ctx_live {B} (f : pkey → md_ctx → B * ctx_ptr) k c :
  with_ctx f (mkPeerSession k (LiveCtx c)) = Ok ((f k c).1, mkPeerSession k (f k c).2).
Proof. unfold with_ctx. simpl. by destruct (f k c). Qed.

Lemma alone_verify_update id data sig session s :
  get_instance id (_peer_pool s) = Some session →
  run (verify_update id data sig) s =
    match PeerSession._evp_md_ctx session with
    | NullCtx => Raise (UB NullDeref)
    | FreedCtx => Raise (UB UseAfterFree)
    | LiveCtx c =>
        match EVP_DigestVerifyUpdate c data with
        | None => Ok (false, with_session id session s)
        | Some c =>
            let '(b, c) := EVP_DigestVerifyFinal c sig in
            Ok (b, with_session id (mkPeerSession (_public_key session) (LiveCtx c)) s)
        end
    end.
Proof.
  intros Hs. unfold verify_update. rewrite (alone_on_session _ _ _ _ _ _ Hs).
  destruct session as [k [|c|]]; [done| |done]. rewrite with_ctx_live, res_ok_bind.
  cbn [PeerSession._evp_md_ctx _public_key].
  destruct (EVP_DigestVerifyUpdate c data) as [c'|]; [|done]. cbn [fst snd].
  rewrite (run_on_session _ _ _ _ _ (get_with_session _ _ _)), with_ctx_live, res_ok_bind.
  destruct (EVP_DigestVerifyFinal c' sig) as [b c'']. by rewrite with_session_twice.
Qed.

Lemma alone_verify id data sig method session s :
  get_instance id (_peer_pool s) = Some session →
  run (verify_thread id data sig method) s =
    ('(b, session') ← verify data sig method session; Ok (b, with_session id session' s)).
Proof.
  intros Hs. unfold verify_thread. rewrite (alone_on_session _ _ _ _ _ _ Hs), res_ok_bind.
  pose proof (λ x, get_with_session id x s) as Hget. unfold verify, init_ctx.
  destruct session as [k [|c|]]; cbn [is_null PeerSession._evp_md_ctx _public_key].
  - rewrite (alone_on_session _ _ _ _ _ _ (Hget _)).
    destruct EVP_MD_CTX_new as [c|]; rewrite res_ok_bind, with_session_twice; [|done].
    cbn [_public_key]. destruct method.
    + rewrite (alone_on_session _ _ _ _ _ _ (Hget _)), with_ctx_live, res_ok_bind, with_session_twice.
      destruct (EVP_DigestVerifyInit c k) as [c'|]; cbn [fst snd PeerSession._evp_md_ctx]; [|done].
      rewrite (alone_verify_update _ _ _ _ _ (Hget _)). cbn [PeerSession._evp_md_ctx _public_key].
      destruct (EVP_DigestVerifyUpdate c' data) as [c2|]; [|by rewrite with_session_twice].
      destruct (EVP_DigestVerifyFinal c2 sig). by rewrite with_session_twice.
    + rewrite (alone_on_session _ _ _ _ _ _ (Hget _)). unfold free_ctx. cbn [PeerSession._evp_md_ctx _public_key].
      by rewrite res_ok_bind, with_session_twice.
  - rewrite (alone_verify_update _ _ _ _ _ (Hget _)). cbn [PeerSession._evp_md_ctx _public_key].
    destruct (EVP_DigestVerifyUpdate c data) as [c2|]; [|by rewrite with_session_twice].
    destruct (EVP_DigestVerifyFinal c2 sig). by rewrite with_session_twice.
  - by rewrite (alone_verify_update _ _ _ _ _ (Hget _)).
Qed.

(** The handler as [Hello] has it, with what it is called with. *)
Definition hello_handle (m : ProtoMessage) (a : sockaddr_ptr) (s : P2PServerContext) : res (bool * P2PServerContext) :=
  match hello_args m with
  | None => Ok (false, s)
  | Some (message, prev_port, ttl) => internal_handle package_pkg inet_ntop message prev_port a ttl s
  end.

Lemma alone_handle signed_msg a s :
  run (handle_thread signed_msg a) s = (s' ← handle hello_handle signed_msg a s; Ok ((), s')).
Proof.
  unfold handle_thread, handle. case_bool_decide.
  - unfold hello_handle. destruct (hello_args _) as [[[message prev_port] ttl]|]; [|done].
    rewrite alone_bind, alone_internal_handle. by destruct (internal_handle _ _ _ _ _ _ _) as [[b s']|].
  - rewrite alone_reads. destruct (get_instance _ _) as [session|] eqn:E; [|done].
    rewrite alone_bind, (alone_verify _ _ _ _ _ _ E). by destruct (verify _ _ _ _) as [[b session']|].
Qed.

Lemma alone_submit_all ts s : run (submit_all ts) s = Ok ((), set_tasks (_tasks s ++ ts) s).
Proof.
  revert s. induction ts as [|t ts IH]; intros s; simpl; [rewrite app_nil_r; by destruct s|].
  rewrite IH. simpl. by rewrite <- app_assoc.
Qed.

Lemma broadcast_set_tasks msg s :
  broadcast iteration msg s =
    set_tasks (_tasks s ++ ((λ node, SendTcp (_port s) msg (hop node.2)) <$> iteration (get_routing_table (_routing_map s)))) s.
Proof.
  unfold broadcast. generalize (iteration (get_routing_table (_routing_map s))). intros l. revert s.
  induction l as [|node l IH]; intros s; simpl; [rewrite app_nil_r; by destruct s|].
  rewrite IH. simpl. by rewrite <- app_assoc.
Qed.

Lemma alone_handle_packet msg sin s :
  run (handle_packet_thread msg sin) s = (s' ← handle_packet iteration msg sin s; Ok ((), s')).
Proof.
  unfold handle_packet_thread, handle_packet. case_bool_decide; [done|]. rewrite alone_critical.
  destruct (is_cached _ _) as [[cached c]|]; [|done]. rewrite !res_ok_bind. destruct cached; [done|].
  rewrite alone_reads. cbn [_port _device_id set_cache]. case_bool_decide; [|done].
  destruct (bool_decide (sp_ttl msg > 1)); cbn [andb].
  - rewrite alone_reads. cbn [_routing_map set_cache]. destruct (can_delivered _ _); [simpl; by destruct (get_next_peer _ _)|].
    by rewrite alone_reads, alone_submit_all, broadcast_set_tasks.
  - change (mret false ≫= ?g) with (g false). cbv beta iota. by rewrite alone_reads, alone_submit_all, broadcast_set_tasks.
Qed.

Lemma alone_read_callback buf sin s :
  run (read_callback_thread buf sin) s = ('(s', _) ← read_callback iteration buf sin s; Ok ((), s')).
Proof.
  unfold read_callback_thread, read_callback. case_bool_decide; [done|]. case_bool_decide; [done|].
  destruct (ParseFromString _) as [b msg]. rewrite alone_handle_packet. by destruct (handle_packet _ _ _ _).
Qed.

End handlers.
