(* ===== verification/Rely.v ===== *)
(** What the threads of a packet server promise each other: the invariant of the server, the
    ways in which it only ever grows, and that every section of every program of
    [Handlers] keeps both, whatever sections of other threads run in between. *)
From S2P Require Import Prelude CxxString IPAddress FifoCache RoutingTable Message PeerSession Server.
From S2P Require Import Hello ManagementApi ServerInit System Locks Threads Handlers.
Import InstancePool RoutingTable.
Local Open Scope Z_scope.

Section rely.
Context `{Protobuf SignedProtoMessage} `{Protobuf ProtoMessage} `{Protobuf Any} `{OpenSSL}.
Context `{!ProtobufLaws SignedProtoMessage SignedProtoMessage_wf}.
Context (package_pkg : ProtoHelloMessage → str → ProtoMessage).
Context (inet_ntop : Z → Z → Z → option str).
Context (iteration : routes → list (str * route (ADDR := IPAddress))).
Context (hello_args : ProtoMessage → option (ProtoHelloMessage * Z * Z)).

(** ** Invariant and growth *)

Definition server_inv (s : P2PServerContext) : Prop := server_wf s ∧ peers_verified s ∧ routes_known s.

(** A session stays, with the key of the first certificate. *)
Definition keys_kept (s s' : P2PServerContext) : Prop :=
  ∀ id session, get_instance id (_peer_pool s) = Some session →
    ∃ session', get_instance id (_peer_pool s') = Some session' ∧ _public_key session' = _public_key session.

Definition grows (s s' : P2PServerContext) : Prop :=
  identity s' = identity s ∧ no_worse (_routing_map s) (_routing_map s') ∧ keys_kept s s' ∧
  _tasks s `prefix_of` _tasks s'.

#[global] Instance grows_preorder : PreOrder grows.
Proof.
  split.
  - intros s. split; [done|]. split; [reflexivity|]. split; [|reflexivity]. intros id session. eauto.
  - intros s1 s2 s3 (Hi & Hn & Hk & Ht) (Hi' & Hn' & Hk' & Ht'). split; [by rewrite Hi'|]. split; [by etrans|].
    split; [|by etrans]. intros id session Hs. destruct (Hk _ _ Hs) as (session' & Hs' & <-). by apply Hk'.
Qed.

Lemma grows_routes m s s' :
  identity s' = identity s → _routing_map s' = m → no_worse (_routing_map s) m → _peer_pool s' = _peer_pool s →
  _tasks s `prefix_of` _tasks s' → grows s s'.
Proof.
  intros Hi <- Hr Hp Ht. split; [done|]. split; [done|]. split; [|done]. intros id session. rewrite Hp. eauto.
Qed.

Lemma grows_peers s s' :
  identity s' = identity s → _routing_map s' = _routing_map s → keys_kept s s' → _tasks s' = _tasks s → grows s s'.
Proof. intros Hi Hr Hk Ht. split; [done|]. rewrite Hr, Ht. split; [reflexivity|]. by split. Qed.

(** ** What a section may do *)

(** The sections change one member each, and none the tasks. *)
Definition grows_by (t : option task) (s s' : P2PServerContext) : Prop :=
  grows s s' ∧ _tasks s' = match t with None => _tasks s | Some t => _tasks s ++ [t] end.
Definition good_step (s s' : P2PServerContext) : Prop := grows_by None s s' ∧ server_inv s'.

Lemma good_refl s : server_inv s → good_step s s.
Proof. split; [split; [reflexivity|done]|done]. Qed.

Lemma good_md_ctx c s : server_inv s → good_step s (set_md_ctx c s).
Proof. intros Hi. split; [split; [by apply (grows_routes (_routing_map s))|done]|exact Hi]. Qed.

Lemma good_cache c s : server_inv s → cache_ok c → good_step s (set_cache c s).
Proof.
  intros ((Hp & _ & Hr & Ht) & Hv & Hk) Hc. split; [split; [by apply (grows_routes (_routing_map s))|done]|]. by split.
Qed.

Lemma good_submit t s : server_inv s → task_ok (_port s) t → grows_by (Some t) s (submit t s) ∧ server_inv (submit t s).
Proof.
  intros ((Hp & Hc & Hr & Ht) & Hv & Hk) Hok. split.
  - split; [|done]. apply (grows_routes (_routing_map s)); [done..|by eexists].
  - split; [|done]. split; [done|]. split; [done|]. split; [done|]. by apply Forall_app_2; [|apply Forall_singleton].
Qed.

Lemma good_peers p s :
  server_inv s → (∀ d, is_Some (_peer_pool s !! d) → is_Some (p !! d)) → map_Forall (λ _ i, is_Some i) p →
  peers_verified (set_peers p s) → keys_kept s (set_peers p s) → good_step s (set_peers p s).
Proof.
  intros (Hwf & Hv & Hf & Hk) Hdom Hf' Hv' Hk'. split; [split; [by apply grows_peers|done]|]. split; [done|]. split; [done|].
  split; [done|]. simpl. intros d Hd. by apply Hdom, Hk.
Qed.

Lemma good_add_instance id session cert s :
  server_inv s → X509_verify_cert (_x509_store s) cert = None → _public_key session = X509_get_pubkey cert →
  good_step s (set_peers (add_instance id (Some session) (_peer_pool s)).2 s).
Proof.
  intros Hi Hc Hkey. destruct Hi as (Hwf & Hv & Hf & Hk). apply good_peers; [done|..].
  - intros d Hd. unfold add_instance. destruct (_peer_pool s !! id); [done|]. by apply lookup_insert_is_Some'; right.
  - unfold add_instance. destruct (_peer_pool s !! id); [done|]. by apply map_Forall_insert_2; [eexists|].
  - intros id' session'. simpl. rewrite get_add_instance. case_bool_decide; [intros [= <-]; eauto|apply Hv].
  - intros id' session' Hs. simpl. rewrite get_add_instance. rewrite bool_decide_false; [by exists session'|].
    intros [-> Hn]. unfold get_instance in Hs. by rewrite Hn in Hs.
Qed.

Lemma add_instance_there id session s :
  server_inv s → is_Some (get_instance id (add_instance id (Some session) (_peer_pool s)).2).
Proof.
  intros (_ & _ & Hf & _). unfold add_instance, get_instance. destruct (_peer_pool s !! id) as [i|] eqn:E.
  - simpl. rewrite E. by apply (Hf id).
  - simpl. by rewrite lookup_insert_eq.
Qed.

Lemma good_with_session id session session' s :
  server_inv s → get_instance id (_peer_pool s) = Some session → _public_key session' = _public_key session →
  good_step s (with_session id session' s).
Proof.
  intros Hi Hs Hkey. destruct Hi as (Hwf & Hv & Hf & Hk). apply good_peers; [done|..].
  - intros d Hd. by apply lookup_insert_is_Some'; right.
  - by apply map_Forall_insert_2; [eexists|].
  - intros id' s'. unfold get_instance. simpl. destruct (decide (id' = id)) as [->|].
    + rewrite lookup_insert_eq. intros [= <-]. rewrite Hkey. by eapply Hv.
    + rewrite lookup_insert_ne by done. apply Hv.
  - intros id' s' Hs'. unfold get_instance in *. simpl. destruct (decide (id' = id)) as [->|].
    + rewrite lookup_insert_eq. exists session'. split; [done|]. destruct (_peer_pool s !! id); [|done]. by simplify_eq.
    + rewrite lookup_insert_ne by done. eauto.
Qed.

Lemma good_routes m s :
  server_inv s → routes_ok m → no_worse (_routing_map s) m →
  (∀ d, is_Some (m !! d) → is_Some (_peer_pool s !! d)) → good_step s (set_routes m s).
Proof.
  intros ((Hp & Hc & Hr & Ht) & Hv & Hf & Hk) Hm Hn Hd. split; [split; [by apply (grows_routes m)|done]|]. split; [done|]. by split.
Qed.

Lemma good_update dest ip t s :
  server_inv s → good_step s (set_routes (update_locked dest (Some ip) t (_routing_map s)).2 s).
Proof.
  intros Hi. rewrite <- try_update_locked. destruct (try_update_table_routes dest (Some ip) t (_routing_map s)) as [Hn Hd].
  destruct Hi as ((Hp & Hc & Hr & Ht) & Hv & Hf & Hk). apply good_routes; [done|by apply try_update_table_ok|done|].
  intros d Hd'. by apply Hk, Hd.
Qed.

Lemma good_add_route dest ip t session s :
  server_inv s → get_instance dest (_peer_pool s) = Some session →
  good_step s (set_routes (add_new_route dest (Some ip) t (_routing_map s)).2 s).
Proof.
  intros Hi Hs. destruct Hi as ((Hp & Hc & Hr & Ht) & Hv & Hf & Hk). apply good_routes; [done|by apply add_new_route_ok|by apply add_new_route_no_worse|].
  intros d. unfold add_new_route. destruct (_routing_map s !! dest); [apply Hk|]. simpl.
  destruct (decide (d = dest)) as [->|]; [|rewrite lookup_insert_ne by done; apply Hk].
  intros _. unfold get_instance in Hs. by destruct (_peer_pool s !! dest).
Qed.

(** ** The programs *)

Lemma grows_port s s' : grows s s' → _port s' = _port s.
Proof. by intros ([= ->] & _). Qed.
Lemma grows_store s s' : grows s s' → _x509_store s' = _x509_store s.
Proof. by intros ([= _ _ _ ->] & _). Qed.
Lemma grows_session s s' id session :
  grows s s' → get_instance id (_peer_pool s) = Some session → ∃ session', get_instance id (_peer_pool s') = Some session'.
Proof. intros (_ & _ & Hk & _) Hs. destruct (Hk _ _ Hs) as (session' & ? & _). eauto. Qed.

(** The faults of OpenSSL and the address of the connection. *)
Definition worker_fault (f : fault) : Prop :=
  f ∈ [Fatal; UB Uninitialized; UB UseAfterFree; UB NullDeref; UB OutOfBounds].

Section programs.
Context (allowed : fault → Prop) (Hallowed : ∀ f, worker_fault f → allowed f).
Abbreviation thread := (prog P2PServerContext task footprint).
Abbreviation Safe := (safe (L := footprint) submit server_inv grows grows_by allowed).

Lemma allowed_fault f : worker_fault f → allowed f.
Proof. apply Hallowed. Qed.

#[local] Ltac fault := apply allowed_fault; unfold worker_fault; by_decide.

(** A section that is a good step when it does not fault. *)
Lemma safe_section {A B} l (f : P2PServerContext → res (A * P2PServerContext)) (g : A → thread B) s Q :
  (∀ s1, grows s s1 → server_inv s1 →
    match f s1 with Ok (a, s2) => good_step s1 s2 ∧ (server_inv s2 → Safe (g a) s2 Q) | Raise e => allowed e end) →
  Safe (critical l f ≫= g) s Q.
Proof.
  intros Hf s1 Hr Hi. specialize (Hf s1 Hr Hi). destruct (f s1) as [[a s2]|]; [|done].
  destruct Hf as [[? Hi2] Hg]. split; [done|]. split; [done|]. by apply Hg.
Qed.

Lemma safe_read {A B} l (f : P2PServerContext → A) (g : A → thread B) s Q :
  (∀ s1, grows s s1 → server_inv s1 → Safe (g (f s1)) s1 Q) → Safe (reads l f ≫= g) s Q.
Proof. intros Hg. apply safe_section. intros s1 Hr Hi. split; [by apply good_refl|auto]. Qed.

Lemma safe_ret {A} (a : A) s (Q : A → P2PServerContext → Prop) : (∀ s1, server_inv s1 → Q a s1) → Safe (mret a) s Q.
Proof. intros HQ s1 _ Hi. by apply HQ. Qed.

Lemma safe_submit {B} t (g : () → thread B) s Q :
  task_ok (_port s) t → (∀ s1, server_inv s1 → Safe (g ()) s1 Q) → Safe (submits t ≫= g) s Q.
Proof.
  intros Ht Hg s1 Hr Hi. rewrite <- (grows_port _ _ Hr) in Ht. destruct (good_submit t s1 Hi Ht). auto.
Qed.

Lemma safe_send_pkg data peer s Q :
  is_Some peer → (∀ b s1, server_inv s1 → Q b s1) → Safe (send_pkg_thread data peer) s Q.
Proof.
  intros Hpeer HQ. unfold send_pkg_thread. case_bool_decide; [fault|]. apply safe_section. intros s1 _ Hi1.
  destruct (EVP_DigestSignInit _ _) as [c|]; [|fault]. split; [by apply good_md_ctx|]. intros _.
  apply safe_section. intros s2 _ Hi2. destruct (EVP_DigestSignUpdate _ _) as [c'|]; [|fault].
  split; [by apply good_md_ctx|]. intros _. apply safe_read. intros s3 _ Hi3.
  destruct (EVP_DigestSignFinal_length _); [|apply safe_ret; auto].
  apply safe_section. intros s4 _ Hi4. destruct (EVP_DigestSignFinal _) as [[digest c'']|];
    (split; [by apply good_md_ctx || by apply good_refl|]); intros _; [|apply safe_ret; auto].
  apply safe_read. intros s5 _ Hi5. apply safe_submit; [|intros; apply safe_ret; auto].
  split; [done|]. split; [|done]. by split_and!.
Qed.

Lemma safe_send_hellos hello peers s :
  (∀ addr f, IPAddress_of_string addr = Raise f → allowed f) → server_inv s →
  Safe (send_hellos_thread package_pkg hello peers) s (λ _ _, True).
Proof.
  intros Haddr. revert s. induction peers as [|[id addr] peers IH]; intros s Hi; simpl; [by intros ???|].
  apply safe_lift; [|apply Haddr]. intros ip _. apply safe_bind; [apply _|done|].
  apply safe_send_pkg; [by eexists|]. intros _ s1 Hi1. by apply IH.
Qed.

Lemma safe_ensure_session message s :
  Safe (ensure_session_thread message) s (λ known s1,
    known = true → is_Some (get_instance (sender_id message) (_peer_pool s1))).
Proof.
  unfold ensure_session_thread. apply safe_read. intros s1 _ Hi1.
  destruct (get_instance _ _) as [session|] eqn:E.
  { intros s2 Hr2 _ _. by destruct (grows_session _ _ _ _ Hr2 E) as (? & ->). }
  apply safe_read. intros s2 _ Hi2. unfold new_session. destruct (d2i_X509 _) as [cert|]; [|by intros ???].
  destruct (X509_verify_cert _ cert) eqn:Ec; [by intros ???|]. simpl.
  intros s3 Hr3 Hi3. rewrite <- (grows_store _ _ Hr3) in Ec.
  destruct (good_add_instance (sender_id message) (PeerSession_new (X509_get_pubkey cert)) cert s3 Hi3 Ec eq_refl) as [Hr4 Hi4].
  split; [done|]. split; [done|]. intros s5 Hr5 _ _.
  destruct (add_instance_there (sender_id message) (PeerSession_new (X509_get_pubkey cert)) s3 Hi3) as [session' E4].
  by destruct (grows_session _ s5 _ _ Hr5 E4) as (? & ->).
Qed.

Lemma safe_try_update {B} dest ip t (g : bool → thread B) s Q :
  (∀ b s1, server_inv s1 → Safe (g b) s1 Q) → Safe (try_update_table_thread dest (Some ip) t ≫= g) s Q.
Proof.
  intros Hg. apply safe_read. intros s1 _ Hi1. destruct (match _ with Some r => _ | None => _ end); [|by apply Hg].
  apply (safe_section _ (λ s, let '(b, m) := update_locked dest (Some ip) t (_routing_map s) in Ok (b, set_routes m s))).
  intros s2 _ Hi2. pose proof (good_update dest ip t s2 Hi2) as Hgood.
  destruct (update_locked _ _ _ _) as [b m]. split; [exact Hgood|auto].
Qed.

Lemma safe_internal_handle message prev_port a ttl s :
  server_inv s → Safe (internal_handle_thread package_pkg inet_ntop message prev_port a ttl) s (λ _ _, True).
Proof.
  intros Hi. unfold internal_handle_thread. apply safe_bind; [apply _|done|].
  eapply safe_mono; [apply safe_ensure_session|]. intros [] s1 Hi1; [|by intros _ ???]. intros [session Hs]; [done|].
  apply safe_lift; [|destruct a; intros f [= <-]; fault]. intros sa _. apply safe_lift.
  2:{ unfold IPAddress_of_sockaddr. intros f. destruct (_ || _); [|done]. destruct (inet_ntop _ _ _); [|intros [= <-]; fault].
      case_bool_decide; [done|intros [= <-]; fault]. }
  intros ip _. apply safe_read. intros s2 Hr2 Hi2. destruct (grows_session _ _ _ _ Hr2 Hs) as [session2 Hs2].
  apply safe_read. intros s3 Hr3 Hi3. destruct (grows_session _ _ _ _ Hr3 Hs2) as [session3 Hs3].
  destruct (can_delivered _ _).
  - apply safe_try_update. intros _ s4 Hi4. apply safe_section. intros s5 _ Hi5.
    unfold internal_construct. destruct (i2d_X509 _) as [raw|]; [|fault]. split; [by apply good_refl|]. intros Hi6.
    apply safe_bind; [apply _|done|]. apply safe_send_pkg; [by eexists|]. by intros _ s7 Hi7 ???.
  - apply safe_section. intros s4 Hr4 Hi4. destruct (grows_session _ _ _ _ Hr4 Hs3) as [session4 Hs4].
    split; [by eapply good_add_route|]. by intros _ ???.
Qed.

(** A section on a session that keeps its key; the session is there. *)
Lemma safe_on_session {A B} id acc (f : PeerSession → res (A * PeerSession)) (g : A → thread B) s Q session :
  get_instance id (_peer_pool s) = Some session →
  (∀ session, match f session with
              | Ok (_, session') => _public_key session' = _public_key session
              | Raise e => worker_fault e
              end) →
  (∀ a s1 session1, server_inv s1 → get_instance id (_peer_pool s1) = Some session1 → Safe (g a) s1 Q) →
  Safe (on_session id acc f ≫= g) s Q.
Proof.
  intros Hs Hf Hg. apply safe_section. intros s1 Hr1 Hi1. destruct (grows_session _ _ _ _ Hr1 Hs) as [session1 Hs1].
  rewrite Hs1. simpl. specialize (Hf session1). destruct (f session1) as [[a session']|e]; [|by apply Hallowed].
  split; [by eapply good_with_session|]. intros Hi2. eapply Hg; [done|]. apply get_with_session.
Qed.

Lemma with_ctx_key {A} (f : pkey → md_ctx → A * ctx_ptr) session :
  match with_ctx f session with
  | Ok (_, session') => _public_key session' = _public_key session
  | Raise e => worker_fault e
  end.
Proof.
  unfold with_ctx. destruct (PeerSession._evp_md_ctx session); [unfold worker_fault; by_decide|by destruct (f _ c)|unfold worker_fault; by_decide].
Qed.

Lemma free_ctx_key session :
  match free_ctx session with
  | Ok (_, session') => _public_key session' = _public_key session
  | Raise e => worker_fault e
  end.
Proof. unfold free_ctx. destruct (PeerSession._evp_md_ctx session); [done|done|unfold worker_fault; by_decide]. Qed.

Lemma safe_verify_update id data sig s session :
  get_instance id (_peer_pool s) = Some session → Safe (verify_update id data sig) s (λ _ _, True).
Proof.
  intros Hs. eapply safe_on_session; [exact Hs|apply with_ctx_key|]. intros [] s1 session1 Hi1 Hs1; [|by intros ???].
  apply (safe_on_session id _ _ mret _ _ _ Hs1); [apply with_ctx_key|]. by intros ??????.
Qed.

Lemma safe_verify id data sig method s session :
  get_instance id (_peer_pool s) = Some session → Safe (verify_thread id data sig method) s (λ _ _, True).
Proof.
  intros Hs. eapply safe_on_session; [exact Hs|done|]. intros [] s1 session1 _ Hs1; [|by eapply safe_verify_update].
  eapply safe_on_session; [exact Hs1|by intros ?; destruct EVP_MD_CTX_new|]. intros [] s2 session2 _ Hs2; [|by intros ???].
  destruct method.
  - eapply safe_on_session; [exact Hs2|apply with_ctx_key|]. intros [] s3 session3 _ Hs3; [by eapply safe_verify_update|by intros ???].
  - eapply safe_on_session; [exact Hs2|apply free_ctx_key|]. by intros _ s3 session3 _ Hs3 ???.
Qed.

Lemma safe_handle msg a s :
  server_inv s → Safe (handle_thread package_pkg inet_ntop hello_args msg a) s (λ _ _, True).
Proof.
  intros Hi. unfold handle_thread. case_bool_decide.
  - destruct (hello_args _) as [[[message prev_port] ttl]|]; [|by intros ???]. apply safe_bind; [apply _|done|].
    eapply safe_mono; [by apply safe_internal_handle|]. by intros b s1 Hi1 _ ???.
  - apply safe_read. intros s1 _ Hi1. destruct (get_instance _ _) as [session|] eqn:Es; [|by intros ???].
    apply safe_bind; [apply _|done|]. eapply safe_mono; [by eapply safe_verify|]. by intros b s2 Hi2 _ ???.
Qed.
(** Reading, which faults in no interleaving. *)
Hypothesis iteration_visits : ∀ m, iteration m ≡ₚ map_to_list m.

Lemma safe_submit_all ts s : Forall (task_ok (_port s)) ts → Safe (submit_all ts) s (λ _ _, True).
Proof.
  revert s. induction ts as [|t ts IH]; intros s Hts; [by intros ???|]. apply Forall_cons in Hts as [Ht Hts].
  intros s1 Hr Hi. rewrite <- (grows_port _ _ Hr) in Ht, Hts. destruct (good_submit t s1 Hi Ht) as [? ?].
  split; [done|]. split; [done|]. by apply IH.
Qed.

Lemma safe_handle_packet msg sin s :
  SignedProtoMessage_wf msg → Safe (handle_packet_thread iteration msg sin) s (λ _ _, True).
Proof.
  intros Hmsg. unfold handle_packet_thread. case_bool_decide; [by intros ???|]. apply safe_section. intros s1 _ Hi1.
  destruct (is_cached_ok (signature msg) _ (proj1 (proj2 (proj1 Hi1)))) as (b & c & -> & Hc & _).
  split; [by apply good_cache|]. intros _. destruct b; [by intros ???|].
  apply safe_read. intros s2 _ Hi2. case_bool_decide; [|apply (safe_submit_all [Handle msg sin]); by apply Forall_singleton].
  assert (∀ s3, server_inv s3 → grows s2 s3 →
    Safe (nodes ← reads route_walk (λ s, iteration (get_routing_table (_routing_map s)));
          submit_all ((λ node, SendTcp (_port s2) msg (hop node.2)) <$> nodes)) s3 (λ _ _, True)) as Hall.
  { intros s3 Hi3 Hr3. apply safe_read. intros s4 Hr4 Hi4. apply safe_submit_all, Forall_fmap, Forall_forall.
    intros [d r] Hin. rewrite iteration_visits, elem_of_map_to_list in Hin.
    split; [by rewrite (grows_port _ _ Hr4), (grows_port _ _ Hr3)|]. split; [done|].
    exact (proj1 (proj1 (proj2 (proj2 (proj1 Hi4))) d r Hin)). }
  destruct (bool_decide (sp_ttl msg > 1)); [|by apply Hall].
  apply safe_read. intros s3 Hr3 Hi3. unfold can_delivered. destruct (_routing_map s3 !! _) as [r3|] eqn:E3; [|by apply Hall].
  apply safe_section. intros s4 Hr4 Hi4. destruct (proj1 (proj2 Hr4) _ _ E3) as (r4 & E4 & _).
  unfold get_next_peer. rewrite E4. simpl. split; [by apply good_refl|]. intros _.
  apply (safe_submit_all [SendTcp (_port s2) msg (hop r4)]), Forall_singleton.
  split; [by rewrite (grows_port _ _ Hr4), (grows_port _ _ Hr3)|]. split; [done|].
  exact (proj1 (proj1 (proj2 (proj2 (proj1 Hi4))) _ _ E4)).
Qed.

Lemma safe_read_callback buf sin s : Safe (read_callback_thread iteration buf sin) s (λ _ _, True).
Proof.
  unfold read_callback_thread. case_bool_decide; [by intros ???|]. case_bool_decide; [by intros ???|].
  pose proof (parse_wf (take (Z.to_nat (of_le32 (take 4 buf))) (drop 4 buf))) as Hmsg.
  destruct (ParseFromString _) as [b msg]. by apply safe_handle_packet.
Qed.
End programs.
End rely.
