(* ===== verification/Runtime.v ===== *)
(** The packet server as it runs: libevent's thread, the workers of the thread pool and any
    other threads (the main one sends the hellos of [start]), section by section, with the
    pool of [ThreadPool] between them.  A task a worker takes runs as its program of
    [Handlers]; while it runs, everything else goes on. *)
From S2P Require Import Prelude CxxString IPAddress FifoCache RoutingTable Message PeerSession Server.
From S2P Require Import Hello ManagementApi ServerInit System Signing ThreadPool Locks Threads Handlers Rely.
From stdpp Require Import relations.
Import InstancePool RoutingTable.
Local Open Scope Z_scope.

Section runtime.
Context `{Protobuf SignedProtoMessage} `{Protobuf ProtoMessage} `{Protobuf Any} `{OpenSSL}.
Context (package_pkg : ProtoHelloMessage → str → ProtoMessage).
Context (inet_ntop : Z → Z → Z → option str).
Context (iteration : routes → list (str * route (ADDR := IPAddress))).
Context (hello_args : ProtoMessage → option (ProtoHelloMessage * Z * Z)).

Abbreviation thread := (prog P2PServerContext task footprint).

(** ** State *)

(** [_tasks] of the server is the list of all tasks it ever submitted; the pool holds those
    that were not executed yet. *)
Record runtime := mkRuntime {
  server : P2PServerContext;
  task_pool : pool (T := task);
  listening : thread ();              (** what libevent's thread has left of a callback *)
  others : list (thread ());          (** what other threads have left *)
  jobs : gmap nat (thread ());        (** what a worker has left of a task it handles *)
  wire : list str                     (** what was sent *) }.

(** ** Steps *)

(** The next section or submission of a program; submitting waits for the pool's lock. *)
Inductive section_step (s : P2PServerContext) (q : pool) : thread () → thread () → P2PServerContext → pool → Prop :=
  | step_section p p' s' :
      prog_step Server.submit p s = Some (Ok (None, p', s')) → section_step s q p p' s' q
  | step_submission t p p' s' q' :
      prog_step Server.submit p s = Some (Ok (Some t, p', s')) → submit t q = Some q' → section_step s q p p' s' q'.

Inductive move : runtime → runtime → Prop :=
  | move_receive buf sin s q os js w :                        (** bytes arrive, a callback starts *)
      move (mkRuntime s q (Ret ()) os js w) (mkRuntime s q (read_callback_thread iteration buf sin) os js w)
  | move_listening s q p os js w p' s' q' :
      section_step s q p p' s' q' → move (mkRuntime s q p os js w) (mkRuntime s' q' p' os js w)
  | move_other s q l os1 p os2 js w p' s' q' :
      section_step s q p p' s' q' → move (mkRuntime s q l (os1 ++ p :: os2) js w) (mkRuntime s' q' l (os1 ++ p' :: os2) js w)
  | move_job s q l os js w i p p' s' q' :
      js !! i = Some p → section_step s q p p' s' q' → move (mkRuntime s q l os js w) (mkRuntime s' q' l os (<[i := p']> js) w)
  | move_pool s q l os js w q' :                              (** workers between tasks, notifications, the destructor *)
      pool_step q q' → submitted q' = submitted q → executed q' = executed q →
      move (mkRuntime s q l os js w) (mkRuntime s q' l os js w)
  | move_handle s q l os js w i m sin :                       (** a worker calls a handling task *)
      _worker_pool q !! i = Some (Running (Some (Handle m sin))) → js !! i = None →
      move (mkRuntime s q l os js w)
        (mkRuntime s q l os (<[i := handle_thread package_pkg inet_ntop hello_args m sin]> js) w)
  | move_handled s q l os js w i q' :                         (** which returns *)
      js !! i = Some (Ret ()) → worker_step i q = Some q' → move (mkRuntime s q l os js w) (mkRuntime s q' l os (delete i js) w)
  | move_send s q l os js w i q' n port m ip b m' out :       (** a sending task touches nothing that is shared *)
      _worker_pool q !! i = Some (Running (Some (SendTcp port m ip))) →
      send_packet_tcp n port m ip = Ok (b, m', out) → worker_step i q = Some q' →
      move (mkRuntime s q l os js w) (mkRuntime s q' l os js (w ++ if b : bool then [out] else [])).

(** A crash of the pool ends the process. *)
Definition step (r r' : runtime) : Prop := crashed (task_pool r) = false ∧ move r r'.

(** A server that was just made, [n] workers, and the threads there are. *)
Definition start_state (n : nat) (s : P2PServerContext) (os : list (thread ())) : runtime :=
  mkRuntime s (ThreadPool_new n) (Ret ()) os ∅ [].
Definition runs (n : nat) (s : P2PServerContext) (os : list (thread ())) : runtime → Prop :=
  rtc step (start_state n s os).

(** ** Schedules *)

(** What a scheduler can choose to be next, apart from wake-ups and the destructor. *)
Inductive pick :=
  | PReceive (buf : str) (sin : sockaddr_ptr) | PListen | PWorker (i : nat) | PCall (i : nat) | PJob (i : nat) | PReturn (i : nat).

Definition run_section (p : thread ()) (s : P2PServerContext) (q : pool) : option (thread () * P2PServerContext * pool) :=
  match prog_step Server.submit p s with
  | Some (Ok (None, p', s')) => Some (p', s', q)
  | Some (Ok (Some t, p', s')) => q' ← submit t q; Some (p', s', q')
  | _ => None
  end.

Definition do_pick (k : pick) (r : runtime) : option runtime :=
  let '(mkRuntime s q l os js w) := r in
  match k with
  | PReceive buf sin => match l with Ret _ => Some (mkRuntime s q (read_callback_thread iteration buf sin) os js w) | _ => None end
  | PListen => '(p', s', q') ← run_section l s q; Some (mkRuntime s' q' p' os js w)
  | PWorker i =>
      match _worker_pool q !! i with
      | None | Some (Running _) => None
      | Some _ => q' ← worker_step i q; Some (mkRuntime s q' l os js w)
      end
  | PCall i =>
      match _worker_pool q !! i, js !! i with
      | Some (Running (Some (Handle m sin))), None =>
          Some (mkRuntime s q l os (<[i := handle_thread package_pkg inet_ntop hello_args m sin]> js) w)
      | _, _ => None
      end
  | PJob i => p ← js !! i; '(p', s', q') ← run_section p s q; Some (mkRuntime s' q' l os (<[i := p']> js) w)
  | PReturn i =>
      match js !! i with
      | Some (Ret _) => q' ← worker_step i q; Some (mkRuntime s q' l os (delete i js) w)
      | _ => None
      end
  end.

Fixpoint do_picks (ks : list pick) (r : runtime) : option runtime :=
  match ks with
  | [] => Some r
  | k :: ks' => if crashed (task_pool r) then None else r' ← do_pick k r; do_picks ks' r'
  end.

Lemma run_section_step p s q p' s' q' : run_section p s q = Some (p', s', q') → section_step s q p p' s' q'.
Proof.
  unfold run_section. destruct (prog_step _ p s) as [[[[[t|] p1] s1]|]|] eqn:E; try done.
  - destruct (submit t q) as [q1|] eqn:Eq; [|done]. simpl. intros [= <- <- <-]. by eapply step_submission.
  - intros [= <- <- <-]. by apply step_section.
Qed.

Lemma do_pick_move k r r' : crashed (task_pool r) = false → do_pick k r = Some r' → move r r'.
Proof.
  destruct r as [s q l os js w]. simpl. intros Hc. destruct k as [buf sin| |i|i|i|i]; simpl.
  - destruct l as [[]|f|C lb f k|t k]; try done. intros [= <-]. constructor.
  - destruct (run_section l s q) as [[[p' s'] q']|] eqn:E; [|done]. simpl. intros [= <-]. by apply move_listening, run_section_step.
  - destruct (_worker_pool q !! i) as [x|] eqn:Ew; [|done]. destruct (worker_step i q) as [q'|] eqn:E; [|by destruct x].
    intros Hr. assert (r' = mkRuntime s q' l os js w ∧ executed q' = executed q) as [-> He].
    { unfold worker_step in E. rewrite Ew in E. destruct x; try done; simpl in *; injection Hr as <-;
        repeat case_match; try done; injection E as <-; done. }
    apply move_pool; [by eapply step_worker|by apply (worker_step_account i)|done].
  - destruct (_worker_pool q !! i) as [[| | | | | |x|[[|m sin]|]|]|] eqn:Ew; try done.
    destruct (js !! i) eqn:Ej; [done|]. intros [= <-]. by apply move_handle.
  - destruct (js !! i) as [p|] eqn:Ej; [|done]. simpl. destruct (run_section p s q) as [[[p' s'] q']|] eqn:E; [|done].
    simpl. intros [= <-]. eapply move_job; [done|by apply run_section_step].
  - destruct (js !! i) as [[[]|f|C lb f k|t k]|] eqn:Ej; try done. destruct (worker_step i q) as [q'|] eqn:E; [|done].
    simpl. intros [= <-]. by eapply move_handled.
Qed.

Lemma do_picks_steps ks r r' : do_picks ks r = Some r' → rtc step r r'.
Proof.
  revert r. induction ks as [|k ks IH]; intros r; simpl; [by intros [= <-]|].
  destruct (crashed (task_pool r)) eqn:Ec; [done|]. destruct (do_pick k r) as [r1|] eqn:E; [|done]. simpl. intros Hr.
  eapply rtc_l; [split; [done|by eapply do_pick_move]|]. by apply IH.
Qed.

(** ** The pool of a run is a pool *)

Lemma section_step_pool s q p p' s' q' :
  section_step s q p p' s' q' → crashed q = false → rtc pool_step q q' ∧ executed q' = executed q.
Proof.
  destruct 1 as [|t p p' s' q' _ Hs]; intros Hc; [done|]. split; [by apply rtc_once; eapply step_submit|].
  unfold submit in Hs. destruct (existsb _ _); [done|]. by injection Hs as <-.
Qed.

Lemma move_pool_steps r r' : move r r' → crashed (task_pool r) = false → rtc pool_step (task_pool r) (task_pool r').
Proof.
  destruct 1; simpl; intros Hc; try reflexivity;
    match goal with
    | H : section_step _ _ _ _ _ _ |- _ => by apply (section_step_pool _ _ _ _ _ _ H)
    | H : pool_step _ _ |- _ => by apply rtc_once
    | H : worker_step _ _ = Some _ |- _ => by apply rtc_once; eapply step_worker
    end.
Qed.

Lemma reachable_rtc n q q' : reachable (T := task) n q → rtc pool_step q q' → reachable n q'.
Proof. intros Hr Hs. induction Hs as [|q q1 q' Hs _ IH]; [done|]. apply IH. by eapply reachable_step. Qed.

Lemma runs_pool n s os r : runs n s os r → reachable n (task_pool r).
Proof.
  intros Hr. refine (rtc_ind_r (λ r, reachable n (task_pool r)) _ _ _ r Hr); [constructor|].
  intros r1 r2 _ [Hc Hm] Hn. eapply reachable_rtc; [exact Hn|by apply move_pool_steps].
Qed.

(** ** Every state of a run *)

Context `{!ProtobufLaws SignedProtoMessage SignedProtoMessage_wf}.
Hypothesis iteration_visits : ∀ m, iteration m ≡ₚ map_to_list m.

(** What is left of a thread keeps the promises of [Rely] and faults only as allowed. *)
Definition keeps (allowed : fault → Prop) (p : thread ()) (s : P2PServerContext) : Prop :=
  safe Server.submit server_inv grows grows_by allowed p s (λ _ _, True).

(** The main thread also parses the addresses of the peer list. *)
Definition other_fault (f : fault) : Prop := worker_fault f ∨ ∃ addr, IPAddress_of_string addr = Raise f.

Definition run_inv (s0 : P2PServerContext) (r : runtime) : Prop :=
  server_inv (server r) ∧ grows s0 (server r) ∧ submitted (task_pool r) = _tasks (server r) ∧
  keeps (λ _, False) (listening r) (server r) ∧ Forall (λ p, keeps other_fault p (server r)) (others r) ∧
  map_Forall (λ _ p, keeps worker_fault p (server r)) (jobs r).

Lemma section_step_inv allowed s q p p' s' q' :
  section_step s q p p' s' q' → keeps allowed p s → server_inv s → submitted q = _tasks s →
  server_inv s' ∧ grows s s' ∧ submitted q' = _tasks s' ∧ keeps allowed p' s'.
Proof.
  intros Hs Hp Hi Hq. destruct Hs as [p p' s' Hs|t p p' s' q' Hs Ht];
    destruct (safe_step _ _ _ _ _ _ _ _ _ _ Hp (reflexivity s) Hi Hs) as ([Hg Htasks] & Hi' & Hp'); split_and!; try done.
  - by rewrite Htasks.
  - rewrite Htasks, <- Hq. unfold submit in Ht. destruct (existsb _ _); [done|]. by injection Ht as <-.
Qed.

Lemma keeps_grows allowed p s s' : keeps allowed p s → grows s s' → keeps allowed p s'.
Proof. apply safe_rely, _. Qed.

Lemma run_inv_grow s0 s q l os js w s' q' :
  run_inv s0 (mkRuntime s q l os js w) → server_inv s' → grows s s' → submitted q' = _tasks s' →
  run_inv s0 (mkRuntime s' q' l os js w).
Proof.
  intros (_ & Hg & _ & Hl & Ho & Hj) Hi Hg' Hq. simpl in *. split; [done|]. split; [by etrans|]. split; [done|].
  split; [by eapply keeps_grows|]. split.
  - eapply Forall_impl; [exact Ho|]. intros p Hp. exact (keeps_grows _ _ _ _ Hp Hg').
  - eapply map_Forall_impl; [exact Hj|]. intros i p Hp. exact (keeps_grows _ _ _ _ Hp Hg').
Qed.

Lemma run_inv_move s0 r r' : move r r' → run_inv s0 r → run_inv s0 r'.
Proof.
  intros Hm Hr. pose proof Hr as (Hi & Hg & Hq & Hl & Ho & Hj).
  destruct Hm as [buf sin s q os js w|s q p os js w p' s' q' Hs|s q l os1 p os2 js w p' s' q' Hs|s q l os js w i p p' s' q' Hp Hs
    |s q l os js w q' Hs Hsub Hex|s q l os js w i m sin Hw Hn|s q l os js w i q' Hp Hs
    |s q l os js w i q' n port m ip b m' out Hw Hs Hst]; simpl in *.
  - split_and!; try done. by apply safe_read_callback.
  - destruct (section_step_inv _ _ _ _ _ _ _ Hs Hl Hi Hq) as (Hi' & Hg' & Hq' & Hp').
    destruct (run_inv_grow _ _ _ _ _ _ _ _ _ Hr Hi' Hg' Hq') as (? & ? & ? & _ & ? & ?). by split_and!.
  - apply Forall_app in Ho as [Ho1 [Hp Ho2]%Forall_cons].
    destruct (section_step_inv _ _ _ _ _ _ _ Hs Hp Hi Hq) as (Hi' & Hg' & Hq' & Hp').
    destruct (run_inv_grow _ _ _ _ _ _ _ _ _ Hr Hi' Hg' Hq') as (? & ? & ? & ? & Ho' & ?). split_and!; try done.
    simpl in *. apply Forall_app in Ho' as [? [_ ?]%Forall_cons]. by apply Forall_app_2; [|apply Forall_cons].
  - destruct (section_step_inv _ _ _ _ _ _ _ Hs (Hj _ _ Hp) Hi Hq) as (Hi' & Hg' & Hq' & Hp').
    destruct (run_inv_grow _ _ _ _ _ _ _ _ _ Hr Hi' Hg' Hq') as (? & ? & ? & ? & ? & Hj'). split_and!; try done.
    by apply map_Forall_insert_2.
  - unfold run_inv. simpl. rewrite Hsub. by split_and!.
  - split_and!; try done. apply map_Forall_insert_2; [|done]. by apply safe_handle.
  - unfold run_inv. simpl. rewrite (proj1 (worker_step_account _ _ _ Hs)). split_and!; try done. by apply map_Forall_delete.
  - unfold run_inv. simpl. rewrite (proj1 (worker_step_account _ _ _ Hst)). by split_and!.
Qed.

Lemma runs_inv n s0 os r :
  server_inv s0 → _tasks s0 = [] → Forall (λ p, keeps other_fault p s0) os → runs n s0 os r → run_inv s0 r.
Proof.
  intros Hi Ht Ho Hr. refine (rtc_ind_r (run_inv s0) _ _ _ r Hr).
  - unfold run_inv. simpl. rewrite Ht. split_and!; [done|reflexivity|done|by intros ???|done|apply map_Forall_empty].
  - intros r1 r2 _ [_ Hm]. by apply run_inv_move.
Qed.

Lemma senders_keep s0 senders :
  server_inv s0 → Forall (λ p, keeps other_fault p s0) ((λ h, send_hellos_thread package_pkg h.1 h.2) <$> senders).
Proof.
  intros Hi. apply Forall_fmap, Forall_true. intros h.
  apply safe_send_hellos; [intros f; by left|intros addr f Hf; right; by exists addr|done].
Qed.

(** The fault a thread is about to end in. *)
Definition about_to (f : fault) (p : thread ()) (s : P2PServerContext) : Prop :=
  prog_step Server.submit p s = Some (Raise f).

Lemma keeps_about_to allowed p s f : keeps allowed p s → server_inv s → about_to f p s → allowed f.
Proof. intros Hp Hi Hf. exact (safe_step _ _ _ _ _ _ _ _ _ _ Hp (reflexivity s) Hi Hf). Qed.

(** C6: the running server under real concurrency.  A server that was just made runs with any
    number of workers and with other threads that send the hellos of [start]; any bytes
    arrive; sections of all threads interleave in any order.  Then at any time: the
    server is well-formed with the identity it started with; every session has the key
    of a certificate its store accepts, and every route leads to a peer with a session;
    from then on no session is lost or changes its key and no route is lost or gets
    longer; libevent's thread never faults, and a worker only in a call of OpenSSL or on
    the address of the connection; no sending task has a null address; and no task is
    executed more often than it was submitted. *)
Theorem concurrent_server_safe n s0 senders r :
  server_inv s0 → _tasks s0 = [] →
  let os := (λ h, send_hellos_thread package_pkg h.1 h.2) <$> senders in
  runs n s0 os r →
  identity (server r) = identity s0 ∧ server_wf (server r) ∧
  (∀ id session, get_instance id (_peer_pool (server r)) = Some session →
     ∃ cert, X509_verify_cert (_x509_store s0) cert = None ∧ _public_key session = X509_get_pubkey cert) ∧
  (∀ d, can_delivered d (_routing_map (server r)) = true → is_Some (get_instance d (_peer_pool (server r)))) ∧
  (∀ r', rtc step r r' → keys_kept (server r) (server r') ∧ no_worse (_routing_map (server r)) (_routing_map (server r'))) ∧
  (∀ f, ¬ about_to f (listening r) (server r)) ∧
  (∀ f i p, jobs r !! i = Some p → about_to f p (server r) → worker_fault f) ∧
  (∀ i n port m ip, _worker_pool (task_pool r) !! i = Some (Running (Some (SendTcp port m ip))) →
     send_packet_tcp n port m ip ≠ Raise (UB NullDeref)) ∧
  executed (task_pool r) ⊆+ _tasks (server r).
Proof.
  intros Hi Ht os Hr.
  pose proof (runs_inv _ _ _ _ Hi Ht (senders_keep s0 senders Hi) Hr) as Hinv. pose proof Hinv as ((Hwf & Hv & Hf & Hk) & Hg & Hq & Hl & Ho & Hj).
  split; [apply Hg|]. split; [done|]. split.
  { intros id session Hs. rewrite <- (grows_store _ _ Hg). by eapply Hv. }
  split.
  { intros d Hd. unfold can_delivered in Hd. destruct (_routing_map (server r) !! d) eqn:Ed; [|done].
    destruct (Hk d) as [i Hi']; [by rewrite Ed; eexists|]. unfold get_instance. rewrite Hi'. by apply (Hf d). }
  split; [|split; [|split; [|split]]].
  - intros r' Hr'. assert (grows (server r) (server r')) as (_ & ? & ? & _); [|done].
    assert (run_inv (server r) r') as (_ & ? & _); [|done].
    refine (rtc_ind_r (run_inv (server r)) _ _ _ r' Hr'); [by split_and!|].
    intros r1 r2 _ [_ Hm]. by apply run_inv_move.
  - intros f Hf'. exact (keeps_about_to _ _ _ _ Hl (conj Hwf (conj Hv (conj Hf Hk))) Hf').
  - intros f i p Hp. apply keeps_about_to; [by eapply Hj|done].
  - intros i n' port m ip Hi'. apply (running_submitted _ _ _ _ (runs_pool _ _ _ _ Hr)) in Hi'. rewrite Hq in Hi'.
    destruct Hwf as (_ & _ & _ & Htasks). rewrite Forall_forall in Htasks.
    destruct (Htasks _ Hi') as (_ & _ & [a ->]). unfold send_packet_tcp. simpl.
    case_bool_decide; [done|]. destruct (inet_pton n' (ip_address a)). by repeat case_bool_decide.
  - rewrite <- Hq. etrans; [|exact (tasks_of_submitted _ _ (runs_pool _ _ _ _ Hr))]. by apply submseteq_inserts_r.
Qed.
End runtime.

(** ** A concrete run *)

#[local] Existing Instance signed_codec.
#[local] Existing Instance signed_codec_laws.
#[local] Existing Instance message_codec.
#[local] Existing Instance toy_any_codec.
#[local] Existing Instance ToySSL.

(** The time stamp of a message stands for the distance its hello offers. *)
Definition toy_args (m : ProtoMessage) : option (ProtoHelloMessage * Z * Z) :=
  Some (mkHello (pm_sender m) [] $"cert", 3324, match timestamp m with Some (t, _) => t | None => 9 end).
Definition toy_from : sockaddr_in := mkSockaddr AF_INET6 0.
Definition toy_route_ip : IPAddress := mkIPAddress true 3324 $"::1".
Definition toy_hello_msg (t : Z) (sig : str) : SignedProtoMessage :=
  mkSigned [] $"b" 0 3 sig (SerializeAsString (mkProtoMessage $"a" $"b" HELLO (Some (t, 0)) None)) SHA_256.
Definition toy_senders : list (ProtoHelloMessage * list (str * str)) := [(mkHello $"b" [] $"cert", [($"a", $"10.0.0.7:3324")])].

Abbreviation toy_picks := (do_picks toy_package toy_ntop map_to_list toy_args).
Abbreviation toy_runs := (runs toy_package toy_ntop map_to_list toy_args).

(** A hello arrives, is queued, taken by the first worker and handled. *)
Definition toy_schedule : list pick :=
  [PReceive (frame (toy_hello_msg 9 $"s")) (LiveAddr toy_from); PListen; PListen; PListen] ++
  replicate 5 (PWorker 0) ++ [PCall 0] ++ replicate 6 (PJob 0) ++ [PReturn 0].
Definition toy_start (n : nat) : @runtime ToySSL :=
  start_state n (toy_server $"b" ∅) ((λ h, send_hellos_thread toy_package h.1 h.2) <$> toy_senders).

Lemma toy_server_inv : server_inv (toy_server $"b" ∅).
Proof.
  split; [|split].
  - split; [by_decide|]. split; [by apply FIFOCache_new_ok|]. split; [apply map_Forall_empty|constructor].
  - intros id session. unfold get_instance. simpl. by rewrite lookup_empty.
  - split; [apply map_Forall_empty|]. intros d [r Hr]. simpl in Hr. by rewrite lookup_empty in Hr.
Qed.

Lemma some_inv {A} (o : option A) : match o with Some _ => true | None => false end = true → ∃ a, o = Some a.
Proof. destruct o; [eauto|done]. Qed.
Lemma none_inv {A} (o : option A) : match o with Some _ => true | None => false end = false → o = None.
Proof. by destruct o. Qed.
Lemma project {A B} (f : A → B) (o : option A) a v : o = Some a → f <$> o = Some v → f a = v.
Proof. intros ->. simpl. congruence. Qed.

Lemma concurrent_server_safe_witness :
  ∃ r, toy_runs 5 (toy_server $"b" ∅) ((λ h, send_hellos_thread toy_package h.1 h.2) <$> toy_senders) r ∧
    is_Some (get_instance $"a" (_peer_pool (server r))) ∧ executed (task_pool r) ⊆+ _tasks (server r) ∧
    length (executed (task_pool r)) = 1%nat.
Proof.
  destruct (some_inv (toy_picks toy_schedule (toy_start 5))) as [r Hr]; [vm_compute; reflexivity|].
  assert (toy_runs 5 (toy_server $"b" ∅) ((λ h, send_hellos_thread toy_package h.1 h.2) <$> toy_senders) r) as Hruns
    by exact (do_picks_steps _ _ _ _ _ _ _ Hr).
  exists r. split; [exact Hruns|].
  destruct (concurrent_server_safe toy_package toy_ntop map_to_list toy_args (λ m, reflexivity _) 5 _ toy_senders r
    toy_server_inv eq_refl Hruns) as (_ & _ & _ & Hroutes & _ & _ & _ & _ & Hex).
  split; [apply Hroutes|split; [exact Hex|]].
  - exact (project (λ r : @runtime ToySSL, can_delivered $"a" (_routing_map (server r))) _ _ true Hr ltac:(vm_compute; reflexivity)).
  - exact (project (λ r : @runtime ToySSL, length (executed (task_pool r))) _ _ 1%nat Hr ltac:(vm_compute; reflexivity)).
Defined.
