(* ===== verification/Races.v ===== *)
(** The data races of the running packet server.  Every section of [Handlers] has a footprint
    ([Locks]) and so has every step of a worker of the pool; two threads race when what they
    do next touches a member at the same time.  The file shows that the footprints are true
    to the sections, which races there can be at all, and that each of them is reached. *)
From S2P Require Import Prelude CxxString IPAddress FifoCache RoutingTable Message PeerSession Server.
From S2P Require Import Hello ManagementApi ServerInit System Signing ThreadPool Locks Threads Handlers Rely Runtime.
From stdpp Require Import relations.
Import InstancePool RoutingTable.
Local Open Scope Z_scope.

(** ** The steps of the pool *)

(** The loop condition, [_task_queue.empty()] under [_mutex], the same under the shared lock,
    and taking the front out; the destructor clears the flag with no lock. *)
Definition worker_loop : footprint := unlocked RunningFlag Reads.
Definition worker_check : footprint := under WaitMutex UniqueLock TaskQueue Reads.
Definition worker_fetch : footprint := under TasksMutex SharedLock TaskQueue Reads.
Definition worker_pop : footprint := under TasksMutex SharedLock TaskQueue Writes.
Definition pool_stop : footprint := unlocked RunningFlag Writes.

(** What a worker does next, when it is not in a task. *)
Definition worker_access {T} (w : worker (T := T)) : option footprint :=
  match w with
  | Loop => Some worker_loop
  | Check => Some worker_check
  | Fetch => Some worker_fetch
  | Shared | Moved _ => Some worker_pop
  | AboutToWait | Waiting | Running _ | Stopped => None
  end.

Section races.
Context `{Protobuf SignedProtoMessage} `{Protobuf ProtoMessage} `{Protobuf Any} `{OpenSSL}.
Context (package_pkg : ProtoHelloMessage → str → ProtoMessage).
Context (inet_ntop : Z → Z → Z → option str).
Context (iteration : routes → list (str * route (ADDR := IPAddress))).
Context (hello_args : ProtoMessage → option (ProtoHelloMessage * Z * Z)).

Abbreviation thread := (prog P2PServerContext task footprint).
Abbreviation runs := (runs package_pkg inet_ntop iteration hello_args).
Abbreviation move := (move package_pkg inet_ntop iteration hello_args).

(** The loop of [PeerCommand::exec] over [get_online_peers], on the thread of a console. *)
Definition get_online_peers_thread : thread () :=
  _ ← reads route_walk (λ s, iteration (get_routing_table (_routing_map s))); mret ().

(** ** What threads do next *)

Inductive tid := TListen | TOther (k : nat) | TWorker (i : nat) | TDestructor.

Definition program_access {A} (p : thread A) : option footprint :=
  match next_label p with
  | Some (inl f) => Some f
  | Some (inr _) => Some task_push
  | None => None
  end.

(** A worker that handles a task does what its program does next. *)
Definition next_access (r : runtime) (t : tid) : option footprint :=
  match t with
  | TListen => program_access (listening r)
  | TOther k => p ← others r !! k; program_access p
  | TWorker i =>
      w ← _worker_pool (task_pool r) !! i;
      match w with Running _ => p ← jobs r !! i; program_access p | _ => worker_access w end
  | TDestructor => Some pool_stop
  end.

Definition race (r : runtime) (t1 t2 : tid) (l : location) (f1 f2 : footprint) : Prop :=
  t1 ≠ t2 ∧ next_access r t1 = Some f1 ∧ next_access r t2 = Some f2 ∧ races l f1 f2 = true.

(** ** The races there are *)

Inductive racy : location → footprint → footprint → Prop :=
  | racy_insert f : f ∈ [route_insert; route_lookup; route_walk] → racy Routes route_insert f
  | racy_update : racy Routes route_update route_walk
  | racy_session id a : racy (SessionCtx id) (unlocked (SessionCtx id) Writes) (unlocked (SessionCtx id) a)
  | racy_sign a : racy SignCtx (unlocked SignCtx Writes) (unlocked SignCtx a)
  | racy_push : racy TaskQueue task_push worker_check
  | racy_pop f : f ∈ [worker_pop; worker_fetch; worker_check] → racy TaskQueue worker_pop f
  | racy_stop : racy RunningFlag pool_stop worker_loop.

(** ** Footprints are true *)

(** A member is left as it was; [Peers] is the map from identifiers to sessions, without what
    the sessions hold. *)
Definition unchanged (l : location) (s s' : P2PServerContext) : Prop :=
  match l with
  | Routes => _routing_map s' = _routing_map s
  | Peers => ∀ id, is_Some (_peer_pool s' !! id) ↔ is_Some (_peer_pool s !! id)
  | SessionCtx id => ∀ session, get_instance id (_peer_pool s) = Some session → get_instance id (_peer_pool s') = Some session
  | SignCtx => _evp_md_ctx s' = _evp_md_ctx s
  | PacketCache => _packet_cache s' = _packet_cache s
  | Fixed => identity s' = identity s
  | TaskQueue => _tasks s' = _tasks s
  | RunningFlag => True
  end.

(** Two states look the same to who touches a member. *)
Definition agree (l : location) (s1 s2 : P2PServerContext) : Prop :=
  match l with
  | Routes => _routing_map s1 = _routing_map s2
  | Peers => _peer_pool s1 = _peer_pool s2
  | SessionCtx id => get_instance id (_peer_pool s1) = get_instance id (_peer_pool s2)
  | SignCtx => _evp_md_ctx s1 = _evp_md_ctx s2
  | PacketCache => _packet_cache s1 = _packet_cache s2
  | Fixed => identity s1 = identity s2
  | TaskQueue => _tasks s1 = _tasks s2
  | RunningFlag => True
  end.
Definition agree_on (f : footprint) (s1 s2 : P2PServerContext) : Prop :=
  agree Fixed s1 s2 ∧ ∀ l a, (l, a) ∈ touches f → agree l s1 s2.

(** A section changes only what its footprint writes, and its answer and what it leaves there
    depend only on what the footprint touches. *)
Definition honest (fp : footprint) (B : Type) (f : P2PServerContext → res (B * P2PServerContext)) : Prop :=
  (∀ s b s', f s = Ok (b, s') → ∀ l, (l, Writes) ∉ touches fp → unchanged l s s') ∧
  (∀ s1 s2, agree_on fp s1 s2 →
     match f s1, f s2 with
     | Ok (b1, s1'), Ok (b2, s2') => b1 = b2 ∧ agree_on fp s1' s2'
     | Raise e1, Raise e2 => e1 = e2
     | _, _ => False
     end).

Definition sound {A} (F : footprint → Prop) (p : thread A) : Prop :=
  all_sections (λ fp B f, F fp ∧ honest fp B f) p.

Lemma unchanged_refl l s : unchanged l s s.
Proof. destruct l; simpl; naive_solver. Qed.

Lemma agree_fields s1 s2 :
  agree Fixed s1 s2 → _port s1 = _port s2 ∧ _device_id s1 = _device_id s2 ∧ _client_cert s1 = _client_cert s2 ∧
    _x509_store s1 = _x509_store s2 ∧ _client_priv_key s1 = _client_priv_key s2.
Proof. unfold agree, identity. by intros [= ? ? ? ? ?]. Qed.

(** A section on one member. *)
Lemma agree_on_one l a h s1 s2 :
  agree_on (mkFootprint h [(l, a)]) s1 s2 ↔ agree Fixed s1 s2 ∧ agree l s1 s2.
Proof.
  unfold agree_on. simpl. split; intros [Hf Hl]; (split; [done|]).
  - apply (Hl l a). by left.
  - by intros l' a' [= -> ->]%list_elem_of_singleton.
Qed.

Lemma honest_reads fp A (f : P2PServerContext → A) :
  (∀ s1 s2, agree_on fp s1 s2 → f s1 = f s2) → honest fp A (λ s, Ok (f s, s)).
Proof.
  intros Hf. split; [intros s b s' [= _ <-] l _; apply unchanged_refl|]. intros s1 s2 Hs. split; [by apply Hf|done].
Qed.

(** The sections that write one member [l], from which they compute its new value. *)
Lemma honest_member {M B} l h (get : P2PServerContext → M) (put : M → P2PServerContext → P2PServerContext)
    (f : P2PServerContext → M → res (B * M)) :
  (∀ s1 s2, agree l s1 s2 ↔ get s1 = get s2) → (∀ m s, get (put m s) = m) →
  (∀ m s, identity (put m s) = identity s) → (∀ m s l', l' ≠ l → unchanged l' s (put m s)) →
  (∀ s1 s2 m, identity s1 = identity s2 → f s1 m = f s2 m) →
  honest (mkFootprint h [(l, Writes)]) B (λ s, '(b, m) ← f s (get s); Ok (b, put m s)).
Proof.
  intros Hagree Hget Hid Hput Hf. split.
  - intros s b s' ([b' m] & _ & [= _ <-])%res_bind_ok l' Hl. apply Hput. intros ->. apply Hl. by left.
  - intros s1 s2 [Hfix Hl%Hagree]%agree_on_one. rewrite Hl, (Hf s1 s2) by done.
    destruct (f s2 (get s2)) as [[b m]|e]; [|done]. simpl. split; [done|]. apply agree_on_one. split.
    + unfold agree in *. by rewrite !Hid.
    + by rewrite Hagree, !Hget.
Qed.

Lemma honest_ext fp B (f g : P2PServerContext → res (B * P2PServerContext)) :
  (∀ s, g s = f s) → honest fp B f → honest fp B g.
Proof.
  intros Heq [Hw Hr]. split; [intros s b s'; rewrite Heq; apply Hw|]. intros s1 s2. rewrite !Heq. apply Hr.
Qed.

(** The members that [Server] gives a setter. *)
Lemma honest_sign B (h : option (mutex * mode)) (f : pkey → md_ctx → res (B * md_ctx)) :
  honest (mkFootprint h [(SignCtx, Writes)]) B (λ s, '(b, c) ← f (_client_priv_key s) (_evp_md_ctx s); Ok (b, set_md_ctx c s)).
Proof.
  apply (honest_member SignCtx h _evp_md_ctx set_md_ctx (λ s, f (_client_priv_key s))); [done..|intros c s []; simpl; naive_solver|].
  by intros s1 s2 c [= _ _ _ _ ->].
Qed.

Lemma honest_cache B (h : option (mutex * mode)) (f : FIFOCache str → res (B * FIFOCache str)) :
  honest (mkFootprint h [(PacketCache, Writes)]) B (λ s, '(b, c) ← f (_packet_cache s); Ok (b, set_cache c s)).
Proof. apply (honest_member PacketCache h _packet_cache set_cache (λ _, f)); [done..|intros c s []; simpl; naive_solver|done]. Qed.

Lemma honest_routes B (h : option (mutex * mode)) (f : routes → B * routes) :
  honest (mkFootprint h [(Routes, Writes)]) B (λ s, let '(b, m) := f (_routing_map s) in Ok (b, set_routes m s)).
Proof.
  apply (honest_ext _ _ (λ s, '(b, m) ← Ok (f (_routing_map s)); Ok (b, set_routes m s))).
  { intros s. simpl. by destruct (f _). }
  apply (honest_member Routes h _routing_map set_routes (λ _ m, Ok (f m))); [done..|intros m s []; simpl; naive_solver|done].
Qed.

(** A section on a session: it leaves the other sessions alone. *)
Lemma lookup_get (id : str) (p : gmap str (option PeerSession)) session : get_instance id p = Some session → p !! id = Some (Some session).
Proof. unfold get_instance. destruct (p !! id); congruence. Qed.

Lemma unchanged_with_session l id session session' s :
  get_instance id (_peer_pool s) = Some session → (l = SessionCtx id → session' = session) →
  unchanged l s (with_session id session' s).
Proof.
  intros Hs Hl. pose proof (lookup_get _ _ _ Hs) as Hp. destruct l as [| |id'| | | | |]; try done; simpl.
  - intros id'. destruct (decide (id' = id)) as [->|]; [by rewrite lookup_insert_eq, Hp|by rewrite lookup_insert_ne].
  - intros session0. unfold get_instance. destruct (decide (id' = id)) as [->|]; [|by rewrite lookup_insert_ne].
    rewrite lookup_insert_eq, Hp. intros [= ->]. by rewrite Hl.
Qed.

Lemma honest_session id (h : option (mutex * mode)) a B (f : PeerSession → res (B * PeerSession)) :
  (a = Reads → ∀ session b session', f session = Ok (b, session') → session' = session) →
  honest (mkFootprint h [(SessionCtx id, a)]) B
    (λ s, session ← deref (UB EndIterator) (get_instance id (_peer_pool s));
          '(b, session) ← f session;
          Ok (b, set_peers (<[id := Some session]> (_peer_pool s)) s)).
Proof.
  intros Hf. split.
  - intros s b s' (session & Hs & ([b' session'] & Hx & [= _ <-])%res_bind_ok)%res_bind_ok l Hl.
    destruct (get_instance id (_peer_pool s)) as [session0|] eqn:E; [|done]. injection Hs as ->.
    eapply unchanged_with_session; [exact E|]. intros ->. destruct a; [by eapply Hf|]. destruct Hl. by left.
  - intros s1 s2 [Hfix Hl]%agree_on_one. simpl in Hl. rewrite Hl.
    destruct (get_instance id (_peer_pool s2)) as [session|]; [|done]. simpl.
    destruct (f session) as [[b session']|e]; [|done]. simpl. split; [done|]. apply agree_on_one.
    split; [exact Hfix|]. simpl. unfold get_instance. by rewrite !lookup_insert_eq.
Qed.

Lemma honest_add_instance id session (h : option (mutex * mode)) :
  honest (mkFootprint h [(Peers, Writes)]) ()
    (λ s, Ok ((), set_peers (add_instance id (Some session) (_peer_pool s)).2 s)).
Proof.
  split.
  - intros s b s' [= _ <-] l Hl. unfold add_instance. destruct (_peer_pool s !! id) as [i|] eqn:E; simpl.
    { destruct l; simpl; naive_solver. }
    destruct l as [| |id'| | | | |]; try done; simpl.
    + destruct Hl. by left.
    + unfold get_instance. intros session0. destruct (decide (id' = id)) as [->|]; [by rewrite E|by rewrite lookup_insert_ne].
  - intros s1 s2 [Hfix Hl]%agree_on_one. split; [done|]. apply agree_on_one. split; [exact Hfix|].
    simpl in *. by rewrite Hl.
Qed.

(** ** The programs *)

Lemma sound_bind {A B} F (p : thread A) (g : A → thread B) : sound F p → (∀ a, sound F (g a)) → sound F (p ≫= g).
Proof. apply all_sections_bind. Qed.

Lemma sound_lift {A B} F (r : res A) (g : A → thread B) : (∀ a, sound F (g a)) → sound F (lift r ≫= g).
Proof. apply sound_bind, all_sections_lift. Qed.

Lemma sound_critical {A} (F : footprint → Prop) fp (f : P2PServerContext → res (A * P2PServerContext)) :
  F fp → honest fp A f → sound F (critical fp f).
Proof. intros HF Hf. split; [done|]. by intros a. Qed.

Lemma sound_reads {A} (F : footprint → Prop) fp (f : P2PServerContext → A) :
  F fp → (∀ s1 s2, agree_on fp s1 s2 → f s1 = f s2) → sound F (reads fp f).
Proof. intros HF Hf. apply sound_critical; [done|]. by apply honest_reads. Qed.

Lemma sound_mono {A} (F F' : footprint → Prop) (p : thread A) : (∀ fp, F fp → F' fp) → sound F p → sound F' p.
Proof. intros HF. induction p as [a|e|C l f k IH|t k IH]; simpl; naive_solver. Qed.

(** What [send_pkg] does. *)
Definition sending (fp : footprint) : Prop := fp = fixed ∨ ∃ a, fp = unlocked SignCtx a.

Lemma sound_send_pkg data peer : sound sending (send_pkg_thread data peer).
Proof.
  unfold send_pkg_thread. case_bool_decide; [done|].
  apply sound_bind; [apply sound_critical; [right; eauto|]|intros _].
  { eapply honest_ext, (honest_sign _ _ (λ k c, c ← deref Fatal (EVP_DigestSignInit c k); Ok ((), c))).
    intros s. simpl. by destruct (EVP_DigestSignInit _ _). }
  apply sound_bind; [apply sound_critical; [right; eauto|]|intros _].
  { eapply honest_ext, (honest_sign _ _ (λ _ c, c ← deref Fatal (EVP_DigestSignUpdate c (SerializeAsString data)); Ok ((), c))).
    intros s. simpl. by destruct (EVP_DigestSignUpdate _ _). }
  apply sound_bind; [apply sound_reads; [right; eauto|]|intros [len|]; [|done]].
  { by intros s1 s2 [_ ->]%agree_on_one. }
  apply sound_bind; [apply sound_critical; [right; eauto|]|intros [digest|]; [|done]].
  { eapply honest_ext, (honest_sign _ _ (λ _ c, match EVP_DigestSignFinal c with None => Ok (None, c) | Some (d, c') => Ok (Some d, c') end)).
    intros s. simpl. destruct (EVP_DigestSignFinal _) as [[d c]|]; [done|]. simpl. by destruct s. }
  apply sound_bind; [apply sound_reads; [by left|]|by intros port].
  intros s1 s2 [Hf _]. apply agree_fields in Hf. tauto.
Qed.

Lemma sound_send_hellos hello peers : sound sending (send_hellos_thread package_pkg hello peers).
Proof.
  induction peers as [|[id addr] peers IH]; [done|]. apply sound_lift. intros ip.
  apply sound_bind; [apply sound_send_pkg|done].
Qed.

(** What handling a task does. *)
Definition handling (fp : footprint) : Prop :=
  sending fp ∨ fp ∈ [peer_lookup; peer_insert; route_lookup; route_update; route_insert] ∨
  ∃ id a, fp = unlocked (SessionCtx id) a.

Lemma agree_peers h a s1 s2 : agree_on (mkFootprint h [(Peers, a)]) s1 s2 → _peer_pool s1 = _peer_pool s2.
Proof. by intros [_ Hp]%agree_on_one. Qed.
Lemma agree_routes h a s1 s2 : agree_on (mkFootprint h [(Routes, a)]) s1 s2 → _routing_map s1 = _routing_map s2.
Proof. by intros [_ Hp]%agree_on_one. Qed.

Lemma container_handling fp : fp ∈ [peer_lookup; peer_insert; route_lookup; route_update; route_insert] → handling fp.
Proof. by right; left. Qed.
#[local] Ltac in_container := apply container_handling; set_solver.

Lemma sound_lookup_peer id : sound handling (reads peer_lookup (λ s, get_instance id (_peer_pool s))).
Proof. apply sound_reads; [in_container|]. by intros s1 s2 ->%agree_peers. Qed.

Lemma sound_ensure_session message : sound handling (ensure_session_thread message).
Proof.
  apply sound_bind; [apply sound_lookup_peer|]. intros [session|]; [done|].
  apply sound_bind; [apply sound_reads; [by left; left|]|].
  { intros s1 s2 [Hf _]. by destruct (agree_fields _ _ Hf) as (_ & _ & _ & -> & _). }
  intros [session|]; [|done]. apply sound_bind; [|done]. apply sound_critical; [in_container|]. apply honest_add_instance.
Qed.

Lemma sound_try_update dest ip t : sound handling (try_update_table_thread dest ip t).
Proof.
  apply sound_bind; [apply sound_reads; [in_container|by intros s1 s2 ->%agree_routes]|]. intros []; [|done].
  apply sound_critical; [in_container|]. apply honest_routes.
Qed.

Lemma sound_internal_handle message prev_port a ttl :
  sound handling (internal_handle_thread package_pkg inet_ntop message prev_port a ttl).
Proof.
  apply sound_bind; [apply sound_ensure_session|]. intros []; [|done]. do 2 (apply sound_lift; intros ?).
  apply sound_bind; [apply sound_lookup_peer|intros _].
  apply sound_bind; [apply sound_reads; [in_container|by intros s1 s2 ->%agree_routes]|]. intros [].
  - apply sound_bind; [apply sound_try_update|intros _]. apply sound_bind.
    { apply sound_critical; [by left; left|]. split.
      - intros s b s' (hello & _ & [= _ <-])%res_bind_ok l _. apply unchanged_refl.
      - intros s1 s2 Hs. pose proof Hs as [Hf _]. unfold internal_construct.
        destruct (agree_fields _ _ Hf) as (_ & -> & -> & _). by destruct (i2d_X509 _). }
    intros hello. apply sound_bind; [|done]. eapply sound_mono; [|apply sound_send_pkg]. by left.
  - apply sound_bind; [|done]. apply sound_critical; [in_container|].
    eapply honest_ext, (honest_routes _ _ (λ m, ((), (add_new_route _ _ _ m).2))). done.
Qed.

Lemma sound_on_session {B} id a (f : PeerSession → res (B * PeerSession)) :
  (a = Reads → ∀ session b session', f session = Ok (b, session') → session' = session) →
  sound handling (on_session id a f).
Proof. intros Hf. apply sound_critical; [right; right; eauto|]. by apply honest_session. Qed.

Lemma sound_verify id data sig method : sound handling (verify_thread id data sig method).
Proof.
  assert (∀ B (f : PeerSession → res (B * PeerSession)), sound handling (on_session id Writes f)) as Hw
    by by intros B f; apply sound_on_session.
  assert (sound handling (verify_update id data sig)) as Hupdate
    by by apply sound_bind; [apply Hw|]; intros []; [apply Hw|].
  apply sound_bind; [by apply sound_on_session; intros _ session b session' [= _ <-]|]. intros []; [|done].
  apply sound_bind; [apply Hw|]. intros []; [|done]. destruct method.
  - apply sound_bind; [apply Hw|]. by intros [].
  - by apply sound_bind; [apply Hw|].
Qed.

Lemma sound_handle m a : sound handling (handle_thread package_pkg inet_ntop hello_args m a).
Proof.
  unfold handle_thread. case_bool_decide.
  - destruct (hello_args _) as [[[message prev_port] ttl]|]; [|done]. by apply sound_bind; [apply sound_internal_handle|].
  - apply sound_bind; [apply sound_lookup_peer|]. intros [session|]; [|done]. by apply sound_bind; [apply sound_verify|].
Qed.

(** What reading does, and what the walk of a console does. *)
Definition reading (fp : footprint) : Prop := fp ∈ [cache_test; fixed; route_lookup; route_walk].

Lemma sound_submit_all F ts : sound F (submit_all ts).
Proof. by induction ts. Qed.

Lemma sound_handle_packet m sin : sound reading (handle_packet_thread iteration m sin).
Proof.
  unfold handle_packet_thread. case_bool_decide; [done|].
  apply sound_bind; [apply sound_critical; [unfold reading; set_solver|]|].
  { eapply honest_ext, (honest_cache _ _ (is_cached (signature m))). done. }
  intros []; [done|]. apply sound_bind; [apply sound_reads; [unfold reading; set_solver|]|].
  { intros s1 s2 [Hf _]. by destruct (agree_fields _ _ Hf) as (-> & -> & _). }
  intros [port device_id]. case_bool_decide; [|done]. apply sound_bind.
  { destruct (bool_decide _); [|done]. apply sound_reads; [unfold reading; set_solver|by intros s1 s2 ->%agree_routes]. }
  intros []; (apply sound_bind; [|by intros; try apply sound_submit_all]).
  - apply sound_critical; [unfold reading; set_solver|]. split.
    + intros s b s' (next & _ & [= _ <-])%res_bind_ok l _. apply unchanged_refl.
    + intros s1 s2 Hs. rewrite (agree_routes _ _ _ _ Hs). by destruct (get_next_peer _ _).
  - apply sound_reads; [unfold reading; set_solver|by intros s1 s2 ->%agree_routes].
Qed.

Lemma sound_read_callback buf sin : sound reading (read_callback_thread iteration buf sin).
Proof.
  unfold read_callback_thread. case_bool_decide; [done|]. case_bool_decide; [done|].
  destruct (ParseFromString _) as [b m]. apply sound_handle_packet.
Qed.

(** The main thread and the consoles. *)
Definition calling (fp : footprint) : Prop := sending fp ∨ fp = route_walk.
Definition caller (p : thread ()) : Prop :=
  (∃ hello peers, p = send_hellos_thread package_pkg hello peers) ∨ p = get_online_peers_thread.

Lemma sound_caller p : caller p → sound calling p.
Proof.
  intros [(hello & peers & ->)| ->].
  - eapply sound_mono; [|apply sound_send_hellos]. by left.
  - apply sound_bind; [|done]. apply sound_reads; [by right|by intros s1 s2 ->%agree_routes].
Qed.

(** ** Every state of a run *)

Definition sections_sound (r : runtime) : Prop :=
  sound reading (listening r) ∧ Forall (sound calling) (others r) ∧ map_Forall (λ _, sound handling) (jobs r).

Lemma section_step_sound {F} s q (p p' : thread ()) s' q' : section_step s q p p' s' q' → sound F p → sound F p'.
Proof. by destruct 1; intros Hp; eapply all_sections_step. Qed.

Lemma sections_sound_move r r' : move r r' → sections_sound r → sections_sound r'.
Proof.
  intros Hm (Hl & Ho & Hj).
  destruct Hm as [buf sin s q os js w|s q p os js w p' s' q' Hs|s q l os1 p os2 js w p' s' q' Hs|s q l os js w i p p' s' q' Hp Hs
    |s q l os js w q' Hs Hsub Hex|s q l os js w i m sin Hw Hn|s q l os js w i q' Hp Hs
    |s q l os js w i q' n port m ip b m' out Hw Hs Hst]; split_and!; simpl in *; try done.
  - apply sound_read_callback.
  - by eapply section_step_sound.
  - apply Forall_app in Ho as [? [Hp ?]%Forall_cons]. apply Forall_app_2; [done|]. apply Forall_cons. split; [|done].
    by eapply section_step_sound.
  - apply map_Forall_insert_2; [|done]. eapply section_step_sound; [exact Hs|by eapply Hj].
  - apply map_Forall_insert_2; [apply sound_handle|done].
  - by apply map_Forall_delete.
Qed.

Lemma sections_sound_runs n s os r : Forall caller os → runs n s os r → sections_sound r.
Proof.
  intros Ho Hr. refine (rtc_ind_r sections_sound _ _ _ r Hr).
  - split_and!; [done| |apply map_Forall_empty]. eapply Forall_impl; [exact Ho|]. apply sound_caller.
  - intros r1 r2 _ [_ Hm]. by apply sections_sound_move.
Qed.

Lemma move_others r r' : move r r' → length (others r') = length (others r).
Proof. destruct 1; simpl; try done. by rewrite !length_app. Qed.

Lemma runs_others n s os r : runs n s os r → length (others r) = length os.
Proof.
  intros Hr. refine (rtc_ind_r (λ r, length (others r) = length os) _ _ _ r Hr); [done|].
  intros r1 r2 _ [_ Hm] <-. by apply move_others.
Qed.

(** ** What each thread can do next *)

Definition pool_access (fp : footprint) : Prop := fp ∈ [worker_loop; worker_check; worker_fetch; worker_pop].

Lemma program_access_sound {A} F (p : thread A) fp : sound F p → program_access p = Some fp → F fp ∨ fp = task_push.
Proof.
  unfold program_access. intros Hp. destruct (next_label p) as [[f|t]|] eqn:E; intros [= <-]; [left|by right].
  eapply (all_sections_label _ F); [|exact Hp|exact E]. naive_solver.
Qed.

(** By thread: libevent's, the main thread and the consoles, workers, the destructor. *)
Definition access_of (t : tid) (fp : footprint) : Prop :=
  match t with
  | TListen => reading fp ∨ fp = task_push
  | TOther _ => calling fp ∨ fp = task_push
  | TWorker _ => pool_access fp ∨ handling fp ∨ fp = task_push
  | TDestructor => fp = pool_stop
  end.

Lemma next_access_of r t fp : sections_sound r → next_access r t = Some fp → access_of t fp.
Proof.
  intros (Hl & Ho & Hj). destruct t as [|k|i|]; simpl.
  - by apply program_access_sound.
  - destruct (others r !! k) as [p|] eqn:E; [|done]. simpl. apply program_access_sound.
    eapply Forall_lookup_1; [exact Ho|exact E].
  - destruct (_worker_pool (task_pool r) !! i) as [w|]; [|done]. simpl.
    destruct w; try (intros [= <-]; left; unfold pool_access; set_solver); try done.
    destruct (jobs r !! i) as [p|] eqn:E; [|done]. simpl. intros Hp. right. eapply program_access_sound; [by eapply Hj|exact Hp].
  - congruence.
Qed.

Lemma races_one l h1 l1 a1 h2 l2 a2 :
  races l (mkFootprint h1 [(l1, a1)]) (mkFootprint h2 [(l2, a2)]) = true →
  l1 = l ∧ l2 = l ∧ (a1 = Writes ∨ a2 = Writes) ∧ compatible h1 h2 = true.
Proof.
  intros (Hc & a & b & Ha & Hb & Hw)%races_spec. simpl in Ha, Hb. apply list_elem_of_singleton in Ha, Hb. naive_solver.
Qed.

(** The cases of a thread's next step, one by one. *)
#[local] Ltac steps H :=
  unfold access_of, reading, calling, handling, sending, pool_access in H;
  rewrite ?elem_of_cons, ?elem_of_nil in H; destruct_or? H; try done;
  try (destruct H as (? & ? & H)); try (destruct H as (? & H)).
#[local] Ltac raced H :=
  apply races_one in H; simpl in H; destruct H as (? & ? & Hw & Hc); simplify_eq; destruct Hw as [Hw|Hw]; simplify_eq;
  (left; constructor; set_solver) || (right; constructor; set_solver).

Lemma access_races t1 t2 f1 f2 l :
  t1 ≠ t2 → access_of t1 f1 → access_of t2 f2 → races l f1 f2 = true → racy l f1 f2 ∨ racy l f2 f1.
Proof.
  intros Ht H1' H2' Hr. destruct t1, t2; try done; steps H1'; steps H2'; subst; raced Hr.
Qed.

(** C11: the data races of the running server.  With any number of workers, with threads that
    send the hellos of [start] and consoles that walk the peers, whatever arrives and
    however sections interleave: when two threads are about to touch the same member with
    no lock between them, it is one of the races of [racy]: a route inserted under the
    shared lock against any lookup, insertion or walk; a route updated against a walk,
    which holds no lock; two checks of signatures of the same peer; two signatures; the
    task queue, pushed and tested under different mutexes and popped under a shared lock;
    the flag the destructor clears.  The map of the peers, the packet cache and what [init]
    fixed never race; and with one worker and no other threads neither do the contexts of
    OpenSSL. *)
Theorem races_located n s0 os r t1 t2 l f1 f2 :
  Forall caller os → runs n s0 os r → race r t1 t2 l f1 f2 →
  (racy l f1 f2 ∨ racy l f2 f1) ∧ (n = 1%nat → os = [] → l ∈ [Routes; TaskQueue; RunningFlag]).
Proof.
  intros Ho Hr (Ht & H1' & H2' & Hf). pose proof (sections_sound_runs _ _ _ _ Ho Hr) as Hs.
  pose proof (next_access_of _ _ _ Hs H1') as Ha1. pose proof (next_access_of _ _ _ Hs H2') as Ha2.
  split; [by eapply access_races|]. intros -> ->.
  assert (∀ t f, next_access r t = Some f → t = TListen ∨ t = TWorker 0 ∨ t = TDestructor) as Hthreads.
  { intros t f. destruct t as [|k|i|]; simpl; [auto| |intros Hw|auto].
    - by rewrite (nil_length_inv _ (runs_others _ _ _ _ Hr)), lookup_nil.
    - destruct (_worker_pool (task_pool r) !! i) as [w|] eqn:E; [|done]. apply lookup_lt_Some in E.
      rewrite (reachable_length 1) in E by by eapply runs_pool. right; left. f_equal. lia. }
  destruct (Hthreads _ _ H1') as [-> | [-> | ->]], (Hthreads _ _ H2') as [-> | [-> | ->]]; try done;
    clear H1' H2'; steps Ha1; steps Ha2; subst; apply races_one in Hf; simpl in Hf; destruct Hf as (? & ? & Hw & Hc);
    simplify_eq; destruct Hw; simplify_eq; set_solver.
Qed.
End races.

(** ** Each of them happens *)

#[local] Existing Instance signed_codec.
#[local] Existing Instance signed_codec_laws.
#[local] Existing Instance message_codec.
#[local] Existing Instance toy_any_codec.
#[local] Existing Instance ToySSL.

#[local] Instance tid_eq_dec : EqDecision tid.
Proof. solve_decision. Defined.

(** Where a schedule leads, two threads and what they are about to do. *)
Record scenario := mkScenario { workers : nat; programs : list (prog (@P2PServerContext ToySSL) task footprint ());
  schedule : list pick; racers : tid * tid }.
Definition raced (c : scenario) (l : location) (f1 f2 : footprint) : bool :=
  match toy_picks (schedule c) (start_state (workers c) (toy_server $"b" ∅) (programs c)) with
  | Some r => bool_decide ((racers c).1 ≠ (racers c).2 ∧
                           next_access r (racers c).1 = Some f1 ∧ next_access r (racers c).2 = Some f2) && races l f1 f2
  | None => false
  end.

(** Messages: a hello of a device, data of a device, and something to pass on. *)
Definition toy_hello (from : str) (t : Z) (sig : str) : SignedProtoMessage :=
  mkSigned [] $"b" 0 3 sig (SerializeAsString (mkProtoMessage from $"b" HELLO (Some (t, 0)) None)) SHA_256.
Definition toy_data_msg (from sig : str) : SignedProtoMessage :=
  mkSigned [] $"b" 0 3 sig (SerializeAsString (mkProtoMessage from $"b" PING None None)) SHA_256.

Definition arrives (m : SignedProtoMessage) : list pick := [PReceive (frame m) (LiveAddr toy_from); PListen; PListen; PListen].
(** A worker takes a task and starts it; does [k] sections of it; ends it. *)
Definition takes (i : nat) : list pick := replicate 5 (PWorker i) ++ [PCall i].
Definition works (i k : nat) : list pick := takes i ++ replicate k (PJob i).
Definition does (i k : nat) : list pick := works i k ++ [PReturn i].

(** A device the server knows, and one more message of it for each of two workers. *)
Definition known_a : list pick := arrives (toy_hello $"a" 9 $"1") ++ does 0 6.
Definition two_data : list pick := known_a ++ arrives (toy_data_msg $"a" $"2") ++ arrives (toy_data_msg $"a" $"3").
Definition two_hellos : list pick := arrives (toy_hello $"a" 9 $"1") ++ arrives (toy_hello $"c" 9 $"2").
Definition console : list (prog (@P2PServerContext ToySSL) task footprint ()) := [get_online_peers_thread map_to_list].
Definition main_thread : list (prog (@P2PServerContext ToySSL) task footprint ()) :=
  [send_hellos_thread toy_package (mkHello $"b" [] $"cert") [($"a", $"10.0.0.7:3324")]].

(** Two hellos are handled at once; a console walks while a hello is handled; two signatures
    are checked; the main thread signs while a hello is answered; workers and libevent's
    thread meet at the queue; the destructor stops a worker. *)
Definition insert_insert := mkScenario 2 [] (two_hellos ++ works 0 5 ++ works 1 5) (TWorker 0, TWorker 1).
Definition insert_lookup := mkScenario 2 [] (two_hellos ++ works 0 5 ++ works 1 4) (TWorker 0, TWorker 1).
Definition insert_walk := mkScenario 1 console (arrives (toy_hello $"a" 9 $"1") ++ works 0 5) (TWorker 0, TOther 0).
Definition update_walk := mkScenario 1 console (known_a ++ arrives (toy_hello $"a" 4 $"2") ++ works 0 4) (TWorker 0, TOther 0).
Definition create_test := mkScenario 2 [] (two_data ++ works 0 2 ++ works 1 1) (TWorker 0, TWorker 1).
Definition create_create := mkScenario 2 [] (two_data ++ works 0 2 ++ works 1 2) (TWorker 0, TWorker 1).
Definition sign_sign := mkScenario 1 main_thread (known_a ++ arrives (toy_hello $"a" 9 $"2") ++ works 0 5) (TWorker 0, TOther 0).
Definition sign_length := mkScenario 1 main_thread (known_a ++ arrives (toy_hello $"a" 9 $"2") ++ works 0 7) (TOther 0, TWorker 0).
Definition push_check := mkScenario 1 [] ([PReceive (frame (toy_hello $"a" 9 $"1")) (LiveAddr toy_from); PListen; PListen; PWorker 0])
  (TListen, TWorker 0).
Definition pop_at (k : nat) := mkScenario 2 [] (two_hellos ++ replicate 3 (PWorker 0) ++ replicate k (PWorker 1)) (TWorker 0, TWorker 1).
Definition stop_loop := mkScenario 1 [] [] (TDestructor, TWorker 0).

Abbreviation toy_caller := (caller toy_package map_to_list).

Lemma console_callers : Forall toy_caller console.
Proof. apply Forall_singleton. by right. Qed.
Lemma main_callers : Forall toy_caller main_thread.
Proof. apply Forall_singleton. left. by eexists _, _. Qed.

(** Two threads of a server that was just made come to race. *)
Definition happens (l : location) (f1 f2 : footprint) : Prop :=
  ∃ n os r t1 t2, Forall toy_caller os ∧ toy_runs n (toy_server $"b" ∅) os r ∧ race r t1 t2 l f1 f2.

Lemma raced_happens c l f1 f2 : Forall toy_caller (programs c) → raced c l f1 f2 = true → happens l f1 f2.
Proof.
  intros Hc. unfold raced. destruct (toy_picks _ _) as [r|] eqn:E; [|done].
  intros [(Ht & H1' & H2')%bool_decide_eq_true_1 Hr]%andb_true_iff.
  exists (workers c), (programs c), r, (racers c).1, (racers c).2. split; [done|]. split; [|by split_and!].
  exact (do_picks_steps _ _ _ _ _ _ _ E).
Qed.

#[local] Ltac by_scenario c := apply (raced_happens c); [first [apply Forall_nil_2|apply console_callers|apply main_callers]|vm_compute; reflexivity].



Lemma races_located_witness :
  ∃ n os r t1 t2, toy_runs n (toy_server $"b" ∅) os r ∧ race r t1 t2 Routes route_insert route_insert ∧
    (racy Routes route_insert route_insert ∨ racy Routes route_insert route_insert).
Proof.
  assert (happens Routes route_insert route_insert) as (n & os & r & t1 & t2 & Ho & Hr & Hx) by by_scenario insert_insert.
  exists n, os, r, t1, t2. split; [exact Hr|]. split; [exact Hx|].
  exact (proj1 (races_located toy_package toy_ntop map_to_list toy_args n _ os r t1 t2 _ _ _ Ho Hr Hx)).
Defined.
