(* ===== verification/Cluster.v ===== *)
(** Any number of running servers: each with its threads and its pool, as [Runtime] has one,
    and the network between them.  A step is one section of one thread of one server, or
    one packet that arrives.  The file shows what such a deployment can do (a packet is
    carried along a path of idle servers to its handler) and what it never does (learn a
    route, when nobody but its servers sends). *)
From S2P Require Import Prelude CxxString IPAddress FifoCache RoutingTable Message PeerSession Server Network.
From S2P Require Import Hello ManagementApi ServerInit System Signing ThreadPool Locks Threads Handlers Rely Runtime.
From stdpp Require Import relations.
Import InstancePool RoutingTable.
Local Open Scope Z_scope.

Section cluster.
Context `{Protobuf SignedProtoMessage} `{Protobuf ProtoMessage} `{Protobuf Any} `{OpenSSL}.
Context `{!ProtobufLaws SignedProtoMessage SignedProtoMessage_wf}.
Context (package_pkg : ProtoHelloMessage → str → ProtoMessage).
Context (inet_ntop : Z → Z → Z → option str).
Context (iteration : routes → list (str * route (ADDR := IPAddress))).
Context (hello_args : ProtoMessage → option (ProtoHelloMessage * Z * Z)).
Hypothesis iteration_visits : ∀ m, iteration m ≡ₚ map_to_list m.

Abbreviation thread := (prog P2PServerContext task footprint).
Abbreviation rt_step := (Runtime.step package_pkg inet_ntop iteration hello_args).
Abbreviation move := (move package_pkg inet_ntop iteration hello_args).

(** ** Steps *)

(** The servers, and what is on the network to whom. *)
Definition cluster : Type := gmap N runtime * list (N * str).

(** A callback starts on bytes that arrived. *)
Definition receives (bytes : str) (sin : sockaddr_ptr) (r : runtime) : runtime :=
  mkRuntime (server r) (task_pool r) (read_callback_thread iteration bytes sin) (others r) (jobs r) (wire r).

(** A step of a server that is not the arrival of bytes. *)
Definition own_step (r r' : runtime) : Prop := rt_step r r' ∧ (listening r = Ret () → listening r' = Ret ()).

(** What a server has sent since. *)
Definition sent_since (r r' : runtime) : list str := drop (length (wire r)) (wire r').

Inductive cluster_step : cluster → cluster → Prop :=
  | cluster_receive rs l1 i bytes l2 sin r :
      rs !! i = Some r → listening r = Ret () → crashed (task_pool r) = false →
      cluster_step (rs, l1 ++ (i, bytes) :: l2) (<[i := receives bytes sin r]> rs, l1 ++ l2)
  | cluster_own rs net i r r' node :                            (** what is sent goes to some server *)
      rs !! i = Some r → own_step r r' →
      cluster_step (rs, net) (<[i := r']> rs, net ++ ((λ out, (node, out)) <$> sent_since r r')).

Lemma move_wire r r' : move r r' → wire r `prefix_of` wire r'.
Proof. destruct 1; simpl; try done. by eexists. Qed.

Lemma own_steps_wire r r' : rtc own_step r r' → wire r `prefix_of` wire r'.
Proof. induction 1 as [|r r1 r' [[_ Hm] _] _ IH]; [done|]. etrans; [by eapply move_wire|done]. Qed.

Lemma sent_since_trans r1 r2 r3 :
  wire r1 `prefix_of` wire r2 → wire r2 `prefix_of` wire r3 → sent_since r1 r3 = sent_since r1 r2 ++ sent_since r2 r3.
Proof.
  unfold sent_since. intros [k2 E2] [k3 ->]. rewrite drop_app_length, E2, <- app_assoc. by rewrite !drop_app_length.
Qed.

(** Steps of one server are steps of the cluster. *)
Lemma own_steps_cluster rs net i r r' node :
  rs !! i = Some r → rtc own_step r r' →
  rtc cluster_step (rs, net) (<[i := r']> rs, net ++ ((λ out, (node, out)) <$> sent_since r r')).
Proof.
  intros Hi Hs. revert rs net Hi. induction Hs as [r|r r1 r' Hr Hs IH]; intros rs net Hi.
  - unfold sent_since. rewrite drop_all, insert_id by done. simpl. rewrite app_nil_r. apply rtc_refl.
  - eapply rtc_l; [by eapply (cluster_own rs net i r r1 node)|].
    pose proof Hr as [[_ Hm] _]. apply move_wire in Hm.
    rewrite (sent_since_trans r r1 r'), fmap_app, app_assoc by (done || by apply own_steps_wire).
    rewrite <- (insert_insert_eq rs i r' r1). apply IH, lookup_insert_eq.
Qed.

(** The callback on a whole frame. *)
Lemma read_callback_thread_frame m sin :
  SignedProtoMessage_wf m → fits m → read_callback_thread iteration (frame m) sin = handle_packet_thread iteration m sin.
Proof.
  unfold fits, INT_MAX. intros Hwf Hlen. unfold read_callback_thread, frame. rewrite wrapu_small by lia.
  rewrite length_app, length_le32, take_le32, drop_le32, of_le32_le32 by lia.
  rewrite !bool_decide_false by lia. rewrite take_ge by lia. by rewrite parse_serialize.
Qed.

(** ** Nothing is learned *)

(** A server that knows no peer; what its threads submit names no receiver. *)
Definition knows_nobody (s : P2PServerContext) : Prop := _device_id s ≠ [] ∧ _routing_map s = ∅ ∧ _peer_pool s = ∅.
Definition tells (e : option task) (_ _ : P2PServerContext) : Prop := match e with Some t => quiet_task t | None => True end.
Definition anything (_ _ : P2PServerContext) : Prop := True.
#[local] Instance anything_preorder : PreOrder anything.
Proof. done. Qed.
Definition hushed {A} (p : thread A) : Prop :=
  ∀ s, knows_nobody s → safe Server.submit knows_nobody anything tells (λ _, True) p s (λ _ _, True).

Lemma hushed_ret {A} (a : A) : hushed (mret a).
Proof. by intros s _ s1 _ _. Qed.

Lemma hushed_bind {A B} (p : thread A) (g : A → thread B) : hushed p → (∀ a, hushed (g a)) → hushed (p ≫= g).
Proof.
  intros Hp Hg s Hs. apply safe_bind; [apply _|done|]. eapply safe_mono; [by apply Hp|]. intros a s1 Hs1 _. by apply Hg.
Qed.

Lemma hushed_critical {A B} l (f : P2PServerContext → res (A * P2PServerContext)) (g : A → thread B) :
  (∀ s, knows_nobody s → match f s with Ok (a, s') => knows_nobody s' ∧ hushed (g a) | Raise _ => True end) →
  hushed (critical l f ≫= g).
Proof.
  intros Hf s _ s1 _ Hs1. specialize (Hf s1 Hs1). destruct (f s1) as [[a s2]|]; [|done]. destruct Hf as [Hs2 Hg].
  split; [done|]. split; [done|]. by apply Hg.
Qed.

Lemma hushed_reads {A B} l (f : P2PServerContext → A) (g : A → thread B) :
  (∀ s, knows_nobody s → hushed (g (f s))) → hushed (reads l f ≫= g).
Proof. intros Hg. apply hushed_critical. auto. Qed.

Lemma hushed_submit {B} t (g : () → thread B) : quiet_task t → hushed (g ()) → hushed (submits t ≫= g).
Proof. intros Ht Hg s _ s1 _ Hs1. split; [done|]. split; [done|]. by apply Hg. Qed.

Lemma hushed_send_pkg data peer : hushed (send_pkg_thread data peer).
Proof.
  unfold send_pkg_thread. case_bool_decide; [done|].
  apply hushed_critical. intros s1 Hs1. destruct (EVP_DigestSignInit _ _); [|done]. split; [done|].
  apply hushed_critical. intros s2 Hs2. destruct (EVP_DigestSignUpdate _ _); [|done]. split; [done|].
  apply hushed_reads. intros s3 _. destruct (EVP_DigestSignFinal_length _); [|apply hushed_ret].
  apply hushed_critical. intros s4 Hs4. destruct (EVP_DigestSignFinal _) as [[digest c]|]; (split; [done|]); [|apply hushed_ret].
  apply hushed_reads. intros s5 _. apply hushed_submit; [|apply hushed_ret].
  eexists _, _, _. split; [reflexivity|]. split; [|done]. by split_and!.
Qed.

Lemma hushed_send_hellos hello peers : hushed (send_hellos_thread package_pkg hello peers).
Proof.
  induction peers as [|[id addr] peers IH]; [apply hushed_ret|]. simpl. destruct (IPAddress_of_string addr); [|done].
  rewrite (lift_bind _ a) by done. apply hushed_bind; [apply hushed_send_pkg|done].
Qed.

Lemma hushed_handle_packet m sin : quiet_message m → hushed (handle_packet_thread iteration m sin).
Proof.
  intros [Hm Hr]. unfold handle_packet_thread. case_bool_decide; [apply hushed_ret|].
  apply hushed_critical. intros s Hs. destruct (is_cached _ _) as [[[] c]|]; [by split; [|apply hushed_ret]| |done].
  split; [done|]. apply hushed_reads. intros s1 (Hid & _). rewrite Hr. rewrite bool_decide_true by done.
  apply hushed_bind.
  { destruct (bool_decide _); [|apply hushed_ret]. apply (hushed_reads _ _ mret). intros. apply hushed_ret. }
  intros []; [apply hushed_critical; intros s2 Hs2; unfold get_next_peer; by rewrite (proj1 (proj2 Hs2))|].
  apply hushed_reads. intros s2 (_ & -> & _). unfold get_routing_table.
  assert (iteration ∅ = []) as -> by (apply Permutation_nil_r; by rewrite iteration_visits, map_to_list_empty). apply hushed_ret.
Qed.

Lemma hushed_step (p p' : thread ()) s s' e :
  hushed p → knows_nobody s → prog_step Server.submit p s = Some (Ok (e, p', s')) → tells e s s' ∧ knows_nobody s' ∧ hushed p'.
Proof.
  intros Hp Hs Hstep. destruct (safe_step _ _ _ _ _ _ _ _ _ _ (Hp s Hs) (I : anything s s) Hs Hstep) as (Ht & Hs' & Hp').
  split; [done|]. split; [done|]. intros s1 _. by apply (safe_rely _ _ _ _ _ _ _ s1) in Hp'.
Qed.

Lemma hushed_section s q (p p' : thread ()) s' q' :
  section_step s q p p' s' q' → hushed p → knows_nobody s → Forall quiet_task (submitted q) →
  knows_nobody s' ∧ hushed p' ∧ Forall quiet_task (submitted q').
Proof.
  intros Hstep Hp Hs Hq. destruct Hstep as [p p' s' Hstep|t p p' s' q' Hstep Ht];
    destruct (hushed_step _ _ _ _ _ Hp Hs Hstep) as (Htell & ? & ?); split_and!; try done.
  unfold submit in Ht. destruct (existsb _ _); [done|]. injection Ht as <-. simpl. apply Forall_app_2; [done|]. by apply Forall_singleton.
Qed.

(** A server in a deployment of such servers. *)
Definition unknowing (r : runtime) : Prop :=
  knows_nobody (server r) ∧ (∃ n, reachable n (task_pool r)) ∧ Forall quiet_task (submitted (task_pool r)) ∧
  hushed (listening r) ∧ Forall hushed (others r) ∧ jobs r = ∅ ∧ Forall quiet_wire (wire r).

Lemma running_quiet q i t :
  (∃ n, reachable n q) → Forall quiet_task (submitted q) → _worker_pool q !! i = Some (Running (Some t)) → quiet_task t.
Proof.
  intros [n Hr] Hq Hi. rewrite Forall_forall in Hq. by eapply Hq, running_submitted.
Qed.

Lemma unknowing_own_step r r' : own_step r r' → unknowing r → unknowing r'.
Proof.
  intros [[Hc Hm] Hret] (Hs & Hn & Hq & Hl & Ho & Hj & Hw).
  assert (∃ n, reachable n (task_pool r')) as Hn'
    by (destruct Hn as [n Hn]; exists n; eapply reachable_rtc; [exact Hn|by eapply move_pool_steps]).
  destruct Hm as [buf sin s q os js w|s q p os js w p' s' q' Hx|s q l os1 p os2 js w p' s' q' Hx|s q l os js w i p p' s' q' Hp Hx
    |s q l os js w q' Hx Hsub Hex|s q l os js w i m sin Hwk Hnone|s q l os js w i q' Hp Hx
    |s q l os js w i q' n port m ip b m' out Hwk Hsend Hx]; simpl in *; subst; try done.
  - split_and!; try done. simpl. rewrite Hret by done. apply hushed_ret.
  - destruct (hushed_section _ _ _ _ _ _ Hx Hl Hs Hq) as (? & ? & ?). by split_and!.
  - apply Forall_app in Ho as [Ho1 [Hp Ho2]%Forall_cons].
    destruct (hushed_section _ _ _ _ _ _ Hx Hp Hs Hq) as (? & ? & ?). split_and!; try done. simpl.
    by apply Forall_app_2; [|apply Forall_cons].
  - unfold unknowing. simpl. rewrite Hsub. by split_and!.
  - by destruct (running_quiet _ _ _ Hn Hq Hwk) as (? & ? & ? & ? & _).
  - destruct (running_quiet _ _ _ Hn Hq Hwk) as (? & ? & ? & [= <- <- <-] & Hquiet).
    unfold unknowing. simpl. rewrite (proj1 (worker_step_account _ _ _ Hx)). split_and!; try done.
    apply Forall_app_2; [done|]. destruct b; [|constructor]. apply Forall_singleton.
    apply send_packet_tcp_ok in Hsend as (-> & -> & Hf). exists (forwarded port m). split; [done|]. split; [done|].
    split; [apply forwarded_wf, Hquiet|exact (proj2 Hquiet)].
Qed.

Definition unknowing_cluster (st : cluster) : Prop :=
  map_Forall (λ _, unknowing) st.1 ∧ Forall (λ p, quiet_wire p.2) st.2.

Lemma unknowing_step st st' : cluster_step st st' → unknowing_cluster st → unknowing_cluster st'.
Proof.
  intros [rs l1 i bytes l2 sin r Hi Hl Hc|rs net i r r' node Hi Hown] [Hrs Hnet]; split; simpl in *.
  - apply map_Forall_insert_2; [|done]. apply Forall_app in Hnet as [_ [(m & Hb & Hf & Hm) _]%Forall_cons].
    simpl in Hb. subst bytes.
    destruct (Hrs i r Hi) as (? & ? & ? & _ & ? & ? & ?). split_and!; try done. simpl.
    rewrite read_callback_thread_frame by (done || apply Hm). by apply hushed_handle_packet.
  - apply Forall_app in Hnet as [Hn1 [_ Hn2]%Forall_cons]. by apply Forall_app_2.
  - apply map_Forall_insert_2; [|done]. eapply unknowing_own_step; [exact Hown|by eapply Hrs].
  - apply Forall_app_2; [done|]. apply Forall_fmap. unfold sent_since. apply Forall_drop.
    apply (unknowing_own_step r r' Hown (Hrs i r Hi)).
Qed.

(** A server that was just made, with its workers and the main thread that sends the hellos of
    [start] to the peers the management server names. *)
Definition just_started (r : runtime) : Prop :=
  ∃ n s senders, r = start_state n s ((λ h, send_hellos_thread package_pkg h.1 h.2) <$> senders) ∧
    ∃ packet_cache_size port cert key ca dev_id event_base md X509_STORE_new X509_STORE_add_cert, dev_id ≠ [] ∧
      P2PServerContext_new X509_STORE_new X509_STORE_add_cert packet_cache_size port cert key ca dev_id event_base md = Ok s.

Lemma just_started_unknowing r : just_started r → unknowing r.
Proof.
  intros (n & s & senders & -> & size & port & cert & key & ca & id & eb & md & new & add & Hid & Hs).
  unfold P2PServerContext_new in Hs. bind Hs as eb' _. destruct (X509_verify_cert _ _); [done|]. injection Hs as <-.
  split; [done|]. split; [exists n; constructor|]. split; [constructor|]. split; [apply hushed_ret|].
  split; [|by split]. simpl. apply Forall_fmap, Forall_true. intros h. apply hushed_send_hellos.
Qed.

(** C10: devices never find each other.  In a deployment of any number of servers that were just
    made, each with any number of workers, which send the hellos of [start] to whatever
    peers the management server names and receive only what servers of the deployment
    send: however the sections of all threads of all servers interleave and wherever
    packets go, no server ever has a route or a session, no worker ever runs a handling
    task, and every byte on the network is a packet that names no receiver. *)
Theorem devices_never_find_each_other rs st i r :
  map_Forall (λ _, just_started) rs → rtc cluster_step (rs, []) st → st.1 !! i = Some r →
  get_online_peers (server r) = ∅ ∧ _peer_pool (server r) = ∅ ∧ jobs r = ∅ ∧
  (∀ w m sin, _worker_pool (task_pool r) !! w ≠ Some (Running (Some (Handle m sin)))) ∧
  (∀ j bytes, (j, bytes) ∈ st.2 → ∃ m, bytes = frame m ∧ sp_receiver m = []).
Proof.
  intros Hrs Hst Hi. assert (unknowing_cluster st) as [Hall Hnet].
  { refine (rtc_ind_r unknowing_cluster _ _ _ st Hst).
    - split; [|constructor]. eapply map_Forall_impl; [exact Hrs|]. intros j r0. apply just_started_unknowing.
    - intros st1 st2 _. apply unknowing_step. }
  destruct (Hall i r Hi) as ((_ & Hr & Hp) & Hn & Hq & _ & _ & Hj & _). split; [exact Hr|]. split; [done|]. split; [done|]. split.
  - intros w m sin Hw. by destruct (running_quiet _ _ _ Hn Hq Hw) as (? & ? & ? & ? & _).
  - intros j bytes Hin. rewrite Forall_forall in Hnet. destruct (Hnet _ Hin) as (m & Hb & _ & _ & Hm). by exists m.
Qed.

(** ** A packet is carried *)

(** A server with nothing to do: its first worker waits, and no other worker is at the queue. *)
Definition off_queue (w : worker (T := task)) : Prop := holds_shared w = false ∧ holds_mutex w = false.
Definition idle (r : runtime) : Prop :=
  server_inv (server r) ∧ listening r = Ret () ∧ jobs r !! 0%nat = None ∧
  ∃ ws sub ex nt, task_pool r = mkPool true (Waiting :: ws) [] sub ex nt false ∧ Forall off_queue ws.

(** The tasks pushed one after the other. *)
Definition push_all (ts : list task) (q : pool) : pool :=
  mkPool (_running_flag q) (_worker_pool q) (_task_queue q ++ (Some <$> ts)) (submitted q ++ ts) (executed q)
    (notifies q + length ts) (crashed q).

Lemma push_all_nil q : push_all [] q = q.
Proof. unfold push_all. simpl. rewrite !app_nil_r, Nat.add_0_r. by destruct q. Qed.

Lemma push_all_cons t ts q : push_all (t :: ts) q = push_all ts (push_all [t] q).
Proof. unfold push_all. simpl. rewrite <- !app_assoc. simpl. f_equal. lia. Qed.

(** A callback that no other thread disturbs runs to its end. *)
Lemma listening_runs allowed (p : thread ()) s q s' os js w Q :
  safe Server.submit server_inv grows grows_by allowed p s Q → server_inv s → alone Server.submit p s = Ok ((), s') →
  crashed q = false → existsb holds_shared (_worker_pool q) = false →
  ∃ ts, _tasks s' = _tasks s ++ ts ∧ rtc own_step (mkRuntime s q p os js w) (mkRuntime s' (push_all ts q) (Ret ()) os js w).
Proof.
  revert s q. induction p as [[]|f|C l f k IH|t k IH]; intros s q Hp Hi Hrun Hc Hsh; simpl in *.
  - injection Hrun as <-. exists []. rewrite app_nil_r, push_all_nil. split; [done|apply rtc_refl].
  - done.
  - specialize (Hp s (reflexivity s) Hi). destruct (f s) as [[b s1]|] eqn:E; [|done]. simpl in Hrun.
    destruct Hp as ([_ Ht] & Hi1 & Hk). destruct (IH b s1 q Hk Hi1 Hrun Hc Hsh) as (ts & Hts & Hs).
    exists ts. split; [by rewrite <- Ht|]. eapply rtc_l; [|exact Hs]. split; [|done]. split; [done|].
    eapply move_listening, step_section. simpl. by rewrite E.
  - destruct (Hp s (reflexivity s) Hi) as ([_ Ht] & Hi1 & Hk).
    destruct (IH (Server.submit t s) (push_all [t] q) Hk Hi1 Hrun Hc Hsh) as (ts & Hts & Hs).
    exists (t :: ts). split; [rewrite Hts, Ht; by rewrite <- app_assoc|]. rewrite push_all_cons.
    eapply rtc_l; [|exact Hs]. split; [|done]. split; [done|].
    eapply move_listening, step_submission; [done|]. unfold submit. rewrite Hsh. f_equal. unfold push_all. simpl. f_equal. lia.
Qed.

Lemma own_pool s q q' os js w :
  crashed q = false → pool_step q q' → submitted q' = submitted q → executed q' = executed q →
  own_step (mkRuntime s q (Ret ()) os js w) (mkRuntime s q' (Ret ()) os js w).
Proof. intros Hc Hs Hsub Hex. split; [|done]. split; [done|]. by apply move_pool. Qed.

#[local] Ltac worker_moves := eapply rtc_l; [by apply own_pool; [done|eapply (step_worker 0); [done|reflexivity]|done..]|].

(** The first worker is notified and takes the task. *)
Lemma takes_task t ws sub ex nt s os js w :
  rtc own_step (mkRuntime s (mkPool true (Waiting :: ws) [Some t] sub ex (S nt) false) (Ret ()) os js w)
    (mkRuntime s (mkPool true (Running (Some t) :: ws) [] sub ex nt false) (Ret ()) os js w).
Proof.
  eapply rtc_l; [by apply own_pool; [done|eapply (step_notified 0); done|done..]|]. simpl.
  do 3 worker_moves. apply rtc_refl.
Qed.

Lemma off_queue_none (f : worker (T := task) → bool) ws : Forall (λ w, f w = false) ws → existsb f ws = false.
Proof. induction 1 as [|w ws Hw _ IH]; [done|]. simpl. by rewrite Hw. Qed.

(** What an idle server makes of a frame that leaves one task. *)
Lemma receives_task msg sin r s' t :
  idle r → SignedProtoMessage_wf msg → fits msg →
  handle_packet iteration msg sin (server r) = Ok s' → _tasks s' = _tasks (server r) ++ [t] →
  ∃ ws sub ex nt, Forall off_queue ws ∧ rtc own_step (receives (frame msg) sin r)
    (mkRuntime s' (mkPool true (Running (Some t) :: ws) [] sub ex nt false) (Ret ()) (others r) (jobs r) (wire r)).
Proof.
  intros (Hinv & _ & _ & ws & sub & ex & nt & Hq & Hws) Hwf Hfits Hh Ht.
  assert (existsb holds_shared ws = false) as Hsh by (apply off_queue_none; eapply Forall_impl; [exact Hws|]; by intros w []).
  destruct (listening_runs (λ _, False) (read_callback_thread iteration (frame msg) sin) (server r) (task_pool r) s'
    (others r) (jobs r) (wire r) (λ _ _, True)) as (ts & Hts & Hrun);
    [by apply safe_read_callback|done| |by rewrite Hq|by rewrite Hq|].
  { by rewrite alone_read_callback, read_callback_frame, Hh by done. }
  rewrite Ht in Hts. apply app_inv_head in Hts as <-. rewrite Hq in Hrun. unfold push_all in Hrun. simpl in Hrun.
  rewrite Nat.add_1_r in Hrun. exists ws, (sub ++ [t]), ex, nt. split; [done|]. unfold receives. rewrite Hq.
  etrans; [exact Hrun|]. apply takes_task.
Qed.

(** A relay sends the message on. *)
Lemma idle_relays msg sin r :
  idle r → relays msg (server r) → SignedProtoMessage_wf msg → fits msg → fits (forwarded (_port (server r)) msg) → 1 < sp_ttl msg →
  ∃ r', rtc own_step (receives (frame msg) sin r) r' ∧
    sent_since (receives (frame msg) sin r) r' = [frame (forwarded (_port (server r)) msg)].
Proof.
  intros Hidle Hrel Hwf Hfits Hfits' Httl.
  destruct (handle_packet_relay iteration msg sin (server r) Hrel Httl) as (s' & rt & n & Hh & Hn & Ht).
  destruct (receives_task msg sin r s' _ Hidle Hwf Hfits Hh Ht) as (ws & sub & ex & nt & _ & Hsteps).
  eexists. split.
  - etrans; [exact Hsteps|]. apply rtc_once. split; [split; [done|]|].
    + eapply (move_send _ _ _ _ _ _ _ _ _ _ 0%nat); [done|by apply send_packet_tcp_connects|done].
    + done.
  - unfold sent_since. simpl. by rewrite drop_app_length.
Qed.

(** The receiver starts to handle it. *)
Lemma idle_delivers msg sin r :
  idle r → _device_id (server r) = sp_receiver msg → Network.fresh msg (server r) → SignedProtoMessage_wf msg → fits msg → sp_ttl msg ≠ 0 →
  ∃ r', rtc own_step (receives (frame msg) sin r) r' ∧ sent_since (receives (frame msg) sin r) r' = [] ∧
    jobs r' !! 0%nat = Some (handle_thread package_pkg inet_ntop hello_args msg sin).
Proof.
  intros Hidle Hid Hfr Hwf Hfits Httl.
  destruct (handle_packet_deliver iteration msg sin (server r) Hid Hfr Httl) as (s' & Hh & Ht).
  destruct (receives_task msg sin r s' _ Hidle Hwf Hfits Hh Ht) as (ws & sub & ex & nt & _ & Hsteps).
  eexists. split; [|split].
  - etrans; [exact Hsteps|]. apply rtc_once. split; [split; [done|]|].
    + apply (move_handle _ _ _ _ _ _ _ _ _ _ 0%nat); [done|apply Hidle].
    + done.
  - unfold sent_since. simpl. by rewrite drop_all.
  - apply lookup_insert_eq.
Qed.

(** C1: delivery by running servers.  When the servers of a path are idle, with any number of
    workers and whatever other threads they have, all relay a message (they know a route
    to its receiver, can connect, and have not seen its signature), the path ends at the
    receiver and the ttl exceeds the number of relays, then there is a run of the cluster,
    section by section, that carries the message along the path: in the end a worker of
    the receiver is about to handle it, with the ttl decreased by the number of relays and
    the signed payload unchanged, and nothing else on the network is touched. *)
Theorem cluster_delivers rs (path : list (N * runtime)) j d msg sin l1 l2 :
  SignedProtoMessage_wf msg → NoDup (path.*1 ++ [j]) →
  Forall (λ p, rs !! p.1 = Some p.2 ∧ idle p.2 ∧ relays msg (server p.2)) path → rs !! j = Some d → idle d →
  _device_id (server d) = sp_receiver msg → Network.fresh msg (server d) → Z.of_nat (length path) < sp_ttl msg →
  (∀ k, (k <= length path)%nat → fits (after_hops ((λ p, _port (server p.2)) <$> take k path) msg)) →
  ∃ rs' d', let final := after_hops ((λ p, _port (server p.2)) <$> path) msg in
    rtc cluster_step (rs, l1 ++ (default j (head path.*1), frame msg) :: l2) (rs', l1 ++ l2) ∧
    rs' !! j = Some d' ∧ jobs d' !! 0%nat = Some (handle_thread package_pkg inet_ntop hello_args final sin) ∧
    sp_ttl final = sp_ttl msg - Z.of_nat (length path) ∧ signed_payload final = signed_payload msg.
Proof.
  revert rs msg l1 l2. induction path as [|[i r] path IH]; intros rs msg l1 l2 Hwf Hnd Hrel Hj Hd Hid Hfr Httl Hfit; simpl in *.
  - destruct (idle_delivers msg sin d Hd Hid Hfr Hwf (Hfit 0%nat ltac:(lia)) ltac:(lia)) as (d' & Hs & Hsent & Hjob).
    exists (<[j := d']> rs), d'. split; [|split_and!; [apply lookup_insert_eq|done|lia|done]].
    eapply rtc_l; [by apply (cluster_receive rs l1 j (frame msg) l2 sin d); [|apply Hd|destruct Hd as (_ & _ & _ & ? & ? & ? & ? & -> & _)]|].
    pose proof (own_steps_cluster _ (l1 ++ l2) j _ _ j (lookup_insert_eq rs j (receives (frame msg) sin d)) Hs) as Hc.
    rewrite Hsent, insert_insert_eq in Hc. simpl in Hc. by rewrite app_nil_r in Hc.
  - apply Forall_cons in Hrel as [(Hi & Hidle & Hr) Hrel]. apply NoDup_cons in Hnd as [Hni Hnd]. simpl in *.
    destruct (idle_relays msg sin r Hidle Hr Hwf (Hfit 0%nat ltac:(lia)) (Hfit 1%nat ltac:(lia)) ltac:(lia)) as (r' & Hs & Hsent).
    set (next := default j (head path.*1)).
    destruct (IH (<[i := r']> rs) (forwarded (_port (server r)) msg) (l1 ++ l2) []) as (rs' & d' & Hsteps & Hd' & Hjob & Hl & Hp).
    + by apply forwarded_wf.
    + done.
    + apply Forall_forall. intros [i' t] Hin. rewrite Forall_forall in Hrel. destruct (Hrel _ Hin) as (Hi' & ? & ?). simpl in *.
      split; [|done]. rewrite lookup_insert_ne; [done|].
      intros ->. apply Hni, elem_of_app. left. by apply (list_elem_of_fmap_2 fst _ (i', t)).
    + rewrite lookup_insert_ne; [done|]. intros ->. apply Hni, elem_of_app. right. by apply list_elem_of_singleton.
    + done.
    + done.
    + done.
    + rewrite forwarded_ttl by (done || lia). lia.
    + intros k Hk. exact (Hfit (S k) ltac:(lia)).
    + exists rs', d'. rewrite app_nil_r in Hsteps. split_and!; [|done|done| |done].
      * eapply rtc_l; [by apply (cluster_receive rs l1 i (frame msg) l2 sin r); [|apply Hidle|destruct Hidle as (_ & _ & _ & ? & ? & ? & ? & -> & _)]|].
        pose proof (own_steps_cluster _ (l1 ++ l2) i _ _ next (lookup_insert_eq rs i (receives (frame msg) sin r)) Hs) as Hc.
        rewrite Hsent, insert_insert_eq in Hc. etrans; [exact Hc|exact Hsteps].
      * etransitivity; [exact Hl|]. rewrite forwarded_ttl by (done || lia). lia.
Qed.
End cluster.

(** ** Concrete clusters, to run the definitions with *)

#[local] Existing Instance signed_codec.
#[local] Existing Instance signed_codec_laws.
#[local] Existing Instance message_codec.
#[local] Existing Instance toy_any_codec.
#[local] Existing Instance ToySSL.

Abbreviation toy_cluster_step := (cluster_step toy_package toy_ntop map_to_list toy_args).

(** Device [b] relays to [a]. *)
Definition idle_at (s : @P2PServerContext ToySSL) : @runtime ToySSL :=
  mkRuntime s (mkPool true [Waiting] [] [] [] 0 false) (Ret ()) [] ∅ [].
Definition to_a : SignedProtoMessage := mkSigned $"q" $"a" 0 10 $"sig" $"hi" SHA_256.

Lemma idle_at_idle s : server_inv s → idle (idle_at s).
Proof. intros Hs. split; [done|]. split; [done|]. split; [apply lookup_empty|]. by exists [], [], [], 0%nat. Qed.

Lemma toy_peer_inv : server_inv toy_peer.
Proof. split; [apply toy_peer_wf|]. split; [apply toy_peer_verified|apply toy_peer_known]. Qed.

Lemma toy_server_a_inv : server_inv (toy_server $"a" ∅).
Proof.
  split; [|split].
  - split; [by_decide|]. split; [by apply FIFOCache_new_ok|]. split; [apply map_Forall_empty|constructor].
  - intros id session. unfold get_instance. simpl. by rewrite lookup_empty.
  - split; [apply map_Forall_empty|]. intros d [r Hr]. simpl in Hr. by rewrite lookup_empty in Hr.
Qed.

Definition toy_cluster : gmap N (@runtime ToySSL) := <[0%N := idle_at toy_peer]> {[1%N := idle_at (toy_server $"a" ∅)]}.

Lemma cluster_delivers_witness :
  ∃ rs' d', rtc toy_cluster_step (toy_cluster, [(0%N, frame to_a)]) (rs', []) ∧ rs' !! 1%N = Some d' ∧
    jobs d' !! 0%nat = Some (handle_thread toy_package toy_ntop toy_args (after_hops [3324] to_a) DanglingAddr) ∧
    sp_ttl (after_hops [3324] to_a) = 9.
Proof.
  destruct (cluster_delivers toy_package toy_ntop map_to_list toy_args (λ m, reflexivity _) toy_cluster [(0%N, idle_at toy_peer)] 1%N
    (idle_at (toy_server $"a" ∅)) to_a DanglingAddr [] []) as (rs' & d' & Hs & Hd & Hj & Hl & _).
  - by_decide.
  - by_decide.
  - apply Forall_singleton. split; [reflexivity|]. split; [apply idle_at_idle, toy_peer_inv|].
    split; [by_decide|]. split; [eexists; vm_compute; reflexivity|].
    exists (mkRoute (Some toy_ip) 3), toy_net. split; [apply lookup_singleton_eq|]. exists toy_ip. split_and!; by_decide.
  - reflexivity.
  - apply idle_at_idle, toy_server_a_inv.
  - reflexivity.
  - eexists. vm_compute. reflexivity.
  - by_decide.
  - intros [|[|k]] Hk; [unfold fits; by_decide..|simpl in Hk; lia].
  - exists rs', d'. split; [exact Hs|]. split; [exact Hd|]. split; [exact Hj|exact Hl].
Defined.

(** Two devices that were just made; the first has signed nothing yet of its hello, and starts. *)
Definition toy_new (id : str) : @P2PServerContext ToySSL :=
  mkServer 3324 id $"cert" toy_store 7 None None ∅ ∅ (FIFOCache_new ([] : str) 3) [].
Definition toy_main (id : str) : @runtime ToySSL :=
  start_state 1 (toy_new id) ((λ h, send_hellos_thread toy_package h.1 h.2) <$> toy_senders).
Definition toy_deployment : gmap N (@runtime ToySSL) := <[0%N := toy_main $"b"]> {[1%N := toy_main $"a"]}.

Lemma toy_main_started id : id ≠ [] → just_started toy_package (toy_main id).
Proof.
  intros Hid. exists 1%nat, (toy_new id), toy_senders. split; [done|].
  exists 3, 3324, ($"cert"), 7, [], id, (Some ()), None, toy_store, toy_add. split; [done|]. reflexivity.
Qed.

Lemma devices_never_find_each_other_witness :
  ∃ r net, rtc toy_cluster_step (toy_deployment, []) (<[0%N := r]> toy_deployment, net) ∧ server r ≠ server (toy_main $"b") ∧
    get_online_peers (server r) = ∅ ∧ jobs r = ∅.
Proof.
  assert (∃ r, own_step toy_package toy_ntop map_to_list toy_args (toy_main $"b") r ∧ server r ≠ server (toy_main $"b")) as (r & Hown & Hne).
  { eexists. split; [split; [split; [reflexivity|]|]|].
    - apply (move_other _ _ _ _ _ _ _ []). eapply step_section. reflexivity.
    - intros _. reflexivity.
    - discriminate. }
  pose proof (rtc_once _ _ (cluster_own toy_package toy_ntop map_to_list toy_args toy_deployment [] 0%N _ r 1%N eq_refl Hown)) as Hrun.
  exists r; eexists; split; [exact Hrun|]. split; [exact Hne|].
  destruct (devices_never_find_each_other toy_package toy_ntop map_to_list toy_args (λ m, reflexivity _) toy_deployment _ 0%N r
    ltac:(apply map_Forall_insert_2; [|apply map_Forall_singleton]; apply toy_main_started; discriminate)
    Hrun (lookup_insert_eq _ _ _)) as (Ho & _ & Hj & _).
  split; [exact Ho|exact Hj].
Defined.
