(* ===== verification/Sequential.v ===== *)
(** How many workers there are matters.  With one, the messages a server handles have the
    effect of a specification without threads, one after the other in the order in which
    they were queued.  With two, two hellos of one device can lose the shorter route. *)
From S2P Require Import Prelude CxxString IPAddress FifoCache RoutingTable Message PeerSession Server.
From S2P Require Import Hello ManagementApi ServerInit System Signing ThreadPool Locks Threads Handlers Rely Runtime.
From stdpp Require Import relations.
Import InstancePool RoutingTable.
Local Open Scope Z_scope.

Section sequential.
Context `{Protobuf SignedProtoMessage} `{Protobuf ProtoMessage} `{Protobuf Any} `{OpenSSL}.
Context (package_pkg : ProtoHelloMessage → str → ProtoMessage).
Context (inet_ntop : Z → Z → Z → option str).
Context (iteration : routes → list (str * route (ADDR := IPAddress))).
Context (hello_args : ProtoMessage → option (ProtoHelloMessage * Z * Z)).

Abbreviation thread := (prog P2PServerContext task footprint).

(** ** What handling does *)

(** What is known: the sessions of the peers, and the routes. *)
Definition known : Type := gmap str (option PeerSession) * routes.
Definition known_of (s : P2PServerContext) : known := (_peer_pool s, _routing_map s).

(** The nearer of a new route and the one there is. *)
Definition offer (d : str) (r : route (ADDR := IPAddress)) (m : routes) : routes :=
  match m !! d with
  | Some r0 => if bool_decide (ttl r < ttl r0) then <[d := r]> m else m
  | None => <[d := r]> m
  end.

(** The sender's session, kept or made from its certificate; [None]: there is none. *)
Definition introduce (store : x509_store) (message : ProtoHelloMessage) (p : gmap str (option PeerSession))
    : option (gmap str (option PeerSession)) :=
  match get_instance (sender_id message) p with
  | Some _ => Some p
  | None => session ← (new_session store (x509_certificate message)).1; Some (add_instance (sender_id message) (Some session) p).2
  end.

Definition hello_effect (store : x509_store) (message : ProtoHelloMessage) (prev_port : Z) (a : sockaddr_ptr) (t : Z)
    (v : known) : known :=
  match introduce store message v.1 with
  | None => v
  | Some p =>
      match a ← load_sockaddr a; IPAddress_of_sockaddr inet_ntop a prev_port with
      | Raise _ => (p, v.2)
      | Ok ip => (p, offer (sender_id message) (mkRoute (Some ip) (u32 t)) v.2)
      end
  end.

Definition task_effect (store : x509_store) (v : known) (t : task) : known :=
  match t with
  | SendTcp _ _ _ => v
  | Handle signed_msg a =>
      let proto_msg := (ParseFromString (signed_payload signed_msg)).2 in
      if bool_decide (packet_type proto_msg = HELLO) then
        match hello_args proto_msg with
        | None => v
        | Some (message, prev_port, t) => hello_effect store message prev_port a t v
        end
      else
        match get_instance (pm_sender proto_msg) v.1 with
        | None => v
        | Some session =>
            let data := SerializeAsString (default Any_default (payload proto_msg)) in
            match verify data (signature signed_msg) (sign_algorithm signed_msg) session with
            | Ok (_, session') => (<[pm_sender proto_msg := Some session']> v.1, v.2)
            | Raise _ => v
            end
        end
  end.

(** ** Who changes what is known *)

Definition same_known (s s' : P2PServerContext) : Prop := known_of s' = known_of s ∧ _x509_store s' = _x509_store s.

#[global] Instance same_known_preorder : PreOrder same_known.
Proof. split; [done|]. intros s1 s2 s3 [H12 ?] [H23 ?]. split; [by rewrite H23|]. congruence. Qed.

Definition anything (s s' : P2PServerContext) : Prop := True.
#[global] Instance anything_preorder : PreOrder anything.
Proof. done. Qed.

(** A thread that changes nothing that is known, whatever other threads do. *)
Definition bystander {A} (p : thread A) : Prop :=
  ∀ s, safe Server.submit (λ _, True) anything (λ _, same_known) (λ _, True) p s (λ _ _, True).

(** A thread that has what is known for itself. *)
Definition exclusive {A} (p : thread A) (s : P2PServerContext) (Q : A → P2PServerContext → Prop) : Prop :=
  safe Server.submit (λ _, True) same_known (λ _ _ _, True) (λ _, True) p s Q.

Lemma bystander_exclusive_from {A} (p : thread A) s0 s :
  same_known s0 s → safe Server.submit (λ _, True) anything (λ _, same_known) (λ _, True) p s (λ _ _, True) →
  exclusive p s (λ _, same_known s0).
Proof.
  unfold exclusive. revert s. induction p as [a|f|C l f k IH|t k IH]; intros s Hs Hp; simpl in *; [|done|..]; intros s1 Hr _.
  - by etrans.
  - specialize (Hp s1 I I). destruct (f s1) as [[b s2]|]; [|done]. destruct Hp as (Hg & _ & Hp).
    split; [done|]. split; [done|]. apply IH; [|done]. etrans; [exact Hs|]. by etrans.
  - destruct (Hp s1 I I) as (Hg & _ & Hp'). split; [done|]. split; [done|]. apply IH; [|done].
    etrans; [exact Hs|]. by etrans.
Qed.

Lemma bystander_exclusive {A} (p : thread A) s : bystander p → exclusive p s (λ _, same_known s).
Proof. intros Hp. by apply bystander_exclusive_from. Qed.

Lemma bystander_bind {A B} (p : thread A) (g : A → thread B) : bystander p → (∀ a, bystander (g a)) → bystander (p ≫= g).
Proof.
  intros Hp Hg s. apply safe_bind; [apply _|done|]. eapply safe_mono; [apply Hp|]. intros a s1 _ _. apply Hg.
Qed.

Lemma bystander_critical {A B} l (f : P2PServerContext → res (A * P2PServerContext)) (g : A → thread B) :
  (∀ s, match f s with Ok (_, s') => same_known s s' | Raise _ => True end) → (∀ a, bystander (g a)) →
  bystander (critical l f ≫= g).
Proof. intros Hf Hg s s1 _ _. specialize (Hf s1). destruct (f s1) as [[a s2]|]; [|done]. split; [done|]. split; [done|]. apply Hg. Qed.

Lemma bystander_reads {A B} l (f : P2PServerContext → A) (g : A → thread B) : (∀ a, bystander (g a)) → bystander (reads l f ≫= g).
Proof. intros Hg. by apply bystander_critical. Qed.

Lemma bystander_ret {A} (a : A) : bystander (mret a).
Proof. by intros ????. Qed.

Lemma bystander_submit_all ts : bystander (submit_all ts).
Proof. induction ts as [|t ts IH]; [by intros ????|]. intros s s1 _ _. split; [done|]. split; [done|]. apply IH. Qed.

Lemma bystander_lift {A B} (r : res A) (g : A → thread B) : (∀ a, bystander (g a)) → bystander (lift r ≫= g).
Proof. intros Hg s. apply safe_lift; [|done]. intros a _. apply Hg. Qed.

Lemma bystander_send_pkg data peer : bystander (send_pkg_thread data peer).
Proof.
  unfold send_pkg_thread. case_bool_decide; [done|].
  apply bystander_critical; [by intros s; destruct (EVP_DigestSignInit _ _)|intros _].
  apply bystander_critical; [by intros s; destruct (EVP_DigestSignUpdate _ _)|intros _].
  apply bystander_reads. intros [len|]; [|apply bystander_ret].
  apply bystander_critical; [by intros s; destruct (EVP_DigestSignFinal _) as [[]|]|]. intros [digest|]; [|apply bystander_ret].
  apply bystander_reads. intros port. apply bystander_bind; [apply (bystander_submit_all [_])|intros _; apply bystander_ret].
Qed.

Lemma bystander_send_hellos hello peers : bystander (send_hellos_thread package_pkg hello peers).
Proof.
  induction peers as [|[id addr] peers IH]; [apply bystander_ret|]. apply bystander_lift. intros ip.
  by apply bystander_bind; [apply bystander_send_pkg|intros _].
Qed.

Lemma bystander_read_callback buf sin : bystander (read_callback_thread iteration buf sin).
Proof.
  unfold read_callback_thread. do 2 (case_bool_decide; [apply bystander_ret|]). destruct (ParseFromString _) as [b msg].
  unfold handle_packet_thread. case_bool_decide; [apply bystander_ret|].
  apply bystander_critical; [by intros s; destruct (is_cached _ _) as [[]|]|]. intros []; [apply bystander_ret|].
  apply bystander_reads. intros [port dev]. case_bool_decide; [|apply (bystander_submit_all [_])].
  apply bystander_bind; [destruct (bool_decide _); [by apply bystander_critical|apply bystander_ret]|]. intros [].
  - apply bystander_critical; [by intros s; destruct (get_next_peer _ _)|]. intros next. apply (bystander_submit_all [_]).
  - apply bystander_reads. intros nodes. apply bystander_submit_all.
Qed.

(** ** What the only worker's task does *)

Section effects.
Context (store : x509_store).

(** From what is known, [v], the program goes to an answer and what is then known. *)
Definition runs_to {A} (p : thread A) (v : known) (Q : A → known → Prop) : Prop :=
  ∀ s, known_of s = v → _x509_store s = store → exclusive p s (λ a s1, Q a (known_of s1) ∧ _x509_store s1 = store).

Lemma runs_to_ret {A} (a : A) v (Q : A → known → Prop) : Q a v → runs_to (mret a) v Q.
Proof. intros HQ s Hv Hst s1 [Hk Hst1] _. by rewrite Hk, Hst1, Hv. Qed.

Lemma runs_to_bind {A B} (p : thread A) (g : A → thread B) v P Q :
  runs_to p v P → (∀ a v', P a v' → runs_to (g a) v' Q) → runs_to (p ≫= g) v Q.
Proof.
  intros Hp Hg s Hv Hst. apply safe_bind; [apply _|done|]. eapply safe_mono; [by apply Hp|].
  intros a s1 _ [HP Hst1]. by apply (Hg a (known_of s1)).
Qed.

Lemma runs_to_critical {A B} l (f : P2PServerContext → res (A * P2PServerContext)) (g : A → thread B) v Q :
  (∀ s, known_of s = v → _x509_store s = store →
    match f s with Ok (a, s') => _x509_store s' = store ∧ runs_to (g a) (known_of s') Q | Raise _ => True end) →
  runs_to (critical l f ≫= g) v Q.
Proof.
  intros Hf s Hv Hst s1 [Hk Hst1] _. specialize (Hf s1 (eq_trans Hk Hv) (eq_trans Hst1 Hst)).
  destruct (f s1) as [[a s2]|]; [|done]. destruct Hf as [Hst2 Hg]. split; [done|]. split; [done|]. by apply Hg.
Qed.

Lemma runs_to_bystander {A} (p : thread A) v : bystander p → runs_to p v (λ _ v', v' = v).
Proof.
  intros Hp s Hv Hst. eapply safe_mono; [by apply bystander_exclusive|]. intros a s1 _ [Hk Hst1]. by rewrite Hk, Hst1.
Qed.

Lemma runs_to_lift {A B} (r : res A) (g : A → thread B) v Q : (∀ a, r = Ok a → runs_to (g a) v Q) → runs_to (lift r ≫= g) v Q.
Proof. intros Hg s Hv Hst. apply safe_lift; [|done]. intros a Ha. by apply Hg. Qed.

Lemma known_of_inv s p m : known_of s = (p, m) → _peer_pool s = p ∧ _routing_map s = m.
Proof. by intros [= -> ->]. Qed.

Lemma runs_to_ensure_session message p m :
  runs_to (ensure_session_thread message) (p, m) (λ known v,
    match introduce store message p with
    | Some p' => known = true ∧ v = (p', m)
    | None => known = false ∧ v = (p, m)
    end).
Proof.
  unfold ensure_session_thread, introduce. apply runs_to_critical. intros s [Hp Hm]%known_of_inv Hst. split; [done|].
  change (known_of s) with (_peer_pool s, _routing_map s). rewrite Hp, Hm.
  destruct (get_instance _ p); [by apply runs_to_ret|].
  apply runs_to_critical. intros s1 [Hp1 Hm1]%known_of_inv Hst1. split; [done|].
  change (known_of s1) with (_peer_pool s1, _routing_map s1). rewrite Hp1, Hm1, Hst1.
  destruct (new_session store _).1 as [session|]; [|by apply runs_to_ret].
  apply runs_to_critical. intros s2 [Hp2 Hm2]%known_of_inv Hst2. split; [done|].
  unfold known_of. simpl. rewrite Hp2, Hm2. by apply runs_to_ret.
Qed.
Lemma offer_update dest ip t m :
  (if can_delivered dest m then (try_update_table dest ip t m).2 else (add_new_route dest ip t m).2) =
    offer dest (mkRoute ip (u32 t)) m.
Proof.
  unfold can_delivered, offer, add_new_route. rewrite try_update_locked. unfold update_locked, upgradeable. simpl.
  destruct (m !! dest) as [r|]; [|done]. case_bool_decide; case_bool_decide; (done || lia).
Qed.

Lemma runs_to_try_update {B} dest ip t p m (g : bool → thread B) Q :
  (∀ b, runs_to (g b) (p, (try_update_table dest ip t m).2) Q) → runs_to (try_update_table_thread dest ip t ≫= g) (p, m) Q.
Proof.
  intros Hg. apply runs_to_critical. intros s [Hp Hm]%known_of_inv Hst. split; [done|].
  unfold known_of. rewrite Hp, Hm. unfold try_update_table in Hg. destruct (m !! dest) as [r|] eqn:E; [|apply Hg].
  destruct (upgradeable t r); [|apply Hg].
  apply (runs_to_critical _ (λ s, let '(b, m) := update_locked dest ip t (_routing_map s) in Ok (b, set_routes m s))).
  intros s1 [Hp1 Hm1]%known_of_inv Hst1. rewrite Hm1. destruct (update_locked _ _ _ _) as [b m']. split; [done|].
  unfold known_of. simpl. rewrite Hp1. apply Hg.
Qed.

Lemma runs_to_internal_handle message prev_port a t v :
  runs_to (internal_handle_thread package_pkg inet_ntop message prev_port a t) v
    (λ _ v', v' = hello_effect store message prev_port a t v).
Proof.
  destruct v as [p m]. unfold hello_effect. eapply runs_to_bind; [apply runs_to_ensure_session|]. simpl.
  destruct (introduce store message p) as [p'|]; intros b v' [-> ->]; [|by apply runs_to_ret].
  apply runs_to_lift. intros sa ->. apply runs_to_lift. intros ip Hip. rewrite res_ok_bind, Hip, <- offer_update.
  apply runs_to_critical. intros s Hs Hst. split; [done|]. rewrite Hs.
  apply runs_to_critical. intros s1 Hs1 Hst1. split; [done|]. rewrite Hs1.
  apply known_of_inv in Hs1 as [_ ->]. destruct (can_delivered _ m).
  - apply runs_to_try_update. intros _. apply runs_to_critical. intros s2 Hs2 Hst2.
    destruct (internal_construct _ _) as [hello|]; [|done]. split; [done|]. rewrite Hs2.
    eapply runs_to_bind; [apply runs_to_bystander, bystander_send_pkg|]. intros b v' ->. by apply runs_to_ret.
  - apply runs_to_critical. intros s2 [Hp2 Hm2]%known_of_inv Hst2. split; [done|].
    unfold known_of. simpl. rewrite Hp2, Hm2. by apply runs_to_ret.
Qed.

Lemma runs_to_on_session {A B} id acc (f : PeerSession → res (A * PeerSession)) (g : A → thread B) session p m Q :
  get_instance id p = Some session →
  match f session with Ok (a, session') => runs_to (g a) (<[id := Some session']> p, m) Q | Raise _ => True end →
  runs_to (on_session id acc f ≫= g) (p, m) Q.
Proof.
  intros Hs Hf. apply runs_to_critical. intros s [Hp Hm]%known_of_inv Hst. rewrite Hp, Hs. simpl.
  destruct (f session) as [[a session']|]; [|done]. split; [done|]. unfold known_of. simpl. by rewrite Hm.
Qed.

Lemma get_inserted (id : str) (session : PeerSession) p : get_instance id (<[id := Some session]> p) = Some session.
Proof. unfold get_instance. by rewrite lookup_insert_eq. Qed.

Lemma runs_to_verify_update id data sig k c p m :
  get_instance id p = Some (mkPeerSession k (LiveCtx c)) →
  runs_to (verify_update id data sig) (p, m) (λ _ v,
    v = (<[id := Some (mkPeerSession k (LiveCtx
      match EVP_DigestVerifyUpdate c data with Some c' => (EVP_DigestVerifyFinal c' sig).2 | None => c end))]> p, m)).
Proof.
  intros Hs. eapply runs_to_on_session; [exact Hs|]. rewrite with_ctx_live.
  destruct (EVP_DigestVerifyUpdate c data) as [c'|]; cbn [fst snd]; [|by apply runs_to_ret].
  apply (runs_to_on_session id _ _ mret _ _ _ _ (get_inserted _ _ _)). rewrite with_ctx_live.
  destruct (EVP_DigestVerifyFinal c' sig) as [b c'']. apply runs_to_ret. by rewrite insert_insert_eq.
Qed.
Lemma runs_to_verify id data sig method session p m :
  get_instance id p = Some session →
  runs_to (verify_thread id data sig method) (p, m) (λ _ v,
    v = match verify data sig method session with
        | Ok (_, session') => (<[id := Some session']> p, m)
        | Raise _ => (p, m)
        end).
Proof.
  intros Hs. eapply runs_to_on_session; [exact Hs|]. unfold verify, init_ctx.
  destruct session as [k [|c|]]; cbn [is_null PeerSession._evp_md_ctx _public_key].
  - apply (runs_to_on_session _ _ _ _ _ _ _ _ (get_inserted _ _ _)).
    destruct EVP_MD_CTX_new as [c|]; rewrite insert_insert_eq; [|by apply runs_to_ret]. cbn [_public_key]. destruct method.
    + apply (runs_to_on_session _ _ _ _ _ _ _ _ (get_inserted _ _ _)). rewrite with_ctx_live, insert_insert_eq.
      destruct (EVP_DigestVerifyInit c k) as [c'|]; cbn [fst snd PeerSession._evp_md_ctx]; [|by apply runs_to_ret].
      intros s Hv Hst. eapply safe_mono; [by apply (runs_to_verify_update id data sig k c'); [apply get_inserted|..]|].
      intros b s1 _ [-> ?]. split; [|done]. rewrite insert_insert_eq.
      by destruct (EVP_DigestVerifyUpdate c' data); [destruct (EVP_DigestVerifyFinal _ _)|].
    + apply (runs_to_on_session _ _ _ _ _ _ _ _ (get_inserted _ _ _)). unfold free_ctx.
      cbn [PeerSession._evp_md_ctx _public_key]. rewrite insert_insert_eq. by apply runs_to_ret.
  - intros s Hv Hst. eapply safe_mono; [by apply (runs_to_verify_update id data sig k c); [apply get_inserted|..]|].
    intros b s1 _ [-> ?]. split; [|done]. rewrite insert_insert_eq.
    by destruct (EVP_DigestVerifyUpdate c data); [destruct (EVP_DigestVerifyFinal _ _)|].
  - by apply (runs_to_on_session _ _ _ _ _ _ _ _ (get_inserted _ _ _)).
Qed.

Lemma runs_to_handle msg a v :
  runs_to (handle_thread package_pkg inet_ntop hello_args msg a) v (λ _ v', v' = task_effect store v (Handle msg a)).
Proof.
  unfold handle_thread, task_effect. case_bool_decide.
  - destruct (hello_args _) as [[[message prev_port] t]|]; [|by apply runs_to_ret].
    eapply runs_to_bind; [apply runs_to_internal_handle|]. intros b v' ->. by apply runs_to_ret.
  - destruct v as [p m]. apply runs_to_critical. intros s Hs Hst. split; [done|]. rewrite Hs.
    apply known_of_inv in Hs as [-> _]. cbn [fst snd]. destruct (get_instance _ p) as [session|] eqn:Es; [|by apply runs_to_ret].
    eapply runs_to_bind; [by apply runs_to_verify|]. intros b v' ->. by apply runs_to_ret.
Qed.
End effects.

(** ** One worker *)

Context `{!ProtobufLaws SignedProtoMessage SignedProtoMessage_wf}.
Hypothesis iteration_visits : ∀ m, iteration m ≡ₚ map_to_list m.

Abbreviation rt_step := (Runtime.step package_pkg inet_ntop iteration hello_args).
Abbreviation rt_move := (move package_pkg inet_ntop iteration hello_args).
Abbreviation rt_runs := (runs package_pkg inet_ntop iteration hello_args).

(** What is known once the tasks executed so far had their effects. *)
Definition effects_of (s0 : P2PServerContext) (ts : list task) : known :=
  foldl (task_effect (_x509_store s0)) (known_of s0) ts.

(** The job of a worker runs towards the effect of its task. *)
Definition job_inv (s0 : P2PServerContext) (q : pool) (s : P2PServerContext) (i : nat) (p : thread ()) : Prop :=
  ∃ m a, _worker_pool q !! i = Some (Running (Some (Handle m a))) ∧
    exclusive p s (λ _ s1, known_of s1 = effects_of s0 (executed q ++ [Handle m a]) ∧ _x509_store s1 = _x509_store s0).

Definition seq_inv (s0 : P2PServerContext) (r : runtime) : Prop :=
  bystander (listening r) ∧ Forall bystander (others r) ∧ map_Forall (job_inv s0 (task_pool r) (server r)) (jobs r) ∧
  (jobs r = ∅ → known_of (server r) = effects_of s0 (executed (task_pool r))).

Lemma section_step_bystander s q p p' s' q' :
  section_step s q p p' s' q' → bystander p → same_known s s' ∧ bystander p'.
Proof.
  intros Hs Hp. destruct Hs as [p p' s' Hs|t p p' s' q' Hs _];
    destruct (safe_step _ _ _ _ _ _ _ _ _ _ (Hp s) I I Hs) as (Hg & _ & Hp'); (split; [done|]);
    intros s1; exact (safe_rely _ _ _ _ _ _ _ _ _ Hp' I).
Qed.

Lemma section_step_exclusive s q p p' s' q' (Q : () → P2PServerContext → Prop) :
  section_step s q p p' s' q' → exclusive p s Q → exclusive p' s' Q.
Proof.
  intros Hs Hp. destruct Hs as [p p' s' Hs|t p p' s' q' Hs _];
    by destruct (safe_step _ _ _ _ _ _ _ _ _ _ Hp (reflexivity s) I Hs) as (_ & _ & Hp').
Qed.

Lemma section_step_workers s q p p' s' q' :
  section_step s q p p' s' q' → _worker_pool q' = _worker_pool q ∧ executed q' = executed q.
Proof.
  destruct 1 as [|t p p' s' q' _ Hs]; [done|]. unfold submit in Hs. destruct (existsb _ _); [done|]. by injection Hs as <-.
Qed.

Lemma job_inv_same s0 q s q' s' i p :
  job_inv s0 q s i p → _worker_pool q' !! i = _worker_pool q !! i → executed q' = executed q → same_known s s' →
  job_inv s0 q' s' i p.
Proof.
  intros (m & a & Hw & Hp) Hw' He Hs. exists m, a. split; [by rewrite Hw'|]. rewrite He.
  by eapply safe_rely; [apply _|exact Hp|].
Qed.

(** Other threads leave the invariant alone. *)
Lemma seq_inv_bystander s0 s q l os js w p p' s' q' :
  seq_inv s0 (mkRuntime s q l os js w) → section_step s q p p' s' q' → bystander p →
  map_Forall (job_inv s0 q' s') js ∧ (js = ∅ → known_of s' = effects_of s0 (executed q')) ∧ bystander p'.
Proof.
  intros (_ & _ & Hj & Hk) Hs Hp. simpl in *. destruct (section_step_bystander _ _ _ _ _ _ Hs Hp) as [Hsame Hp'].
  destruct (section_step_workers _ _ _ _ _ _ Hs) as [Hw He]. split; [|split; [|done]].
  - eapply map_Forall_impl; [exact Hj|]. intros i p1 Hp1. eapply job_inv_same; [exact Hp1|by rewrite Hw|done|done].
  - intros Hjs. rewrite He, <- (Hk Hjs). apply Hsame.
Qed.

(** With one worker there is no job beside the worker's. *)
Lemma only_job s0 q s (js : gmap nat (thread ())) i :
  reachable 1 q → map_Forall (job_inv s0 q s) js → is_Some (_worker_pool q !! i) →
  ∀ j p, js !! j = Some p → j = i.
Proof.
  intros Hr%reachable_length Hj Hi j p Hp. destruct (Hj _ _ Hp) as (m & a & Hw & _).
  apply lookup_lt_Some in Hw. apply lookup_lt_is_Some_1 in Hi. rewrite Hr in *. lia.
Qed.

Lemma no_job s0 q s (js : gmap nat (thread ())) i :
  reachable 1 q → map_Forall (job_inv s0 q s) js → is_Some (_worker_pool q !! i) → js !! i = None → js = ∅.
Proof.
  intros Hr Hj Hi Hn. apply map_empty. intros j. apply eq_None_not_Some. intros [p Hp].
  rewrite <- (only_job _ _ _ _ _ Hr Hj Hi _ _ Hp) in Hn. congruence.
Qed.

Lemma seq_inv_job s0 s q l os js w i p p' s' q' :
  reachable 1 q → seq_inv s0 (mkRuntime s q l os js w) → js !! i = Some p → section_step s q p p' s' q' →
  seq_inv s0 (mkRuntime s' q' l os (<[i := p']> js) w).
Proof.
  intros Hr1 (Hl & Ho & Hj & Hk) Hp Hs. simpl in *. destruct (Hj _ _ Hp) as (m & a & Hw & Hx).
  destruct (section_step_workers _ _ _ _ _ _ Hs) as [Hw' He'].
  split; [done|]. split; [done|]. split; simpl; [|by intros ?%insert_non_empty].
  intros j p1 Hp1. assert (j = i) as ->.
  { destruct (decide (j = i)) as [|Hne]; [done|]. rewrite lookup_insert_ne in Hp1 by done.
    by apply (only_job _ _ _ _ i Hr1 Hj (mk_is_Some _ _ Hw) _ p1). }
  rewrite lookup_insert_eq in Hp1. injection Hp1 as <-. exists m, a. rewrite Hw', He'. split; [done|].
  by eapply section_step_exclusive.
Qed.

Lemma effects_of_snoc s0 ts t : effects_of s0 (ts ++ [t]) = task_effect (_x509_store s0) (effects_of s0 ts) t.
Proof. unfold effects_of. by rewrite foldl_app. Qed.

Lemma worker_executes i (q q' : pool (T := task)) t :
  _worker_pool q !! i = Some (Running (Some t)) → worker_step i q = Some q' → executed q' = executed q ++ [t].
Proof. intros Hw Hs. unfold worker_step in Hs. rewrite Hw in Hs. by injection Hs as <-. Qed.

Lemma seq_inv_move s0 r r' :
  rt_move r r' → reachable 1 (task_pool r) → _x509_store (server r) = _x509_store s0 → seq_inv s0 r → seq_inv s0 r'.
Proof.
  intros Hm Hr1 Hst Hr. pose proof Hr as (Hl & Ho & Hj & Hk).
  destruct Hm as [buf sin s q os js w|s q p os js w p' s' q' Hs|s q l os1 p os2 js w p' s' q' Hs|s q l os js w i p p' s' q' Hp Hs
    |s q l os js w q' Hs Hsub Hex|s q l os js w i m sin Hw Hn|s q l os js w i q' Hp Hs
    |s q l os js w i q' n port m ip b m' out Hw Hs Hs1]; simpl in *.
  - split; [apply bystander_read_callback|]. by split.
  - destruct (seq_inv_bystander _ _ _ _ _ _ _ _ _ _ _ Hr Hs Hl) as (? & ? & ?). by split_and!.
  - apply Forall_app in Ho as [Ho1 [Hp Ho2]%Forall_cons].
    destruct (seq_inv_bystander _ _ _ _ _ _ _ _ _ _ _ Hr Hs Hp) as (? & ? & ?). split_and!; try done.
    by apply Forall_app_2; [|apply Forall_cons].
  - by eapply seq_inv_job.
  - split; [done|]. split; [done|]. split; simpl; [|by rewrite Hex].
    eapply map_Forall_impl; [exact Hj|]. intros i p Hp. pose proof Hp as (m & a & Hw & _).
    eapply job_inv_same; [exact Hp| |done|done]. rewrite Hw. by eapply running_stays.
  - rewrite (no_job _ _ _ _ _ Hr1 Hj (mk_is_Some _ _ Hw) Hn) in *.
    split; [done|]. split; [done|]. split; simpl; [|by intros ?%insert_non_empty].
    apply map_Forall_insert_2; [|apply map_Forall_empty]. exists m, sin. split; [done|].
    rewrite effects_of_snoc, <- (Hk eq_refl), <- Hst. by apply runs_to_handle.
  - destruct (Hj _ _ Hp) as (m & a & Hw & Hx).
    rewrite (no_job _ _ _ (delete i js) i Hr1 (map_Forall_delete _ _ _ Hj) (mk_is_Some _ _ Hw) (lookup_delete_eq _ _)).
    split; [done|]. split; [done|]. split; [apply map_Forall_empty|]. intros _. simpl.
    rewrite (worker_executes _ _ _ _ Hw Hs). by apply Hx.
  - assert (js !! i = None) as Hn.
    { apply eq_None_not_Some. intros [p Hp]. destruct (Hj _ _ Hp) as (m1 & a & Hw1 & _). congruence. }
    rewrite (no_job _ _ _ _ _ Hr1 Hj (mk_is_Some _ _ Hw) Hn) in *.
    split; [done|]. split; [done|]. split; [apply map_Forall_empty|]. intros _. simpl.
    rewrite (worker_executes _ _ _ _ Hw Hs1), effects_of_snoc. exact (Hk eq_refl).
Qed.

(** C7: with one worker ([worker_thread] 1 in the configuration) the threads cannot be told
    from a server that handles its messages one by one: the pool never crashes, tasks are
    executed in the order in which they were queued, and between two of them the
    sessions and routes are exactly what the effects of the executed tasks make of the
    ones at the start, whatever libevent's thread and the senders of hellos do in
    between.  The effect of a hello is to keep or make the session of its sender and to
    keep the nearer of its route and the known one; that of any other message is on the
    digest of its sender's session only. *)
Theorem one_worker_sequential s0 senders r :
  server_inv s0 → _tasks s0 = [] →
  rt_runs 1 s0 ((λ h, send_hellos_thread package_pkg h.1 h.2) <$> senders) r →
  crashed (task_pool r) = false ∧
  (∃ pending, _tasks (server r) = executed (task_pool r) ++ pending) ∧
  (jobs r = ∅ → known_of (server r) = effects_of s0 (executed (task_pool r))).
Proof.
  intros Hi Ht Hr. set (os := _ <$> senders) in Hr.
  assert (∀ r, rt_runs 1 s0 os r → run_inv s0 r) as Hinv by (intros r'; by apply runs_inv, senders_keep).
  destruct (single_worker_fifo _ (runs_pool _ _ _ _ _ _ _ _ Hr)) as [Hc [pending Hp]].
  split; [done|]. split; [exists pending; by rewrite <- Hp, (proj1 (proj2 (proj2 (Hinv r Hr))))|].
  assert (seq_inv s0 r) as (_ & _ & _ & Hk); [|done].
  refine (proj2 (rtc_ind_r (λ r, rt_runs 1 s0 os r ∧ seq_inv s0 r) _ _ _ r Hr)).
  - split; [apply rtc_refl|]. split; [apply bystander_ret|]. split; [|split; [apply map_Forall_empty|done]].
    apply Forall_fmap, Forall_true. intros h. apply bystander_send_hellos.
  - intros r1 r2 Hr1 [Hc1 Hm] [_ Hs]. split; [eapply rtc_r; [exact Hr1|by split]|].
    eapply seq_inv_move; [exact Hm|by eapply runs_pool| |done]. apply grows_store, (Hinv r1 Hr1).
Qed.

(** ** Two workers *)

(** Sections of one thread, none of them a submission. *)
Definition sections {A} (x y : thread A * P2PServerContext) : Prop :=
  prog_step Server.submit x.1 x.2 = Some (Ok (None, y.1, y.2)).

Lemma sections_bind {A B} (p p' : thread A) (g : A → thread B) s s' :
  rtc sections (p, s) (p', s') → rtc sections (p ≫= g, s) (p' ≫= g, s').
Proof.
  intros Hs. refine (rtc_congruence (λ x : thread A * P2PServerContext, (x.1 ≫= g, x.2)) _ _ _ _ Hs).
  intros [p1 s1] [p2 s2]. unfold sections. destruct p1 as [a|f|C l f k|t k]; simpl; try done.
  destruct (f s1) as [[b s3]|]; [|done]. simpl. by intros [= <- <-].
Qed.

Lemma sections_critical {A B} l (f : P2PServerContext → res (A * P2PServerContext)) (g : A → thread B) a s s' y :
  f s = Ok (a, s') → rtc sections (g a, s') y → rtc sections (critical l f ≫= g, s) y.
Proof. intros Hf. apply rtc_l. unfold sections. simpl. by rewrite Hf. Qed.

Lemma sections_reads {A B} l (f : P2PServerContext → A) (g : A → thread B) s y :
  rtc sections (g (f s), s) y → rtc sections (reads l f ≫= g, s) y.
Proof. by apply sections_critical. Qed.

Lemma sections_steps (i : nat) p s p' s' q l os (js : gmap nat (thread ())) w :
  rtc sections (p, s) (p', s') → crashed q = false → js !! i = Some p →
  rtc rt_step (mkRuntime s q l os js w) (mkRuntime s' q l os (<[i := p']> js) w).
Proof.
  intros Hs Hc. remember (p, s) as x eqn:Ex. remember (p', s') as y eqn:Ey. revert p s js Ex.
  induction Hs as [x|x [p1 s1] y Hx _ IH]; intros p s js Ex Hp.
  - subst. injection Ex as <- <-. by rewrite insert_id.
  - subst. simpl in Hx. etrans; [apply rtc_once|].
    + split; [done|]. by eapply move_job; [exact Hp|apply step_section; exact Hx].
    + rewrite <- (insert_insert_eq js i p' p1). apply (IH eq_refl _ _ _ eq_refl), lookup_insert_eq.
Qed.

(** What is left of the handler when it has found no route to the sender. *)
Definition finish (message : ProtoHelloMessage) (ip : IPAddress) (t : Z) : thread () :=
  _ ← (_ ← writes route_insert (λ s, set_routes (add_new_route (sender_id message) (Some ip) t (_routing_map s)).2 s); mret true);
  mret ().

Lemma ensure_session_sections message p s :
  introduce (_x509_store s) message (_peer_pool s) = Some p →
  rtc sections (ensure_session_thread message, s) (mret true, set_peers p s).
Proof.
  unfold introduce, ensure_session_thread. intros Hp. apply sections_reads.
  destruct (get_instance _ (_peer_pool s)) as [session|].
  - injection Hp as <-. replace (set_peers (_peer_pool s) s) with s by by destruct s. apply rtc_refl.
  - apply sections_reads. destruct (new_session _ _).1 as [session|]; [|done]. injection Hp as <-.
    eapply sections_critical; [done|]. apply rtc_refl.
Qed.

Lemma hello_sections m message prev_port t sa ip p s :
  let proto_msg := (ParseFromString (signed_payload m)).2 in
  packet_type proto_msg = HELLO → hello_args proto_msg = Some (message, prev_port, t) →
  introduce (_x509_store s) message (_peer_pool s) = Some p →
  IPAddress_of_sockaddr inet_ntop sa prev_port = Ok ip → _routing_map s !! sender_id message = None →
  rtc sections (handle_thread package_pkg inet_ntop hello_args m (LiveAddr sa), s) (finish message ip t, set_peers p s).
Proof.
  intros proto_msg Hhello Hargs Hintro Hip Hroute. unfold handle_thread. rewrite bool_decide_true by done.
  fold proto_msg. rewrite Hargs. unfold finish. apply sections_bind. unfold internal_handle_thread.
  etrans; [apply sections_bind, ensure_session_sections, Hintro|]. rewrite ret_bind.
  rewrite (lift_bind (load_sockaddr (LiveAddr sa)) sa) by done. rewrite (lift_bind _ ip) by done.
  do 2 apply sections_reads. unfold can_delivered. simpl. rewrite Hroute. apply rtc_refl.
Qed.

Lemma finish_sections message ip t s :
  rtc sections (finish message ip t, s)
    (Ret (), set_routes (add_new_route (sender_id message) (Some ip) t (_routing_map s)).2 s).
Proof.
  by apply rtc_once.
Qed.
(** A message that says hello, from where, and what its handler is called with. *)
Definition says_hello (m : SignedProtoMessage) (sa : sockaddr_in) (message : ProtoHelloMessage) (ip : IPAddress) (t : Z) : Prop :=
  let proto_msg := (ParseFromString (signed_payload m)).2 in
  packet_type proto_msg = HELLO ∧ ∃ prev_port, hello_args proto_msg = Some (message, prev_port, t) ∧
    IPAddress_of_sockaddr inet_ntop sa prev_port = Ok ip.

Lemma says_hello_sections m sa message ip t p s :
  says_hello m sa message ip t → introduce (_x509_store s) message (_peer_pool s) = Some p →
  _routing_map s !! sender_id message = None →
  rtc sections (handle_thread package_pkg inet_ntop hello_args m (LiveAddr sa), s) (finish message ip t, set_peers p s).
Proof. intros (Hh & prev_port & Ha & Hip) Hi Hr. by eapply hello_sections. Qed.

Lemma says_hello_effect store m sa message ip t v p :
  says_hello m sa message ip t → introduce store message v.1 = Some p →
  task_effect store v (Handle m (LiveAddr sa)) = (p, offer (sender_id message) (mkRoute (Some ip) (u32 t)) v.2).
Proof.
  intros (Hh & prev_port & Ha & Hip) Hi. unfold task_effect. rewrite bool_decide_true by done. rewrite Ha.
  unfold hello_effect. rewrite Hi. simpl. by rewrite Hip.
Qed.

Lemma introduce_new store message p session :
  p !! sender_id message = None → (new_session store (x509_certificate message)).1 = Some session →
  introduce store message p = Some (<[sender_id message := Some session]> p).
Proof. intros Hp Hs. unfold introduce, get_instance, add_instance. rewrite Hp. simpl. by rewrite Hs. Qed.

Lemma introduce_known store message p session :
  introduce store message (<[sender_id message := Some session]> p) = Some (<[sender_id message := Some session]> p).
Proof. unfold introduce. by rewrite get_inserted. Qed.

Lemma offer_new d r m : m !! d = None → offer d r m = <[d := r]> m.
Proof. intros Hd. unfold offer. by rewrite Hd. Qed.

Lemma offer_inserted d r r0 m : offer d r (<[d := r0]> m) = <[d := if bool_decide (ttl r < ttl r0) then r else r0]> m.
Proof. unfold offer. rewrite lookup_insert_eq. case_bool_decide; [apply insert_insert_eq|done]. Qed.

(** Two hellos one after the other leave the nearer route, in either order. *)
Lemma two_hellos_sequential store m1 a1 message1 ip1 t1 m2 a2 message2 ip2 t2 session v :
  says_hello m1 a1 message1 ip1 t1 → says_hello m2 a2 message2 ip2 t2 → sender_id message2 = sender_id message1 →
  v.1 !! sender_id message1 = None → v.2 !! sender_id message1 = None →
  (new_session store (x509_certificate message1)).1 = Some session →
  (foldl (task_effect store) v [Handle m1 (LiveAddr a1); Handle m2 (LiveAddr a2)]).2 !! sender_id message1 =
    Some (if bool_decide (u32 t2 < u32 t1) then mkRoute (Some ip2) (u32 t2) else mkRoute (Some ip1) (u32 t1)).
Proof.
  intros H1' H2' Hid Hp Hm Hs. cbn [foldl].
  rewrite (says_hello_effect _ _ _ _ _ _ _ _ H1' (introduce_new _ _ _ _ Hp Hs)), offer_new by done.
  rewrite (says_hello_effect _ _ _ _ _ _ _ (<[sender_id message1 := Some session]> v.1) H2')
    by (simpl; rewrite <- Hid; apply introduce_known).
  simpl. by rewrite Hid, offer_inserted, lookup_insert_eq.
Qed.

Lemma sections_fst (i j : nat) p s p' s' b q l os (js : gmap nat (thread ())) w :
  i ≠ j → crashed q = false → rtc sections (p, s) (p', s') →
  rtc rt_step (mkRuntime s q l os (<[j := b]> (<[i := p]> js)) w) (mkRuntime s' q l os (<[j := b]> (<[i := p']> js)) w).
Proof.
  intros Hij Hc Hs.
  replace (<[j := b]> (<[i := p']> js)) with (<[i := p']> (<[j := b]> (<[i := p]> js)))
    by by rewrite (insert_insert_ne _ j i b p), insert_insert_eq, insert_insert_ne by done.
  apply (sections_steps _ p); [done|done|]. rewrite lookup_insert_ne by done. apply lookup_insert_eq.
Qed.

Lemma sections_snd (i j : nat) p s p' s' a q l os (js : gmap nat (thread ())) w :
  crashed q = false → rtc sections (p, s) (p', s') →
  rtc rt_step (mkRuntime s q l os (<[j := p]> (<[i := a]> js)) w) (mkRuntime s' q l os (<[j := p']> (<[i := a]> js)) w).
Proof.
  intros Hc Hs. replace (<[j := p']> (<[i := a]> js)) with (<[j := p']> (<[j := p]> (<[i := a]> js))) by apply insert_insert_eq.
  apply (sections_steps _ p); [done|done|]. apply lookup_insert_eq.
Qed.

(** Two handling tasks that two workers take, each cut in two. *)
Lemma two_jobs s s1 s2 s3 s4 q l os (js : gmap nat (thread ())) w i j m1 a1 m2 a2 p1 p2 :
  crashed q = false → i ≠ j → js !! i = None → js !! j = None →
  _worker_pool q !! i = Some (Running (Some (Handle m1 a1))) → _worker_pool q !! j = Some (Running (Some (Handle m2 a2))) →
  rtc sections (handle_thread package_pkg inet_ntop hello_args m1 a1, s) (p1, s1) →
  rtc sections (handle_thread package_pkg inet_ntop hello_args m2 a2, s1) (p2, s2) →
  rtc sections (p1, s2) (Ret (), s3) → rtc sections (p2, s3) (Ret (), s4) →
  ∃ q', rtc rt_step (mkRuntime s q l os js w) (mkRuntime s4 q' l os js w) ∧
    executed q' = executed q ++ [Handle m1 a1; Handle m2 a2].
Proof.
  intros Hc Hij Hi Hj Hwi Hwj Hx1 Hx2 Hf1 Hf2.
  destruct (worker_step i q) as [q1|] eqn:E1; [|by unfold worker_step in E1; rewrite Hwi in E1].
  pose proof (worker_executes _ _ _ _ Hwi E1) as He1.
  assert (_worker_pool q1 !! j = Some (Running (Some (Handle m2 a2))) ∧ crashed q1 = false) as [Hwj1 Hc1].
  { unfold worker_step in E1. rewrite Hwi in E1. injection E1 as <-. simpl. by rewrite list_lookup_insert_ne. }
  destruct (worker_step j q1) as [q2|] eqn:E2; [|by unfold worker_step in E2; rewrite Hwj1 in E2].
  pose proof (worker_executes _ _ _ _ Hwj1 E2) as He2.
  exists q2. split; [|by rewrite He2, He1, <- app_assoc].
  set (t1 := handle_thread package_pkg inet_ntop hello_args m1 a1). set (t2 := handle_thread package_pkg inet_ntop hello_args m2 a2).
  trans (mkRuntime s q l os (<[j := t2]> (<[i := t1]> js)) w).
  { eapply rtc_l; [split; [done|by apply (move_handle _ _ _ _ s q l os js w i m1 a1)]|].
    apply rtc_once. split; [done|]. apply (move_handle _ _ _ _ s q l os (<[i := t1]> js) w j m2 a2); [done|].
    by rewrite lookup_insert_ne. }
  etrans; [by apply (sections_fst _ _ _ _ p1 s1)|]. etrans; [by apply (sections_snd _ _ _ _ p2 s2)|].
  etrans; [by apply (sections_fst _ _ _ _ (Ret ()) s3)|]. etrans; [by apply (sections_snd _ _ _ _ (Ret ()) s4)|].
  eapply rtc_l; [split; [done|eapply (move_handled _ _ _ _ _ _ _ _ _ _ i); [|exact E1]]|].
  { rewrite lookup_insert_ne by done. apply lookup_insert_eq. }
  eapply rtc_l; [split; [done|eapply (move_handled _ _ _ _ _ _ _ _ _ _ j); [|exact E2]]|].
  { rewrite lookup_delete_ne by done. apply lookup_insert_eq. }
  rewrite delete_insert_ne, (delete_insert_id js i), delete_insert_id by done. apply rtc_refl.
Qed.

End sequential.

(** ** Concrete runs *)

#[local] Existing Instance signed_codec.
#[local] Existing Instance signed_codec_laws.
#[local] Existing Instance message_codec.
#[local] Existing Instance toy_any_codec.
#[local] Existing Instance ToySSL.

Definition job_count (r : @runtime ToySSL) : nat := size (jobs r).

Lemma one_worker_sequential_witness :
  ∃ r, toy_runs 1 (toy_server $"b" ∅) ((λ h, send_hellos_thread toy_package h.1 h.2) <$> toy_senders) r ∧
    length (executed (task_pool r)) = 1%nat ∧
    known_of (server r) = effects_of toy_ntop toy_args (toy_server $"b" ∅) (executed (task_pool r)).
Proof.
  destruct (some_inv (toy_picks toy_schedule (toy_start 1))) as [r Hr]; [vm_compute; reflexivity|].
  assert (toy_runs 1 (toy_server $"b" ∅) ((λ h, send_hellos_thread toy_package h.1 h.2) <$> toy_senders) r) as Hruns
    by exact (do_picks_steps _ _ _ _ _ _ _ Hr).
  exists r. split; [exact Hruns|].
  destruct (one_worker_sequential toy_package toy_ntop map_to_list toy_args (λ m, reflexivity _) _ toy_senders r
    toy_server_inv eq_refl Hruns) as (_ & _ & Hk).
  split; [|apply Hk].
  - exact (project (λ r : @runtime ToySSL, length (executed (task_pool r))) _ _ 1%nat Hr ltac:(vm_compute; reflexivity)).
  - apply map_size_empty_inv. exact (project job_count _ _ 0%nat Hr ltac:(vm_compute; reflexivity)).
Defined.

(** Two hellos of a device, at distance 9 and then at distance 4, each taken by a worker. *)
Definition race_schedule : list pick :=
  [PReceive (frame (toy_hello_msg 9 $"s")) (LiveAddr toy_from); PListen; PListen; PListen;
   PReceive (frame (toy_hello_msg 4 $"t")) (LiveAddr toy_from); PListen; PListen; PListen] ++
  replicate 5 (PWorker 0) ++ replicate 5 (PWorker 1).

Definition has_job (i : nat) (r : @runtime ToySSL) : bool := match jobs r !! i with Some _ => true | None => false end.
Definition worker_of (i : nat) (r : @runtime ToySSL) : option worker := _worker_pool (task_pool r) !! i.
Definition peer_of (id : str) (r : @runtime ToySSL) : option (option (@PeerSession ToySSL)) := _peer_pool (server r) !! id.
Definition route_of (id : str) (r : @runtime ToySSL) : option (route (ADDR := IPAddress)) := _routing_map (server r) !! id.

