(* ===== verification/Tests.v ===== *)
(** The unit tests of the repository ([interface/utils/test], [utils/test],
    [management_api/utils/test]) run on the model: which of them it passes, and the two
    tests of the parser it can never pass.  (They are not disabled: googletest wants
    [DISABLED_] in front of the name.) *)
From S2P Require Import Prelude CxxString Status CommandParser IPAddress Base64.
Local Open Scope Z_scope.

(** ** Tests of the command parser *)

(** What a test types, and what it asserts of the parsed command after [ret.ok()]. *)
Record parser_test := mkParserTest { typed : str; expected : ParsedCommand }.

(** [None]: the test is still in [parse_command]. *)
Definition parser_passes (fuel : nat) (t : parser_test) : option bool :=
  match parse_command fuel (typed t) ([], []) with
  | Some (Ok (ret, command)) => Some (ok ret && bool_decide (command = expected t))
  | Some (Raise _) => Some false
  | None => None
  end.

Definition no_argument := mkParserTest $"command" ($"command", []).
Definition single_argument := mkParserTest $"command argument" ($"command", [$"argument"]).
Definition multiple_argument :=
  mkParserTest $"command argument1 argument2 argument3" ($"command", [$"argument1"; $"argument2"; $"argument3"]).
Definition login_command :=
  mkParserTest $"USER LOGIN admin@example.com admin" ($"USER", [$"LOGIN"; $"admin@example.com"; $"admin"]).
Definition spaces_front := mkParserTest $"    command argument" ($"command", [$"argument"]).
Definition spaces_front_and_end := mkParserTest $"    command argument    " ($"command", [$"argument"]).

Definition quote (s : str) : str := [DQ] ++ s ++ [DQ].
Definition single_quoter_argument :=
  mkParserTest ($"command " ++ quote $"quoter argument") ($"command", [$"quoter argument"]).
(** The test asserts three arguments of a line that has two. *)
Definition multiple_quoter_argument :=
  mkParserTest ($"command " ++ quote $"quoter argument1" ++ $" " ++ quote $"quoter argument2")
    ($"command", [$"quoter argument1"; $"quoter argument2"; $"quoter argument3"]).

Lemma parser_passes_mono fuel fuel' t b :
  (fuel <= fuel')%nat → parser_passes fuel t = Some b → parser_passes fuel' t = Some b.
Proof.
  unfold parser_passes. intros Hf. destruct (parse_command fuel _ _) as [r|] eqn:E; [|done].
  by rewrite (parse_command_mono _ _ _ _ _ E Hf).
Qed.

(** The plain lines pass, the three words among them whose comment says there is a bug. *)
Lemma plain_lines_pass fuel t :
  (50 <= fuel)%nat →
  t ∈ [no_argument; single_argument; multiple_argument; login_command; spaces_front; spaces_front_and_end] →
  parser_passes fuel t = Some true.
Proof.
  intros Hf Ht. eapply parser_passes_mono; [done|].
  repeat (apply elem_of_cons in Ht as [->|Ht]; [vm_compute; reflexivity|]). by apply not_elem_of_nil in Ht.
Qed.

(** The quoted ones hang, so the suite does not end. *)
Lemma quoted_lines_hang fuel t :
  t ∈ [single_quoter_argument; multiple_quoter_argument] → parser_passes fuel t = None.
Proof.
  intros Ht. unfold parser_passes. enough (parse_spec (typed t) ([], []) = None) as Hs.
  { rewrite (proj2 (parse_command_none_iff (typed t) ([], []))); done. }
  repeat (apply elem_of_cons in Ht as [->|Ht]; [vm_compute; reflexivity|]). by apply not_elem_of_nil in Ht.
Qed.

(** ** Tests of addresses *)

(** [ASSERT_TRUE(ip.valid())], the port and what [operator<<] writes. *)
Definition ip_addr_normal (text : str) (number : Z) : res bool :=
  ip ← IPAddress_of_string text;
  Ok (valid ip && bool_decide (port ip = number) && bool_decide (IPAddress_print ip = text)).

Definition ip_addr_not_valid (text : str) : res bool := ip ← IPAddress_of_string text; Ok (negb (valid ip)).

Definition not_valid_addresses : list str :=
  [$"2990.100.100.1:1234"; $"1.00.100.1.1:1234"; $"1.1.9999999999999.1:1234"; $"1.1.100.1:"].
Definition bad_inputs : list str := [$"not valid string"; $""; $"1avc.123.das.sd1:asd"].

Lemma ip_addr_normal_passes : ip_addr_normal $"100.100.100.1:1234" 1234 = Ok true.
Proof. vm_compute. reflexivity. Qed.

Lemma ip_addr_invalid_pass text : text ∈ not_valid_addresses ++ bad_inputs → ip_addr_not_valid text = Ok true.
Proof.
  intros Ht. repeat (apply elem_of_cons in Ht as [->|Ht]; [vm_compute; reflexivity|]). by apply not_elem_of_nil in Ht.
Qed.

(** ** Tests of Base64 *)

(** The plain text and its encoding, in both directions. *)
Definition base64_tests : list (str * str) :=
  [($"Hello World!", $"SGVsbG8gV29ybGQh");
   ($"This is a really long string that will be encoded",
    $"VGhpcyBpcyBhIHJlYWxseSBsb25nIHN0cmluZyB0aGF0IHdpbGwgYmUgZW5jb2RlZA==")].

Definition base64_passes (t : str * str) : bool :=
  bool_decide (encode t.1 = Ok t.2) && bool_decide (decode t.2 = t.1).

Lemma base64_tests_pass : forallb base64_passes base64_tests = true.
Proof. vm_compute. reflexivity. Qed.
